(* ===== verification/_CoqProject ===== *)
-Q . S2P
Prelude.v
GoTime.v
ConfigTypes.v
Limits.v
Affiliate.v
GoChan.v
GoErrors.v
GoSort.v
Labels.v
Cluster.v
ClusterSubs.v
ClusterFacts.v
ClusterProps.v
Replication.v
Interleave.v
InterleaveFacts.v
InterleaveProps.v
XMap.v
State.v
StateFacts.v
GoStrings.v
Grpc.v
Protobuf.v
Validation.v
NetIP.v
Messages.v
Server.v
Bounds.v
ServerFacts.v
ServerSafety.v
ServerProps.v
Watch.v
WatchProps.v
HelloProps.v
Interceptors.v
FileSystem.v
Snapshot.v
SnapshotProps.v
Service.v
Base64.v
Json.v
Utf8.v
Metrics.v
RunGroup.v
Actors.v
ActorsFacts.v
ActorsProps.v
Exit.v
Config.v
WebServer.v
Payload.v
Hub.v
WatchManager.v
WatchManagerProps.v
WatcherProps.v
Endpoints.v
Sessions.v
Browser.v
