(* ===== verification/Prelude.v ===== *)
(** * Talos discovery: a verification of the discovery service

    The program is a gRPC service through which the nodes of a cluster find one
    another: each node (an affiliate) stores some encrypted data and its
    endpoints under a cluster id, for a limited time, and lists or watches the
    affiliates of its cluster.  A web interface shows clusters in a browser.
    This library translates the Go code under [src/] into Rocq definitions and
    proves what makes it correct.

    ** Parts of the program, and the files that model them

    - [internal/state/affiliate.go], [limits.go]: an affiliate, its endpoints
      and their merge.  [Limits.v], [Affiliate.v].
    - [internal/state/cluster.go], [cluster_subscribe.go]: a cluster's table of
      affiliates under a mutex, and its watchers, each with a buffered channel
      of 64 events.  [Cluster.v] has every operation, run as one step;
      [ClusterSubs.v] and [ClusterFacts.v] the invariant and the pure effect of
      each; [ClusterProps.v] their specifications; [Replication.v] the abstract
      specification (a map from ids to affiliates that watchers replicate).
      [Interleave.v] has the same operations at the granularity at which
      goroutines interleave, [InterleaveFacts.v] their invariant and
      [InterleaveProps.v] what survives overlapping and what does not.
    - [internal/state/state.go]: clusters by id, created on demand and dropped
      by [Cleanup].  [XMap.v] (the interface of [xsync.Map]), [State.v],
      [StateFacts.v].
    - [internal/state/snapshot.go]: the file the state is saved to and loaded
      from.  [FileSystem.v] (the atomic writer, over a file system where every
      call may fail and whose directory is on the disk only as far as it was
      synced), [Protobuf.v] (interfaces of the protobuf library),
      [Snapshot.v], [SnapshotProps.v].
    - [internal/server/validation.go], [cluster_server.go]: the requests.
      [GoStrings.v] ([strings.TrimSpace] and others), [NetIP.v] ([netip]'s
      parsers), [Grpc.v] (errors), [Messages.v] (the messages of
      [api/v1alpha1/server/pb/cluster.pb.go]), [Validation.v], [Server.v];
      [Bounds.v], [ServerFacts.v], [ServerSafety.v], [ServerProps.v] and
      [HelloProps.v] prove; [Watch.v] has the streaming handler as a step
      relation over its [select], and [WatchProps.v] its properties.
    - [internal/server/discovery_server.go]: the gRPC server and its
      interceptors.  [Interceptors.v].
    - [internal/server/server.go]: loading at start-up, and the clean-up and
      snapshot actors beside the requests.  [Service.v].
    - [internal/web/]: [Hub.v] (the fan-out to browsers), [WatchManager.v] (one
      watcher goroutine per watched cluster, counted by reference; its back-off
      and its loop), [WatchManagerProps.v], [WatcherProps.v]; [Base64.v],
      [Json.v], [Payload.v] (what is sent to a browser, and a parser of it);
      [Endpoints.v] (the HTTP handlers); [Sessions.v] (any number of event
      stream handlers at once); [Browser.v] puts the whole path together, from
      the cluster to what a browser shows.  [WebServer.v] has the construction
      of the server: its options, gRPC client, metrics, routes and embedded
      pages ([web_server.go], [discovery_client.go], [server.go],
      [assets/embed.go], and the web part of [internal/server/server.go]).
    - [internal/runutil/server_actors.go] and what [StartDiscoveryServer] and
      [StartDiscoveryWeb] give to [oklog/run]: [RunGroup.v] (the interface of
      that library), [Actors.v] (the process as a step relation),
      [ActorsFacts.v] (its invariant), [ActorsProps.v]; [Exit.v] (the errors of
      the commands, and the exit status).
    - [internal/metrics/]: [Labels.v] ([createLabels]), [Metrics.v] (the
      middleware, gin's handler around it, the handler that exposes metrics),
      over [GoSort.v] ([sort.Slice]) and [Utf8.v] ([strings.ToValidUTF8]).
    - [internal/config/], [cmd/discovery-service/main.go]: [ConfigTypes.v] (the
      records), [Config.v] (the flags of both commands and where their values
      come from).
    - [Prelude.v], [GoTime.v], [GoChan.v], [GoErrors.v]: results, machine
      integers, the order of maps, [time.Time] with its monotonic reading,
      channels and panics, wrapped errors.

    Requests reach [Server.v], which validates them and calls [State.v] for the
    cluster and [Cluster.v] for the operation; the operation changes the table
    and sends an event to the channels of the watchers; [Watch.v] turns the
    snapshot and the events into a stream of responses; [WatchManager.v] is a
    client of that stream and passes it to [Hub.v], and [Endpoints.v] from
    there to browsers.  [Service.v] runs [Cleanup] and [SaveSnapshot] beside
    all of this.  [Actors.v] runs the servers, these two loops and the wait for
    a signal as the actors of one group, with the configuration that [Config.v]
    finds.

    ** What the theorems show

    - Replication.  Along any sequence of operations a watcher that was not
      dropped has, with its queue applied, the cluster's entry for every id
      that it has not missed, and so the cluster's table if it has missed none
      ([Replication.v]).  Ids are missed because two kinds of updates change
      the table and send no event: an update that fails with too many endpoints
      after storing part of them, and one that creates an affiliate with neither
      data nor endpoints; the next event about the id makes up for it.  Each
      watcher's missed ids are a ghost part of the configuration.  The same
      holds for the client of a [Watch] stream ([WatchProps.v]) and, event for
      event, for the watcher goroutine ([WatcherProps.v]); and, along the whole
      path, for a browser ([Browser.v]).
    - Safety.  No sequence of operations panics, and all that is stored stays
      within the limits of number, size and lifetime ([ClusterProps.v],
      [ServerSafety.v]).  When operations overlap, the limits hold, nothing
      deadlocks and at rest the cluster is as well formed as before; one panic
      is possible, and is shown to be ([InterleaveProps.v]).
    - Requests.  Each handler accepts exactly the valid requests, and is the
      operation on the table it promises; update then list, delete then list;
      every branch of each operation ([ServerProps.v], [ClusterProps.v],
      [StateFacts.v], [HelloProps.v]).
    - Persistence.  A snapshot round trip; atomicity of the file writer under
      every combination of faults, for readers and for a loss of power; what a restart shows after any run, or after
      a crash of the process at any moment ([SnapshotProps.v], [FileSystem.v], [Service.v]).
    - Equivalence.  The endpoint merge against a definition without a loop
      ([Affiliate.v]).
    - The web interface.  One watcher per watched cluster, exact gauges, no
      panic, for any number of browsers and with the single sends of broadcasts
      interleaved; bounds of the back-off; the payload
      parses back; the list page is the table ([WatchManagerProps.v],
      [Sessions.v], [WatcherProps.v], [Payload.v], [Endpoints.v]).
    - The process.  Once an actor has returned or a signal has come, every run
      of the web command winds down in a bounded number of steps and returns
      with all listeners closed; so does the service, unless the interrupt
      comes before the gRPC listener is recorded, which is shown to happen
      ([ActorsProps.v]); if nothing fails, the exit status is 0, and what a
      status of 0 means is stated exactly ([Exit.v]).  The web server's
      constructor returns a server whose client, metrics and routes are
      complete, or fails and leaves no connection open; when each command has a
      web server ([WebServer.v]).
    - Configuration and metrics.  A flag has the value of the command line,
      else of the environment, else of the file, else its default ([Config.v]);
      labels and their values correspond, and one request is counted and timed
      once, with its labels and the seconds it took ([Labels.v], [Metrics.v]).
    - Interceptors.  Context errors, bare or wrapped, come out as status errors
      of their codes, panics as errors, and each call is logged at the level of
      the code that its caller gets ([Interceptors.v]).
    - Behaviour worth knowing: updates that watchers never learn of, partial
      effects of failed updates, an update lost to a concurrent clean-up, a
      stream that ends without its error, events in the wrong order, a send on
      a closed channel, browsers that keep deleted affiliates, an interrupt
      that is lost, requests counted twice by gin's wrapper.  Each is a theorem
      that says when it happens.

    ** How the code is modelled

    - A pointer is an index into a store (clusters, subscriptions, hubs,
      channels), so that two holders see the same object.  A nil dereference, a
      send on or close of a closed channel and [rand.Int63n(0)] are values of
      [Panic].
    - A function that reads the clock takes the reading; one call takes one
      reading, also where the code reads twice in a row.  A [Duration] is an
      [int64] in nanoseconds; [time.Time.Add] drops a monotonic reading that
      would overflow, and [UnixNano] wraps.
    - The order in which a map is ranged over is a [MapOrder], any permutation,
      chosen anew by each loop; what does not depend on it is proved not to.
    - [[]byte] is [list byte]; nil and empty slices are one value, and no code
      modelled here tells them apart.
    - Subscription ids are [uint64]; theorems ask for fewer than 2^64
      subscriptions, one per operation at most.
    - Third-party code is an argument: classes with laws, each with an
      instance, for [xsync.Map], [durationpb], [timestamppb], the protobuf
      codec, [status], [oklog/run], pflag, viper, gin's context and the
      Prometheus registries and vectors; functions for the logging, metrics and
      recovery interceptors.
    - The process of [Actors.v] has no fuel.  [steps_left] falls with every
      step of the process and no step of the world around it (a tick, a signal,
      a server that fails) raises it; what holds when it cannot step is a
      theorem of its own.
    - A [float64] is a [spec_float] of the Standard Library.
    - In [Cluster.v], [State.v] and [Server.v] an operation is one step.
      [InterleaveProps.v] shows that such a step is a run of the finer model,
      and that the finer model has other runs too.  [Cleanup] and
      [SaveSnapshot] visit clusters one at a time; here each is one step.
    - Two loops take fuel.  The parser of JSON arrays takes the length of the
      text, and each element consumes at least one byte (its round trip shows
      that this is enough); the loop of [netip]'s IPv6 parser takes its own
      bound of eight groups.

    - [Browser.v], for one browser alone, has a broadcast in one step;
      [Sessions.v] has its copy of the clients and each send as steps of their
      own.  [Subscribe] and [Unsubscribe] of the watch manager are one step:
      they hold its mutex throughout.
    - A file is not written again after its directory was synced, so what a loss
      of power leaves under a name is one of two directory entries, with its
      content if that was synced.  The restarts of [Service.v] are after crashes
      of the process, which lose nothing that was written.

    ** What is not modelled

    [Send] on a stream that blocks: it returns, with or without an error, so
    that the bounds on [Watch] are on its own steps.  A histogram's refusal of
    a label called "le" is a side condition.
    The connections inside a gRPC or HTTP server, and TLS: a server is running
    on a listener or it is not, and a TLS configuration is the fields that
    flags set.  The objects of gin, net/http and grpc, and what the health and
    reflection services answer.  cobra's parsing of arguments, the build
    version.  Generated stubs
    (the messages are records).  Log messages.  The root context of the watch
    manager, which ends with the process.  These are calls into libraries and
    the system, and leave the state that is modelled alone. *)

From stdpp Require Export base tactics list list_numbers numbers gmap sets strings fin_maps.
From Stdlib Require Export ZArith Lia.
From Stdlib Require Import Strings.Byte.

(** ** Notations *)

Declare Scope go_scope.
Delimit Scope go_scope with go.
Open Scope Z_scope.

(** A Go [[]byte] (nil and empty slices are not told apart by any code
    modelled here: [len], [bytes.Equal], [append] and base64 agree on them). *)
Abbreviation bytes := (list Byte.byte).

#[export] Instance byte_eq_decision : EqDecision Byte.byte := Byte.byte_eq_dec.

(** The bytes of a string literal, for concrete inputs. *)
Definition bs (s : String.string) : bytes := String.list_byte_of_string s.

(** ** Results: a Go pair [(value, error)] of which exactly one is meaningful *)

Inductive result (E A : Type) : Type :=
| Ok (a : A)
| Err (e : E).
Arguments Ok {E A} a.
Arguments Err {E A} e.

Definition rbind {E A B : Type} (m : result E A) (f : A → result E B) : result E B :=
  match m with
  | Ok a => f a
  | Err e => Err e
  end.

Notation "x <-? m ;; k" := (rbind m (λ x, k))
  (at level 100, m at next level, right associativity) : go_scope.
Open Scope go_scope.

Definition is_ok {E A : Type} (r : result E A) : bool :=
  match r with Ok _ => true | Err _ => false end.

#[export] Instance result_eq_dec `{EqDecision E, EqDecision A} : EqDecision (result E A).
Proof. solve_decision. Defined.

(** A left fold whose body can fail, and stops at the first failure. *)
Fixpoint rfold {E A B : Type} (f : B → A → result E B) (b : B) (l : list A) : result E B :=
  match l with
  | [] => Ok b
  | x :: l' => b' <-? f b x ;; rfold f b' l'
  end.

(** ** Machine integers *)

Definition two63 : Z := 2 ^ 63.
Definition two64 : Z := 2 ^ 64.

(** Reduction to a signed 64-bit integer (Go's [int64] wrap-around). *)
Definition wrap64 (z : Z) : Z := (z + two63) mod two64 - two63.

(** Reduction to [uint64]. *)
Definition wrapu64 (z : Z) : Z := z mod two64.

(** ** Ranging over a Go map: an arbitrary order, chosen anew by each loop *)

Record MapOrder (K : Type) `{Countable K} := {
  range : ∀ {V : Type}, gmap K V → list (K * V);
  range_perm : ∀ (V : Type) (m : gmap K V), range m ≡ₚ map_to_list m;
}.
Arguments range {K _ _} _ {V} _.
Arguments range_perm {K _ _} _ {V} _.

(** Two concrete orders, so that the definitions evaluate. *)
Definition order_fwd (K : Type) `{Countable K} : MapOrder K :=
  {| range V m := map_to_list m; range_perm V m := reflexivity _ |}.

Lemma rev_map_to_list_perm {K V : Type} `{Countable K} (m : gmap K V) :
  reverse (map_to_list m) ≡ₚ map_to_list m.
Proof. apply reverse_Permutation. Qed.

Definition order_bwd (K : Type) `{Countable K} : MapOrder K :=
  {| range V m := reverse (map_to_list m); range_perm V m := rev_map_to_list_perm m |}.

(** ** Generic lemmas *)

Create HintDb go discriminated.
Create Rewrite HintDb go.

Lemma wrap64_id z : - two63 ≤ z < two63 → wrap64 z = z.
Proof. unfold wrap64, two63, two64. intros ?. rewrite Z.mod_small; lia. Qed.

Lemma wrap64_range z : - two63 ≤ wrap64 z < two63.
Proof.
  unfold wrap64, two63, two64.
  pose proof (Z.mod_pos_bound (z + 2 ^ 63) (2 ^ 64) eq_refl). lia.
Qed.

Lemma wrapu64_range z : 0 ≤ wrapu64 z < two64.
Proof. unfold wrapu64, two64. by apply Z.mod_pos_bound. Qed.

Lemma wrapu64_id z : 0 ≤ z < two64 → wrapu64 z = z.
Proof. unfold wrapu64. apply Z.mod_small. Qed.

Section range.
Context {K V : Type} `{Countable K}.
Implicit Types (m : gmap K V) (ρ : MapOrder K).

Lemma elem_of_range ρ m k v : (k, v) ∈ range ρ m ↔ m !! k = Some v.
Proof. by rewrite range_perm, elem_of_map_to_list. Qed.

Lemma NoDup_range_fst ρ m : NoDup (range ρ m).*1.
Proof. rewrite range_perm. apply NoDup_fst_map_to_list. Qed.

Lemma length_range ρ m : length (range ρ m) = size m.
Proof. rewrite range_perm. apply length_map_to_list. Qed.

Lemma range_nil ρ m : range ρ m = [] ↔ m = ∅.
Proof.
  split.
  - intros E. apply map_to_list_empty_iff. apply Permutation_nil_r.
    by rewrite <- E, range_perm.
  - intros ->. apply Permutation_nil_r. rewrite range_perm.
    by rewrite map_to_list_empty.
Qed.
Lemma list_to_map_range ρ m : list_to_map (range ρ m) = m.
Proof.
  rewrite (list_to_map_proper _ (map_to_list m)).
  - apply list_to_map_to_list.
  - apply NoDup_range_fst.
  - apply range_perm.
Qed.
End range.

(** Inserting the elements of a list under distinct keys. *)
Lemma foldl_insert_list_to_map {A K V : Type} `{Countable K} (key : A → K) (val : A → V) l
    (m : gmap K V) :
  NoDup (key <$> l) →
  foldl (λ m x, <[key x := val x]> m) m l = list_to_map ((λ x, (key x, val x)) <$> l) ∪ m.
Proof.
  revert m. induction l as [|x l IH]; intros m; csimpl; [by rewrite map_empty_union|].
  intros [Hx Hnd]%NoDup_cons. rewrite IH by done. rewrite <- insert_union_r; [by rewrite insert_union_l|].
  apply not_elem_of_list_to_map_1. rewrite <- list_fmap_compose. done.
Qed.

Lemma rfold_app {E A B : Type} (f : B → A → result E B) b l1 l2 :
  rfold f b (l1 ++ l2) = rbind (rfold f b l1) (λ b', rfold f b' l2).
Proof.
  revert b. induction l1 as [|x l1 IH]; intros b; simpl; [done|].
  destruct (f b x); simpl; [apply IH | done].
Qed.

(** The invariant rule of [rfold]: a body that always succeeds and keeps [P]. *)
Lemma rfold_inv {E A B : Type} (P : B → Prop) (f : B → A → result E B) b l :
  P b →
  (∀ b' x, x ∈ l → P b' → ∃ b'', f b' x = Ok b'' ∧ P b'') →
  ∃ b', rfold f b l = Ok b' ∧ P b'.
Proof.
  revert b. induction l as [|x l IH]; intros b Hb Hf; simpl; [eauto|].
  destruct (Hf b x) as (b1 & -> & Hb1); [set_solver | done |]. simpl.
  apply IH; [done|]. intros; apply Hf; set_solver.
Qed.

Lemma bind_all_nil {A B : Type} (f : A → list B) (l : list A) :
  (∀ x, x ∈ l → f x = []) → l ≫= f = [].
Proof.
  induction l as [|x l IH]; intros H; csimpl; [done|].
  rewrite H by left. simpl. apply IH. intros y Hy. apply H. by right.
Qed.

(** Filters that agree on the elements of the list. *)
Lemma list_filter_iff_in {A : Type} (P Q : A → Prop) `{∀ x, Decision (P x), ∀ x, Decision (Q x)} (l : list A) :
  (∀ x, x ∈ l → P x ↔ Q x) → filter P l = filter Q l.
Proof.
  induction l as [|x l IH]; intros H1; [done|]. rewrite !filter_cons.
  rewrite (decide_ext (P x) (Q x)) by (apply H1; left).
  rewrite IH by (intros; apply H1; by right). done.
Qed.

(** ** Tactics *)

(** Split every [if]/[match] of the goal or the context on its scrutinee. *)
Ltac go_case :=
  repeat first
    [ progress simplify_eq
    | case_decide
    | case_bool_decide
    | match goal with
      | |- context [match ?x with _ => _ end] => destruct x eqn:?
      | H : context [match ?x with _ => _ end] |- _ => destruct x eqn:?
      end ].

(** Turn the boolean comparisons of the context and the goal into propositions. *)
Ltac go_bool :=
  repeat match goal with
  | H : (_ <? _) = true |- _ => apply Z.ltb_lt in H
  | H : (_ <? _) = false |- _ => apply Z.ltb_ge in H
  | H : (_ <=? _) = true |- _ => apply Z.leb_le in H
  | H : (_ <=? _) = false |- _ => apply Z.leb_gt in H
  | H : (_ =? _) = true |- _ => apply Z.eqb_eq in H
  | H : (_ =? _) = false |- _ => apply Z.eqb_neq in H
  | H : (_ && _)%bool = true |- _ => apply andb_true_iff in H as [? ?]
  | H : (_ || _)%bool = false |- _ => apply orb_false_iff in H as [? ?]
  | H : negb _ = true |- _ => apply negb_true_iff in H
  | H : negb _ = false |- _ => apply negb_false_iff in H
  end.
