(* ===== verification/GoTime.v ===== *)
(** * Go's [time] package, as far as the state machine uses it

    [time.Time] keeps a wall clock and, when it comes from [time.Now], a
    monotonic reading; comparisons use the monotonic readings only when both
    operands have one.  A time read back from a snapshot file has none, so both
    kinds meet in one comparison.  [time.Duration] is an [int64] count of
    nanoseconds. *)

From S2P Require Import Prelude.

(** Nanoseconds since the Unix epoch, and nanoseconds since process start. *)
Record Time : Type := mkTime { wall : Z; mono : option Z }.

#[export] Instance Time_eq_dec : EqDecision Time.
Proof. solve_decision. Defined.

(** A duration in nanoseconds, an [int64]. *)
Abbreviation Duration := Z.

Definition Nanosecond : Duration := 1.
Definition Millisecond : Duration := 1000000.
Definition Second : Duration := 1000000000.
Definition Minute : Duration := 60 * Second.

Definition int64_range (d : Z) : Prop := - two63 ≤ d < two63.
#[export] Instance int64_range_dec d : Decision (int64_range d).
Proof. unfold int64_range. apply _. Defined.

(** The zero [time.Time]: year 1, January 1, 00:00:00 UTC. *)
Definition zero_time : Time := mkTime (- 62135596800 * Second) None.

(** The seconds that a [Time] with a monotonic reading can hold: 33 bits from
    1885-01-01; [Time.Add] drops the reading outside of them, and when the
    reading itself leaves [int64]. *)
Definition wall_min_1885 : Z := - 2682288000.

Definition keeps_mono (w : Z) : bool :=
  let s := w / Second - wall_min_1885 in (0 <=? s) && (s <=? 2 ^ 33 - 1).

Definition Add (t : Time) (d : Duration) : Time :=
  let w := wall t + d in
  mkTime w
    match mono t with
    | Some m =>
        if keeps_mono w && bool_decide (int64_range (m + d)) then Some (m + d) else None
    | None => None
    end.

Definition Before (t u : Time) : bool :=
  match mono t, mono u with
  | Some a, Some b => a <? b
  | _, _ => wall t <? wall u
  end.

Definition After (t u : Time) : bool := Before u t.

(** [Sub] saturates. *)
Definition saturate64 (z : Z) : Duration := Z.max (- two63) (Z.min (two63 - 1) z).

Definition Sub (t u : Time) : Duration :=
  match mono t, mono u with
  | Some a, Some b => saturate64 (a - b)
  | _, _ => saturate64 (wall t - wall u)
  end.

(** [UnixNano] is an [int64]; it wraps outside the years 1678 to 2262. *)
Definition UnixNano (t : Time) : Z := wrap64 (wall t).

(** What survives a round trip through a file: the wall clock. *)
Definition strip_mono (t : Time) : Time := mkTime (wall t) None.

Lemma Before_irrefl t : Before t t = false.
Proof. unfold Before. destruct t as [w [m|]]; simpl; apply Z.ltb_irrefl. Qed.

Lemma Before_asym t u : Before t u = true → Before u t = false.
Proof. unfold Before. destruct (mono t), (mono u); intros; go_bool; apply Z.ltb_ge; lia. Qed.

Lemma strip_mono_idem t : strip_mono (strip_mono t) = strip_mono t.
Proof. done. Qed.

Lemma Before_strip t u : Before (strip_mono t) (strip_mono u) = (wall t <? wall u).
Proof. done. Qed.

Lemma wall_Add t d : wall (Add t d) = wall t + d.
Proof. done. Qed.

(** The later of two times, as the expiry extensions compute it. *)
Definition extend (old new : Time) : Time := if Before old new then new else old.

Lemma extend_not_before old new : Before (extend old new) new = false.
Proof. unfold extend. destruct (Before old new) eqn:E; [apply Before_irrefl | done]. Qed.

Lemma extend_idem old new : extend (extend old new) new = extend old new.
Proof. unfold extend at 1. by rewrite extend_not_before. Qed.

Lemma extend_keeps old new : Before (extend old new) old = false.
Proof.
  unfold extend. destruct (Before old new) eqn:E; [by apply Before_asym | apply Before_irrefl].
Qed.

#[export] Hint Rewrite Before_irrefl extend_not_before extend_idem extend_keeps : go.
