(* ===== verification/ConfigTypes.v ===== *)
(** * Configuration ([internal/config/config.go])

    The records that the commands are given, and which of the two loops of the
    service they ask for.  The TLS configurations belong to a library; their
    fields are those that the flags set. *)

From S2P Require Import Prelude GoTime.

Definition InMemoryTransport : string := ":in-memory".

Record TLSServerConfig : Type := mkTLSServerConfig {
  s_Enable : bool;
  s_Refresh : Duration;
  s_KeyPassword : string;
  s_File_Key : string;
  s_File_Cert : string;
  s_File_ClientCAs : string;
  s_File_ClientCRL : string;
}.

Record TLSClientConfig : Type := mkTLSClientConfig {
  c_Enable : bool;
  c_Refresh : Duration;
  c_InsecureSkipVerify : bool;
  c_UseSystemPool : bool;
  c_KeyPassword : string;
  c_File_RootCAs : string;
  c_File_Key : string;
  c_File_Cert : string;
}.

Definition no_server_tls : TLSServerConfig := mkTLSServerConfig false 0 "" "" "" "" "".
Definition no_client_tls : TLSClientConfig := mkTLSClientConfig false 0 false true "" "" "" "".

Record ServerConfig : Type := mkServerConfig {
  Addr : string;
  server_TLS : TLSServerConfig;
}.

Record ClientConfig : Type := mkClientConfig {
  Target : string;
  client_TLS : TLSClientConfig;
}.

Record DiscoveryConfig : Type := mkDiscoveryConfig {
  RedirectEndpoint : string;
  CleanupInterval : Duration;
  SnapshotPath : string;
  SnapshotInterval : Duration;
}.

(** Projections of the two commands' records carry a prefix. *)
Record ServiceCommandConfig : Type := mkServiceCommandConfig {
  svc_Server : ServerConfig;
  svc_DiscoveryConfig : DiscoveryConfig;
  svc_WebServer : ServerConfig;
  svc_WebEnable : bool;
  svc_WebDiscoveryClient : ClientConfig;
}.

Record WebCommandConfig : Type := mkWebCommandConfig {
  web_WebServer : ServerConfig;
  web_WebDiscoveryClient : ClientConfig;
}.

(** An actor that was not added, one in its loop, one that has returned. *)
Inductive ActorPC : Type := NotAdded | Looping | Returned.

#[export] Instance ActorPC_eq_dec : EqDecision ActorPC.
Proof. solve_decision. Defined.

(** [addCleanupActor], [addSnapshotActor]: whether there is an actor. *)
Definition addCleanupActor (cfg : DiscoveryConfig) : ActorPC :=
  if CleanupInterval cfg <=? 0 then NotAdded else Looping.

Definition addSnapshotActor (cfg : DiscoveryConfig) : ActorPC :=
  if (SnapshotInterval cfg <=? 0) || bool_decide (SnapshotPath cfg = EmptyString) then NotAdded
  else Looping.
