(* ===== verification/Limits.v ===== *)
(** * The limits of [internal/state/limits.go] *)

From S2P Require Import Prelude GoTime.

Definition TTLMax : Duration := 30 * Minute.
Definition ClusterTTL : Duration := TTLMax.
Definition ClusterIDMax : Z := 256.
Definition AffiliateIDMax : Z := 256.
Definition AffiliateDataMax : Z := 2048.
Definition AffiliateEndpointMax : Z := 32.
Definition AffiliatesMax : Z := 1024.
Definition AffiliateEndpointsMax : Z := 64.

(** Go's [len] of a slice, a string and a map. *)
Definition len {A : Type} (l : list A) : Z := Z.of_nat (length l).
Definition len_string (s : string) : Z := Z.of_nat (String.length s).
Definition len_map {K V : Type} `{Countable K} (m : gmap K V) : Z := Z.of_nat (size m).
