(* ===== verification/Affiliate.v ===== *)
(** * Affiliates and their endpoints ([internal/state/affiliate.go])

    Data, [ToInfo], the linear search [findEndpointIndex] and
    [MergeEndpoints].  The reference definition [merge_spec] describes the
    merge without the loop; [merge_loop_ok] and [merge_loop_err] show that the
    loop computes it, and on the error path how far it got. *)

From S2P Require Import Prelude GoTime Limits.

(** The two sentinel errors of the package. *)
Inductive StateError : Type := ErrTooManyAffiliates | ErrTooManyEndpoints.

#[export] Instance StateError_eq_dec : EqDecision StateError.
Proof. solve_decision. Defined.

Definition StateError_Error (e : StateError) : string :=
  match e with
  | ErrTooManyAffiliates => "too many affiliates in the cluster"
  | ErrTooManyEndpoints => "too many endpoints in the affiliate"
  end.

Module AffiliateUpdateRequest.

Record t : Type := mk {
  ID : string;
  Data : bytes;
  Endpoints : list bytes;
  TTL : Duration;
}.

End AffiliateUpdateRequest.

Record Endpoint : Type := mkEndpoint { ep_expiry : Time; ep_data : bytes }.

Abbreviation Endpoints := (list Endpoint).

Record Affiliate : Type := mkAffiliate {
  aff_id : string;
  aff_expiry : Time;
  aff_data : bytes;
  aff_endpoints : Endpoints;
}.

Record AffiliateInfo : Type := mkInfo {
  ID : string;
  Data : bytes;
  InfoEndpoints : list bytes;
}.

#[export] Instance Endpoint_eq_dec : EqDecision Endpoint.
Proof. solve_decision. Defined.
#[export] Instance Affiliate_eq_dec : EqDecision Affiliate.
Proof. solve_decision. Defined.
#[export] Instance AffiliateInfo_eq_dec : EqDecision AffiliateInfo.
Proof. solve_decision. Defined.

Definition set_endpoints (es : Endpoints) (a : Affiliate) : Affiliate :=
  mkAffiliate (aff_id a) (aff_expiry a) (aff_data a) es.
Definition set_expiry (e : Time) (a : Affiliate) : Affiliate :=
  mkAffiliate (aff_id a) e (aff_data a) (aff_endpoints a).
Definition set_data (d : bytes) (a : Affiliate) : Affiliate :=
  mkAffiliate (aff_id a) (aff_expiry a) d (aff_endpoints a).

(** [append([]byte(nil), b...)]: a fresh array with the same bytes. *)
Definition cloneBytes (b : bytes) : bytes := [] ++ b.

Definition Endpoints_ToInfo (e : Endpoints) : list bytes :=
  (λ ep, cloneBytes (ep_data ep)) <$> e.

Definition ToInfo (a : Affiliate) : AffiliateInfo :=
  mkInfo (aff_id a) (cloneBytes (aff_data a)) (Endpoints_ToInfo (aff_endpoints a)).

(** The loop of [findEndpointIndex], [i] being its index variable. *)
Fixpoint find_endpoint_from (i : Z) (es : Endpoints) (data : bytes) : Z :=
  match es with
  | [] => -1
  | e :: es' =>
      if bool_decide (ep_data e = data) then i else find_endpoint_from (i + 1) es' data
  end.

Definition findEndpointIndex (a : Affiliate) (data : bytes) : Z :=
  find_endpoint_from 0 (aff_endpoints a) data.

(** [if a.endpoints[idx].expiry.Before(expiry) { ... = expiry }] *)
Definition extend_endpoint (expiry : Time) (e : Endpoint) : Endpoint :=
  if Before (ep_expiry e) expiry then mkEndpoint expiry (ep_data e) else e.

(** The loop of [MergeEndpoints].  The affiliate is updated in place, so an
    error returns it as the loop left it. *)
Fixpoint merge_loop (expiry : Time) (a : Affiliate) (endpointsChanged : bool)
    (endpoints : list bytes) : Affiliate * result StateError bool :=
  match endpoints with
  | [] => (a, Ok endpointsChanged)
  | ep :: rest =>
      let idx := findEndpointIndex a ep in
      if 0 <=? idx then
        merge_loop expiry
          (set_endpoints (alter (extend_endpoint expiry) (Z.to_nat idx) (aff_endpoints a)) a)
          endpointsChanged rest
      else if AffiliateEndpointsMax <=? len (aff_endpoints a) then
        (a, Err ErrTooManyEndpoints)
      else
        merge_loop expiry
          (set_endpoints (aff_endpoints a ++ [mkEndpoint expiry (cloneBytes ep)]) a)
          true rest
  end.

Definition MergeEndpoints (endpoints : list bytes) (expiry : Time) (a : Affiliate) :
    Affiliate * result StateError bool :=
  match merge_loop expiry a false endpoints with
  | (a', Err e) => (a', Err e)
  | (a', Ok endpointsChanged) =>
      (if Before (aff_expiry a') expiry then set_expiry expiry a' else a', Ok endpointsChanged)
  end.

(** ** Well-formed affiliates *)

Definition endpoint_data (a : Affiliate) : list bytes := ep_data <$> aff_endpoints a.

Record wf_affiliate (a : Affiliate) : Prop := {
  wf_endpoints_nodup : NoDup (endpoint_data a);
  wf_endpoints_len : len (aff_endpoints a) ≤ AffiliateEndpointsMax;
}.

(** ** The reference definition of the merge *)

(** The elements of [new] that are not in [seen], each once, in order. *)
Fixpoint fresh (seen new : list bytes) : list bytes :=
  match new with
  | [] => []
  | x :: new' =>
      if bool_decide (x ∈ seen) then fresh seen new' else x :: fresh (seen ++ [x]) new'
  end.

(** An endpoint named by the request has its expiry extended. *)
Definition touch (expiry : Time) (named : list bytes) (e : Endpoint) : Endpoint :=
  if bool_decide (ep_data e ∈ named) then mkEndpoint (extend (ep_expiry e) expiry) (ep_data e)
  else e.

Definition merge_spec (expiry : Time) (new : list bytes) (old : Endpoints) : Endpoints :=
  (touch expiry new <$> old) ++ (mkEndpoint expiry <$> fresh (ep_data <$> old) new).

(** ** Lemmas on the search *)

Lemma cloneBytes_id b : cloneBytes b = b.
Proof. done. Qed.

Lemma find_endpoint_from_found (i : Z) (es : Endpoints) (d : bytes) :
  0 ≤ i → d ∈ (ep_data <$> es) →
  ∃ k : nat, find_endpoint_from i es d = i + Z.of_nat k ∧ (ep_data <$> es) !! k = Some d.
Proof.
  revert i. induction es as [|e es IH]; intros i Hi; csimpl; [by intros ?%not_elem_of_nil|].
  intros Hd. case_bool_decide as E.
  - exists 0%nat. split; [lia | by rewrite <- E].
  - destruct (IH (i + 1)) as (k & -> & Hk); [lia | set_solver |].
    exists (S k). split; [lia | done].
Qed.

Lemma find_endpoint_from_absent (i : Z) (es : Endpoints) (d : bytes) :
  d ∉ (ep_data <$> es) → find_endpoint_from i es d = -1.
Proof.
  revert i. induction es as [|e es IH]; intros i Hd; csimpl; [done|].
  rewrite bool_decide_false by set_solver. apply IH. set_solver.
Qed.

Lemma findEndpointIndex_spec a d :
  (∃ k : nat, findEndpointIndex a d = Z.of_nat k ∧ endpoint_data a !! k = Some d)
  ∨ (findEndpointIndex a d = -1 ∧ d ∉ endpoint_data a).
Proof.
  destruct (decide (d ∈ endpoint_data a)) as [Hd|Hd].
  - left. destruct (find_endpoint_from_found 0 (aff_endpoints a) d) as (k & E & Hk); [lia | done |].
    exists k. split; [unfold findEndpointIndex; lia | done].
  - right. split; [by apply find_endpoint_from_absent | done].
Qed.

Lemma extend_endpoint_data expiry e : ep_data (extend_endpoint expiry e) = ep_data e.
Proof. unfold extend_endpoint. by destruct (Before _ _). Qed.

Lemma alter_data (expiry : Time) (k : nat) (es : Endpoints) :
  ep_data <$> alter (extend_endpoint expiry) k es = ep_data <$> es.
Proof.
  revert k. induction es as [|e es IH]; intros [|k]; csimpl; try done.
  - by rewrite extend_endpoint_data.
  - f_equal. apply IH.
Qed.

(** With distinct data, extending the endpoint found is extending every
    endpoint with that data. *)
Lemma alter_is_map expiry d (k : nat) (es : Endpoints) :
  NoDup (ep_data <$> es) → (ep_data <$> es) !! k = Some d →
  alter (extend_endpoint expiry) k es =
  (λ e, if bool_decide (ep_data e = d) then extend_endpoint expiry e else e) <$> es.
Proof.
  revert k. induction es as [|e es IH]; intros k Hnd Hk; csimpl in *; [done|].
  apply NoDup_cons in Hnd as [Hne Hnd]. destruct k as [|k]; csimpl in *.
  - injection Hk as <-. rewrite bool_decide_true by done. f_equal.
    symmetry. rewrite <- (list_fmap_id es) at 2. apply list_fmap_ext. intros i x Hx.
    rewrite bool_decide_false; [done|]. intros E. apply Hne.
    apply list_elem_of_fmap. exists x. split; [done|]. by eapply list_elem_of_lookup_2.
  - rewrite bool_decide_false; [by f_equal; apply IH|].
    intros E. apply Hne. rewrite E. by eapply list_elem_of_lookup_2.
Qed.

Lemma touch_data expiry new e : ep_data (touch expiry new e) = ep_data e.
Proof. unfold touch. by case_bool_decide. Qed.

Lemma fmap_touch_data expiry new (es : Endpoints) :
  ep_data <$> (touch expiry new <$> es) = ep_data <$> es.
Proof. rewrite <- list_fmap_compose. apply list_fmap_ext. intros; apply touch_data. Qed.

Lemma touch_nil expiry e : touch expiry [] e = e.
Proof. unfold touch. rewrite bool_decide_false; [done|]. apply not_elem_of_nil. Qed.

Lemma fmap_touch_nil expiry (es : Endpoints) : touch expiry [] <$> es = es.
Proof. rewrite <- (list_fmap_id es) at 2. apply list_fmap_ext. intros; apply touch_nil. Qed.

(** Naming one endpoint more is extending it first. *)
Lemma touch_cons expiry x new e :
  touch expiry new (if bool_decide (ep_data e = x) then extend_endpoint expiry e else e) =
  touch expiry (x :: new) e.
Proof.
  destruct (decide (ep_data e = x)) as [Hx|Hx].
  - rewrite bool_decide_true by done. unfold touch, extend_endpoint.
    rewrite (bool_decide_true (_ ∈ x :: new)) by (rewrite Hx; left).
    unfold extend. destruct e as [t d], (Before t expiry) eqn:E; simpl in *; rewrite E; simpl;
      case_bool_decide; rewrite ?Before_irrefl, ?E; done.
  - rewrite bool_decide_false by done. unfold touch.
    assert (ep_data e ∈ x :: new ↔ ep_data e ∈ new) as E by (rewrite elem_of_cons; naive_solver).
    by rewrite (bool_decide_ext _ _ E).
Qed.

Lemma touch_cons_absent expiry x new (es : Endpoints) :
  x ∉ (ep_data <$> es) → (touch expiry (x :: new) <$> es) = (touch expiry new <$> es).
Proof.
  intros Hx. apply list_fmap_ext. intros i e He. unfold touch.
  assert (ep_data e ≠ x).
  { intros <-. apply Hx. apply list_elem_of_fmap. exists e. split; [done|].
    by eapply list_elem_of_lookup_2. }
  repeat case_bool_decide; set_solver.
Qed.

Lemma fresh_not_seen seen new x : x ∈ fresh seen new → (x ∉ seen) ∧ x ∈ new.
Proof.
  revert seen. induction new as [|y new IH]; intros seen; simpl; [by intros ?%not_elem_of_nil|].
  case_bool_decide; [intros []%IH; set_solver|].
  intros [->|Hx]%elem_of_cons; [set_solver|]. apply IH in Hx. set_solver.
Qed.

Lemma fresh_NoDup seen new : NoDup (fresh seen new).
Proof.
  revert seen. induction new as [|y new IH]; intros seen; simpl; [constructor|].
  case_bool_decide; [apply IH|]. constructor; [|apply IH].
  intros ?%fresh_not_seen. set_solver.
Qed.

Lemma fresh_complete seen new x : x ∈ new → x ∈ seen ∨ x ∈ fresh seen new.
Proof.
  revert seen. induction new as [|y new IH]; intros seen; simpl; [by intros ?%not_elem_of_nil|].
  intros [->|Hx]%elem_of_cons; case_bool_decide; [by left | right; set_solver | by apply IH |].
  destruct (IH (seen ++ [y]) Hx); set_solver.
Qed.

Lemma merge_spec_data expiry new (es : Endpoints) :
  ep_data <$> merge_spec expiry new es = (ep_data <$> es) ++ fresh (ep_data <$> es) new.
Proof.
  unfold merge_spec. rewrite fmap_app, fmap_touch_data. f_equal.
  rewrite <- list_fmap_compose. apply list_fmap_id.
Qed.

Lemma merge_spec_NoDup expiry new (es : Endpoints) :
  NoDup (ep_data <$> es) → NoDup (ep_data <$> merge_spec expiry new es).
Proof.
  intros Hnd. rewrite merge_spec_data. apply NoDup_app. split_and!; [done | | apply fresh_NoDup].
  intros x Hx ?%fresh_not_seen. naive_solver.
Qed.

Lemma merge_spec_nil expiry (es : Endpoints) : merge_spec expiry [] es = es.
Proof. unfold merge_spec. simpl. by rewrite fmap_touch_nil, app_nil_r. Qed.

Lemma merge_spec_cons_old expiry x new k (es : Endpoints) :
  NoDup (ep_data <$> es) → (ep_data <$> es) !! k = Some x →
  merge_spec expiry new (alter (extend_endpoint expiry) k es) = merge_spec expiry (x :: new) es.
Proof.
  intros Hnd Hk. unfold merge_spec. rewrite alter_data. simpl.
  rewrite bool_decide_true by (by eapply list_elem_of_lookup_2). f_equal.
  rewrite (alter_is_map _ x) by done. rewrite <- list_fmap_compose.
  apply list_fmap_ext. intros; apply touch_cons.
Qed.

Lemma merge_spec_cons_new expiry x new (es : Endpoints) :
  x ∉ (ep_data <$> es) →
  merge_spec expiry new (es ++ [mkEndpoint expiry x]) = merge_spec expiry (x :: new) es.
Proof.
  intros Hx. unfold merge_spec. simpl. rewrite bool_decide_false by done.
  rewrite touch_cons_absent by done. rewrite !fmap_app. csimpl. rewrite <- app_assoc.
  f_equal. simpl. f_equal. unfold touch, extend. simpl.
  case_bool_decide; [by rewrite Before_irrefl | done].
Qed.

Lemma fresh_app seen l1 l2 :
  fresh seen (l1 ++ l2) = fresh seen l1 ++ fresh (seen ++ fresh seen l1) l2.
Proof.
  revert seen. induction l1 as [|x l1 IH]; intros seen; simpl; [by rewrite app_nil_r|].
  case_bool_decide; [apply IH|]. simpl. rewrite IH. by rewrite <- app_assoc.
Qed.

Lemma length_merge_spec expiry new (es : Endpoints) :
  length (merge_spec expiry new es) = (length es + length (fresh (ep_data <$> es) new))%nat.
Proof. unfold merge_spec. by rewrite length_app, !length_fmap. Qed.

(** ** The loop computes the reference definition *)

Lemma wf_set_endpoints a es :
  NoDup (ep_data <$> es) → len es ≤ AffiliateEndpointsMax → wf_affiliate (set_endpoints es a).
Proof. by split. Qed.

(** What a run of the loop from [a] returns, [ch] being the flag so far. *)
Definition merge_outcome (expiry : Time) (a : Affiliate) (ch : bool) (eps : list bytes)
    (res : Affiliate * result StateError bool) : Prop :=
  let '(a', r) := res in
  wf_affiliate a' ∧
  match r with
  | Ok ch' =>
      a' = set_endpoints (merge_spec expiry eps (aff_endpoints a)) a ∧
      ch' = (ch || negb (bool_decide (fresh (endpoint_data a) eps = [])))%bool
  | Err e =>
      e = ErrTooManyEndpoints ∧
      ∃ pre ep suf, eps = pre ++ ep :: suf ∧
        a' = set_endpoints (merge_spec expiry pre (aff_endpoints a)) a ∧
        (ep ∉ endpoint_data a') ∧ len (aff_endpoints a') = AffiliateEndpointsMax
  end.

(** One iteration that finds the endpoint. *)
Lemma merge_outcome_old expiry a ch ep eps k res :
  wf_affiliate a → endpoint_data a !! k = Some ep →
  merge_outcome expiry (set_endpoints (alter (extend_endpoint expiry) k (aff_endpoints a)) a)
    ch eps res →
  merge_outcome expiry a ch (ep :: eps) res.
Proof.
  intros [Hnd Hlen] Hk. destruct res as [a' [ch'|e]]; unfold merge_outcome, endpoint_data; simpl.
  - rewrite merge_spec_cons_old with (x := ep), alter_data by done.
    rewrite (bool_decide_true (ep ∈ _)) by (by eapply list_elem_of_lookup_2). done.
  - intros (Hwf & -> & pre & x & suf & -> & -> & H). split_and!; [done..|].
    exists (ep :: pre), x, suf. by rewrite merge_spec_cons_old with (x := ep) in * by done.
Qed.

(** One iteration that appends it. *)
Lemma merge_outcome_new expiry a ch ep eps res :
  ep ∉ endpoint_data a →
  merge_outcome expiry (set_endpoints (aff_endpoints a ++ [mkEndpoint expiry ep]) a) true eps res →
  merge_outcome expiry a ch (ep :: eps) res.
Proof.
  intros Hne. destruct res as [a' [ch'|e]]; unfold merge_outcome, endpoint_data in *; simpl.
  - rewrite merge_spec_cons_new by done. rewrite (bool_decide_false (ep ∈ _)) by done.
    simpl. by rewrite orb_true_r.
  - intros (Hwf & -> & pre & x & suf & -> & -> & H). split_and!; [done..|].
    exists (ep :: pre), x, suf. by rewrite merge_spec_cons_new in * by done.
Qed.

Lemma merge_loop_outcome expiry a ch eps :
  wf_affiliate a → merge_outcome expiry a ch eps (merge_loop expiry a ch eps).
Proof.
  revert a ch. induction eps as [|ep eps IH]; intros a ch Hwf; simpl.
  { unfold merge_outcome. destruct a. by rewrite merge_spec_nil, orb_false_r. }
  pose proof Hwf as [Hnd Hlen].
  destruct (findEndpointIndex_spec a ep) as [(k & -> & Hk)|[-> Hne]].
  - rewrite (proj2 (Z.leb_le _ _)), Nat2Z.id by lia.
    eapply merge_outcome_old; [done..|]. apply IH, wf_set_endpoints.
    + by rewrite alter_data.
    + unfold len. by rewrite length_alter.
  - simpl. destruct (_ <=? _) eqn:E; go_bool.
    { split_and!; [done..|]. exists [], ep, eps. rewrite merge_spec_nil.
      destruct a; simpl in *. split_and!; try done. lia. }
    apply merge_outcome_new; [done|]. apply IH, wf_set_endpoints.
    + rewrite fmap_app. apply NoDup_app. split_and!; [done | | apply NoDup_singleton].
      by intros y Hy ->%list_elem_of_singleton.
    + unfold len in *. rewrite length_app; simpl; lia.
Qed.

(** ** [MergeEndpoints] *)

(** The expiry of the affiliate after a successful merge. *)
Definition merged (expiry : Time) (eps : list bytes) (a : Affiliate) : Affiliate :=
  mkAffiliate (aff_id a) (extend (aff_expiry a) expiry) (aff_data a)
    (merge_spec expiry eps (aff_endpoints a)).

(** Whether the merged endpoints fit. *)
Definition merge_fits (eps : list bytes) (a : Affiliate) : bool :=
  len (aff_endpoints a) + len (fresh (endpoint_data a) eps) <=? AffiliateEndpointsMax.

(** Whether the request names an endpoint the affiliate does not have. *)
Definition names_new (eps : list bytes) (a : Affiliate) : bool :=
  negb (bool_decide (fresh (endpoint_data a) eps = [])).

Lemma names_new_spec eps a :
  names_new eps a = true ↔ ∃ ep, ep ∈ eps ∧ ep ∉ endpoint_data a.
Proof.
  unfold names_new. rewrite negb_true_iff, bool_decide_eq_false. split.
  - intros Hne. destruct (fresh _ eps) as [|x l] eqn:E; [done|].
    destruct (fresh_not_seen (endpoint_data a) eps x) as [??]; [rewrite E; left | eauto].
  - intros (ep & Hin & Hnin) E. destruct (fresh_complete (endpoint_data a) _ _ Hin); [done|].
    rewrite E in *. by apply not_elem_of_nil in H.
Qed.

Lemma merge_fits_false_prefix eps pre ep suf a :
  eps = pre ++ ep :: suf →
  ep ∉ endpoint_data (set_endpoints (merge_spec zero_time pre (aff_endpoints a)) a) →
  len (aff_endpoints a) + len (fresh (endpoint_data a) pre) = AffiliateEndpointsMax →
  merge_fits eps a = false.
Proof.
  intros -> Hne Hlen. unfold merge_fits. apply Z.leb_gt.
  unfold endpoint_data in *. simpl in Hne. rewrite merge_spec_data in Hne.
  rewrite fresh_app. simpl. rewrite bool_decide_false by done.
  unfold len in *. rewrite length_app. simpl. lia.
Qed.

Lemma MergeEndpoints_cases eps expiry a :
  wf_affiliate a →
  let '(a', r) := MergeEndpoints eps expiry a in
  wf_affiliate a' ∧
  if merge_fits eps a then a' = merged expiry eps a ∧ r = Ok (names_new eps a)
  else r = Err ErrTooManyEndpoints ∧
    ∃ pre ep suf, eps = pre ++ ep :: suf ∧
      a' = set_endpoints (merge_spec expiry pre (aff_endpoints a)) a ∧
      (ep ∉ endpoint_data a') ∧ len (aff_endpoints a') = AffiliateEndpointsMax.
Proof.
  intros Hwf. unfold MergeEndpoints. pose proof (merge_loop_outcome expiry a false eps Hwf) as H.
  destruct (merge_loop _ _ _ _) as [a' [ch|e]]; destruct H as [Hwf' H].
  - destruct H as [-> ->]. simpl. split.
    { destruct (Before _ _); [|done]. destruct Hwf'. by split. }
    assert (merge_fits eps a = true) as ->.
    { apply Z.leb_le. destruct Hwf' as [_ Hl]. simpl in Hl. unfold len in *.
      rewrite length_merge_spec in Hl. unfold endpoint_data. lia. }
    split; [|done]. unfold merged, extend, set_expiry, set_endpoints. simpl.
    by destruct (Before _ _).
  - split; [done|]. destruct H as (-> & pre & ep & suf & E & -> & Hne & Hl).
    rewrite (merge_fits_false_prefix eps pre ep suf a); [by eauto 10 | done | |].
    + unfold endpoint_data in *. simpl in *. by rewrite merge_spec_data in *.
    + simpl in Hl. unfold len in *. rewrite length_merge_spec in Hl. unfold endpoint_data. lia.
Qed.

Lemma MergeEndpoints_ok eps expiry a :
  wf_affiliate a → merge_fits eps a = true →
  MergeEndpoints eps expiry a = (merged expiry eps a, Ok (names_new eps a)).
Proof.
  intros Hwf Hf. pose proof (MergeEndpoints_cases eps expiry a Hwf) as H.
  destruct (MergeEndpoints _ _ _) as [a' r]. rewrite Hf in H. destruct H as [_ [-> ->]]. done.
Qed.

Lemma MergeEndpoints_wf eps expiry a a' r :
  wf_affiliate a → MergeEndpoints eps expiry a = (a', r) → wf_affiliate a'.
Proof.
  intros Hwf E. pose proof (MergeEndpoints_cases eps expiry a Hwf) as H. rewrite E in H. apply H.
Qed.

(** Only the expiry and the endpoints change. *)
Lemma MergeEndpoints_frame eps expiry a a' r :
  wf_affiliate a → MergeEndpoints eps expiry a = (a', r) →
  aff_id a' = aff_id a ∧ aff_data a' = aff_data a.
Proof.
  intros Hwf E. pose proof (MergeEndpoints_cases eps expiry a Hwf) as H. rewrite E in H.
  destruct H as [_ H]. destruct (merge_fits eps a); [by destruct H as [-> _]|].
  by destruct H as (_ & pre & ep & suf & _ & -> & _).
Qed.

Lemma fresh_all_seen seen new : (∀ x, x ∈ new → x ∈ seen) → fresh seen new = [].
Proof.
  induction new as [|x new IH]; simpl; intros H; [done|].
  rewrite bool_decide_true by (apply H; left). apply IH. intros y Hy. apply H. by right.
Qed.

Lemma touch_touch expiry new e : touch expiry new (touch expiry new e) = touch expiry new e.
Proof.
  unfold touch at 1. rewrite touch_data. unfold touch. case_bool_decide; [|done]. simpl.
  by rewrite extend_idem.
Qed.

Lemma touch_fresh expiry (eps : list bytes) d :
  touch expiry eps (mkEndpoint expiry d) = mkEndpoint expiry d.
Proof. unfold touch, extend. simpl. rewrite Before_irrefl. by case_bool_decide. Qed.

Lemma merge_spec_idem expiry eps (es : Endpoints) :
  merge_spec expiry eps (merge_spec expiry eps es) = merge_spec expiry eps es.
Proof.
  unfold merge_spec at 1. rewrite merge_spec_data, fresh_all_seen.
  2: { intros x Hx. apply elem_of_app. destruct (fresh_complete (ep_data <$> es) _ _ Hx); auto. }
  simpl. rewrite app_nil_r. unfold merge_spec. rewrite fmap_app. f_equal.
  - rewrite <- list_fmap_compose. apply list_fmap_ext. intros; apply touch_touch.
  - rewrite <- list_fmap_compose. apply list_fmap_ext. intros; apply touch_fresh.
Qed.

Lemma wf_merged expiry eps a :
  wf_affiliate a → merge_fits eps a = true → wf_affiliate (merged expiry eps a).
Proof. intros Hwf Hf. eapply MergeEndpoints_wf; [done|]. by apply MergeEndpoints_ok. Qed.

Lemma merged_all_seen expiry eps a :
  fresh (endpoint_data (merged expiry eps a)) eps = [].
Proof.
  apply fresh_all_seen. intros x Hx. unfold endpoint_data. simpl. rewrite merge_spec_data.
  apply elem_of_app. destruct (fresh_complete (endpoint_data a) _ _ Hx); auto.
Qed.

(** ** Properties *)

(** C22: [MergeEndpoints] against its reference definition, on both branches.
    When the distinct endpoints of the affiliate and the request together
    number at most 64, it succeeds: every endpoint named by the request has
    its expiry extended (never shortened), the new ones are appended once
    each in request order, the affiliate's own expiry is extended, and the
    flag is true exactly when the set of endpoints grew.  Otherwise it
    fails with [ErrTooManyEndpoints] on the first request endpoint that
    does not fit, having merged exactly those before it, with the
    affiliate's own expiry not extended. *)
Theorem MergeEndpoints_refines_spec eps expiry a :
  wf_affiliate a →
  if merge_fits eps a then
    MergeEndpoints eps expiry a = (merged expiry eps a, Ok (names_new eps a))
  else
    ∃ pre ep suf, eps = pre ++ ep :: suf ∧
      (ep ∉ endpoint_data a ++ fresh (endpoint_data a) pre) ∧
      len (merge_spec expiry pre (aff_endpoints a)) = AffiliateEndpointsMax ∧
      MergeEndpoints eps expiry a =
        (set_endpoints (merge_spec expiry pre (aff_endpoints a)) a, Err ErrTooManyEndpoints).
Proof.
  intros Hwf. destruct (merge_fits eps a) eqn:Hf; [by apply MergeEndpoints_ok|].
  pose proof (MergeEndpoints_cases eps expiry a Hwf) as H.
  destruct (MergeEndpoints _ _ _) as [a' r]. rewrite Hf in H.
  destruct H as (_ & -> & pre & ep & suf & -> & -> & Hne & Hl).
  exists pre, ep, suf. unfold endpoint_data in *. simpl in *. by rewrite merge_spec_data in Hne.
Qed.

(** Merging the same endpoints again with the same expiry changes
    nothing and reports no change: the comment above [MergeEndpoints] that
    expiry extensions do not count as a change. *)
Theorem MergeEndpoints_idempotent eps expiry a a' b :
  wf_affiliate a →
  MergeEndpoints eps expiry a = (a', Ok b) →
  MergeEndpoints eps expiry a' = (a', Ok false).
Proof.
  intros Hwf E. pose proof (MergeEndpoints_cases eps expiry a Hwf) as H. rewrite E in H.
  destruct H as [_ H]. destruct (merge_fits eps a) eqn:Hf; [|by destruct H].
  destruct H as [-> _]. rewrite MergeEndpoints_ok.
  - unfold merged at 1, names_new. simpl. rewrite merge_spec_idem, extend_idem, merged_all_seen. done.
  - by apply wf_merged.
  - unfold merge_fits. rewrite merged_all_seen.
    destruct (wf_merged expiry eps a Hwf Hf) as [_ Hl]. apply Z.leb_le. unfold len in *. simpl in *. lia.
Qed.

(** ** Witnesses *)

Definition sample_affiliate : Affiliate :=
  mkAffiliate "node-1" (mkTime 10 None) (bs "data")
    [mkEndpoint (mkTime 10 None) (bs "10.0.0.1"); mkEndpoint (mkTime 90 None) (bs "10.0.0.2")].

Lemma sample_affiliate_wf : wf_affiliate sample_affiliate.
Proof. split; [by apply (bool_decide_unpack _) | by vm_compute]. Defined.

Lemma MergeEndpoints_refines_spec_witness :
  MergeEndpoints [bs "10.0.0.3"; bs "10.0.0.1"; bs "10.0.0.3"] (mkTime 50 None) sample_affiliate =
  (mkAffiliate "node-1" (mkTime 50 None) (bs "data")
     [mkEndpoint (mkTime 50 None) (bs "10.0.0.1"); mkEndpoint (mkTime 90 None) (bs "10.0.0.2");
      mkEndpoint (mkTime 50 None) (bs "10.0.0.3")], Ok true).
Proof.
  exact (MergeEndpoints_refines_spec
    [bs "10.0.0.3"; bs "10.0.0.1"; bs "10.0.0.3"] (mkTime 50 None) _ sample_affiliate_wf).
Defined.

Lemma MergeEndpoints_idempotent_witness :
  let a' := fst (MergeEndpoints [bs "10.0.0.3"] (mkTime 50 None) sample_affiliate) in
  MergeEndpoints [bs "10.0.0.3"] (mkTime 50 None) a' = (a', Ok false).
Proof.
  apply (MergeEndpoints_idempotent [bs "10.0.0.3"] (mkTime 50 None) sample_affiliate _ true).
  - exact sample_affiliate_wf.
  - by vm_compute.
Defined.
