(* ===== verification/GoChan.v ===== *)
(** * Go's buffered channels and run-time panics

    A channel is a queue with a capacity and a closed mark.  Sending on a
    closed channel, and closing it twice, panic: both are results here, so that
    a theorem can rule them out. *)

From S2P Require Import Prelude.

Inductive Panic : Type :=
| SendOnClosedChannel
| CloseOfClosedChannel
| NilDereference
| Int63nArgument
| IndexOutOfRange.

#[export] Instance Panic_eq_dec : EqDecision Panic.
Proof. solve_decision. Defined.

Record Chan (A : Type) : Type := mkChan {
  chan_buf : list A;
  chan_cap : Z;
  chan_closed : bool;
}.
Arguments mkChan {A}.
Arguments chan_buf {A}.
Arguments chan_cap {A}.
Arguments chan_closed {A}.

#[export] Instance Chan_eq_dec `{EqDecision A} : EqDecision (Chan A).
Proof. solve_decision. Defined.

(** [make(chan A, cap)] *)
Definition make_chan {A : Type} (cap : Z) : Chan A := mkChan [] cap false.

(** [select { case ch <- x: true; default: false }] *)
Definition try_send {A : Type} (x : A) (c : Chan A) : result Panic (bool * Chan A) :=
  if chan_closed c then Err SendOnClosedChannel
  else if Z.of_nat (length (chan_buf c)) <? chan_cap c then
    Ok (true, mkChan (chan_buf c ++ [x]) (chan_cap c) false)
  else Ok (false, c).

(** [close(ch)] *)
Definition close_chan {A : Type} (c : Chan A) : result Panic (Chan A) :=
  if chan_closed c then Err CloseOfClosedChannel
  else Ok (mkChan (chan_buf c) (chan_cap c) true).

(** What a receive finds: an element, a closed and drained channel, or
    nothing yet (the receive blocks). *)
Inductive Received (A : Type) : Type :=
| Got (x : A) (rest : Chan A)
| ClosedEmpty
| Blocks.
Arguments Got {A}.
Arguments ClosedEmpty {A}.
Arguments Blocks {A}.

Definition recv {A : Type} (c : Chan A) : Received A :=
  match chan_buf c with
  | x :: b => Got x (mkChan b (chan_cap c) (chan_closed c))
  | [] => if chan_closed c then ClosedEmpty else Blocks
  end.

(** Room for one more element. *)
Definition has_room {A : Type} (c : Chan A) : bool :=
  Z.of_nat (length (chan_buf c)) <? chan_cap c.

Definition push {A : Type} (x : A) (c : Chan A) : Chan A :=
  mkChan (chan_buf c ++ [x]) (chan_cap c) (chan_closed c).

Definition shut {A : Type} (c : Chan A) : Chan A := mkChan (chan_buf c) (chan_cap c) true.

Lemma try_send_open {A : Type} (x : A) c :
  chan_closed c = false → try_send x c = Ok (if has_room c then (true, push x c) else (false, c)).
Proof. intros E. unfold try_send, has_room, push. rewrite E. by destruct (_ <? _). Qed.

Lemma close_chan_open {A : Type} (c : Chan A) :
  chan_closed c = false → close_chan c = Ok (shut c).
Proof. intros E. unfold close_chan. by rewrite E. Qed.

#[export] Hint Rewrite @try_send_open @close_chan_open using done : go.
