(* ===== verification/GoErrors.v ===== *)
(** * Go's error values outside the request path

    An error with a text, the sentinel of [net/http] that the code tests for,
    and [fmt.Errorf] with a [%w] at the end of its format. *)

From S2P Require Import Prelude.

Inductive error : Type :=
| ErrorString (msg : string)
| ErrServerClosed
| Errorf (prefix : string) (err : error).

#[export] Instance error_eq_dec : EqDecision error.
Proof. solve_decision. Defined.

(** [err.Error()] *)
Fixpoint Error (err : error) : string :=
  match err with
  | ErrorString msg => msg
  | ErrServerClosed => "http: Server closed"
  | Errorf prefix err => prefix +:+ Error err
  end.

(** [errors.Is(err, target)], for a sentinel. *)
Fixpoint errors_Is (err target : error) : bool :=
  bool_decide (err = target) ||
  match err with
  | Errorf _ err => errors_Is err target
  | _ => false
  end.

Lemma errors_Is_refl err : errors_Is err err = true.
Proof. destruct err; cbn [errors_Is]; by rewrite bool_decide_true. Qed.
