(* ===== verification/GoSort.v ===== *)
(** * [sort.Slice] and the order of strings

    [sort.Slice] promises a sorted permutation, if [less] is a strict weak
    order; it does not promise to be stable, so a use of it is proved for every
    sorting function.  Go compares strings byte by byte. *)

From S2P Require Import Prelude.
From stdpp Require Import sorting.

Section less.
Context {A : Type} (less : A → A → bool).

Record strict_weak : Prop := {
  sw_irrefl x : less x x = false;
  sw_asym x y : less x y = true → less y x = false;
  sw_trans x y z : less y x = false → less z y = false → less z x = false;
}.

(** [x] may stand before [y]. *)
Definition not_after (x y : A) : Prop := less y x = false.

#[export] Instance not_after_dec : RelDecision not_after.
Proof. unfold not_after. intros x y. apply _. Defined.

Lemma not_after_total : strict_weak → Total not_after.
Proof.
  intros H x y. unfold not_after. destruct (less y x) eqn:E; [|by left].
  right. by apply H.
Qed.

Lemma not_after_trans : strict_weak → Transitive not_after.
Proof. intros H x y z. apply H. Qed.

End less.

Record SliceSort : Type := {
  Slice : ∀ {A : Type}, (A → A → bool) → list A → list A;
  Slice_perm : ∀ (A : Type) (less : A → A → bool) l, Slice less l ≡ₚ l;
  Slice_sorted : ∀ (A : Type) (less : A → A → bool) l,
    strict_weak less → StronglySorted (not_after less) (Slice less l);
}.
Arguments Slice _ {A} _ _.
Arguments Slice_perm _ {A} _ _.
Arguments Slice_sorted _ {A} _ _ _.

(** Two sorting functions: one stable, the other not. *)
Program Definition sort_stable : SliceSort :=
  {| Slice A less l := merge_sort (not_after less) l |}.
Next Obligation. intros. apply merge_sort_Permutation. Qed.
Next Obligation.
  intros A less l H. pose proof (not_after_total less H). pose proof (not_after_trans less H).
  by apply StronglySorted_merge_sort.
Qed.

Program Definition sort_unstable : SliceSort :=
  {| Slice A less l := merge_sort (not_after less) (reverse l) |}.
Next Obligation. intros. by rewrite merge_sort_Permutation, reverse_Permutation. Qed.
Next Obligation.
  intros A less l H. pose proof (not_after_total less H). pose proof (not_after_trans less H).
  by apply StronglySorted_merge_sort.
Qed.

(** ** Strings *)

Lemma ascii_compare_lt_trans a b c :
  Ascii.compare a b = Lt → Ascii.compare b c = Lt → Ascii.compare a c = Lt.
Proof. unfold Ascii.compare. rewrite !N.compare_lt_iff. lia. Qed.

Lemma ascii_compare_refl a : Ascii.compare a a = Eq.
Proof. apply N.compare_refl. Qed.

Lemma string_compare_lt_trans s t u :
  String.compare s t = Lt → String.compare t u = Lt → String.compare s u = Lt.
Proof.
  revert t u. induction s as [|a s IH]; intros [|b t] [|c u]; simpl; try done.
  destruct (Ascii.compare a b) eqn:Eab, (Ascii.compare b c) eqn:Ebc; try done; intros Hs Hu.
  - apply Ascii.compare_eq_iff in Eab as ->. rewrite Ebc. by apply (IH t).
  - apply Ascii.compare_eq_iff in Eab as ->. by rewrite Ebc.
  - apply Ascii.compare_eq_iff in Ebc as ->. by rewrite Eab.
  - by rewrite (ascii_compare_lt_trans a b c).
Qed.

Lemma string_compare_refl s : String.compare s s = Eq.
Proof. induction s as [|a s IH]; simpl; [done|]. by rewrite ascii_compare_refl. Qed.

(** [s <= t] *)
Lemma string_ltb_false s t : String.ltb t s = false ↔ s = t ∨ String.compare s t = Lt.
Proof.
  unfold String.ltb. rewrite (String.compare_antisym t s).
  destruct (String.compare s t) eqn:E; simpl; split; try done; auto.
  - intros _. left. by apply String.compare_eq_iff.
  - intros [->|[=]]. by rewrite string_compare_refl in E.
Qed.

Lemma strict_weak_by {A : Type} (key : A → string) :
  strict_weak (λ x y, String.ltb (key x) (key y)).
Proof.
  split.
  - intros x. apply string_ltb_false. by left.
  - intros x y. cbn beta. unfold String.ltb. rewrite (String.compare_antisym (key y) (key x)).
    by destruct (String.compare (key x) (key y)).
  - intros x y z. rewrite !string_ltb_false. intros [->|Hxy] [E|Hyz]; auto.
    { right. by rewrite <- E. }
    right. by apply (string_compare_lt_trans _ (key y)).
Qed.

(** Sorting by distinct keys has one result only. *)
Lemma Slice_by_key {A : Type} (key : A → string) (σ τ : SliceSort) l1 l2 :
  l1 ≡ₚ l2 → NoDup (key <$> l1) →
  Slice σ (λ x y, String.ltb (key x) (key y)) l1 = Slice τ (λ x y, String.ltb (key x) (key y)) l2.
Proof.
  intros Hp Hnd. pose proof (strict_weak_by key) as Hw.
  eapply StronglySorted_unique_strong; [|by apply Slice_sorted..|by rewrite !Slice_perm].
  intros x y. rewrite !Slice_perm, <- Hp. unfold not_after. rewrite !string_ltb_false.
  intros Hx Hy Hxy Hyx. assert (key x = key y) as E.
  { destruct Hxy as [?|H1]; [done|]. destruct Hyx as [?|H2]; [done|]. exfalso.
    rewrite String.compare_antisym, H1 in H2. done. }
  apply list_elem_of_lookup in Hx as [i Hi], Hy as [j Hj].
  assert (i = j) as ->; [|congruence].
  eapply (NoDup_lookup _ _ _ _ Hnd); rewrite list_lookup_fmap; [by rewrite Hi | by rewrite Hj, E].
Qed.
