(* ===== verification/Labels.v ===== *)
(** * The labels of the HTTP metrics ([internal/metrics/prometheus.go])

    [createLabels]: the names of the base labels and of the configured ones,
    and for each configured label the position of its value. *)

From stdpp Require Import sorting.
From S2P Require Import Prelude GoSort.

(** [containsAt], from position [i] on. *)
Fixpoint contains_from {K : Type} `{EqDecision K} (i : Z) (haystack : list K) (needle : K) : Z :=
  match haystack with
  | [] => -1
  | v :: l => if bool_decide (v = needle) then i else contains_from (i + 1) l needle
  end.

Definition containsAt {K : Type} `{EqDecision K} (haystack : list K) (needle : K) : Z :=
  contains_from 0 haystack needle.

Section labels.
(** [LabelValueFunc] is a parameter here. *)
Context {F : Type}.

Record customLabelValuer : Type := mkValuer {
  index : Z;
  label : string;
  valueFunc : F;
}.

Definition label_less (x y : customLabelValuer) : bool := String.ltb (label x) (label y).

(** The body of the second loop: the names so far, and the valuers done. *)
Definition place_label (acc : list string * list customLabelValuer) (cv : customLabelValuer) :
    list string * list customLabelValuer :=
  let '(labelNames, customValuers) := acc in
  let idx := containsAt labelNames (label cv) in
  let '(idx, labelNames) :=
    if idx =? -1 then (Z.of_nat (length labelNames), labelNames ++ [label cv])
    else (idx, labelNames) in
  (labelNames, customValuers ++ [mkValuer idx (label cv) (valueFunc cv)]).

(** [ρ] is the order in which the map is ranged over, [σ] what sorts. *)
Definition createLabels (ρ : MapOrder string) (σ : SliceSort) (baseLabels : list string)
    (customLabelFuncs : gmap string F) : list string * list customLabelValuer :=
  let labelNames := [] ++ baseLabels in
  if Z.of_nat (size customLabelFuncs) =? 0 then (labelNames, []) else
  let customValuers := (λ kv, mkValuer 0 kv.1 kv.2) <$> range ρ customLabelFuncs in
  foldl place_label (labelNames, []) (Slice σ label_less customValuers).

End labels.
Arguments customLabelValuer : clear implicits.

(** ** Facts *)

Lemma contains_from_spec {K : Type} `{EqDecision K} i (l : list K) x :
  0 ≤ i →
  (contains_from i l x = -1 ∧ x ∉ l) ∨
  ∃ j : nat, contains_from i l x = i + Z.of_nat j ∧ l !! j = Some x ∧ ∀ k, (k < j)%nat → l !! k ≠ Some x.
Proof.
  revert i. induction l as [|y l IH]; intros i Hi; simpl.
  { left. split; [done|]. apply not_elem_of_nil. }
  case_bool_decide as E.
  { right. exists O. split_and!; [lia | by subst | lia]. }
  destruct (IH (i + 1)) as [[-> Hx]|(j & -> & Hj & Hk)]; [lia|left|right].
  - split; [done|]. apply not_elem_of_cons. split; [|done]. by intros ->.
  - exists (S j). split_and!; [lia | done|]. intros [|k] Hlt; simpl; [congruence|]. apply Hk. lia.
Qed.

Lemma containsAt_spec {K : Type} `{EqDecision K} (l : list K) x :
  (containsAt l x = -1 ∧ x ∉ l) ∨ ∃ j : nat, containsAt l x = Z.of_nat j ∧ l !! j = Some x.
Proof.
  destruct (contains_from_spec 0 l x) as [[??]|(j & E & Hj & _)]; [lia | by left | right].
  exists j. split; [exact E | done].
Qed.

Section facts.
Context {F : Type}.
Implicit Types (cv : customLabelValuer F) (cvs done : list (customLabelValuer F)).

(** A valuer points at its own label. *)
Definition points_to (names : list string) cv : Prop :=
  ∃ j : nat, index cv = Z.of_nat j ∧ names !! j = Some (label cv).

Lemma points_to_app names more cv : points_to names cv → points_to (names ++ more) cv.
Proof. intros (j & ? & ?). exists j. split; [done|]. by apply lookup_app_l_Some. Qed.

(** One round of the loop: at most one name more, which is new. *)
Lemma place_label_spec names done cv :
  ∃ more idx,
    (place_label (names, done) cv = (names ++ more, done ++ [mkValuer idx (label cv) (valueFunc cv)])) ∧
    points_to (names ++ more) (mkValuer idx (label cv) (valueFunc cv)) ∧
    more = (if bool_decide (label cv ∈ names) then [] else [label cv]).
Proof.
  unfold place_label. destruct (containsAt_spec names (label cv)) as [[-> Hx]|(j & -> & Hj)].
  - rewrite bool_decide_false by done. eexists [_], _. split; [done|]. split; [|done].
    exists (length names). split; [done|]. by apply list_lookup_middle.
  - rewrite bool_decide_true by (by eapply list_elem_of_lookup_2).
    exists [], (Z.of_nat j). rewrite app_nil_r.
    assert ((Z.of_nat j =? -1) = false) as -> by (apply Z.eqb_neq; lia).
    split; [done|]. split; [|done]. by exists j.
Qed.

Definition valued cv : string * F := (label cv, valueFunc cv).

(** The loop, for any list of valuers with distinct labels. *)
Lemma place_labels_spec cvs names done :
  NoDup names → NoDup (label <$> cvs) → Forall (points_to names) done →
  let '(names', done') := foldl place_label (names, done) cvs in
  names' = names ++ filter (λ l, l ∉ names) (label <$> cvs) ∧ NoDup names' ∧
  valued <$> done' = (valued <$> done) ++ (valued <$> cvs) ∧ Forall (points_to names') done'.
Proof.
  revert names done. induction cvs as [|cv cvs IH]; intros names done Hn Hnd Hd.
  { simpl. rewrite !app_nil_r. done. }
  rewrite fmap_cons in Hnd. apply NoDup_cons in Hnd as [Hcv Hnd].
  cbn [foldl]. destruct (place_label_spec names done cv) as (more & idx & -> & Hp & Hm).
  specialize (IH (names ++ more) (done ++ [mkValuer idx (label cv) (valueFunc cv)])).
  destruct (foldl place_label _ cvs) as [names' done'].
  destruct IH as (-> & Hn' & Ev & Hd'); [|done| |split_and!].
  - rewrite Hm. case_bool_decide; [by rewrite app_nil_r|]. apply NoDup_app. split_and!; [done| |apply NoDup_singleton].
    intros l Hl ->%list_elem_of_singleton. done.
  - apply Forall_app. split; [|by apply Forall_singleton].
    eapply Forall_impl; [done|]. intros. by apply points_to_app.
  - rewrite <- app_assoc. f_equal. rewrite Hm. csimpl.
    case_bool_decide as Hin; simpl.
    + rewrite filter_cons_False by (intros H; by apply H). rewrite app_nil_r. done.
    + rewrite filter_cons_True by done. simpl. f_equal. apply list_filter_iff_in. intros l Hl. rewrite not_elem_of_app, list_elem_of_singleton.
      split; [by intros [? _]|]. intros ?. split; [done|]. by intros ->.
  - done.
  - rewrite Ev, fmap_app, <- app_assoc. done.
  - done.
Qed.

Definition unplaced (kv : string * F) : customLabelValuer F := mkValuer 0 kv.1 kv.2.

Lemma createLabels_order ρ σ ρ' σ' base (customs : gmap string F) :
  createLabels ρ σ base customs = createLabels ρ' σ' base customs.
Proof.
  unfold createLabels. destruct (_ =? 0); [done|]. f_equal.
  apply (Slice_by_key label).
  - by rewrite !range_perm.
  - rewrite <- list_fmap_compose. apply NoDup_range_fst.
Qed.

Lemma createLabels_places ρ σ base (customs : gmap string F) :
  createLabels ρ σ base customs =
    foldl place_label (base, []) (Slice σ label_less (unplaced <$> range ρ customs)).
Proof.
  unfold createLabels. destruct (_ =? 0) eqn:E; [|done]. apply Z.eqb_eq in E.
  assert (customs = ∅) as -> by (apply map_size_empty_inv; lia).
  assert (range ρ (∅ : gmap string F) = []) as -> by by apply range_nil.
  assert (Slice σ label_less (unplaced <$> []) = []) as ->; [|done].
  apply Permutation_nil_r. apply Slice_perm.
Qed.

Lemma createLabels_wf ρ σ base (customs : gmap string F) :
  NoDup base →
  let '(names, valuers) := createLabels ρ σ base customs in
  NoDup names ∧ base `prefix_of` names ∧
  (∀ l, l ∈ names ↔ l ∈ base ∨ is_Some (customs !! l)) ∧
  (∀ l f, (l, f) ∈ valued <$> valuers ↔ customs !! l = Some f) ∧
  NoDup (label <$> valuers) ∧
  StronglySorted (λ l l', l = l' ∨ String.compare l l' = Lt) (label <$> valuers) ∧
  Forall (points_to names) valuers.
Proof.
  intros Hb. rewrite createLabels_places.
  set (cvs := Slice σ label_less (unplaced <$> range ρ customs)) in *.
  assert (valued <$> cvs ≡ₚ range ρ customs) as Hv.
  { unfold cvs. rewrite Slice_perm, <- list_fmap_compose. rewrite <- (list_fmap_id (range ρ customs)) at 2.
    apply reflexive_eq. apply list_fmap_ext. by intros ? [??]. }
  assert (∀ l : list (customLabelValuer F), label <$> l = (valued <$> l).*1) as Hl.
  { intros l. by rewrite <- list_fmap_compose. }
  assert (NoDup (label <$> cvs)) as Hnd by (rewrite Hl, Hv; apply NoDup_range_fst).
  pose proof (place_labels_spec cvs base [] Hb Hnd) as H.
  destruct (foldl place_label _ cvs) as [names valuers] eqn:E.
  destruct H as (-> & Hn & Ev & Hp); [done|]. cbn [app fmap list_fmap] in Ev. split_and!.
  - done.
  - by apply prefix_app_r.
  - intros l. rewrite elem_of_app, list_elem_of_filter, Hl, list_elem_of_fmap.
    destruct (decide (l ∈ base)); [naive_solver|]. split.
    + intros [?|(_ & [l' f] & -> & Hin)]; [done|]. rewrite Hv, elem_of_range in Hin. right. by exists f.
    + intros [?|[f Hf]]; [done|]. right. split; [done|]. exists (l, f). by rewrite Hv, elem_of_range.
  - intros l f. rewrite Ev, Hv. apply elem_of_range.
  - by rewrite Hl, Ev, <- Hl.
  - rewrite Hl, Ev, <- Hl. eapply StronglySorted_fmap; [|by apply Slice_sorted, strict_weak_by].
    intros x y. apply string_ltb_false.
  - done.
Qed.

(** C31: the labels of the metrics are well formed.  [createLabels] gives the
    base labels first and then the configured ones, each name once; each
    configured label has one valuer, sorted by label, whose index is in range
    and points at its label (also when the label is a base one, whose value it
    replaces); and neither the order in which the map is ranged over nor the
    sorting algorithm shows in the result. *)
Theorem createLabels_spec ρ σ base (customs : gmap string F) :
  NoDup base →
  let '(names, valuers) := createLabels ρ σ base customs in
  NoDup names ∧ base `prefix_of` names ∧
  (∀ l, l ∈ names ↔ l ∈ base ∨ is_Some (customs !! l)) ∧
  (∀ l f, (l, f) ∈ valued <$> valuers ↔ customs !! l = Some f) ∧
  NoDup (label <$> valuers) ∧
  StronglySorted (λ l l', l = l' ∨ String.compare l l' = Lt) (label <$> valuers) ∧
  Forall (points_to names) valuers ∧
  ∀ ρ' σ', createLabels ρ' σ' base customs = (names, valuers).
Proof.
  intros Hb. pose proof (createLabels_wf ρ σ base customs Hb) as H1.
  pose proof (λ ρ' σ', createLabels_order ρ' σ' ρ σ base customs) as Ho.
  destruct (createLabels ρ σ base customs) as [names valuers].
  destruct H1 as (?&?&?&?&?&?&?). by split_and!.
Qed.
End facts.

(** ** Witness: a label of its own, and one that replaces a base label *)

Definition lb_customs : gmap string Z := {["scheme" := 1; "code" := 2; "app" := 3]}.

Lemma createLabels_spec_witness :
  ∃ names valuers, createLabels (order_bwd string) sort_unstable ["code"; "method"; "url"] lb_customs = (names, valuers) ∧
    names = ["code"; "method"; "url"; "app"; "scheme"] ∧ index <$> valuers = [3; 0; 4] ∧
    createLabels (order_fwd string) sort_stable ["code"; "method"; "url"] lb_customs = (names, valuers).
Proof.
  pose proof (createLabels_spec (order_bwd string) sort_unstable ["code"; "method"; "url"] lb_customs) as H.
  destruct (createLabels (order_bwd string) sort_unstable ["code"; "method"; "url"] lb_customs)
    as [names valuers] eqn:E.
  destruct H as (_ & _ & _ & _ & _ & _ & _ & Ho); [by apply (bool_decide_unpack _); vm_compute|].
  exists names, valuers. split; [done|]. specialize (Ho (order_fwd string) sort_stable).
  vm_compute in E. injection E as <- <-. split_and!; [done..|exact Ho].
Defined.
