(* ===== verification/Cluster.v ===== *)
(** * Clusters and their subscriptions

    [internal/state/cluster.go] and [internal/state/cluster_subscribe.go]: the
    affiliate table, the watchers' event channels, and the operations on them.

    A [*Subscription] is shared between the cluster's map and the goroutine
    that watches: subscriptions live in a store [subs] indexed by pointer, and
    [subscribers] maps an id to a pointer, as the Go map does.  A function that
    reads the clock takes the reading [now]; one that ranges over a map takes
    the order [ρ] the run-time happens to choose.  Panics are results. *)

From S2P Require Import Prelude GoTime GoChan Limits Affiliate.

Definition affiliateSubBuffer : Z := 64.

Abbreviation AffiliateEventType := Z.
Definition AffiliateEventUpsert : AffiliateEventType := 0.
Definition AffiliateEventDelete : AffiliateEventType := 1.

Record AffiliateEvent : Type := mkEvent { Type_ : AffiliateEventType; Info : AffiliateInfo }.

#[export] Instance AffiliateEvent_eq_dec : EqDecision AffiliateEvent.
Proof. solve_decision. Defined.

(** [closeFn] is a method of the cluster (below), so it is not a field. *)
Record Subscription : Type := mkSub {
  sub_id : Z;
  ch : Chan AffiliateEvent;
  errCh : Chan string;
  closed : bool;
  closeOnce : bool;
}.

#[export] Instance Subscription_eq_dec : EqDecision Subscription.
Proof. solve_decision. Defined.

(** A pointer to a subscription of the store. *)
Abbreviation SubPtr := nat.

Record Cluster : Type := mkCluster {
  cl_id : string;
  cl_expiry : Z;
  affiliates : gmap string Affiliate;
  nextSubID : Z;
  subscribers : gmap Z SubPtr;
  subs : list Subscription;
}.

Definition set_cl_expiry (e : Z) (c : Cluster) : Cluster :=
  mkCluster (cl_id c) e (affiliates c) (nextSubID c) (subscribers c) (subs c).
Definition set_affiliates (m : gmap string Affiliate) (c : Cluster) : Cluster :=
  mkCluster (cl_id c) (cl_expiry c) m (nextSubID c) (subscribers c) (subs c).
Definition set_subscribers (m : gmap Z SubPtr) (c : Cluster) : Cluster :=
  mkCluster (cl_id c) (cl_expiry c) (affiliates c) (nextSubID c) m (subs c).
Definition set_subs (l : list Subscription) (c : Cluster) : Cluster :=
  mkCluster (cl_id c) (cl_expiry c) (affiliates c) (nextSubID c) (subscribers c) l.
Definition upd_sub (p : SubPtr) (s : Subscription) (c : Cluster) : Cluster :=
  set_subs (<[p := s]> (subs c)) c.

(** ** cluster.go: expiry *)

Definition NewCluster (now : Time) (clusterId : string) : Cluster :=
  mkCluster clusterId (UnixNano (Add now ClusterTTL)) ∅ 0 ∅ [].

Definition prolongExpiry (now : Time) (c : Cluster) : Cluster :=
  set_cl_expiry (UnixNano (Add now ClusterTTL)) c.

Definition IsExpired (now : Time) (c : Cluster) : bool := cl_expiry c <? UnixNano now.

Definition IsEmpty (c : Cluster) : bool :=
  let noAffiliates := len_map (affiliates c) =? 0 in
  let noSubscribers := len_map (subscribers c) =? 0 in
  noAffiliates && noSubscribers.

(** ** cluster_subscribe.go: one subscription *)

(** The body of [closeFn], for the subscription at [p]. *)
Definition closeFn (now : Time) (p : SubPtr) (c : Cluster) : result Panic Cluster :=
  match subs c !! p with
  | None => Err NilDereference
  | Some sub =>
      match subscribers c !! sub_id sub with
      | None => Ok c
      | Some _ =>
          let c1 := set_subscribers (delete (sub_id sub) (subscribers c)) c in
          ch' <-? close_chan (ch sub) ;;
          errCh' <-? close_chan (errCh sub) ;;
          Ok (prolongExpiry now
                (upd_sub p (mkSub (sub_id sub) ch' errCh' (closed sub) (closeOnce sub)) c1))
      end
  end.

(** [Subscription.Close]: [closeOnce.Do] runs its body at most once. *)
Definition Subscription_Close (now : Time) (p : SubPtr) (c : Cluster) : result Panic Cluster :=
  match subs c !! p with
  | None => Err NilDereference
  | Some sub =>
      if closeOnce sub then Ok c
      else closeFn now p (upd_sub p (mkSub (sub_id sub) (ch sub) (errCh sub) true true) c)
  end.

Definition lost_update : string := "lost update".

(** [Subscription.notify] *)
Definition Subscription_notify (now : Time) (ev : AffiliateEvent) (c : Cluster) (p : SubPtr) :
    result Panic Cluster :=
  match subs c !! p with
  | None => Err NilDereference
  | Some sub =>
      if closed sub then Ok c
      else
        r <-? try_send ev (ch sub) ;;
        let '(sent, ch') := r in
        let sub1 := mkSub (sub_id sub) ch' (errCh sub) (closed sub) (closeOnce sub) in
        if sent : bool then Ok (upd_sub p sub1 c)
        else
          r <-? try_send lost_update (errCh sub1) ;;
          let '(_, errCh') := r in
          let sub2 := mkSub (sub_id sub1) (ch sub1) errCh' (closed sub1) (closeOnce sub1) in
          Subscription_Close now p (upd_sub p sub2 c)
  end.

(** [Cluster.notify]: a copy of the subscribers, then each of them. *)
Definition notify (ρ : MapOrder Z) (now : Time) (ev : AffiliateEvent) (c : Cluster) :
    result Panic Cluster :=
  rfold (Subscription_notify now ev) c (range ρ (subscribers c)).*2.

(** ** cluster.go: affiliates *)

(** The part of [updateAffiliateLocked] after the affiliate is in the map. *)
Definition update_in_place (expiry : Time) (req : AffiliateUpdateRequest.t) (affiliate : Affiliate)
    (c : Cluster) : Cluster * result StateError (option AffiliateEvent) :=
  let dataChanged := 0 <? len (AffiliateUpdateRequest.Data req) in
  let a1 :=
    if dataChanged then set_data (AffiliateUpdateRequest.Data req) (set_expiry expiry affiliate)
    else affiliate in
  let '(a2, r) := MergeEndpoints (AffiliateUpdateRequest.Endpoints req) expiry a1 in
  let c' := set_affiliates (<[AffiliateUpdateRequest.ID req := a2]> (affiliates c)) c in
  match r with
  | Err e => (c', Err e)
  | Ok endpointsChanged =>
      if negb dataChanged && negb endpointsChanged then (c', Ok None)
      else (c', Ok (Some (mkEvent AffiliateEventUpsert (ToInfo a2))))
  end.

Definition updateAffiliateLocked (now : Time) (req : AffiliateUpdateRequest.t) (c : Cluster) :
    Cluster * result StateError (option AffiliateEvent) :=
  let expiry := Add now (AffiliateUpdateRequest.TTL req) in
  match affiliates c !! AffiliateUpdateRequest.ID req with
  | Some affiliate => update_in_place expiry req affiliate c
  | None =>
      if AffiliatesMax <=? len_map (affiliates c) then (c, Err ErrTooManyAffiliates)
      else
        let affiliate := mkAffiliate (AffiliateUpdateRequest.ID req) zero_time [] [] in
        update_in_place expiry req affiliate
          (set_affiliates (<[AffiliateUpdateRequest.ID req := affiliate]> (affiliates c)) c)
  end.

Definition UpdateAffiliate (ρ : MapOrder Z) (now : Time) (req : AffiliateUpdateRequest.t)
    (c : Cluster) : result Panic (Cluster * result StateError ()) :=
  let '(c1, r) := updateAffiliateLocked now req c in
  match r with
  | Err e => Ok (c1, Err e)
  | Ok (Some ev) => c2 <-? notify ρ now ev c1 ;; Ok (c2, Ok ())
  | Ok None => Ok (c1, Ok ())
  end.

Definition tombstone (id : string) : AffiliateEvent :=
  mkEvent AffiliateEventDelete (mkInfo id [] []).

Definition deleteAffiliateLocked (id : string) (c : Cluster) : Cluster * option AffiliateEvent :=
  match affiliates c !! id with
  | None => (c, None)
  | Some _ => (set_affiliates (delete id (affiliates c)) c, Some (tombstone id))
  end.

Definition DeleteAffiliate (ρ : MapOrder Z) (now : Time) (id : string) (c : Cluster) :
    result Panic (Cluster * result StateError ()) :=
  let '(c1, oev) := deleteAffiliateLocked id c in
  match oev with
  | Some ev => c2 <-? notify ρ now ev (prolongExpiry now c1) ;; Ok (c2, Ok ())
  | None => Ok (c1, Ok ())
  end.

Definition listAffiliatesLocked (ρ : MapOrder string) (c : Cluster) :
    result StateError (list AffiliateInfo) :=
  Ok ((λ ka, ToInfo ka.2) <$> range ρ (affiliates c)).

Definition ListAffiliates (ρ : MapOrder string) (c : Cluster) :
    result StateError (list AffiliateInfo) :=
  listAffiliatesLocked ρ c.

(** The inner loop of [pruneAffiliates]: [newEndpoints] and [changed]. *)
Fixpoint prune_endpoints (now : Time) (newEndpoints : Endpoints) (changed : bool)
    (es : Endpoints) : Endpoints * bool :=
  match es with
  | [] => (newEndpoints, changed)
  | ep :: es' =>
      if After (ep_expiry ep) now then prune_endpoints now (newEndpoints ++ [ep]) changed es'
      else prune_endpoints now newEndpoints true es'
  end.

(** One iteration of the outer loop, on the map and the events so far. *)
Definition prune_affiliate (now : Time)
    (st : gmap string Affiliate * list AffiliateEvent) (entry : string * Affiliate) :
    gmap string Affiliate * list AffiliateEvent :=
  let '(m, events) := st in
  let '(id, aff) := entry in
  if negb (After (aff_expiry aff) now) then (delete id m, events ++ [tombstone id])
  else
    let '(newEndpoints, changed) := prune_endpoints now [] false (aff_endpoints aff) in
    if changed : bool then
      let aff' := set_endpoints newEndpoints aff in
      (<[id := aff']> m, events ++ [mkEvent AffiliateEventUpsert (ToInfo aff')])
    else (m, events).

Definition pruneAffiliates (ρ : MapOrder string) (now : Time) (c : Cluster) :
    Cluster * list AffiliateEvent :=
  let '(m, events) := foldl (prune_affiliate now) (affiliates c, []) (range ρ (affiliates c)) in
  (set_affiliates m c, events).

Definition Prune (ρ : MapOrder string) (ρs : nat → MapOrder Z) (now : Time) (c : Cluster) :
    result Panic Cluster :=
  let '(c1, events) := pruneAffiliates ρ now c in
  rfold (λ c' iev, notify (ρs iev.1) now iev.2 c') c1 (imap pair events).

(** ** cluster_subscribe.go: subscribing *)

(** [SubscribeWithSnapshot]: the snapshot and the registration happen in one
    critical section.  The goroutine it starts calls [Close] when the context
    ends, a separate step. *)
Definition SubscribeWithSnapshot (ρ : MapOrder string) (c : Cluster) :
    Cluster * result StateError (list AffiliateInfo * SubPtr) :=
  let subID := wrapu64 (nextSubID c + 1) in
  let sub := mkSub subID (make_chan affiliateSubBuffer) (make_chan 1) false false in
  let p := length (subs c) in
  let c1 := mkCluster (cl_id c) (cl_expiry c) (affiliates c) subID (subscribers c)
              (subs c ++ [sub]) in
  match listAffiliatesLocked ρ c1 with
  | Err e => (c1, Err e)
  | Ok snapshot => (set_subscribers (<[subID := p]> (subscribers c1)) c1, Ok (snapshot, p))
  end.

(** [<-sub.Events()] and [<-sub.Errors()], by the watcher holding [p]. *)
Definition recv_event (p : SubPtr) (c : Cluster) : option (AffiliateEvent * Cluster) :=
  sub ← subs c !! p;
  match recv (ch sub) with
  | Got ev ch' =>
      Some (ev, upd_sub p (mkSub (sub_id sub) ch' (errCh sub) (closed sub) (closeOnce sub)) c)
  | _ => None
  end.

Definition recv_error (p : SubPtr) (c : Cluster) : option (string * Cluster) :=
  sub ← subs c !! p;
  match recv (errCh sub) with
  | Got e errCh' =>
      Some (e, upd_sub p (mkSub (sub_id sub) (ch sub) errCh' (closed sub) (closeOnce sub)) c)
  | _ => None
  end.
