(* ===== verification/ClusterSubs.v ===== *)
(** * Facts on subscriptions: no panic, and what a fan-out delivers

    [wf_subs] ties the store of subscriptions to the cluster's map.  Under it
    closing and notifying never panic, and the fan-out is the pure function
    [deliver] applied to every subscription of the store. *)

From S2P Require Import Prelude GoTime GoChan Limits Affiliate Cluster.

(** ** Well-formed subscriptions *)

Record wf_sub (m : gmap Z SubPtr) (p : SubPtr) (s : Subscription) : Prop := {
  wf_sub_id : sub_id s = wrapu64 (Z.of_nat p + 1);
  wf_sub_cap : chan_cap (ch s) = affiliateSubBuffer;
  wf_sub_len : len (chan_buf (ch s)) ≤ affiliateSubBuffer;
  wf_sub_errcap : chan_cap (errCh s) = 1;
  wf_sub_errlen : len (chan_buf (errCh s)) ≤ 1;
  wf_sub_once : closeOnce s = closed s;
  wf_sub_ch : chan_closed (ch s) = closed s;
  wf_sub_errch : chan_closed (errCh s) = closed s;
  wf_sub_quiet : closed s = false → chan_buf (errCh s) = [];
  wf_sub_owned : m !! sub_id s = if closed s then None else Some p;
}.

(** Fewer than 2^64 subscriptions so far: ids have not wrapped around. *)
Record wf_subs (c : Cluster) : Prop := {
  wf_subs_bound : len (subs c) < two64;
  wf_subs_next : nextSubID c = len (subs c);
  wf_subs_sub p s : subs c !! p = Some s → wf_sub (subscribers c) p s;
  wf_subs_map i p : subscribers c !! i = Some p → ∃ s, subs c !! p = Some s ∧ sub_id s = i;
}.

#[export] Hint Resolve wf_sub_once wf_sub_ch wf_sub_errch wf_sub_quiet : go.

(** ** The pure effect of one event on one subscription *)

Definition close_sub (s : Subscription) : Subscription :=
  mkSub (sub_id s) (shut (ch s)) (shut (errCh s)) true true.

(** An open subscription queues the event, or, when its buffer is full, is
    given the error and closed. *)
Definition deliver (ev : AffiliateEvent) (s : Subscription) : Subscription :=
  if closed s then s
  else if has_room (ch s) then
    mkSub (sub_id s) (push ev (ch s)) (errCh s) (closed s) (closeOnce s)
  else close_sub (mkSub (sub_id s) (ch s) (push lost_update (errCh s)) (closed s) (closeOnce s)).

(** Open, with a full buffer: the next event closes it. *)
Definition lagging (s : Subscription) : bool := negb (closed s) && negb (has_room (ch s)).

(** The pure effect of closing the subscription at [p]. *)
Definition close_at (now : Time) (p : SubPtr) (s : Subscription) (c : Cluster) : Cluster :=
  if closed s then c
  else prolongExpiry now
         (upd_sub p (close_sub s) (set_subscribers (delete (sub_id s) (subscribers c)) c)).

Lemma deliver_closed ev s : closed s = true → deliver ev s = s.
Proof. unfold deliver. by intros ->. Qed.

Lemma deliver_id ev s : sub_id (deliver ev s) = sub_id s.
Proof. unfold deliver. by destruct (closed s), (has_room (ch s)). Qed.

Lemma deliver_is_closed ev s : closed (deliver ev s) = closed s || lagging s.
Proof. unfold deliver, lagging. by destruct (closed s) eqn:E, (has_room (ch s)); simpl. Qed.

(** ** Closing *)

Lemma sub_id_inj c p q s t :
  wf_subs c → subs c !! p = Some s → subs c !! q = Some t → sub_id s = sub_id t → p = q.
Proof.
  intros Hwf Hp Hq E. pose proof (wf_subs_bound c Hwf) as Hb. unfold len in Hb.
  apply lookup_lt_Some in Hp as Hp', Hq as Hq'.
  apply (wf_subs_sub c Hwf) in Hp, Hq.
  rewrite (wf_sub_id _ _ _ Hp), (wf_sub_id _ _ _ Hq), !wrapu64_id in E; lia.
Qed.

Lemma Subscription_Close_eq now p s c :
  wf_subs c → subs c !! p = Some s → Subscription_Close now p c = Ok (close_at now p s c).
Proof.
  intros Hwf Hp. pose proof (wf_subs_sub c Hwf p s Hp) as Hs.
  unfold Subscription_Close, close_at. rewrite Hp, (wf_sub_once _ _ _ Hs).
  destruct (closed s) eqn:Ec; [done|].
  assert (p < length (subs c))%nat by (by eapply lookup_lt_Some).
  unfold closeFn, upd_sub. simpl. rewrite list_lookup_insert_eq by done. simpl.
  rewrite (wf_sub_owned _ _ _ Hs), Ec.
  rewrite !close_chan_open by (by rewrite ?(wf_sub_ch _ _ _ Hs), ?(wf_sub_errch _ _ _ Hs)).
  simpl. by rewrite list_insert_insert_eq.
Qed.

(** [wf_subs] only reads three fields. *)
Lemma wf_subs_ext c c' :
  wf_subs c → subs c' = subs c → subscribers c' = subscribers c → nextSubID c' = nextSubID c →
  wf_subs c'.
Proof.
  intros Hwf Es Em En. split; rewrite ?Es, ?Em, ?En; by apply Hwf.
Qed.

(** Replacing one subscription, and dropping it from the map when it is closed. *)
Lemma wf_subs_update c c' p s s' :
  wf_subs c → subs c !! p = Some s → sub_id s' = sub_id s → closed s = false →
  subs c' = <[p := s']> (subs c) → nextSubID c' = nextSubID c →
  subscribers c' = (if closed s' then delete (sub_id s) (subscribers c) else subscribers c) →
  wf_sub (subscribers c') p s' →
  wf_subs c'.
Proof.
  intros Hwf Hp Eid Ho Es En Em Hs'.
  assert (p < length (subs c))%nat as Hlt by (by eapply lookup_lt_Some).
  pose proof (wf_sub_owned _ _ _ (wf_subs_sub c Hwf p s Hp)) as Hown. rewrite Ho in Hown.
  split.
  - rewrite Es. unfold len. rewrite length_insert. apply Hwf.
  - rewrite Es, En. unfold len. rewrite length_insert. apply Hwf.
  - intros q t Hq. rewrite Es in Hq. destruct (decide (q = p)) as [->|Hne].
    { rewrite list_lookup_insert_eq in Hq by done. by injection Hq as <-. }
    rewrite list_lookup_insert_ne in Hq by done.
    destruct (wf_subs_sub c Hwf q t Hq) as [????????? Ho']. split; try done. rewrite Em.
    destruct (closed s'); [|done]. rewrite lookup_delete_ne; [done|].
    intros E. apply Hne. symmetry. by eapply (sub_id_inj c).
  - intros i q Hi. rewrite Em in Hi. rewrite Es.
    destruct (decide (q = p)) as [->|Hne].
    + exists s'. rewrite list_lookup_insert_eq by done. split; [done|]. rewrite Eid.
      destruct (wf_subs_map c Hwf i p) as (t & Ht & <-); [|by simplify_eq].
      destruct (closed s'); [|done]. by apply lookup_delete_Some in Hi as [_ ?].
    + rewrite list_lookup_insert_ne by done. apply (wf_subs_map c Hwf i q).
      destruct (closed s'); [|done]. by apply lookup_delete_Some in Hi as [_ ?].
Qed.

Lemma wf_sub_close m p s :
  wf_sub m p s → wf_sub (delete (sub_id s) m) p (close_sub s).
Proof. intros []. split; simpl; try done. apply lookup_delete_eq. Qed.

Lemma close_at_wf now p s c :
  wf_subs c → subs c !! p = Some s → wf_subs (close_at now p s c).
Proof.
  intros Hwf Hp. unfold close_at. destruct (closed s) eqn:Ec; [done|].
  eapply (wf_subs_update c _ p s (close_sub s)); simpl; try done.
  apply wf_sub_close. by apply Hwf.
Qed.

(** ** One notification *)

(** The pure effect of [Subscription.notify] on the cluster. *)
Definition notify_at (now : Time) (ev : AffiliateEvent) (c : Cluster) (p : SubPtr) : Cluster :=
  match subs c !! p with
  | None => c
  | Some s =>
      if closed s then c
      else if has_room (ch s) then upd_sub p (deliver ev s) c
      else prolongExpiry now
             (upd_sub p (deliver ev s) (set_subscribers (delete (sub_id s) (subscribers c)) c))
  end.

Lemma len_push {A} (x : A) (c : Chan A) :
  has_room c = true → len (chan_buf (push x c)) ≤ chan_cap c.
Proof. unfold has_room, len. simpl. rewrite length_app. intros ?%Z.ltb_lt. simpl. lia. Qed.

Lemma wf_sub_deliver m p s ev :
  wf_sub m p s → closed s = false →
  wf_sub (if has_room (ch s) then m else delete (sub_id s) m) p (deliver ev s).
Proof.
  intros Hs Ho. pose proof Hs as [Hid Hc Hl Hec Hel Hon Hcc Hce Hq Hw]. unfold deliver. rewrite Ho. rewrite Ho in Hon, Hcc, Hce, Hq, Hw.
  destruct (has_room (ch s)) eqn:Er; split; simpl; try done; rewrite ?Hc, ?Hec, ?Ho; try done.
  - rewrite <- Hc. by apply len_push.
  - rewrite (Hq eq_refl). by vm_compute.
  - apply lookup_delete_eq.
Qed.

Lemma Subscription_notify_eq now ev c p s :
  wf_subs c → subs c !! p = Some s → Subscription_notify now ev c p = Ok (notify_at now ev c p).
Proof.
  intros Hwf Hp. pose proof (wf_subs_sub c Hwf p s Hp) as Hs.
  assert (p < length (subs c))%nat as Hlt by (by eapply lookup_lt_Some).
  unfold Subscription_notify, notify_at, deliver. rewrite Hp.
  destruct (closed s) eqn:Ec; [done|].
  rewrite try_send_open by (by rewrite (wf_sub_ch _ _ _ Hs)). simpl.
  destruct (has_room (ch s)) eqn:Er; simpl; [done|].
  rewrite try_send_open by (by rewrite (wf_sub_errch _ _ _ Hs)). simpl.
  assert (has_room (errCh s) = true) as ->.
  { unfold has_room. by rewrite (wf_sub_quiet _ _ _ Hs Ec), (wf_sub_errcap _ _ _ Hs). }
  simpl. unfold Subscription_Close, closeFn, upd_sub. simpl.
  rewrite list_lookup_insert_eq by done. simpl.
  rewrite (wf_sub_once _ _ _ Hs), Ec, list_insert_insert_eq, list_lookup_insert_eq by done. simpl.
  rewrite (wf_sub_owned _ _ _ Hs), Ec.
  rewrite !close_chan_open by (by simpl; rewrite ?(wf_sub_ch _ _ _ Hs), ?(wf_sub_errch _ _ _ Hs)).
  simpl. by rewrite list_insert_insert_eq.
Qed.

Lemma notify_at_wf now ev c p : wf_subs c → wf_subs (notify_at now ev c p).
Proof.
  intros Hwf. unfold notify_at. destruct (subs c !! p) as [s|] eqn:Hp; [|done].
  destruct (closed s) eqn:Ec; [done|].
  pose proof (wf_sub_deliver _ _ _ ev (wf_subs_sub c Hwf p s Hp) Ec) as Hd.
  pose proof (deliver_is_closed ev s) as Hcl. unfold lagging in Hcl. rewrite Ec in Hcl.
  destruct (has_room (ch s)) eqn:Er; eapply (wf_subs_update c _ p s (deliver ev s));
    simpl in *; rewrite ?deliver_id, ?Hcl; try done.
Qed.

Lemma notify_at_frame now ev c p :
  affiliates (notify_at now ev c p) = affiliates c ∧ cl_id (notify_at now ev c p) = cl_id c ∧
  length (subs (notify_at now ev c p)) = length (subs c).
Proof.
  unfold notify_at. destruct (subs c !! p) as [s|]; [|done]. destruct (closed s); [done|].
  destruct (has_room _); simpl; by rewrite length_insert.
Qed.

Lemma notify_at_sub now ev c p q :
  subs (notify_at now ev c p) !! q =
  if bool_decide (q = p) then deliver ev <$> subs c !! q else subs c !! q.
Proof.
  unfold notify_at. destruct (subs c !! p) as [s|] eqn:Hp.
  - assert (p < length (subs c))%nat by (by eapply lookup_lt_Some).
    destruct (closed s) eqn:Ec.
    + case_bool_decide; [|done]. subst. rewrite Hp. simpl. by rewrite deliver_closed.
    + destruct (has_room _); simpl; case_bool_decide; subst;
        rewrite ?list_lookup_insert_eq, ?list_lookup_insert_ne, ?Hp by done; done.
  - case_bool_decide; [|done]. subst. by rewrite Hp.
Qed.

(** ** The fan-out *)

Definition lagging_at (c : Cluster) (p : SubPtr) : bool :=
  match subs c !! p with Some s => lagging s | None => false end.

(** The effect of notifying the pointers of [l], in no particular order. *)
Definition fan_out_to (now : Time) (ev : AffiliateEvent) (l : list SubPtr) (c : Cluster) : Cluster :=
  mkCluster (cl_id c)
    (if existsb (lagging_at c) l then UnixNano (Add now ClusterTTL) else cl_expiry c)
    (affiliates c) (nextSubID c)
    (filter (λ ip, ¬ (ip.2 ∈ l ∧ lagging_at c ip.2 = true)) (subscribers c))
    (imap (λ p s, if bool_decide (p ∈ l) then deliver ev s else s) (subs c)).

(** The effect of [Cluster.notify]: every subscription is given the event, the
    ones it closes leave the map, and closing any of them prolongs the expiry. *)
Definition fan_out (now : Time) (ev : AffiliateEvent) (c : Cluster) : Cluster :=
  mkCluster (cl_id c)
    (if existsb lagging (subs c) then UnixNano (Add now ClusterTTL) else cl_expiry c)
    (affiliates c) (nextSubID c)
    (filter (λ ip, lagging_at c ip.2 = false) (subscribers c))
    (deliver ev <$> subs c).

Lemma fan_out_to_nil now ev c : fan_out_to now ev [] c = c.
Proof.
  destruct c as [i e a n m l]. unfold fan_out_to. simpl. f_equal.
  - apply map_filter_id. intros ? ? ? [?%not_elem_of_nil ?]. done.
  - apply list_eq. intros k. rewrite list_lookup_imap. by destruct (l !! k).
Qed.

(** What one notification leaves of the map, and of the other subscriptions. *)
Lemma notify_at_map now ev c p i q :
  wf_subs c →
  subscribers (notify_at now ev c p) !! i = Some q ↔
  subscribers c !! i = Some q ∧ ¬ (q = p ∧ lagging_at c p = true).
Proof.
  intros Hwf. unfold notify_at, lagging_at, lagging.
  destruct (subs c !! p) as [s|] eqn:Hp; simpl; [|naive_solver].
  destruct (closed s) eqn:Ec; simpl; [naive_solver|].
  destruct (has_room (ch s)); simpl; [naive_solver|].
  pose proof (wf_sub_owned _ _ _ (wf_subs_sub c Hwf p s Hp)) as Hown. rewrite Ec in Hown.
  rewrite lookup_delete_Some. split.
  - intros [Hne Hi]. split; [done|]. intros [-> _].
    destruct (wf_subs_map c Hwf i p Hi) as (t & Ht & <-). by simplify_eq.
  - intros [Hi Hne]. split; [|done]. intros <-. apply Hne. rewrite Hown in Hi. by simplify_eq.
Qed.

Lemma notify_at_lagging now ev c p q :
  q ≠ p → lagging_at (notify_at now ev c p) q = lagging_at c q.
Proof. intros Hne. unfold lagging_at. rewrite notify_at_sub. by rewrite bool_decide_false. Qed.

Lemma notify_at_expiry now ev c p :
  cl_expiry (notify_at now ev c p) =
  if lagging_at c p then UnixNano (Add now ClusterTTL) else cl_expiry c.
Proof.
  unfold notify_at, lagging_at, lagging. destruct (subs c !! p) as [s|]; [|done].
  by destruct (closed s), (has_room (ch s)).
Qed.

Lemma notify_at_next now ev c p : nextSubID (notify_at now ev c p) = nextSubID c.
Proof.
  unfold notify_at. destruct (subs c !! p) as [s|]; [|done]. by destruct (closed s), (has_room (ch s)).
Qed.

Lemma existsb_ext_in {A} (f g : A → bool) l :
  (∀ x, x ∈ l → f x = g x) → existsb f l = existsb g l.
Proof.
  induction l as [|x l IH]; intros H; simpl; [done|].
  rewrite H by left. f_equal. apply IH. intros; apply H; by right.
Qed.

Lemma fan_out_to_cons now ev p l c :
  wf_subs c → p ∉ l → fan_out_to now ev l (notify_at now ev c p) = fan_out_to now ev (p :: l) c.
Proof.
  intros Hwf Hp. pose proof (notify_at_frame now ev c p) as (Ea & Ei & _).
  unfold fan_out_to. rewrite Ea, Ei, notify_at_next, notify_at_expiry. f_equal.
  - simpl. rewrite (existsb_ext_in _ (lagging_at c)).
    + by destruct (existsb _ l), (lagging_at c p).
    + intros q Hq. apply notify_at_lagging. by intros ->.
  - apply map_eq. intros i. apply option_eq. intros q.
    rewrite !map_lookup_filter_Some, notify_at_map by done. simpl.
    rewrite elem_of_cons. destruct (decide (q = p)) as [->|Hne]; [naive_solver|].
    rewrite notify_at_lagging by done. naive_solver.
  - apply list_eq. intros q. rewrite !list_lookup_imap, notify_at_sub.
    destruct (decide (q = p)) as [->|Hne].
    + rewrite (bool_decide_true (p = p)) by done. destruct (subs c !! p); [|done]. simpl.
      rewrite (bool_decide_false (p ∈ l)) by done. by rewrite (bool_decide_true (p ∈ p :: l)) by left.
    + rewrite (bool_decide_false (q = p)) by done. destruct (subs c !! q); [|done]. simpl. f_equal.
      rewrite (bool_decide_ext (q ∈ p :: l) (q ∈ l)); [done|].
      rewrite elem_of_cons. naive_solver.
Qed.

Lemma rfold_notify now ev c l :
  wf_subs c → NoDup l → (∀ p, p ∈ l → is_Some (subs c !! p)) →
  rfold (Subscription_notify now ev) c l = Ok (fan_out_to now ev l c).
Proof.
  revert c. induction l as [|p l IH]; intros c Hwf Hnd Hl; simpl; [by rewrite fan_out_to_nil|].
  apply NoDup_cons in Hnd as [Hp Hnd].
  destruct (Hl p) as [s Hs]; [left|]. rewrite (Subscription_notify_eq now ev c p s) by done. simpl.
  rewrite IH; [by rewrite fan_out_to_cons | by apply notify_at_wf | done |].
  intros q Hq. rewrite notify_at_sub. destruct (Hl q) as [t Ht]; [by right|].
  rewrite Ht. case_bool_decide; simpl; eauto.
Qed.

(** The pointers [notify] copies are the open subscriptions. *)
Lemma elem_of_subscribers ρ c p :
  wf_subs c →
  p ∈ (range ρ (subscribers c)).*2 ↔ ∃ s, subs c !! p = Some s ∧ closed s = false.
Proof.
  intros Hwf. rewrite list_elem_of_fmap. split.
  - intros ([i q] & -> & Hin%elem_of_range). simpl.
    destruct (wf_subs_map c Hwf i q Hin) as (s & Hs & <-). exists s. split; [done|].
    pose proof (wf_sub_owned _ _ _ (wf_subs_sub c Hwf q s Hs)) as Hown. rewrite Hin in Hown.
    by destruct (closed s).
  - intros (s & Hs & Ho). exists (sub_id s, p). split; [done|]. apply elem_of_range.
    rewrite (wf_sub_owned _ _ _ (wf_subs_sub c Hwf p s Hs)). by rewrite Ho.
Qed.

Lemma NoDup_subscribers ρ c : wf_subs c → NoDup (range ρ (subscribers c)).*2.
Proof.
  intros Hwf. apply NoDup_fmap_2_strong.
  - intros [i p] [j q] Hi%elem_of_range Hj%elem_of_range E. simpl in E. subst q.
    destruct (wf_subs_map c Hwf i p Hi) as (s & Hs & <-).
    destruct (wf_subs_map c Hwf j p Hj) as (t & Ht & <-). by simplify_eq.
  - eapply NoDup_fmap_1, (NoDup_range_fst ρ).
Qed.

Lemma existsb_lagging_open ρ c :
  wf_subs c →
  existsb (lagging_at c) (range ρ (subscribers c)).*2 = existsb lagging (subs c).
Proof.
  intros Hwf. apply eq_true_iff_eq. rewrite !existsb_exists. split.
  - intros (p & Hp & Hl). apply list_elem_of_In, elem_of_subscribers in Hp as (s & Hs & _); [|done].
    exists s. split; [by apply list_elem_of_In, list_elem_of_lookup_2 with p|].
    unfold lagging_at in Hl. by rewrite Hs in Hl.
  - intros (s & Hs & Hl). apply list_elem_of_In, list_elem_of_lookup in Hs as [p Hp].
    exists p. unfold lagging_at. rewrite Hp. split; [|done].
    apply list_elem_of_In, elem_of_subscribers; [done|]. exists s. split; [done|].
    unfold lagging in Hl. by destruct (closed s).
Qed.

(** [Cluster.notify] never panics and its result does not depend on the order
    in which the map is ranged over. *)
Lemma notify_fan_out ρ now ev c : wf_subs c → notify ρ now ev c = Ok (fan_out now ev c).
Proof.
  intros Hwf. unfold notify. rewrite rfold_notify.
  - f_equal. unfold fan_out_to, fan_out. rewrite existsb_lagging_open by done. f_equal.
    + apply map_eq. intros i. apply option_eq. intros p.
      rewrite !map_lookup_filter_Some. simpl. split.
      * intros [Hi Hn]. split; [done|]. destruct (lagging_at c p) eqn:El; [|done].
        destruct Hn. split; [|done]. apply list_elem_of_fmap. exists (i, p).
        by rewrite elem_of_range.
      * intros [Hi El]. split; [done|]. rewrite El. by intros [_ ?].
    + apply list_eq. intros p. rewrite list_lookup_imap, list_lookup_fmap.
      destruct (subs c !! p) as [s|] eqn:Hp; [|done]. simpl. f_equal.
      case_bool_decide as Hin; [done|]. rewrite deliver_closed; [done|].
      destruct (closed s) eqn:Ec; [done|]. destruct Hin.
      apply elem_of_subscribers; eauto.
  - done.
  - by apply NoDup_subscribers.
  - intros p (s & Hs & _)%elem_of_subscribers; eauto.
Qed.

Lemma fan_out_lookup now ev c p : subs (fan_out now ev c) !! p = deliver ev <$> subs c !! p.
Proof. apply list_lookup_fmap. Qed.

Lemma fold_notify_at_wf now ev l c : wf_subs c → wf_subs (foldl (notify_at now ev) c l).
Proof. revert c. induction l as [|p l IH]; intros c Hwf; simpl; [done|]. by apply IH, notify_at_wf. Qed.

Lemma rfold_notify_at now ev c l :
  wf_subs c → (∀ p, p ∈ l → is_Some (subs c !! p)) →
  rfold (Subscription_notify now ev) c l = Ok (foldl (notify_at now ev) c l).
Proof.
  revert c. induction l as [|p l IH]; intros c Hwf Hl; simpl; [done|].
  destruct (Hl p) as [s Hs]; [left|]. rewrite (Subscription_notify_eq now ev c p s) by done. simpl.
  apply IH; [by apply notify_at_wf|]. intros q Hq. rewrite notify_at_sub.
  destruct (Hl q) as [t Ht]; [by right|]. rewrite Ht. case_bool_decide; simpl; eauto.
Qed.

Lemma fan_out_wf now ev c : wf_subs c → wf_subs (fan_out now ev c).
Proof.
  intros Hwf. pose proof (notify_fan_out (order_fwd Z) now ev c Hwf) as E.
  unfold notify in E. rewrite rfold_notify_at in E; [|done|].
  - injection E as <-. by apply fold_notify_at_wf.
  - intros p (s & Hs & _)%elem_of_subscribers; eauto.
Qed.

(** ** Subscribing, receiving *)

Lemma wf_subs_new now id : wf_subs (NewCluster now id).
Proof. by split. Qed.

(** The cluster after [SubscribeWithSnapshot]. *)
Definition subscribed (c : Cluster) : Cluster :=
  let subID := wrapu64 (nextSubID c + 1) in
  mkCluster (cl_id c) (cl_expiry c) (affiliates c) subID
    (<[subID := length (subs c)]> (subscribers c))
    (subs c ++ [mkSub subID (make_chan affiliateSubBuffer) (make_chan 1) false false]).

Lemma SubscribeWithSnapshot_eq ρ c :
  SubscribeWithSnapshot ρ c =
  (subscribed c, Ok ((λ ka, ToInfo ka.2) <$> range ρ (affiliates c), length (subs c))).
Proof. done. Qed.

Lemma subscribed_wf c : wf_subs c → len (subs c) + 1 < two64 → wf_subs (subscribed c).
Proof.
  intros Hwf Hlt. pose proof (wf_subs_next c Hwf) as Hn.
  assert (wrapu64 (nextSubID c + 1) = len (subs c) + 1) as Eid.
  { rewrite Hn. apply wrapu64_id. unfold len in *. lia. }
  assert (∀ p s, subs c !! p = Some s → sub_id s ≠ len (subs c) + 1) as Hfresh.
  { intros p s Hp. rewrite (wf_sub_id _ _ _ (wf_subs_sub c Hwf p s Hp)).
    apply lookup_lt_Some in Hp. unfold len in *. rewrite wrapu64_id; lia. }
  unfold subscribed. rewrite Eid. split; simpl.
  - unfold len in *. rewrite length_app. simpl. lia.
  - unfold len in *. rewrite length_app. simpl. lia.
  - intros p s. rewrite lookup_app_Some. intros [Hp|[Hge Hp]].
    + destruct (wf_subs_sub c Hwf p s Hp) as [????????? Ho]. split; try done.
      rewrite lookup_insert_ne; [done|]. intros E. by apply (Hfresh p s Hp).
    + apply list_lookup_singleton_Some in Hp as [Hz <-].
      assert (p = length (subs c)) as -> by lia.
      split; simpl; try done.
      * unfold len in *. symmetry. apply wrapu64_id. lia.
      * apply lookup_insert_eq.
  - intros i p [[<- <-]|[Hne Hi]]%lookup_insert_Some.
    + eexists. rewrite lookup_app_r, Nat.sub_diag by lia. done.
    + destruct (wf_subs_map c Hwf i p Hi) as (s & Hs & Eid'). exists s.
      split; [|done]. by apply lookup_app_l_Some.
Qed.

Lemma recv_event_inv p c ev c' :
  recv_event p c = Some (ev, c') →
  ∃ s b, subs c !! p = Some s ∧ chan_buf (ch s) = ev :: b ∧
    c' = upd_sub p (mkSub (sub_id s) (mkChan b (chan_cap (ch s)) (chan_closed (ch s)))
                      (errCh s) (closed s) (closeOnce s)) c.
Proof.
  unfold recv_event, recv. intros (s & Hs & E)%bind_Some.
  destruct (chan_buf (ch s)) as [|x b] eqn:Eb; [by destruct (chan_closed _)|].
  simplify_eq. eauto 10.
Qed.

(** Replacing a subscription by one that only differs in its buffers. *)
Lemma wf_subs_same c p s s' :
  wf_subs c → subs c !! p = Some s → sub_id s' = sub_id s → closed s' = closed s →
  wf_sub (subscribers c) p s' → wf_subs (upd_sub p s' c).
Proof.
  intros Hwf Hp Eid Ecl Hs'. assert (p < length (subs c))%nat by (by eapply lookup_lt_Some).
  split; simpl.
  - unfold len. rewrite length_insert. apply Hwf.
  - unfold len. rewrite length_insert. apply Hwf.
  - intros q t [(-> & <- & _)|[Hne Hq]]%list_lookup_insert_Some; [done|]. by apply Hwf.
  - intros i q Hi. destruct (wf_subs_map c Hwf i q Hi) as (t & Ht & <-).
    destruct (decide (q = p)) as [->|Hne].
    + exists s'. rewrite list_lookup_insert_eq by done. split; [done|]. by simplify_eq.
    + exists t. by rewrite list_lookup_insert_ne.
Qed.

Lemma recv_event_wf p c ev c' : wf_subs c → recv_event p c = Some (ev, c') → wf_subs c'.
Proof.
  intros Hwf (s & b & Hp & Eb & ->)%recv_event_inv.
  eapply wf_subs_same; [done..|]. destruct (wf_subs_sub c Hwf p s Hp) as [? ? Hl].
  split; simpl; try done. rewrite Eb in Hl. unfold len in *. simpl in Hl. lia.
Qed.

Lemma recv_error_inv p c e c' :
  recv_error p c = Some (e, c') →
  ∃ s b, subs c !! p = Some s ∧ chan_buf (errCh s) = e :: b ∧
    c' = upd_sub p (mkSub (sub_id s) (ch s)
                      (mkChan b (chan_cap (errCh s)) (chan_closed (errCh s)))
                      (closed s) (closeOnce s)) c.
Proof.
  unfold recv_error, recv. intros (s & Hs & E)%bind_Some.
  destruct (chan_buf (errCh s)) as [|x b] eqn:Eb; [by destruct (chan_closed _)|].
  simplify_eq. eauto 10.
Qed.

Lemma recv_error_wf p c e c' : wf_subs c → recv_error p c = Some (e, c') → wf_subs c'.
Proof.
  intros Hwf (s & b & Hp & Eb & ->)%recv_error_inv.
  eapply wf_subs_same; [done..|].
  destruct (wf_subs_sub c Hwf p s Hp) as [? ? ? ? Hl ? ? ? Hq ?].
  split; simpl; try done.
  - rewrite Eb in Hl. unfold len in *. simpl in Hl. lia.
  - intros Ho. specialize (Hq Ho). by rewrite Eb in Hq.
Qed.
