(* ===== verification/ClusterFacts.v ===== *)
(** * Facts on clusters: what each operation does to the affiliate table

    The invariant [wf_cluster], a specification of every operation as a pure
    function of the table and [fan_out], and the theorem that no sequence of
    operations panics or breaks the invariant. *)

From S2P Require Import Prelude GoTime GoChan Limits Affiliate Cluster ClusterSubs.

(** ** The invariant *)

Record wf_affiliates (m : gmap string Affiliate) : Prop := {
  wf_affs_size : len_map m ≤ AffiliatesMax;
  wf_affs_each id a : m !! id = Some a → aff_id a = id ∧ wf_affiliate a;
}.

Record wf_cluster (c : Cluster) : Prop := {
  wf_cl_affiliates : wf_affiliates (affiliates c);
  wf_cl_subs : wf_subs c;
}.

#[export] Hint Resolve wf_cl_affiliates wf_cl_subs : go.

(** ** Updating *)

Definition new_affiliate (id : string) : Affiliate := mkAffiliate id zero_time [] [].

(** The affiliate the update starts from: the stored one, or a blank one. *)
Definition update_base (req : AffiliateUpdateRequest.t) (c : Cluster) : Affiliate :=
  default (new_affiliate (AffiliateUpdateRequest.ID req))
    (affiliates c !! AffiliateUpdateRequest.ID req).

Definition data_changed (req : AffiliateUpdateRequest.t) : bool :=
  0 <? len (AffiliateUpdateRequest.Data req).

(** New data replaces the old data and the affiliate's expiry. *)
Definition with_data (now : Time) (req : AffiliateUpdateRequest.t) (a : Affiliate) : Affiliate :=
  if data_changed req then
    set_data (AffiliateUpdateRequest.Data req)
      (set_expiry (Add now (AffiliateUpdateRequest.TTL req)) a)
  else a.

(** The affiliate after a successful update. *)
Definition updated (now : Time) (req : AffiliateUpdateRequest.t) (c : Cluster) : Affiliate :=
  merged (Add now (AffiliateUpdateRequest.TTL req)) (AffiliateUpdateRequest.Endpoints req)
    (with_data now req (update_base req c)).

(** Whether there is a slot for the affiliate, and for its endpoints. *)
Definition has_slot (req : AffiliateUpdateRequest.t) (c : Cluster) : bool :=
  bool_decide (is_Some (affiliates c !! AffiliateUpdateRequest.ID req))
  || (len_map (affiliates c) <? AffiliatesMax).

Definition endpoints_fit (req : AffiliateUpdateRequest.t) (c : Cluster) : bool :=
  merge_fits (AffiliateUpdateRequest.Endpoints req) (update_base req c).

(** Whether watchers are told about a successful update. *)
Definition announces (req : AffiliateUpdateRequest.t) (c : Cluster) : bool :=
  data_changed req || names_new (AffiliateUpdateRequest.Endpoints req) (update_base req c).

Definition put (id : string) (a : Affiliate) (c : Cluster) : Cluster :=
  set_affiliates (<[id := a]> (affiliates c)) c.

Lemma with_data_endpoints now req a : aff_endpoints (with_data now req a) = aff_endpoints a.
Proof. unfold with_data. by destruct (data_changed req). Qed.

Lemma with_data_id now req a : aff_id (with_data now req a) = aff_id a.
Proof. unfold with_data. by destruct (data_changed req). Qed.

Lemma wf_with_data now req a : wf_affiliate a → wf_affiliate (with_data now req a).
Proof. intros [? ?]. unfold with_data. by destruct (data_changed req); split. Qed.

Lemma merge_fits_ext eps a b :
  aff_endpoints a = aff_endpoints b → merge_fits eps a = merge_fits eps b.
Proof. unfold merge_fits, endpoint_data. by intros ->. Qed.

Lemma names_new_ext eps a b :
  aff_endpoints a = aff_endpoints b → names_new eps a = names_new eps b.
Proof. unfold names_new, endpoint_data. by intros ->. Qed.

Lemma wf_new_affiliate id : wf_affiliate (new_affiliate id).
Proof. split; simpl; [constructor | by vm_compute]. Qed.

Lemma wf_update_base req c :
  wf_affiliates (affiliates c) →
  wf_affiliate (update_base req c) ∧ aff_id (update_base req c) = AffiliateUpdateRequest.ID req.
Proof.
  intros Hwf. unfold update_base. destruct (_ !! _) as [a|] eqn:E; simpl.
  - by destruct (wf_affs_each _ Hwf _ _ E).
  - split; [apply wf_new_affiliate | done].
Qed.

Lemma wf_affiliates_insert m id a :
  wf_affiliates m → aff_id a = id → wf_affiliate a →
  (is_Some (m !! id) ∨ len_map m < AffiliatesMax) →
  wf_affiliates (<[id := a]> m).
Proof.
  intros [Hsz Hm] Hid Ha Hslot. split.
  - unfold len_map in *. destruct Hslot as [Hs|Hlt].
    + by rewrite map_size_insert_Some.
    + rewrite map_size_insert. destruct (m !! id); unfold Datatypes.id; lia.
  - intros j b [[<- <-]|[Hne Hj]]%lookup_insert_Some; eauto.
Qed.

Lemma wf_affiliates_delete m id : wf_affiliates m → wf_affiliates (delete id m).
Proof.
  intros [Hsz Hm]. split.
  - unfold len_map in *. rewrite map_size_delete. destruct (m !! id); simpl; lia.
  - intros j b [Hne Hj]%lookup_delete_Some. eauto.
Qed.

Lemma has_slot_spec req c :
  has_slot req c = true →
  is_Some (affiliates c !! AffiliateUpdateRequest.ID req) ∨ len_map (affiliates c) < AffiliatesMax.
Proof.
  unfold has_slot. intros [?%bool_decide_eq_true|?%Z.ltb_lt]%orb_true_iff; auto.
Qed.

(** The lookup and insertion at the head of [updateAffiliateLocked]. *)
Lemma updateAffiliateLocked_head now req c :
  updateAffiliateLocked now req c =
  if has_slot req c then
    update_in_place (Add now (AffiliateUpdateRequest.TTL req)) req (update_base req c)
      (put (AffiliateUpdateRequest.ID req) (update_base req c) c)
  else (c, Err ErrTooManyAffiliates).
Proof.
  unfold updateAffiliateLocked, has_slot, update_base, put.
  destruct (affiliates c !! _) as [a|] eqn:E; simpl.
  - rewrite insert_id by done. by destruct c.
  -
    destruct (AffiliatesMax <=? _) eqn:El; go_bool.
    + by rewrite (proj2 (Z.ltb_ge _ _)).
    + by rewrite (proj2 (Z.ltb_lt _ _)).
Qed.

Lemma put_put id a b c : put id a (put id b c) = put id a c.
Proof. unfold put. simpl. by rewrite insert_insert_eq. Qed.

Lemma update_in_place_ok now req a c :
  wf_affiliate a → merge_fits (AffiliateUpdateRequest.Endpoints req) a = true →
  let expiry := Add now (AffiliateUpdateRequest.TTL req) in
  let a' := merged expiry (AffiliateUpdateRequest.Endpoints req) (with_data now req a) in
  update_in_place expiry req a c =
  (put (AffiliateUpdateRequest.ID req) a' c,
   Ok (if data_changed req || names_new (AffiliateUpdateRequest.Endpoints req) a
       then Some (mkEvent AffiliateEventUpsert (ToInfo a')) else None)).
Proof.
  intros Hwf Hf expiry a'. unfold update_in_place.
  change (if 0 <? _ then _ else a) with (with_data now req a).
  change (0 <? len (AffiliateUpdateRequest.Data req)) with (data_changed req).
  rewrite MergeEndpoints_ok; [ | by apply wf_with_data |
    by rewrite (merge_fits_ext _ _ a) by apply with_data_endpoints].
  rewrite (names_new_ext _ _ a) by apply with_data_endpoints.
  by destruct (data_changed req), (names_new _ a).
Qed.

(** A successful update. *)
Lemma updateAffiliateLocked_ok now req c :
  wf_affiliates (affiliates c) → has_slot req c = true → endpoints_fit req c = true →
  updateAffiliateLocked now req c =
  (put (AffiliateUpdateRequest.ID req) (updated now req c) c,
   Ok (if announces req c then Some (mkEvent AffiliateEventUpsert (ToInfo (updated now req c)))
       else None)).
Proof.
  intros Hwf Hs Hf. rewrite updateAffiliateLocked_head, Hs.
  rewrite update_in_place_ok; [by rewrite put_put | by apply wf_update_base | done].
Qed.

(** An update whose endpoints do not fit: the affiliate is created if it was
    missing, its data and expiry are replaced if the request carries data, and
    the endpoints before the first one that does not fit are merged. *)
Lemma updateAffiliateLocked_too_many_endpoints now req c :
  wf_affiliates (affiliates c) → has_slot req c = true → endpoints_fit req c = false →
  ∃ pre ep suf,
    let expiry := Add now (AffiliateUpdateRequest.TTL req) in
    let a := with_data now req (update_base req c) in
    let a' := set_endpoints (merge_spec expiry pre (aff_endpoints a)) a in
    AffiliateUpdateRequest.Endpoints req = pre ++ ep :: suf ∧
    len (aff_endpoints a') = AffiliateEndpointsMax ∧
    wf_affiliate a' ∧
    updateAffiliateLocked now req c =
      (put (AffiliateUpdateRequest.ID req) a' c, Err ErrTooManyEndpoints).
Proof.
  intros Hwf Hs Hf. rewrite updateAffiliateLocked_head, Hs.
  destruct (wf_update_base req c Hwf) as [Hb _]. pose proof (wf_with_data now req _ Hb) as Hd.
  pose proof (MergeEndpoints_cases (AffiliateUpdateRequest.Endpoints req)
    (Add now (AffiliateUpdateRequest.TTL req)) _ Hd) as H.
  rewrite (merge_fits_ext _ _ _ (with_data_endpoints now req (update_base req c))) in H.
  unfold endpoints_fit in Hf. rewrite Hf in H.
  destruct (MergeEndpoints _ _ _) as [a' r] eqn:E.
  destruct H as (Hwf' & -> & pre & ep & suf & Ee & -> & Hne & Hl).
  exists pre, ep, suf. split_and!; [done..|].
  unfold update_in_place. change (if 0 <? _ then _ else _) with (with_data now req (update_base req c)).
  rewrite E. f_equal. apply put_put.
Qed.

Lemma wf_updated now req c :
  wf_affiliates (affiliates c) → endpoints_fit req c = true →
  wf_affiliate (updated now req c) ∧ aff_id (updated now req c) = AffiliateUpdateRequest.ID req.
Proof.
  intros Hwf Hf. destruct (wf_update_base req c Hwf) as [Hb Hid]. split.
  - apply wf_merged; [by apply wf_with_data|].
    by rewrite (merge_fits_ext _ _ _ (with_data_endpoints now req (update_base req c))).
  - unfold updated. simpl. by rewrite with_data_id.
Qed.

(** The critical section only writes the table, and keeps it well formed. *)
Lemma updateAffiliateLocked_put now req c :
  wf_affiliates (affiliates c) →
  ∃ m, (updateAffiliateLocked now req c).1 = set_affiliates m c ∧ wf_affiliates m.
Proof.
  intros Ha. destruct (has_slot req c) eqn:Hs.
  - destruct (endpoints_fit req c) eqn:Hf.
    + rewrite updateAffiliateLocked_ok by done. eexists. split; [done|].
      destruct (wf_updated now req c Ha Hf). apply wf_affiliates_insert; auto using has_slot_spec.
    + destruct (updateAffiliateLocked_too_many_endpoints now req c Ha Hs Hf)
        as (pre & ep & suf & _ & _ & Hw & ->). eexists. split; [done|].
      apply wf_affiliates_insert; auto using has_slot_spec. simpl. rewrite with_data_id.
      by apply wf_update_base.
  - rewrite updateAffiliateLocked_head, Hs. exists (affiliates c). split; [by destruct c | done].
Qed.

Lemma updateAffiliateLocked_wf now req c c' r :
  wf_cluster c → updateAffiliateLocked now req c = (c', r) → wf_cluster c'.
Proof.
  intros [Ha Hs] E. destruct (updateAffiliateLocked_put now req c Ha) as (m & E' & Hm).
  rewrite E in E'. simpl in E'. subst c'. split; [done | by eapply wf_subs_ext].
Qed.

Lemma fan_out_cluster_wf now ev c : wf_cluster c → wf_cluster (fan_out now ev c).
Proof. intros [Ha Hs]. split; [done | by apply fan_out_wf]. Qed.

(** ** Pruning *)

Definition alive (now : Time) (a : Affiliate) : bool := After (aff_expiry a) now.
Definition ep_alive (now : Time) (e : Endpoint) : bool := After (ep_expiry e) now.

(** The affiliate with its expired endpoints dropped. *)
Definition pruned (now : Time) (a : Affiliate) : Affiliate :=
  set_endpoints (filter (λ e, ep_alive now e = true) (aff_endpoints a)) a.

(** What pruning makes of one affiliate. *)
Definition prune_one (now : Time) (a : Affiliate) : option Affiliate :=
  if alive now a then Some (pruned now a) else None.

(** The event pruning sends about it, if any. *)
Definition prune_events (now : Time) (ka : string * Affiliate) : list AffiliateEvent :=
  if alive now ka.2 then
    if forallb (ep_alive now) (aff_endpoints ka.2) then []
    else [mkEvent AffiliateEventUpsert (ToInfo (pruned now ka.2))]
  else [tombstone ka.1].

Lemma prune_endpoints_spec now acc ch (es : Endpoints) :
  prune_endpoints now acc ch es =
  (acc ++ filter (λ e, ep_alive now e = true) es, (ch || negb (forallb (ep_alive now) es))%bool).
Proof.
  revert acc ch. induction es as [|e es IH]; intros acc ch; simpl.
  { by rewrite app_nil_r, orb_false_r. }
  change (After (ep_expiry e) now) with (ep_alive now e). rewrite filter_cons.
  destruct (ep_alive now e) eqn:E; rewrite IH.
  - rewrite decide_True by done. simpl. by rewrite <- app_assoc.
  - rewrite decide_False by done. simpl. by rewrite orb_true_r.
Qed.

Lemma filter_all_alive now (es : Endpoints) :
  forallb (ep_alive now) es = true → filter (λ e, ep_alive now e = true) es = es.
Proof.
  induction es as [|e es IH]; simpl; [done|]. intros [He Hes]%andb_true_iff.
  rewrite filter_cons, decide_True by done. by rewrite IH.
Qed.

Lemma pruned_id now a : forallb (ep_alive now) (aff_endpoints a) = true → pruned now a = a.
Proof. intros H. unfold pruned. rewrite filter_all_alive by done. by destruct a. Qed.

Lemma prune_affiliate_eq now m events id a :
  prune_affiliate now (m, events) (id, a) =
  (match prune_one now a with
   | None => delete id m
   | Some a' => if forallb (ep_alive now) (aff_endpoints a) then m else <[id := a']> m
   end, events ++ prune_events now (id, a)).
Proof.
  unfold prune_affiliate, prune_one, prune_events. simpl.
  change (After (aff_expiry a) now) with (alive now a). destruct (alive now a); simpl; [|done].
  rewrite prune_endpoints_spec. simpl.
  destruct (forallb _ _); simpl; [by rewrite app_nil_r | done].
Qed.

(** The loop over entries of the map, [l] being those still to come. *)
Lemma prune_loop_spec now m events (l : list (string * Affiliate)) :
  NoDup l.*1 → (∀ id a, (id, a) ∈ l → m !! id = Some a) →
  foldl (prune_affiliate now) (m, events) l =
  (map_imap (λ id a, if bool_decide (id ∈ l.*1) then prune_one now a else Some a) m,
   events ++ (l ≫= prune_events now)).
Proof.
  revert m events. induction l as [|[id a] l IH]; intros m events Hnd Hl.
  { simpl. rewrite app_nil_r. f_equal. apply map_eq. intros j.
    rewrite map_lookup_imap. by destruct (m !! j). }
  cbn [foldl]. rewrite prune_affiliate_eq. apply NoDup_cons in Hnd as [Hid Hnd]. csimpl in *.
  assert (m !! id = Some a) as Hma by (apply Hl; left).
  rewrite IH; [|done|].
  - f_equal; [|by rewrite <- app_assoc]. apply map_eq. intros j. rewrite !map_lookup_imap.
    destruct (decide (j = id)) as [->|Hne].
    + rewrite Hma. simpl. rewrite (bool_decide_true (id ∈ id :: _)) by left.
      destruct (prune_one now a) as [a'|] eqn:Ep; [|by rewrite lookup_delete_eq].
      unfold prune_one in Ep. destruct (alive now a); [|done]. injection Ep as <-.
      destruct (forallb _ _) eqn:Ef.
      * rewrite Hma. simpl. rewrite bool_decide_false by done. by rewrite pruned_id.
      * rewrite lookup_insert_eq. simpl. by rewrite bool_decide_false.
    + assert (∀ m' : gmap string Affiliate,
        match prune_one now a with
        | None => delete id m'
        | Some a' => if forallb (ep_alive now) (aff_endpoints a) then m' else <[id := a']> m'
        end !! j = m' !! j) as ->.
      { intros m'. destruct (prune_one _ _); [destruct (forallb _ _)|];
          by rewrite ?lookup_insert_ne, ?lookup_delete_ne. }
      destruct (m !! j); [|done]. simpl.
      rewrite (bool_decide_ext (j ∈ id :: l.*1) (j ∈ l.*1)); [done|].
      rewrite elem_of_cons. naive_solver.
  - intros j b Hin. assert (j ≠ id) as Hne.
    { intros ->. apply Hid. apply list_elem_of_fmap. by exists (id, b). }
    destruct (prune_one _ _); [destruct (forallb _ _)|];
      rewrite ?lookup_insert_ne, ?lookup_delete_ne by done; apply Hl; by right.
Qed.

Lemma pruneAffiliates_eq ρ now c :
  pruneAffiliates ρ now c =
  (set_affiliates (omap (prune_one now) (affiliates c)) c,
   range ρ (affiliates c) ≫= prune_events now).
Proof.
  unfold pruneAffiliates. rewrite prune_loop_spec.
  - simpl. do 2 f_equal. apply map_eq. intros id. rewrite map_lookup_imap, lookup_omap.
    destruct (affiliates c !! id) as [a|] eqn:E; [|done]. simpl.
    rewrite bool_decide_true; [done|]. apply list_elem_of_fmap. exists (id, a).
    by rewrite elem_of_range.
  - apply NoDup_range_fst.
  - intros id a. by rewrite elem_of_range.
Qed.

Lemma pruned_wf now a : wf_affiliate a → wf_affiliate (pruned now a).
Proof.
  intros [Hnd Hl]. split; unfold pruned, endpoint_data, len in *; simpl.
  - eapply sublist_NoDup; [exact Hnd|]. apply fmap_sublist, sublist_filter.
  - pose proof (length_filter (λ e, ep_alive now e = true) (aff_endpoints a)). lia.
Qed.

Lemma size_omap_le {A B} (f : A → option B) (m : gmap string A) :
  (size (omap f m) ≤ size m)%nat.
Proof.
  rewrite <- !size_dom. apply subseteq_size. intros i.
  rewrite !elem_of_dom, lookup_omap. intros [x Hx]. destruct (m !! i); [eauto | done].
Qed.

Lemma prune_affiliates_wf now m : wf_affiliates m → wf_affiliates (omap (prune_one now) m).
Proof.
  intros [Hsz Hm]. split.
  - unfold len_map in *. pose proof (size_omap_le (prune_one now) m). lia.
  - intros id a'. rewrite lookup_omap. intros (a & Ha & Ep)%bind_Some.
    unfold prune_one in Ep. destruct (alive now a); [|done]. injection Ep as <-.
    destruct (Hm id a Ha). split; [done | by apply pruned_wf].
Qed.

Lemma rfold_fan_out (ρs : nat → MapOrder Z) now c (l : list (nat * AffiliateEvent)) :
  wf_cluster c →
  rfold (λ c' iev, notify (ρs iev.1) now iev.2 c') c l =
  Ok (foldl (λ c' ev, fan_out now ev c') c l.*2).
Proof.
  revert c. induction l as [|[i ev] l IH]; intros c Hwf; simpl; [done|].
  rewrite notify_fan_out by apply Hwf. simpl. apply IH. by apply fan_out_cluster_wf.
Qed.

Lemma imap_pair_snd {A} (l : list A) : (imap pair l).*2 = l.
Proof. rewrite fmap_imap. simpl. apply list_eq. intros i. rewrite list_lookup_imap. by destruct (l !! i). Qed.

Lemma foldl_fan_out_wf now c evs :
  wf_cluster c → wf_cluster (foldl (λ c' ev, fan_out now ev c') c evs).
Proof.
  revert c. induction evs as [|ev evs IH]; intros c Hwf; simpl; [done|].
  apply IH. by apply fan_out_cluster_wf.
Qed.

Lemma foldl_fan_out_affiliates now c evs :
  affiliates (foldl (λ c' ev, fan_out now ev c') c evs) = affiliates c.
Proof. revert c. induction evs as [|ev evs IH]; intros c; simpl; [done|]. by rewrite IH. Qed.

(** The cluster after the critical section of [Prune], before any event is sent. *)
Definition swept (now : Time) (c : Cluster) : Cluster :=
  set_affiliates (omap (prune_one now) (affiliates c)) c.

Lemma swept_wf now c : wf_cluster c → wf_cluster (swept now c).
Proof. intros [Ha Hs]. split; [by apply prune_affiliates_wf | by eapply wf_subs_ext]. Qed.

Lemma Prune_eq ρ ρs now c :
  wf_cluster c →
  Prune ρ ρs now c =
  Ok (foldl (λ c' ev, fan_out now ev c') (swept now c)
        (range ρ (affiliates c) ≫= prune_events now)).
Proof.
  intros Hwf. unfold Prune. rewrite pruneAffiliates_eq.
  rewrite rfold_fan_out by by apply swept_wf. by rewrite imap_pair_snd.
Qed.

(** ** Every operation on a well-formed cluster *)

(** A successful or failed [UpdateAffiliate]. *)
Lemma UpdateAffiliate_eq ρ now req c :
  wf_cluster c →
  UpdateAffiliate ρ now req c =
  (let '(c1, r) := updateAffiliateLocked now req c in
   match r with
   | Err e => Ok (c1, Err e)
   | Ok (Some ev) => Ok (fan_out now ev c1, Ok ())
   | Ok None => Ok (c1, Ok ())
   end).
Proof.
  intros Hwf. unfold UpdateAffiliate.
  destruct (updateAffiliateLocked now req c) as [c1 [[ev|]|e]] eqn:E; try done.
  rewrite notify_fan_out; [done|]. by eapply wf_cl_subs, updateAffiliateLocked_wf.
Qed.

Lemma deleted_wf id c : wf_cluster c → wf_cluster (set_affiliates (delete id (affiliates c)) c).
Proof. intros [Ha Hs]. split; [by apply wf_affiliates_delete | by eapply wf_subs_ext]. Qed.

Lemma prolong_wf now c : wf_cluster c → wf_cluster (prolongExpiry now c).
Proof. intros [Ha Hs]. split; [done | by eapply wf_subs_ext]. Qed.

Lemma DeleteAffiliate_eq ρ now id c :
  wf_cluster c →
  DeleteAffiliate ρ now id c =
  Ok (if bool_decide (is_Some (affiliates c !! id)) then
        fan_out now (tombstone id) (prolongExpiry now (set_affiliates (delete id (affiliates c)) c))
      else c, Ok ()).
Proof.
  intros Hwf. unfold DeleteAffiliate, deleteAffiliateLocked.
  destruct (affiliates c !! id) as [a|]; simpl; [|done].
  rewrite notify_fan_out; [done|]. by apply wf_cl_subs, prolong_wf, deleted_wf.
Qed.

(** The operations other goroutines may run on a cluster, as data. *)
Inductive ClusterOp : Type :=
| OpUpdate (ρ : MapOrder Z) (now : Time) (req : AffiliateUpdateRequest.t)
| OpDelete (ρ : MapOrder Z) (now : Time) (id : string)
| OpPrune (ρ : MapOrder string) (ρs : nat → MapOrder Z) (now : Time)
| OpSubscribe (ρ : MapOrder string)
| OpClose (now : Time) (p : SubPtr)
| OpRecvEvent (p : SubPtr)
| OpRecvError (p : SubPtr).

(** Running one of them; a watcher only holds pointers it was given, and a
    receive that would block does nothing. *)
Definition run_op (c : Cluster) (op : ClusterOp) : result Panic Cluster :=
  match op with
  | OpUpdate ρ now req => r <-? UpdateAffiliate ρ now req c ;; Ok r.1
  | OpDelete ρ now id => r <-? DeleteAffiliate ρ now id c ;; Ok r.1
  | OpPrune ρ ρs now => Prune ρ ρs now c
  | OpSubscribe ρ => Ok (SubscribeWithSnapshot ρ c).1
  | OpClose now p =>
      if bool_decide (p < length (subs c))%nat then Subscription_Close now p c else Ok c
  | OpRecvEvent p => Ok (default c (snd <$> recv_event p c))
  | OpRecvError p => Ok (default c (snd <$> recv_error p c))
  end.

Lemma foldl_fan_out_subs now c evs :
  length (subs (foldl (λ c' ev, fan_out now ev c') c evs)) = length (subs c).
Proof.
  revert c. induction evs as [|ev evs IH]; intros c; simpl; [done|].
  rewrite IH. simpl. by rewrite length_fmap.
Qed.

Lemma updateAffiliateLocked_subs now req c :
  subs (updateAffiliateLocked now req c).1 = subs c.
Proof.
  rewrite updateAffiliateLocked_head. destruct (has_slot req c); [|done].
  unfold update_in_place. destruct (MergeEndpoints _ _ _) as [a [b|e]]; [|done].
  by destruct (_ && _).
Qed.

(** One operation: no panic, the invariant is kept, and at most one
    subscription is allocated. *)
Lemma run_op_ok c op :
  wf_cluster c → len (subs c) + 1 < two64 →
  ∃ c', run_op c op = Ok c' ∧ wf_cluster c' ∧ len (subs c') ≤ len (subs c) + 1.
Proof.
  intros Hwf Hlt. destruct op as [ρ now req|ρ now id|ρ ρs now|ρ|now p|p|p]; simpl.
  - rewrite UpdateAffiliate_eq by done. pose proof (updateAffiliateLocked_subs now req c) as Es.
    destruct (updateAffiliateLocked now req c) as [c1 r] eqn:E. simpl in Es.
    apply updateAffiliateLocked_wf in E; [|done].
    destruct r as [[ev|]|e]; simpl; eexists; (split; [done|]); split;
      auto using fan_out_cluster_wf; unfold len; simpl; rewrite ?length_fmap, Es; lia.
  - rewrite DeleteAffiliate_eq by done. simpl. eexists. split; [done|].
    case_bool_decide; (split; [|unfold len; simpl; rewrite ?length_fmap; lia]); [|done].
    apply fan_out_cluster_wf, prolong_wf, deleted_wf, Hwf.
  - rewrite Prune_eq by done. eexists. split; [done|]. split.
    + apply foldl_fan_out_wf. by apply swept_wf.
    + unfold len. rewrite foldl_fan_out_subs. simpl. lia.
  - eexists. split; [done|]. destruct Hwf as [Ha Hs]. split.
    + split; [done | exact (subscribed_wf c Hs Hlt)].
    + unfold len. simpl. rewrite length_app. simpl. lia.
  - case_bool_decide as Hp; [|eexists; split; [done|]; split; [done | lia]].
    apply lookup_lt_is_Some in Hp as [s Hs]. rewrite (Subscription_Close_eq now p s) by (done || apply Hwf).
    eexists. split; [done|]. split.
    + split; [|by apply close_at_wf; [apply Hwf|]]. unfold close_at. by destruct (closed s); apply Hwf.
    + unfold close_at, len. destruct (closed s); simpl; rewrite ?length_insert; lia.
  - destruct (recv_event p c) as [[ev c']|] eqn:E; simpl; [|eexists; split; [done|]; split; [done | lia]].
    eexists. split; [done|]. pose proof (recv_event_wf p c ev c' (wf_cl_subs c Hwf) E) as Hs.
    apply recv_event_inv in E as (s & b & _ & _ & ->). split; [split; [apply Hwf | done]|].
    unfold len. simpl. rewrite length_insert. lia.
  - destruct (recv_error p c) as [[ev c']|] eqn:E; simpl; [|eexists; split; [done|]; split; [done | lia]].
    eexists. split; [done|]. pose proof (recv_error_wf p c ev c' (wf_cl_subs c Hwf) E) as Hs.
    apply recv_error_inv in E as (s & b & _ & _ & ->). split; [split; [apply Hwf | done]|].
    unfold len. simpl. rewrite length_insert. lia.
Qed.

Lemma wf_new_cluster now id : wf_cluster (NewCluster now id).
Proof. split; [|apply wf_subs_new]. by split. Qed.

Lemma run_ops_ok c ops :
  wf_cluster c → len (subs c) + len ops < two64 →
  ∃ c', rfold run_op c ops = Ok c' ∧ wf_cluster c'.
Proof.
  revert c. induction ops as [|op ops IH]; intros c Hwf Hlt; simpl; [eauto|].
  unfold len in *. simpl in Hlt.
  destruct (run_op_ok c op) as (c1 & -> & Hwf1 & Hl); [done | unfold len; lia |].
  apply IH; [done|]. unfold len in *. lia.
Qed.
