(* ===== verification/ClusterProps.v ===== *)
(** * Properties of a cluster's operations *)

From S2P Require Import Prelude GoTime GoChan Limits Affiliate Cluster ClusterSubs.
From S2P Require Import ClusterFacts.

(** ** Specifications *)

(** C2: no sequence of updates, deletions, sweeps, subscriptions, closings and
    receives on a new cluster, run one at a time and in any map order, makes
    the program panic (no send on a closed channel, no double close, no nil
    dereference), and each of them leaves at most 1024 affiliates filed under
    their own ids, at most 64 distinct endpoints per affiliate, bounded event
    queues, and a subscriber map that holds exactly the open subscriptions. *)
Theorem cluster_ops_never_panic now id ops :
  len ops < two64 →
  ∃ c, rfold run_op (NewCluster now id) ops = Ok c ∧ wf_cluster c.
Proof. intros H. apply run_ops_ok; [apply wf_new_cluster | done]. Qed.

(** [Cluster.notify] gives the event to every subscription.  An open one
    with room queues it; an open one whose 64-element buffer is full keeps
    what it has queued, gets the error "lost update", is closed and leaves the
    map; a closed one is not touched.  Affiliates are not affected, the expiry
    is prolonged exactly when some subscription is closed, and the result is
    the same for every order in which the map may be ranged over. *)
Theorem notify_spec ρ now ev c :
  wf_subs c →
  ∃ c', notify ρ now ev c = Ok c' ∧
    (∀ ρ', notify ρ' now ev c = Ok c') ∧
    affiliates c' = affiliates c ∧
    cl_expiry c' =
      (if existsb lagging (subs c) then UnixNano (Add now ClusterTTL) else cl_expiry c) ∧
    ∀ p s, subs c !! p = Some s → ∃ s', subs c' !! p = Some s' ∧
      (subscribers c' !! sub_id s = if closed s || lagging s then None else Some p) ∧
      if closed s then s' = s
      else if len (chan_buf (ch s)) <? affiliateSubBuffer then
        closed s' = false ∧ chan_buf (ch s') = chan_buf (ch s) ++ [ev] ∧ chan_buf (errCh s') = []
      else
        closed s' = true ∧ chan_buf (ch s') = chan_buf (ch s) ∧
        chan_buf (errCh s') = [lost_update].
Proof.
  intros Hwf. exists (fan_out now ev c). split; [by apply notify_fan_out|].
  split; [intros; by apply notify_fan_out|]. do 2 (split; [done|]).
  intros p s Hp. exists (deliver ev s). pose proof (wf_subs_sub c Hwf p s Hp) as Hs.
  rewrite fan_out_lookup, Hp. split; [done|]. split.
  - pose proof (wf_subs_sub _ (fan_out_wf now ev c Hwf) p (deliver ev s)) as Hd.
    rewrite fan_out_lookup, Hp in Hd.
    pose proof (wf_sub_owned _ _ _ (Hd eq_refl)) as Ho. by rewrite deliver_id, deliver_is_closed in Ho.
  - unfold deliver. destruct (closed s) eqn:Ec; [done|].
    unfold has_room. rewrite (wf_sub_cap _ _ _ Hs). fold (len (chan_buf (ch s))).
    destruct (_ <? _); simpl; rewrite (wf_sub_quiet _ _ _ Hs Ec); done.
Qed.

(** C15: [UpdateAffiliate] on each of its branches.  With no affiliate of that
    id and 1024 already stored it fails and changes nothing.  When the
    endpoints fit, the affiliate's new value is [updated] (data and expiry
    replaced if the request carries data, endpoints merged, expiry extended)
    and the one event sent, to every watcher, is the upsert of that value;
    none is sent when the request has neither data nor a new endpoint.  When
    they do not fit it fails, sends nothing, and yet keeps the affiliate with
    exactly 64 endpoints. *)
Theorem UpdateAffiliate_spec ρ now req c :
  wf_cluster c →
  let id := AffiliateUpdateRequest.ID req in
  if negb (has_slot req c) then UpdateAffiliate ρ now req c = Ok (c, Err ErrTooManyAffiliates)
  else if endpoints_fit req c then
    let c1 := put id (updated now req c) c in
    UpdateAffiliate ρ now req c =
      Ok (if announces req c
          then fan_out now (mkEvent AffiliateEventUpsert (ToInfo (updated now req c))) c1
          else c1, Ok ())
  else
    ∃ a', UpdateAffiliate ρ now req c = Ok (put id a' c, Err ErrTooManyEndpoints) ∧
      aff_id a' = id ∧ len (aff_endpoints a') = AffiliateEndpointsMax ∧
      aff_data a' = aff_data (with_data now req (update_base req c)) ∧
      aff_expiry a' = aff_expiry (with_data now req (update_base req c)).
Proof.
  intros Hwf id. pose proof (wf_cl_affiliates c Hwf) as Ha. rewrite UpdateAffiliate_eq by done.
  destruct (has_slot req c) eqn:Hs; simpl; [|by rewrite updateAffiliateLocked_head, Hs].
  destruct (endpoints_fit req c) eqn:Hf.
  - rewrite updateAffiliateLocked_ok by done. by destruct (announces req c).
  - destruct (updateAffiliateLocked_too_many_endpoints now req c Ha Hs Hf)
      as (pre & ep & suf & _ & Hl & _ & E). rewrite E. eexists. split; [done|].
    split_and!; try done. simpl. rewrite with_data_id. by apply wf_update_base.
Qed.

(** [DeleteAffiliate] never fails; it removes the affiliate, prolongs the
    cluster's expiry and sends the tombstone of that id when the affiliate
    exists, and does nothing at all otherwise. *)
Theorem DeleteAffiliate_spec ρ now id c :
  wf_cluster c →
  ∃ c', DeleteAffiliate ρ now id c = Ok (c', Ok ()) ∧
    affiliates c' = delete id (affiliates c) ∧
    if bool_decide (is_Some (affiliates c !! id)) then
      cl_expiry c' = UnixNano (Add now ClusterTTL) ∧
      subs c' = deliver (mkEvent AffiliateEventDelete (mkInfo id [] [])) <$> subs c
    else c' = c.
Proof.
  intros Hwf. rewrite DeleteAffiliate_eq by done. eexists. split; [done|].
  case_bool_decide as Hid.
  - simpl. split_and!; try done. by destruct (existsb _ _).
  - split; [|done]. rewrite delete_id; [done|]. destruct (affiliates c !! id); naive_solver.
Qed.

(** C16: [Prune] never panics; afterwards the affiliates are exactly those whose
    expiry is after [now], each with exactly its endpoints whose expiry is
    after [now] and otherwise unchanged, so nothing expired is left; every
    watcher is sent one event per affiliate that changed (a tombstone or an
    upsert) and none for the others; and sweeping again at the same instant
    changes nothing and sends nothing. *)
Theorem Prune_spec ρ ρs now c :
  wf_cluster c →
  ∃ c', Prune ρ ρs now c = Ok c' ∧
    (∀ id, affiliates c' !! id =
       a ← affiliates c !! id;
       if After (aff_expiry a) now
       then Some (set_endpoints (filter (λ e, After (ep_expiry e) now = true) (aff_endpoints a)) a)
       else None) ∧
    c' = foldl (λ d ev, fan_out now ev d) (swept now c)
           (range ρ (affiliates c) ≫= prune_events now) ∧
    Prune ρ ρs now c' = Ok c'.
Proof.
  intros Hwf. rewrite Prune_eq by done. eexists. split; [done|].
  assert (∀ evs, affiliates (foldl (λ d ev, fan_out now ev d) (swept now c) evs) =
    omap (prune_one now) (affiliates c)) as Ea.
  { intros evs. by rewrite foldl_fan_out_affiliates. }
  split; [intros id; rewrite Ea; apply lookup_omap|]. split; [done|].
  set (c' := foldl _ _ _). rewrite Prune_eq by by apply foldl_fan_out_wf, swept_wf.
  assert (∀ id a, affiliates c' !! id = Some a →
    prune_one now a = Some a ∧ prune_events now (id, a) = []) as Hdone.
  { intros id a'. unfold c'. rewrite Ea, lookup_omap. intros (a & _ & Ep)%bind_Some.
    unfold prune_one in Ep. destruct (alive now a) eqn:Eal; [|done]. injection Ep as <-.
    assert (forallb (ep_alive now) (aff_endpoints (pruned now a)) = true) as Hall.
    { apply forallb_forall. intros e He%list_elem_of_In. by apply list_elem_of_filter in He as [? _]. }
    unfold prune_one, prune_events. cbn [fst snd].
    change (alive now (pruned now a)) with (alive now a). rewrite Eal, Hall.
    split; [|done]. f_equal. by apply pruned_id. }
  assert (range ρ (affiliates c') ≫= prune_events now = []) as ->.
  { apply bind_all_nil. intros [id a] Hin%elem_of_range. by apply Hdone. }
  simpl. f_equal. unfold swept. assert (omap (prune_one now) (affiliates c') = affiliates c') as ->.
  { apply map_eq. intros id. rewrite lookup_omap.
    destruct (affiliates c' !! id) as [a|] eqn:E; [|done]. by apply (Hdone id a). }
  by destruct c'.
Qed.

(** ** Witnesses *)

Definition t0 : Time := mkTime (1000 * Second) (Some 0).
Definition t1 : Time := mkTime (1010 * Second) (Some (10 * Second)).

Definition sample_request : AffiliateUpdateRequest.t :=
  AffiliateUpdateRequest.mk "node-1" (bs "data") [bs "10.0.0.1"] (60 * Second).

(** Two affiliates, the second already expired, and one watcher. *)
Definition sample_ops : list ClusterOp :=
  [OpUpdate (order_fwd Z) t0 sample_request;
   OpUpdate (order_fwd Z) t0
     (AffiliateUpdateRequest.mk "node-2" (bs "old") [bs "10.0.0.2"] (5 * Second));
   OpSubscribe (order_fwd string)].

Definition sample_cluster : Cluster :=
  match rfold run_op (NewCluster t0 "c1") sample_ops with
  | Ok c => c
  | Err _ => NewCluster t0 "c1"
  end.

Lemma sample_cluster_wf : wf_cluster sample_cluster.
Proof.
  unfold sample_cluster.
  destruct (run_ops_ok (NewCluster t0 "c1") sample_ops (wf_new_cluster _ _)) as (c & E & Hwf);
    [by vm_compute|]. by rewrite E.
Defined.

Lemma cluster_ops_never_panic_witness :
  ∃ c, rfold run_op (NewCluster t0 "c1") sample_ops = Ok c ∧ wf_cluster c.
Proof. apply (cluster_ops_never_panic t0 "c1" sample_ops). by vm_compute. Defined.

Lemma notify_spec_witness :
  ∃ c', notify (order_bwd Z) t1 (tombstone "x") sample_cluster = Ok c' ∧
    affiliates c' = affiliates sample_cluster.
Proof.
  destruct (notify_spec (order_bwd Z) t1 (tombstone "x") sample_cluster
    (wf_cl_subs _ sample_cluster_wf)) as (c' & E & _ & Ea & _).
  exists c'. split; [exact E | exact Ea].
Defined.

(** The update of a known affiliate with new data and the same endpoint. *)
Lemma UpdateAffiliate_spec_witness :
  has_slot sample_request sample_cluster = true ∧
  endpoints_fit sample_request sample_cluster = true ∧
  UpdateAffiliate (order_fwd Z) t1 sample_request sample_cluster =
    Ok (fan_out t1
          (mkEvent AffiliateEventUpsert (ToInfo (updated t1 sample_request sample_cluster)))
          (put "node-1" (updated t1 sample_request sample_cluster) sample_cluster), Ok ()).
Proof.
  split; [by vm_compute|]. split; [by vm_compute|].
  exact (UpdateAffiliate_spec (order_fwd Z) t1 sample_request sample_cluster sample_cluster_wf).
Defined.

Lemma DeleteAffiliate_spec_witness :
  ∃ c', DeleteAffiliate (order_fwd Z) t1 "node-2" sample_cluster = Ok (c', Ok ()) ∧
    affiliates c' = delete "node-2" (affiliates sample_cluster).
Proof.
  destruct (DeleteAffiliate_spec (order_fwd Z) t1 "node-2" sample_cluster sample_cluster_wf)
    as (c' & E & Ea & _). exists c'. split; [exact E | exact Ea].
Defined.

(** At [t1] the second affiliate has expired and the first has not. *)
Lemma Prune_spec_witness :
  ∃ c', Prune (order_fwd string) (λ _, order_fwd Z) t1 sample_cluster = Ok c' ∧
    affiliates c' !! "node-2" = None ∧ is_Some (affiliates c' !! "node-1").
Proof.
  destruct (Prune_spec (order_fwd string) (λ _, order_fwd Z) t1 sample_cluster sample_cluster_wf)
    as (c' & E & Ea & _). exists c'. split; [exact E|]. rewrite !Ea. split; [by vm_compute|].
  by vm_compute; eexists.
Defined.
