(* ===== verification/Replication.v ===== *)
(** * Watchers replicate the affiliate table

    The abstract specification of a cluster is a map from affiliate ids to
    [AffiliateInfo]; a watcher starts from the snapshot and applies events.
    This file runs a cluster together with the view each watcher has built,
    and shows that for every watcher that has not been dropped the view, once
    the queued events are applied, is the cluster's table, except at the ids
    the watcher has missed.  Ids are missed because two kinds of updates change
    the table without an event: an update that fails after merging some of its
    endpoints, and one that creates an affiliate with neither data nor
    endpoints.  A missed id is caught up with at its next event. *)

From S2P Require Import Prelude GoTime GoChan Limits Affiliate Cluster ClusterSubs.
From S2P Require Import ClusterFacts.

(** ** The abstract table *)

Abbreviation View := (gmap string AffiliateInfo).

Definition cluster_view (c : Cluster) : View := ToInfo <$> affiliates c.

Definition apply_event (v : View) (ev : AffiliateEvent) : View :=
  if Type_ ev =? AffiliateEventDelete then delete (ID (Info ev)) v
  else if Type_ ev =? AffiliateEventUpsert then <[ID (Info ev) := Info ev]> v
  else v.

Definition apply_events (v : View) (evs : list AffiliateEvent) : View := foldl apply_event v evs.

(** The view a client builds from a snapshot. *)
Definition snapshot_view (l : list AffiliateInfo) : View :=
  list_to_map ((λ i, (ID i, i)) <$> l).

(** Views that are the same at every id outside [u]. *)
Definition agree (u : gset string) (v w : View) : Prop := ∀ k, k ∉ u → v !! k = w !! k.

(** An update that may change the table and tells no watcher: its endpoints do
    not all fit, or it creates an affiliate and has nothing to announce. *)
Definition silent (req : AffiliateUpdateRequest.t) (c : Cluster) : bool :=
  has_slot req c &&
  negb (endpoints_fit req c
        && (announces req c
            || bool_decide (is_Some (affiliates c !! AffiliateUpdateRequest.ID req)))).

(** The ids a watcher has missed, [u] before an operation on [c]. *)
Definition missed_update (req : AffiliateUpdateRequest.t) (c : Cluster) (u : gset string) : gset string :=
  if silent req c then {[AffiliateUpdateRequest.ID req]} ∪ u
  else if has_slot req c && announces req c then u ∖ {[AffiliateUpdateRequest.ID req]}
  else u.

Definition missed_delete (id : string) (c : Cluster) (u : gset string) : gset string :=
  if bool_decide (is_Some (affiliates c !! id)) then u ∖ {[id]} else u.

(** A sweep tells about the affiliates that it changes. *)
Definition swept_quietly (now : Time) (c : Cluster) (id : string) : Prop :=
  match affiliates c !! id with Some a => prune_events now (id, a) = [] | None => True end.
#[export] Instance swept_quietly_dec now c id : Decision (swept_quietly now c id).
Proof. unfold swept_quietly. destruct (affiliates c !! id); apply _. Defined.
Definition missed_prune (now : Time) (c : Cluster) (u : gset string) : gset string :=
  filter (swept_quietly now c) u.

(** ** A cluster with its watchers *)

(** The view and the missed ids at index [p] are those of the watcher that
    holds the pointer [p]. *)
Record Config : Type := mkConfig {
  cfg_cluster : Cluster;
  cfg_views : list View;
  cfg_missed : list (gset string);
}.

Inductive wstep : Config → Config → Prop :=
| ws_update ρ now req c c' r vs us :
    UpdateAffiliate ρ now req c = Ok (c', r) →
    wstep (mkConfig c vs us) (mkConfig c' vs (missed_update req c <$> us))
| ws_delete ρ now id c c' r vs us :
    DeleteAffiliate ρ now id c = Ok (c', r) →
    wstep (mkConfig c vs us) (mkConfig c' vs (missed_delete id c <$> us))
| ws_prune ρ ρs now c c' vs us :
    Prune ρ ρs now c = Ok c' →
    wstep (mkConfig c vs us) (mkConfig c' vs (missed_prune now c <$> us))
| ws_subscribe ρ c c' snapshot p vs us :
    SubscribeWithSnapshot ρ c = (c', Ok (snapshot, p)) → len (subs c) + 1 < two64 →
    wstep (mkConfig c vs us) (mkConfig c' (vs ++ [snapshot_view snapshot]) (us ++ [∅]))
| ws_close now p c c' vs us :
    Subscription_Close now p c = Ok c' →
    wstep (mkConfig c vs us) (mkConfig c' vs us)
| ws_event p ev c c' v vs us :
    recv_event p c = Some (ev, c') → vs !! p = Some v →
    wstep (mkConfig c vs us) (mkConfig c' (<[p := apply_event v ev]> vs) us)
| ws_error p e c c' vs us :
    recv_error p c = Some (e, c') →
    wstep (mkConfig c vs us) (mkConfig c' vs us).

#[export] Hint Constructors wstep : go.

(** Every watcher not dropped holds [V] once its queue is applied, except at
    the ids it has missed. *)
Definition synced (V : View) (c : Cluster) (vs : list View) (us : list (gset string)) : Prop :=
  length vs = length (subs c) ∧ length us = length (subs c) ∧
  ∀ p s v u, subs c !! p = Some s → closed s = false → vs !! p = Some v → us !! p = Some u →
    agree u (apply_events v (chan_buf (ch s))) V.

Definition config_inv (cfg : Config) : Prop :=
  wf_cluster (cfg_cluster cfg) ∧
  synced (cluster_view (cfg_cluster cfg)) (cfg_cluster cfg) (cfg_views cfg) (cfg_missed cfg).

(** ** Agreement *)

#[export] Instance agree_equivalence u : Equivalence (agree u).
Proof.
  split; [by intros v k | intros v w E k Hk; by rewrite E
    | intros v w x E1 E2 k Hk; by rewrite (E1 k Hk), (E2 k Hk)].
Qed.

#[export] Instance agree_mono : Proper ((⊆) ==> (=) ==> (=) ==> impl) agree.
Proof. intros u u' Hu v ? <- w ? <- E k Hk. apply E. set_solver. Qed.

Lemma agree_insert u id i v : agree ({[id]} ∪ u) (<[id := i]> v) v.
Proof. intros k Hk. rewrite lookup_insert_ne; [done | set_solver]. Qed.

(** The events of the program: an upsert or a tombstone. *)
Definition proper_event (ev : AffiliateEvent) : Prop :=
  Type_ ev = AffiliateEventUpsert ∨ Type_ ev = AffiliateEventDelete.

(** An event makes its own id agree. *)
Lemma agree_event u v w ev :
  proper_event ev → agree u v w → agree (u ∖ {[ID (Info ev)]}) (apply_event v ev) (apply_event w ev).
Proof.
  intros Hev E k Hk. unfold apply_event. destruct (decide (k = ID (Info ev))) as [->|Hne].
  - destruct Hev as [-> | ->]; simpl; [by rewrite !lookup_insert_eq | by rewrite !lookup_delete_eq].
  - assert (k ∉ u) as Hu by set_solver. destruct Hev as [-> | ->]; simpl;
      [rewrite !lookup_insert_ne by done | rewrite !lookup_delete_ne by done]; by apply E.
Qed.

Lemma agree_same u v w : agree u v w → agree u w v.
Proof. intros E. by symmetry. Qed.

(** ** Operations on the abstract table *)

Lemma cluster_view_put id a c :
  aff_id a = id →
  cluster_view (put id a c) = <[id := ToInfo a]> (cluster_view c).
Proof. intros <-. unfold cluster_view, put. simpl. by rewrite fmap_insert. Qed.

Lemma apply_upsert v a :
  apply_event v (mkEvent AffiliateEventUpsert (ToInfo a)) = <[aff_id a := ToInfo a]> v.
Proof. done. Qed.

Lemma apply_tombstone v id : apply_event v (tombstone id) = delete id v.
Proof. done. Qed.

(** Merging no new endpoint leaves the public part of the affiliate alone. *)
Lemma ToInfo_merged_quiet expiry eps a :
  names_new eps a = false → ToInfo (merged expiry eps a) = ToInfo a.
Proof.
  unfold names_new. intros Hq. apply negb_false_iff, bool_decide_eq_true in Hq.
  unfold ToInfo. simpl. f_equal. unfold Endpoints_ToInfo.
  change (λ ep, cloneBytes (ep_data ep)) with ep_data. rewrite merge_spec_data.
  unfold endpoint_data in Hq. by rewrite Hq, app_nil_r.
Qed.

Lemma ToInfo_updated_quiet now req c :
  announces req c = false → ToInfo (updated now req c) = ToInfo (update_base req c).
Proof.
  unfold announces, updated, with_data. intros [-> Hq]%orb_false_iff.
  by apply ToInfo_merged_quiet.
Qed.

(** An update, on the abstract table: its event if it has one; otherwise a
    change of its own id if it is silent, and none if it is not. *)
Lemma update_view now req c :
  wf_affiliates (affiliates c) →
  let id := AffiliateUpdateRequest.ID req in
  let '(c1, r) := updateAffiliateLocked now req c in
  match r with
  | Ok (Some ev) =>
      Type_ ev = AffiliateEventUpsert ∧ ID (Info ev) = id ∧ (∀ u, missed_update req c u = u ∖ {[id]}) ∧
      cluster_view c1 = apply_event (cluster_view c) ev
  | _ => ∀ u v, agree u v (cluster_view c) → agree (missed_update req c u) v (cluster_view c1)
  end.
Proof.
  intros Hwf id. unfold missed_update, silent. destruct (has_slot req c) eqn:Hs.
  2: { rewrite updateAffiliateLocked_head, Hs. done. }
  destruct (wf_update_base req c Hwf) as [_ Hb]. destruct (endpoints_fit req c) eqn:Hfit; simpl.
  - rewrite updateAffiliateLocked_ok by done. destruct (wf_updated now req c Hwf Hfit) as [_ Hid].
    destruct (announces req c) eqn:Han; simpl.
    + rewrite cluster_view_put by done. rewrite apply_upsert, Hid. by split_and!.
    + intros u v E. rewrite cluster_view_put by done.
      case_bool_decide as Ha; simpl; last first.
      { etransitivity; [|symmetry; apply agree_insert]. eapply agree_mono; [|done..|exact E]. set_solver. }
      destruct Ha as [a Ha]. rewrite insert_id; [done|]. rewrite ToInfo_updated_quiet by done.
      unfold update_base, cluster_view. rewrite Ha, lookup_fmap, Ha. done.
  - destruct (updateAffiliateLocked_too_many_endpoints now req c Hwf Hs Hfit)
      as (pre & ep & suf & _ & _ & _ & ->). intros u v E. rewrite cluster_view_put.
    + etransitivity; [|symmetry; apply agree_insert]. eapply agree_mono; [|done..|exact E]. set_solver.
    + simpl. by rewrite with_data_id.
Qed.

(** Merging into a list that is full already names nothing new. *)
Lemma full_merge expiry eps a :
  len (aff_endpoints (set_endpoints (merge_spec expiry eps (aff_endpoints a)) a)) = AffiliateEndpointsMax →
  len (aff_endpoints a) = AffiliateEndpointsMax →
  Endpoints_ToInfo (merge_spec expiry eps (aff_endpoints a)) = Endpoints_ToInfo (aff_endpoints a).
Proof.
  unfold Endpoints_ToInfo, len. simpl. change (λ ep, cloneBytes (ep_data ep)) with ep_data.
  intros Hl Ha. pose proof (f_equal length (merge_spec_data expiry eps (aff_endpoints a))) as Hlen.
  rewrite merge_spec_data. rewrite length_app, !length_fmap in Hlen.
  rewrite (nil_length_inv (fresh (ep_data <$> aff_endpoints a) eps)); [by rewrite app_nil_r | lia].
Qed.

Lemma delete_view id c :
  cluster_view (set_affiliates (delete id (affiliates c)) c) =
  apply_event (cluster_view c) (tombstone id).
Proof. unfold cluster_view. simpl. rewrite apply_tombstone. apply fmap_delete. Qed.

(** The sweep, on the abstract table: its events, in whatever order. *)
Lemma prune_loop_view now m events (l : list (string * Affiliate)) m' events' :
  (∀ id a, (id, a) ∈ l → aff_id a = id) →
  foldl (prune_affiliate now) (m, events) l = (m', events') →
  ∃ evs, events' = events ++ evs ∧ ToInfo <$> m' = apply_events (ToInfo <$> m) evs.
Proof.
  revert m events. induction l as [|[id a] l IH]; intros m events Hid E.
  { injection E as <- <-. exists []. by rewrite app_nil_r. }
  cbn [foldl] in E. rewrite prune_affiliate_eq in E.
  apply IH in E as (evs & -> & Em); [|intros; apply Hid; by right].
  exists (prune_events now (id, a) ++ evs). rewrite <- app_assoc. split; [done|].
  rewrite Em. unfold apply_events. rewrite foldl_app. f_equal.
  assert (aff_id a = id) as Ha by (apply Hid; left).
  unfold prune_one, prune_events. simpl. destruct (alive now a); simpl.
  - destruct (forallb _ _); simpl; [done|]. rewrite apply_upsert, fmap_insert. simpl. by rewrite Ha.
  - rewrite apply_tombstone. apply fmap_delete.
Qed.

Lemma sweep_view ρ now c :
  wf_affiliates (affiliates c) →
  cluster_view (swept now c) =
  apply_events (cluster_view c) (range ρ (affiliates c) ≫= prune_events now).
Proof.
  intros Hwf. pose proof (pruneAffiliates_eq ρ now c) as E. unfold pruneAffiliates in E.
  destruct (foldl _ _ _) as [m evs] eqn:El. injection E as -> ->.
  apply prune_loop_view in El as (evs & E & Em).
  - simpl in E. subst evs. exact Em.
  - intros id a Hin%elem_of_range. by apply Hwf.
Qed.

Lemma snapshot_view_ok ρ c :
  wf_affiliates (affiliates c) →
  snapshot_view ((λ ka, ToInfo ka.2) <$> range ρ (affiliates c)) = cluster_view c.
Proof.
  intros Hwf. unfold snapshot_view, cluster_view. rewrite <- list_fmap_compose.
  rewrite (list_fmap_ext _ (prod_map id ToInfo) (range ρ (affiliates c))).
  2: { intros i [k a] Hka. simpl. unfold compose, prod_map. simpl. f_equal.
       apply list_elem_of_lookup_2, elem_of_range in Hka. by apply Hwf. }
  apply map_eq. intros k. apply option_eq. intros i.
  rewrite <- elem_of_list_to_map.
  - rewrite lookup_fmap, fmap_Some, list_elem_of_fmap. split.
    + intros ([k' a] & [= -> ->] & Hin%elem_of_range). eauto.
    + intros (a & Ha & ->). exists (k, a). by rewrite elem_of_range.
  - rewrite <- list_fmap_compose. apply (NoDup_range_fst ρ (affiliates c)).
Qed.

(** ** Keeping in sync *)

Lemma synced_missed V c vs us (f : gset string → gset string) :
  synced V c vs us → (∀ u, u ⊆ f u) → synced V c vs (f <$> us).
Proof.
  intros (Hv & Hu & H) Hf. split; [done|]. split; [by rewrite length_fmap|].
  intros p s v u Hs Ho Hp. rewrite list_lookup_fmap. intros (u0 & Hu0 & ->)%fmap_Some.
  eapply agree_mono; [apply Hf | done..|]. by eapply H.
Qed.

Lemma synced_table V V' c vs us (f : gset string → gset string) :
  synced V c vs us → (∀ u v, agree u v V → agree (f u) v V') → synced V' c vs (f <$> us).
Proof.
  intros (Hv & Hu & H) Hf. split; [done|]. split; [by rewrite length_fmap|].
  intros p s v u Hs Ho Hp. rewrite list_lookup_fmap. intros (u0 & Hu0 & ->)%fmap_Some.
  apply Hf. by eapply H.
Qed.

Lemma fan_out_synced now ev V c vs us :
  proper_event ev → synced V c vs us →
  synced (apply_event V ev) (fan_out now ev c) vs ((.∖ {[ID (Info ev)]}) <$> us).
Proof.
  intros Hev (Hlen & Hlen' & Hv). split; [by simpl; rewrite length_fmap|].
  split; [by simpl; rewrite !length_fmap|].
  intros p s' v u Hs Ho Hp. rewrite list_lookup_fmap. intros (u0 & Hu0 & ->)%fmap_Some.
  rewrite fan_out_lookup in Hs.
  apply fmap_Some in Hs as (s & Hs & ->). rewrite deliver_is_closed in Ho.
  apply orb_false_iff in Ho as [Ho Hl]. unfold deliver. rewrite Ho.
  unfold lagging in Hl. rewrite Ho in Hl. apply negb_false_iff in Hl. rewrite Hl. simpl.
  unfold apply_events in *. rewrite foldl_app. simpl. apply agree_event; [done|]. by eapply Hv.
Qed.

(** The ids that a list of events leaves missed. *)
Definition told (evs : list AffiliateEvent) (u : gset string) : gset string :=
  u ∖ list_to_set ((ID ∘ Info) <$> evs).

Lemma foldl_fan_out_synced now evs V c vs us :
  Forall proper_event evs → synced V c vs us →
  synced (apply_events V evs) (foldl (λ c' ev, fan_out now ev c') c evs) vs (told evs <$> us).
Proof.
  intros Hev. revert V c us. induction Hev as [|ev evs Hev _ IH]; intros V c us H; simpl.
  { apply synced_missed; [done|]. unfold told. set_solver. }
  assert (told (ev :: evs) <$> us = told evs <$> ((.∖ {[ID (Info ev)]}) <$> us)) as ->.
  { rewrite <- list_fmap_compose. apply list_fmap_ext. intros _ u _. unfold told, compose.
    rewrite fmap_cons. cbn [list_to_set]. set_solver. }
  apply IH. by apply fan_out_synced.
Qed.

Lemma synced_ext V c c' vs us : synced V c vs us → subs c' = subs c → synced V c' vs us.
Proof. unfold synced. by intros H ->. Qed.

Lemma synced_update V c p s s' vs us :
  synced V c vs us → subs c !! p = Some s →
  (closed s' = false → closed s = false ∧ chan_buf (ch s') = chan_buf (ch s)) →
  ∀ c', subs c' = <[p := s']> (subs c) → synced V c' vs us.
Proof.
  intros (Hlen & Hlen' & Hv) Hp Hs' c' Es. split; [by rewrite Es, length_insert|].
  split; [by rewrite Es, length_insert|].
  intros q t v u Hq Ho Hvq Hu. rewrite Es in Hq.
  apply list_lookup_insert_Some in Hq as [(<- & <- & _)|[Hne Hq]]; [|by eapply Hv].
  destruct (Hs' Ho) as [Ho' ->]. by eapply Hv.
Qed.

Lemma config_inv_init now id : config_inv (mkConfig (NewCluster now id) [] []).
Proof. split; [apply wf_new_cluster | by split_and!]. Qed.

(** One lemma per operation. *)
Lemma config_inv_update ρ now req c c' r vs us :
  config_inv (mkConfig c vs us) → UpdateAffiliate ρ now req c = Ok (c', r) →
  config_inv (mkConfig c' vs (missed_update req c <$> us)).
Proof.
  unfold config_inv. simpl. intros [Hwf Hv] E. rewrite UpdateAffiliate_eq in E by done.
  pose proof (update_view now req c (wf_cl_affiliates c Hwf)) as Hview.
  pose proof (updateAffiliateLocked_subs now req c) as Es. cbv zeta in Hview.
  destruct (updateAffiliateLocked now req c) as [c1 r1] eqn:El. simpl in Es.
  apply updateAffiliateLocked_wf in El; [|done].
  assert (synced (cluster_view c) c1 vs us) as Hs by (by eapply synced_ext).
  destruct r1 as [[ev|]|e]; simplify_eq; try (split; [done | by eapply synced_table]).
  destruct Hview as (Ht & Hid & Hm & Hview). split; [by apply fan_out_cluster_wf|].
  change (cluster_view (fan_out now ev c1)) with (cluster_view c1). rewrite Hview.
  rewrite (list_fmap_ext (missed_update req c) (.∖ {[ID (Info ev)]}) us); [|intros; by rewrite Hm, Hid].
  apply fan_out_synced; [by left | done].
Qed.

Lemma config_inv_delete ρ now id c c' r vs us :
  config_inv (mkConfig c vs us) → DeleteAffiliate ρ now id c = Ok (c', r) →
  config_inv (mkConfig c' vs (missed_delete id c <$> us)).
Proof.
  unfold config_inv. simpl. intros [Hwf Hv] E. rewrite DeleteAffiliate_eq in E by done.
  unfold missed_delete. case_bool_decide; simplify_eq; [|split; [done | by apply synced_missed]].
  split; [by apply fan_out_cluster_wf, prolong_wf, deleted_wf|].
  match goal with |- synced ?V _ _ _ =>
    change V with (cluster_view (set_affiliates (delete id (affiliates c)) c)) end.
  rewrite delete_view. apply (fan_out_synced _ (tombstone id)); [by right|]. by eapply synced_ext.
Qed.

Lemma prune_events_proper now ka : Forall proper_event (prune_events now ka).
Proof.
  unfold prune_events. destruct (alive now ka.2); [destruct (forallb _ _)|].
  - apply Forall_nil_2.
  - apply Forall_singleton. by left.
  - apply Forall_singleton. by right.
Qed.

(** An id is left missed by a sweep if no event is about it. *)
Lemma told_prune ρ now c u :
  wf_affiliates (affiliates c) →
  told (range ρ (affiliates c) ≫= prune_events now) u ⊆ missed_prune now c u.
Proof.
  intros Hwf k. unfold told, missed_prune. rewrite elem_of_difference, elem_of_list_to_set, elem_of_filter.
  intros [Hu Hn]. split; [|done]. unfold swept_quietly. destruct (affiliates c !! k) as [a|] eqn:Ha; [|done].
  destruct (prune_events now (k, a)) as [|ev evs] eqn:E; [done|]. destruct Hn.
  apply list_elem_of_fmap. exists ev. split.
  - destruct (wf_affs_each _ Hwf k a Ha) as [Hid _]. unfold prune_events in E. simpl in E.
    destruct (alive now a); [destruct (forallb _ _)|]; simplify_eq; done.
  - apply list_elem_of_bind. exists (k, a). split; [rewrite E; by left | by apply elem_of_range].
Qed.

Lemma config_inv_prune ρ ρs now c c' vs us :
  config_inv (mkConfig c vs us) → Prune ρ ρs now c = Ok c' →
  config_inv (mkConfig c' vs (missed_prune now c <$> us)).
Proof.
  unfold config_inv. simpl. intros [Hwf Hv] E. rewrite Prune_eq in E by done. injection E as <-.
  split; [by apply foldl_fan_out_wf, swept_wf|].
  unfold cluster_view at 1. rewrite foldl_fan_out_affiliates.
  change (ToInfo <$> affiliates (swept now c)) with (cluster_view (swept now c)).
  rewrite (sweep_view ρ) by apply Hwf.
  assert (synced (cluster_view c) (swept now c) vs us) as Hs by by eapply synced_ext.
  apply (foldl_fan_out_synced now (range ρ (affiliates c) ≫= prune_events now)) in Hs.
  2: { apply Forall_forall. intros ev (ka & Hev & _)%list_elem_of_bind.
       pose proof (prune_events_proper now ka) as Hp. rewrite Forall_forall in Hp. by apply Hp. }
  destruct Hs as (H1 & H2 & H). split; [done|]. split; [by rewrite length_fmap in *|].
  intros p s v u Hs Ho Hp. rewrite list_lookup_fmap. intros (u0 & Hu0 & ->)%fmap_Some.
  eapply agree_mono; [by apply told_prune, Hwf | done..|].
  eapply H; [done..|]. by rewrite list_lookup_fmap, Hu0.
Qed.

Lemma config_inv_subscribe ρ c c' snapshot p vs us :
  config_inv (mkConfig c vs us) → SubscribeWithSnapshot ρ c = (c', Ok (snapshot, p)) →
  len (subs c) + 1 < two64 → config_inv (mkConfig c' (vs ++ [snapshot_view snapshot]) (us ++ [∅])).
Proof.
  unfold config_inv. simpl. intros [[Ha Hs] (Hlen & Hlen' & Hv)] E Hlt.
  rewrite SubscribeWithSnapshot_eq in E. injection E as <- <- <-.
  split; [split; [done | by apply subscribed_wf]|].
  split; [simpl; rewrite !length_app; simpl; lia|]. split; [simpl; rewrite !length_app; simpl; lia|].
  intros p s v u Hp Ho Hvp Hup. simpl in Hp. apply lookup_app_Some in Hp as [Hp|[Hge Hp]].
  - pose proof (lookup_lt_Some _ _ _ Hp) as Hlt'.
    rewrite lookup_app_l in Hvp by lia. rewrite lookup_app_l in Hup by lia. by eapply Hv.
  - apply list_lookup_singleton_Some in Hp as [Hz <-]. simpl.
    rewrite lookup_app_r in Hvp by lia. apply list_lookup_singleton_Some in Hvp as [_ <-].
    change (cluster_view (subscribed c)) with (cluster_view c). by rewrite snapshot_view_ok.
Qed.

Lemma config_inv_close now p c c' vs us :
  config_inv (mkConfig c vs us) → Subscription_Close now p c = Ok c' → config_inv (mkConfig c' vs us).
Proof.
  unfold config_inv. simpl. intros [Hwf Hv] E. destruct (subs c !! p) as [s|] eqn:Hp.
  - rewrite (Subscription_Close_eq now p s) in E by (done || apply Hwf). injection E as <-.
    pose proof (close_at_wf now p s c (wf_cl_subs c Hwf) Hp) as Hs. unfold close_at in *.
    destruct (closed s) eqn:Ec; [done|]. split; [split; [apply Hwf | done]|].
    by apply (synced_update (cluster_view c) c p s (close_sub s)).
  - unfold Subscription_Close in E. by rewrite Hp in E.
Qed.

Lemma config_inv_event p ev c c' v vs us :
  config_inv (mkConfig c vs us) → recv_event p c = Some (ev, c') → vs !! p = Some v →
  config_inv (mkConfig c' (<[p := apply_event v ev]> vs) us).
Proof.
  unfold config_inv. simpl. intros [Hwf (Hlen & Hlen' & Hv)] E Hp.
  pose proof (recv_event_wf p c ev c' (wf_cl_subs c Hwf) E) as Hs.
  apply recv_event_inv in E as (s & b & Hps & Hb & ->).
  split; [split; [apply Hwf | done]|]. split; [simpl; by rewrite !length_insert|].
  split; [simpl; by rewrite !length_insert|].
  intros q t w u Hq Ho Hw Hu. simpl in Hq.
  apply list_lookup_insert_Some in Hq as [(<- & <- & _)|[Hne Hq]].
  - apply list_lookup_insert_Some in Hw as [(_ & <- & _)|[? _]]; [|done]. simpl in *.
    specialize (Hv p s v u Hps Ho Hp Hu). by rewrite Hb in Hv.
  - rewrite list_lookup_insert_ne in Hw by done. by apply (Hv q t w).
Qed.

Lemma config_inv_error p e c c' vs us :
  config_inv (mkConfig c vs us) → recv_error p c = Some (e, c') → config_inv (mkConfig c' vs us).
Proof.
  unfold config_inv. simpl. intros [Hwf Hv] E.
  pose proof (recv_error_wf p c e c' (wf_cl_subs c Hwf) E) as Hs.
  apply recv_error_inv in E as (s & b & Hps & Hb & ->).
  split; [split; [apply Hwf | done]|].
  eapply (synced_update (cluster_view c) c p s); [exact Hv | exact Hps | | reflexivity]. by intros ?.
Qed.

#[export] Hint Resolve config_inv_update config_inv_delete config_inv_prune config_inv_subscribe
  config_inv_close config_inv_event config_inv_error : go.

Lemma config_inv_step cfg cfg' : config_inv cfg → wstep cfg cfg' → config_inv cfg'.
Proof. intros Hi Hstep. destruct Hstep; eauto with go. Qed.

Lemma config_inv_reachable cfg cfg' :
  config_inv cfg → rtc wstep cfg cfg' → config_inv cfg'.
Proof. intros Hi Hr. induction Hr; eauto using config_inv_step. Qed.

(** ** Consuming a queue *)

(** A watcher with [n] queued events takes them one by one. *)
Lemma drain_queue n c vs us p s v :
  config_inv (mkConfig c vs us) → subs c !! p = Some s → vs !! p = Some v →
  length (chan_buf (ch s)) = n →
  ∃ c' vs' s' v', rtc wstep (mkConfig c vs us) (mkConfig c' vs' us) ∧
    affiliates c' = affiliates c ∧ subs c' !! p = Some s' ∧ closed s' = closed s ∧
    chan_buf (ch s') = [] ∧ vs' !! p = Some v' ∧ v' = apply_events v (chan_buf (ch s)).
Proof.
  revert c vs s v. induction n as [|n IH]; intros c vs s v Hi Hs Hv Hn.
  { apply nil_length_inv in Hn. exists c, vs, s, v. rewrite Hn. split_and!; done || apply rtc_refl. }
  destruct (chan_buf (ch s)) as [|ev b] eqn:Eb; [done|].
  assert (p < length (subs c))%nat as Hlt by (by eapply lookup_lt_Some).
  assert (p < length vs)%nat as Hltv by (by eapply lookup_lt_Some).
  set (s1 := mkSub (sub_id s) (mkChan b (chan_cap (ch s)) (chan_closed (ch s)))
               (errCh s) (closed s) (closeOnce s)).
  assert (recv_event p c = Some (ev, upd_sub p s1 c)) as Er.
  { unfold recv_event, recv. rewrite Hs. simpl. by rewrite Eb. }
  destruct (IH (upd_sub p s1 c) (<[p := apply_event v ev]> vs) s1 (apply_event v ev))
    as (c' & vs' & s' & v' & Hr & Ha & Hs' & Hc & Hb & Hv' & ->).
  - by eapply config_inv_event.
  - simpl. by rewrite list_lookup_insert_eq.
  - by rewrite list_lookup_insert_eq.
  - simpl in *. lia.
  - exists c', vs', s', (apply_events (apply_event v ev) b). split_and!; try done.
    eapply rtc_l; [by eapply ws_event | exact Hr].
Qed.

(** ** Properties *)

(** C1: what watchers know.  Run a new cluster through any interleaving of
    updates, deletions, sweeps, subscriptions, closings and receives, none of
    them restricted: for every watcher that has not been dropped, applying the
    events still queued for it to the view it has built (its snapshot, then the
    events it received) gives the cluster's table at every id it has not
    missed.  An id is missed from a silent update on (one that fails with too
    many endpoints, or that creates an affiliate with neither data nor
    endpoints) until the next update of it that is announced, its deletion, or
    a sweep that changes it; a watcher that subscribes has missed none. *)
Theorem watchers_in_sync now id c vs us p s v u :
  rtc wstep (mkConfig (NewCluster now id) [] []) (mkConfig c vs us) →
  subs c !! p = Some s → closed s = false → vs !! p = Some v → us !! p = Some u →
  (∀ k, k ∉ u → apply_events v (chan_buf (ch s)) !! k = cluster_view c !! k) ∧
  (u = ∅ → apply_events v (chan_buf (ch s)) = cluster_view c).
Proof.
  intros Hr Hs Ho Hv Hu.
  destruct (config_inv_reachable _ _ (config_inv_init now id) Hr) as [_ (_ & _ & H)].
  specialize (H p s v u Hs Ho Hv Hu). split; [done|].
  intros ->. apply map_eq. intros k. apply H, not_elem_of_empty.
Qed.


(** An update with neither data nor endpoints for an unknown affiliate
    succeeds and creates it, and tells no watcher: every watcher that had not
    missed the id is left without an entry that [ListAffiliates] now returns. *)
Theorem blank_update_is_silent ρ now ttl aid c vs us p s v u :
  config_inv (mkConfig c vs us) →
  affiliates c !! aid = None → len_map (affiliates c) < AffiliatesMax →
  subs c !! p = Some s → closed s = false → vs !! p = Some v → us !! p = Some u → aid ∉ u →
  let req := AffiliateUpdateRequest.mk aid [] [] ttl in
  ∃ c', UpdateAffiliate ρ now req c = Ok (c', Ok ()) ∧ subs c' = subs c ∧
    cluster_view c' !! aid = Some (mkInfo aid [] []) ∧
    apply_events v (chan_buf (ch s)) !! aid = None.
Proof.
  intros [Hwf (_ & _ & Hsync)] Hn Hlt Hs Ho Hv Hu Hau req. simpl in *.
  assert (has_slot req c = true) as Hslot.
  { unfold has_slot. simpl. by rewrite (proj2 (Z.ltb_lt _ _) Hlt), orb_true_r. }
  assert (update_base req c = new_affiliate aid) as Hb by (unfold update_base; simpl; by rewrite Hn).
  assert (endpoints_fit req c = true) as Hfit by (unfold endpoints_fit; by rewrite Hb).
  assert (announces req c = false) as Ha by (unfold announces; by rewrite Hb).
  rewrite UpdateAffiliate_eq, updateAffiliateLocked_ok, Ha by (done || apply Hwf).
  eexists. split; [done|]. split; [done|].
  rewrite (Hsync p s v u Hs Ho Hv Hu aid Hau). unfold cluster_view, put. simpl.
  rewrite !lookup_fmap, lookup_insert_eq, Hn.
  split; [|done]. simpl. f_equal. by rewrite (ToInfo_updated_quiet now req c Ha), Hb.
Qed.


(** ** Witnesses: a watcher, then an update of one affiliate *)

Definition w0 : Time := mkTime (1000 * Second) (Some 0).
Definition w_request : AffiliateUpdateRequest.t :=
  AffiliateUpdateRequest.mk "node-1" (bs "data") [bs "10.0.0.1"] (60 * Second).

Definition w_watched : Cluster := (SubscribeWithSnapshot (order_fwd string) (NewCluster w0 "c1")).1.
Definition w_updated : Cluster :=
  match UpdateAffiliate (order_fwd Z) w0 w_request w_watched with
  | Ok (c, _) => c
  | Err _ => w_watched
  end.
Definition w_sub : Subscription :=
  mkSub 1 (mkChan [mkEvent AffiliateEventUpsert (mkInfo "node-1" (bs "data") [bs "10.0.0.1"])] 64 false)
    (mkChan [] 1 false) false false.

Lemma ws_update_to ρ now req c c' r vs us us' :
  UpdateAffiliate ρ now req c = Ok (c', r) → missed_update req c <$> us = us' →
  wstep (mkConfig c vs us) (mkConfig c' vs us').
Proof. intros E <-. by apply (ws_update ρ now req c c' r). Defined.

Lemma w_reachable :
  rtc wstep (mkConfig (NewCluster w0 "c1") [] []) (mkConfig w_updated [∅] [∅]).
Proof.
  eapply rtc_l.
  { apply (ws_subscribe (order_fwd string) (NewCluster w0 "c1") w_watched [] 0%nat [] []); by vm_compute. }
  apply rtc_once.
  apply (ws_update_to (order_fwd Z) w0 w_request w_watched w_updated (Ok ()) [∅] [∅] [∅]); by vm_compute.
Defined.

(** The watcher is in sync, and after an update that fails half-way it has
    missed the one id that the update is about. *)
Definition w_many : list bytes :=
  (λ i, default [] ((λ b, [b]) <$> Byte.of_N (N.of_nat i))) <$> seq 0 64.
Definition w_overflow : AffiliateUpdateRequest.t :=
  AffiliateUpdateRequest.mk "node-1" [] w_many Minute.
Definition w_partial : Cluster :=
  match UpdateAffiliate (order_fwd Z) w0 w_overflow w_updated with
  | Ok (c, _) => c
  | Err _ => w_updated
  end.

Lemma w_partial_reachable :
  rtc wstep (mkConfig (NewCluster w0 "c1") [] []) (mkConfig w_partial [∅] [{["node-1"]}]).
Proof.
  eapply rtc_r; [exact w_reachable|].
  apply (ws_update_to (order_fwd Z) w0 w_overflow w_updated w_partial (Err ErrTooManyEndpoints) [∅] [∅]
    [{["node-1"]}]); by vm_compute.
Defined.

Lemma watchers_in_sync_witness :
  apply_events ∅ (chan_buf (ch w_sub)) = cluster_view w_updated ∧
  cluster_view w_updated !! "node-1" = Some (mkInfo "node-1" (bs "data") [bs "10.0.0.1"]) ∧
  apply_events ∅ (chan_buf (ch w_sub)) !! "node-2" = cluster_view w_partial !! "node-2".
Proof.
  split; [|split; [by vm_compute|]].
  - apply (watchers_in_sync w0 "c1" w_updated [∅] [∅] 0%nat w_sub ∅ ∅ w_reachable); by vm_compute.
  - apply (watchers_in_sync w0 "c1" w_partial [∅] [{["node-1"]}] 0%nat w_sub ∅ {["node-1"]} w_partial_reachable);
      [by vm_compute..|]. intros ?%elem_of_singleton. done.
Defined.


Lemma w_config_inv : config_inv (mkConfig w_updated [∅] [∅]).
Proof. eapply config_inv_reachable; [apply (config_inv_init w0 "c1") | exact w_reachable]. Defined.

Lemma blank_update_is_silent_witness :
  ∃ c', UpdateAffiliate (order_fwd Z) w0 (AffiliateUpdateRequest.mk "node-9" [] [] Minute) w_updated
      = Ok (c', Ok ()) ∧ subs c' = subs w_updated ∧
    cluster_view c' !! "node-9" = Some (mkInfo "node-9" [] []) ∧
    apply_events ∅ (chan_buf (ch w_sub)) !! "node-9" = None.
Proof.
  apply (blank_update_is_silent (order_fwd Z) w0 Minute "node-9" w_updated [∅] [∅] 0%nat w_sub ∅ ∅
    w_config_inv); by vm_compute.
Defined.

