(* ===== verification/Interleave.v ===== *)
(** * Cluster operations that overlap in time

    [Cluster.v] runs each operation as one step.  Here goroutines interleave
    at the granularity of the source: an operation's critical section under
    [affiliatesMu] is a step, and so are [prolongExpiry], the copy of the
    subscribers under [subsMu], each load and store of [closed], each send to
    a channel, and each statement of [Subscription.Close].  [sync.Once] makes a
    second caller of [Close] wait for the first. *)

From S2P Require Import Prelude GoTime GoChan Limits Affiliate Cluster ClusterSubs.
From S2P Require Import ClusterFacts.

(** ** Goroutines *)

(** Where a goroutine is inside [Subscription.Close]. *)
Inductive CloseStep : Type :=
| AtOnce        (** about to call [closeOnce.Do] *)
| Storing       (** inside [Do], before [closed.Store(true)] *)
| Removing      (** before the critical section of [closeFn] *)
| ClosingCh     (** before [close(sub.ch)] *)
| ClosingErr    (** before [close(sub.errCh)] *)
| Prolonging.   (** before [prolongExpiry] *)

#[export] Instance CloseStep_eq_dec : EqDecision CloseStep.
Proof. solve_decision. Defined.

(** What a goroutine has left to do. *)
Inductive Goroutine : Type :=
| GUpdate (req : AffiliateUpdateRequest.t)
| GDelete (id : string)
| GPrune
| GProlong (ev : AffiliateEvent)          (** in [DeleteAffiliate], before [prolongExpiry] *)
| GNotify (evs : list AffiliateEvent)     (** events still to be sent, none in progress *)
| GFan (ev : AffiliateEvent) (ps : list SubPtr) (evs : list AffiliateEvent)
| GSend (ev : AffiliateEvent) (p : SubPtr) (ps : list SubPtr) (evs : list AffiliateEvent)
| GErr (ev : AffiliateEvent) (p : SubPtr) (ps : list SubPtr) (evs : list AffiliateEvent)
| GClose (s : CloseStep) (p : SubPtr) (next : Goroutine)
| GDone.

(** What the run-time gives a step: the clock, and the order of a map. *)
Record Choice : Type := mkChoice {
  x_now : Time;
  x_affs : MapOrder string;
  x_subs : MapOrder Z;
}.

Definition with_ch (k : Chan AffiliateEvent) (s : Subscription) : Subscription :=
  mkSub (sub_id s) k (errCh s) (closed s) (closeOnce s).
Definition with_errCh (k : Chan string) (s : Subscription) : Subscription :=
  mkSub (sub_id s) (ch s) k (closed s) (closeOnce s).

(** One step of [Close], for the subscription [sub] at [p]. *)
Definition close_step (now : Time) (k : CloseStep) (p : SubPtr) (sub : Subscription)
    (next : Goroutine) (c : Cluster) : result Panic (Cluster * Goroutine) :=
  match k with
  | AtOnce =>
      if closeOnce sub then Ok (c, next)
      else Ok (upd_sub p (mkSub (sub_id sub) (ch sub) (errCh sub) (closed sub) true) c,
               GClose Storing p next)
  | Storing =>
      Ok (upd_sub p (mkSub (sub_id sub) (ch sub) (errCh sub) true (closeOnce sub)) c,
          GClose Removing p next)
  | Removing =>
      match subscribers c !! sub_id sub with
      | None => Ok (c, next)
      | Some _ => Ok (set_subscribers (delete (sub_id sub) (subscribers c)) c, GClose ClosingCh p next)
      end
  | ClosingCh =>
      k <-? close_chan (ch sub) ;; Ok (upd_sub p (with_ch k sub) c, GClose ClosingErr p next)
  | ClosingErr =>
      k <-? close_chan (errCh sub) ;; Ok (upd_sub p (with_errCh k sub) c, GClose Prolonging p next)
  | Prolonging => Ok (prolongExpiry now c, next)
  end.

(** One step of [Subscription.notify], at one of its three points. *)
Definition notify_step (g : Goroutine) (sub : Subscription) (c : Cluster) :
    result Panic (Cluster * Goroutine) :=
  match g with
  | GFan ev (p :: ps) evs =>
      if closed sub then Ok (c, GFan ev ps evs) else Ok (c, GSend ev p ps evs)
  | GSend ev p ps evs =>
      r <-? try_send ev (ch sub) ;;
      if r.1 : bool then Ok (upd_sub p (with_ch r.2 sub) c, GFan ev ps evs)
      else Ok (c, GErr ev p ps evs)
  | GErr ev p ps evs =>
      r <-? try_send lost_update (errCh sub) ;;
      Ok (upd_sub p (with_errCh r.2 sub) c, GClose AtOnce p (GFan ev ps evs))
  | _ => Ok (c, g)
  end.

(** The subscription the next step is about. *)
Definition target (g : Goroutine) : option SubPtr :=
  match g with
  | GFan _ (p :: _) _ | GSend _ p _ _ | GErr _ p _ _ | GClose _ p _ => Some p
  | _ => None
  end.

Definition sub_step (x : Choice) (g : Goroutine) (p : SubPtr) (c : Cluster) :
    result Panic (Cluster * Goroutine) :=
  match subs c !! p with
  | None => Err NilDereference
  | Some sub =>
      match g with
      | GClose k _ next => close_step (x_now x) k p sub next c
      | _ => notify_step g sub c
      end
  end.

(** One step of a goroutine that may run. *)
Definition g_step (x : Choice) (g : Goroutine) (c : Cluster) : result Panic (Cluster * Goroutine) :=
  match g with
  | GUpdate req =>
      let '(c1, r) := updateAffiliateLocked (x_now x) req c in
      Ok (c1, match r with Ok (Some ev) => GNotify [ev] | _ => GDone end)
  | GDelete id =>
      let '(c1, oev) := deleteAffiliateLocked id c in
      Ok (c1, match oev with Some ev => GProlong ev | None => GDone end)
  | GPrune =>
      let '(c1, evs) := pruneAffiliates (x_affs x) (x_now x) c in Ok (c1, GNotify evs)
  | GProlong ev => Ok (prolongExpiry (x_now x) c, GNotify [ev])
  | GNotify [] => Ok (c, GDone)
  | GNotify (ev :: evs) => Ok (c, GFan ev (range (x_subs x) (subscribers c)).*2 evs)
  | GFan _ [] evs => Ok (c, GNotify evs)
  | _ => match target g with Some p => sub_step x g p c | None => Ok (c, g) end
  end.

(** ** Schedules *)

Record Machine : Type := mkMachine { cluster : Cluster; gs : list Goroutine }.

(** Inside the body of [closeOnce.Do] of [p]. *)
Definition phase_at (p : SubPtr) (g : Goroutine) : option CloseStep :=
  match g with
  | GClose k q _ => if bool_decide (q = p ∧ k ≠ AtOnce) then Some k else None
  | _ => None
  end.

Definition phases (p : SubPtr) (l : list Goroutine) : list CloseStep := omap (phase_at p) l.

Definition blocked (l : list Goroutine) (g : Goroutine) : bool :=
  match g with
  | GClose AtOnce p _ => negb (bool_decide (phases p l = []))
  | GDone => true
  | _ => false
  end.

(** What can happen next: a goroutine runs; a request, a sweep or the end of a
    watcher's context starts one; somebody subscribes; a watcher receives. *)
Inductive Act : Type :=
| Run (i : nat) (x : Choice)
| StartUpdate (req : AffiliateUpdateRequest.t)
| StartDelete (id : string)
| StartPrune
| StartClose (p : SubPtr)
| DoSubscribe (ρ : MapOrder string)
| DoRecv (p : SubPtr)
| DoRecvErr (p : SubPtr).

Definition start (g : Goroutine) (m : Machine) : Machine := mkMachine (cluster m) (gs m ++ [g]).
Definition set_cluster (c : Cluster) (m : Machine) : Machine := mkMachine c (gs m).

(** An action that is not enabled does nothing.  The atomic addition of
    [SubscribeWithSnapshot] commutes with every other step, so its critical
    section is the step. *)
Definition act (m : Machine) (a : Act) : result Panic Machine :=
  match a with
  | Run i x =>
      match gs m !! i with
      | None => Ok m
      | Some g =>
          if blocked (gs m) g then Ok m
          else r <-? g_step x g (cluster m) ;; Ok (mkMachine r.1 (<[i := r.2]> (gs m)))
      end
  | StartUpdate req => Ok (start (GUpdate req) m)
  | StartDelete id => Ok (start (GDelete id) m)
  | StartPrune => Ok (start GPrune m)
  | StartClose p =>
      Ok (if bool_decide (p < length (subs (cluster m)))%nat then start (GClose AtOnce p GDone) m else m)
  | DoSubscribe ρ => Ok (set_cluster (SubscribeWithSnapshot ρ (cluster m)).1 m)
  | DoRecv p => Ok (set_cluster (default (cluster m) (snd <$> recv_event p (cluster m))) m)
  | DoRecvErr p => Ok (set_cluster (default (cluster m) (snd <$> recv_error p (cluster m))) m)
  end.

Definition boot (now : Time) (id : string) : Machine := mkMachine (NewCluster now id) [].
