(* ===== verification/InterleaveFacts.v ===== *)
(** * Facts on overlapping operations

    The invariant of [Interleave.v]: each subscription's flags are determined
    by where the goroutine that closes it is, if there is one. *)

From S2P Require Import Prelude GoTime GoChan Limits Affiliate Cluster ClusterSubs.
From S2P Require Import ClusterFacts.
From S2P Require Import Interleave.

(** ** The invariant *)

(** [closed], whether the map holds the subscription, and whether its channels
    are closed, given [closeOnce] and the goroutines inside its [Do]. *)
Definition flags_at (once : bool) (φ : list CloseStep) : option (bool * bool * bool * bool) :=
  match once, φ with
  | false, [] => Some (false, true, false, false)
  | true, [] => Some (true, false, true, true)
  | true, [Storing] => Some (false, true, false, false)
  | true, [Removing] => Some (true, true, false, false)
  | true, [ClosingCh] => Some (true, false, false, false)
  | true, [ClosingErr] => Some (true, false, true, false)
  | true, [Prolonging] => Some (true, false, true, true)
  | _, _ => None
  end.

(** About to mark [p] as closed. *)
Definition closes_soon (p : SubPtr) (g : Goroutine) : Prop :=
  match g with GClose AtOnce q _ | GClose Storing q _ => q = p | _ => False end.

Record isub_ok (m : gmap Z SubPtr) (l : list Goroutine) (p : SubPtr) (s : Subscription) : Prop := {
  io_id : sub_id s = wrapu64 (Z.of_nat p + 1);
  io_cap : chan_cap (ch s) = affiliateSubBuffer;
  io_len : len (chan_buf (ch s)) ≤ affiliateSubBuffer;
  io_errcap : chan_cap (errCh s) = 1;
  io_errlen : len (chan_buf (errCh s)) ≤ 1;
  io_flags : ∃ owned,
    flags_at (closeOnce s) (phases p l) = Some (closed s, owned, chan_closed (ch s), chan_closed (errCh s)) ∧
    m !! sub_id s = if owned : bool then Some p else None;
  io_quiet : closed s = false → chan_buf (errCh s) ≠ [] → Exists (closes_soon p) l;
}.

(** Pointers exist, and [Close] returns to a fan-out or ends the goroutine. *)
Definition g_ok (n : nat) (g : Goroutine) : Prop :=
  match g with
  | GFan _ ps _ => Forall (λ q, (q < n)%nat) ps
  | GSend _ p ps _ | GErr _ p ps _ => Forall (λ q, (q < n)%nat) (p :: ps)
  | GClose _ p next =>
      (p < n)%nat ∧
      match next with GFan _ ps _ => Forall (λ q, (q < n)%nat) ps | GDone => True | _ => False end
  | _ => True
  end.

Record machine_inv (m : Machine) : Prop := {
  mv_affs : wf_affiliates (affiliates (cluster m));
  mv_bound : len (subs (cluster m)) < two64;
  mv_next : nextSubID (cluster m) = len (subs (cluster m));
  mv_sub p s : subs (cluster m) !! p = Some s → isub_ok (subscribers (cluster m)) (gs m) p s;
  mv_map i p : subscribers (cluster m) !! i = Some p →
    ∃ s, subs (cluster m) !! p = Some s ∧ sub_id s = i;
  mv_gs : Forall (g_ok (length (subs (cluster m)))) (gs m);
}.

Lemma machine_inv_boot now id : machine_inv (boot now id).
Proof. by split. Qed.

(** ** Replacing one goroutine *)

Lemma phases_insert p l i g :
  l !! i = Some g →
  ∃ a b, phases p l = a ++ option_list (phase_at p g) ++ b ∧
    ∀ g', phases p (<[i := g']> l) = a ++ option_list (phase_at p g') ++ b.
Proof.
  intros Hi. assert (∀ x, <[i := x]> l = take i l ++ [x] ++ drop (S i) l) as E.
  { intros x. apply insert_take_drop. by eapply lookup_lt_Some. }
  exists (phases p (take i l)), (phases p (drop (S i) l)).
  assert (∀ x, phases p (<[i := x]> l) =
    phases p (take i l) ++ option_list (phase_at p x) ++ phases p (drop (S i) l)) as E'.
  { intros x. rewrite E. unfold phases. rewrite !omap_app. simpl. by destruct (phase_at p x). }
  split; [|exact E']. rewrite <- E'. by rewrite list_insert_id.
Qed.

Lemma phases_insert_same p l i g g' :
  l !! i = Some g → phase_at p g' = phase_at p g → phases p (<[i := g']> l) = phases p l.
Proof. intros Hi E. destruct (phases_insert p l i g Hi) as (a & b & -> & ->). by rewrite E. Qed.

(** The goroutine inside [Do] is the only one. *)
Lemma phases_inside p l i g k once f :
  l !! i = Some g → phase_at p g = Some k → flags_at once (phases p l) = Some f →
  once = true ∧ phases p l = [k] ∧ ∀ g', phases p (<[i := g']> l) = option_list (phase_at p g').
Proof.
  intros Hi Ek Hf. destruct (phases_insert p l i g Hi) as (a & b & E & E'). rewrite Ek in E. simpl in E.
  rewrite E in *. destruct once; [|destruct a; done].
  destruct a as [|x a]; [destruct b as [|y b]; [|by destruct k]|by destruct x, a].
  split; [done|]. split; [done|]. intros g'. rewrite E'. simpl. by rewrite app_nil_r.
Qed.

Lemma phases_outside p l i g g' :
  l !! i = Some g → phases p l = [] → phases p (<[i := g']> l) = option_list (phase_at p g').
Proof.
  intros Hi E0. destruct (phases_insert p l i g Hi) as (a & b & E & ->). rewrite E0 in E.
  symmetry in E. apply app_eq_nil in E as [-> [_ ->]%app_eq_nil]. simpl. by rewrite app_nil_r.
Qed.

Lemma Exists_insert_goroutine (P : Goroutine → Prop) l i g g' :
  l !! i = Some g → (P g → P g') → Exists P l → Exists P (<[i := g']> l).
Proof.
  intros Hi Hg (x & Hx & Px)%Exists_exists. apply list_elem_of_lookup in Hx as [j Hj].
  apply Exists_exists. destruct (decide (j = i)) as [->|Hne].
  - exists g'. split; [|apply Hg; by simplify_eq].
    eapply list_elem_of_lookup_2. apply list_lookup_insert_eq. by eapply lookup_lt_Some.
  - exists x. split; [|done]. eapply (list_elem_of_lookup_2 _ j). by rewrite list_lookup_insert_ne.
Qed.

(** A subscription the step is not about. *)
Lemma isub_ok_frame m m' l l' p s :
  isub_ok m l p s → phases p l' = phases p l → m' !! sub_id s = m !! sub_id s →
  (Exists (closes_soon p) l → Exists (closes_soon p) l') → isub_ok m' l' p s.
Proof. intros [] Eφ Em Hx. split; rewrite ?Eφ, ?Em; auto. Qed.

Lemma isub_id_inj m p q s t :
  machine_inv m → subs (cluster m) !! p = Some s → subs (cluster m) !! q = Some t →
  sub_id s = sub_id t → p = q.
Proof.
  intros Hm Hp Hq E. pose proof (mv_bound m Hm) as Hb. unfold len in Hb.
  apply lookup_lt_Some in Hp as Hp', Hq as Hq'.
  apply (mv_sub m Hm) in Hp, Hq. rewrite (io_id _ _ _ _ Hp), (io_id _ _ _ _ Hq), !wrapu64_id in E; lia.
Qed.

(** A step that touches no subscription. *)
Lemma machine_inv_quiet m i g c' g' :
  machine_inv m → gs m !! i = Some g →
  wf_affiliates (affiliates c') → subs c' = subs (cluster m) →
  subscribers c' = subscribers (cluster m) → nextSubID c' = nextSubID (cluster m) →
  (∀ p, phase_at p g' = phase_at p g) → (∀ p, ¬ closes_soon p g) →
  g_ok (length (subs (cluster m))) g' →
  machine_inv (mkMachine c' (<[i := g']> (gs m))).
Proof.
  intros Hm Hi Ha Es Em En Hφ Hc Hg. split; simpl; rewrite ?Es, ?Em, ?En; try by apply Hm.
  - done.
  - intros p s Hs. eapply isub_ok_frame; [by apply Hm | by eapply phases_insert_same | done |].
    eapply Exists_insert_goroutine; [done|]. intros H. by destruct (Hc p).
  - apply Forall_insert; [apply Hm | done].
Qed.

(** A step about the subscription at [p]; it may leave the map. *)
Lemma machine_inv_sub m i g p s c' g' s' (gone : bool) :
  machine_inv m → gs m !! i = Some g → subs (cluster m) !! p = Some s →
  affiliates c' = affiliates (cluster m) → subs c' = <[p := s']> (subs (cluster m)) →
  subscribers c' = (if gone then delete (sub_id s) (subscribers (cluster m)) else subscribers (cluster m)) →
  nextSubID c' = nextSubID (cluster m) → sub_id s' = sub_id s →
  (∀ q, q ≠ p → phase_at q g' = phase_at q g) → (∀ q, q ≠ p → closes_soon q g → closes_soon q g') →
  g_ok (length (subs (cluster m))) g' →
  isub_ok (subscribers c') (<[i := g']> (gs m)) p s' →
  machine_inv (mkMachine c' (<[i := g']> (gs m))).
Proof.
  intros Hm Hi Hp Ea Es Em En Eid Hφ Hc Hg Hs'.
  assert (p < length (subs (cluster m)))%nat as Hlt by (by eapply lookup_lt_Some).
  split; simpl; rewrite ?Ea, ?Es, ?En; unfold len; rewrite ?length_insert; try by apply Hm.
  - intros q t Hq. destruct (decide (q = p)) as [->|Hne].
    { rewrite list_lookup_insert_eq in Hq by done. by injection Hq as <-. }
    rewrite list_lookup_insert_ne in Hq by done.
    eapply isub_ok_frame; [by apply Hm | eapply phases_insert_same; eauto | |].
    + rewrite Em. destruct gone; [|done]. apply lookup_delete_ne. intros E. apply Hne.
      symmetry. by eapply (isub_id_inj m).
    + eapply Exists_insert_goroutine; eauto.
  - intros j q Hj. rewrite Em in Hj.
    assert (subscribers (cluster m) !! j = Some q) as Hj'.
    { destruct gone; [|done]. by apply lookup_delete_Some in Hj as [_ ?]. }
    destruct (mv_map m Hm j q Hj') as (t & Ht & Et). destruct (decide (q = p)) as [->|Hne].
    + exists s'. rewrite list_lookup_insert_eq by done. split; [done|]. by simplify_eq.
    + exists t. by rewrite list_lookup_insert_ne.
  - apply Forall_insert; [apply Hm | done].
Qed.

Lemma upd_sub_same p s c : subs c !! p = Some s → <[p := s]> (subs c) = subs c.
Proof. apply list_insert_id. Qed.

(** ** One step of [Close] *)

(** What [Close] returns to is not inside [Close]. *)
Definition returns (next : Goroutine) : Prop :=
  match next with GFan _ _ _ | GDone => True | _ => False end.

Lemma returns_phase q next : returns next → phase_at q next = None.
Proof. by destruct next. Qed.

Lemma g_ok_close n k p next : g_ok n (GClose k p next) → (p < n)%nat ∧ returns next ∧ g_ok n next.
Proof. intros [Hp Hn]. by destruct next. Qed.

Lemma phase_at_other q k p next : q ≠ p → phase_at q (GClose k p next) = None.
Proof. intros Hq. simpl. rewrite bool_decide_false; [done|]. by intros [? _]. Qed.

Lemma phase_at_self p k next : k ≠ AtOnce → phase_at p (GClose k p next) = Some k.
Proof. intros Hk. simpl. by rewrite bool_decide_true. Qed.

Section close_step.
Context (m : Machine) (i : nat) (p : SubPtr) (next : Goroutine) (s : Subscription).
Hypothesis Hm : machine_inv m.
Hypothesis Hp : subs (cluster m) !! p = Some s.

Lemma close_frame k q :
  returns next → q ≠ p → phase_at q next = phase_at q (GClose k p next).
Proof. intros Hn Hq. by rewrite returns_phase, phase_at_other. Qed.

(** Inside [Do]: the flags are those of the step, and the next point is [g']. *)
Lemma close_inside k :
  gs m !! i = Some (GClose k p next) → k ≠ AtOnce →
  closeOnce s = true ∧ (∀ g', phases p (<[i := g']> (gs m)) = option_list (phase_at p g')) ∧
  ∃ owned, flags_at true [k] = Some (closed s, owned, chan_closed (ch s), chan_closed (errCh s)) ∧
    subscribers (cluster m) !! sub_id s = if owned : bool then Some p else None.
Proof.
  intros Hi Hk. destruct (io_flags _ _ _ _ (mv_sub m Hm p s Hp)) as (owned & Hf & Ho).
  destruct (phases_inside p (gs m) i _ k _ _ Hi (phase_at_self p k next Hk) Hf) as (E & Eφ & E').
  rewrite E, Eφ in Hf. eauto.
Qed.

(** One step inside [Do] that makes [s'] of the subscription. *)
Lemma close_inside_inv k c' g' s' (gone : bool) :
  gs m !! i = Some (GClose k p next) → k ≠ AtOnce →
  affiliates c' = affiliates (cluster m) → subs c' = <[p := s']> (subs (cluster m)) →
  subscribers c' = (if gone then delete (sub_id s) (subscribers (cluster m)) else subscribers (cluster m)) →
  nextSubID c' = nextSubID (cluster m) → sub_id s' = sub_id s →
  chan_buf (ch s') = chan_buf (ch s) → chan_cap (ch s') = chan_cap (ch s) →
  chan_buf (errCh s') = chan_buf (errCh s) → chan_cap (errCh s') = chan_cap (errCh s) →
  closeOnce s' = true → closed s' = true →
  (g' = next ∨ ∃ k', k' ≠ AtOnce ∧ g' = GClose k' p next) →
  (∀ owned, flags_at true [k] = Some (closed s, owned, chan_closed (ch s), chan_closed (errCh s)) →
     flags_at true (option_list (phase_at p g')) =
       Some (true, owned && negb gone, chan_closed (ch s'), chan_closed (errCh s'))) →
  machine_inv (mkMachine c' (<[i := g']> (gs m))).
Proof.
  intros Hi Hk Ea Es Em En Eid Eb Ec Eeb Eec Eo Ecl Hg Hf.
  destruct (close_inside k Hi Hk) as (Hon & Hφ & owned & Hfl & Hown).
  pose proof (Forall_lookup_1 _ _ _ _ (mv_gs m Hm) Hi) as Hok. apply g_ok_close in Hok as (Hlt & Hr & Hnx).
  pose proof (mv_sub m Hm p s Hp) as [].
  eapply (machine_inv_sub m i _ p s c' g' s' gone); try done.
  - intros q Hq. destruct Hg as [->|(k' & _ & ->)]; [by apply close_frame | by rewrite !phase_at_other].
  - intros q Hq Hc. destruct k; simpl in Hc; by subst.
  - destruct Hg as [->|(k' & _ & ->)]; [done|]. split; [done|]. by destruct next.
  - split; rewrite ?Eid, ?Eb, ?Ec, ?Eeb, ?Eec, ?Eo, ?Ecl; try done.
    exists (owned && negb gone). rewrite Hφ. split; [by apply Hf|]. rewrite Em.
    destruct gone; [|by destruct owned]. rewrite lookup_delete_eq. by destruct owned.
Qed.
End close_step.

(** Entering [Do]. *)
Lemma close_enter_inv m i p next s :
  machine_inv m → subs (cluster m) !! p = Some s → gs m !! i = Some (GClose AtOnce p next) →
  closeOnce s = false →
  machine_inv (mkMachine (upd_sub p (mkSub (sub_id s) (ch s) (errCh s) (closed s) true) (cluster m))
                 (<[i := GClose Storing p next]> (gs m))).
Proof.
  intros Hm Hp Hi Ho. pose proof (mv_sub m Hm p s Hp) as [Hid ? ? ? ? (owned & Hf & Hown) Hq].
  pose proof (Forall_lookup_1 _ _ _ _ (mv_gs m Hm) Hi) as Hok.
  rewrite Ho in Hf. destruct (phases p (gs m)) eqn:Eφ; [|done].
  simpl in Hf. injection Hf as Ec <- Ech Eerr.
  eapply (machine_inv_sub m i _ p s _ _ _ false); try done.
  - intros q Hq'. by rewrite !phase_at_other.
  - split; simpl; try done.
    + exists true. rewrite (phases_outside p (gs m) i _ _ Hi Eφ), phase_at_self by done.
      simpl. by rewrite <- Ec, <- Ech, <- Eerr.
    + intros Hc Hne. eapply Exists_insert_goroutine; [done | done|]. by apply Hq.
Qed.

(** [Close] on a subscription that another call has closed. *)
Lemma close_skip_inv m i p next s :
  machine_inv m → subs (cluster m) !! p = Some s → gs m !! i = Some (GClose AtOnce p next) →
  closeOnce s = true → phases p (gs m) = [] →
  machine_inv (mkMachine (cluster m) (<[i := next]> (gs m))).
Proof.
  intros Hm Hp Hi Ho Eφ. pose proof (mv_sub m Hm p s Hp) as [Hid ? ? ? ? (owned & Hf & Hown) Hq].
  pose proof (Forall_lookup_1 _ _ _ _ (mv_gs m Hm) Hi) as Hok. apply g_ok_close in Hok as (Hlt & Hr & Hnx).
  rewrite Ho, Eφ in Hf. simpl in Hf. injection Hf as Ec <- Ech Eerr.
  eapply (machine_inv_sub m i _ p s _ _ s false); try done.
  - by rewrite upd_sub_same.
  - intros q Hq'. by apply close_frame.
  - split; try done.
    + exists false. rewrite (phases_outside p (gs m) i _ _ Hi Eφ), returns_phase by done.
      simpl. by rewrite Ho, <- Ec, <- Ech, <- Eerr.
    + by rewrite <- Ec.
Qed.

Lemma close_step_ok m i x k p next s :
  machine_inv m → subs (cluster m) !! p = Some s → gs m !! i = Some (GClose k p next) →
  blocked (gs m) (GClose k p next) = false →
  ∃ c' g', close_step (x_now x) k p s next (cluster m) = Ok (c', g') ∧
    machine_inv (mkMachine c' (<[i := g']> (gs m))).
Proof.
  intros Hm Hp Hi Hb. destruct k; simpl.
  - simpl in Hb. apply negb_false_iff, bool_decide_eq_true in Hb.
    destruct (closeOnce s) eqn:Ho; eexists _, _; (split; [done|]); [by eapply close_skip_inv | by eapply close_enter_inv].
  - destruct (close_inside m i p next s Hm Hp Storing Hi) as (Ho & _ & _); [done|].
    eexists _, _. split; [done|]. eapply (close_inside_inv m i p next s Hm Hp Storing _ _ _ false); try done.
    + right. by exists Removing.
    + simpl. rewrite bool_decide_true by done. intros owned' [= ? <- ? ?]; simpl; congruence.
  - destruct (close_inside m i p next s Hm Hp Removing Hi) as (Ho & _ & owned & Hf & Hown); [done|].
    simpl in Hf. injection Hf as Ec <- Ech Eerr. rewrite Hown. eexists _, _. split; [done|].
    eapply (close_inside_inv m i p next s Hm Hp Removing _ _ s true); try done.
    + by rewrite upd_sub_same.
    + right. by exists ClosingCh.
    + simpl. rewrite bool_decide_true by done. intros owned' [= ? <- ? ?]; simpl; congruence.
  - destruct (close_inside m i p next s Hm Hp ClosingCh Hi) as (Ho & _ & owned & Hf & Hown); [done|].
    simpl in Hf. injection Hf as Ec <- Ech Eerr. rewrite close_chan_open by done. simpl. eexists _, _. split; [done|].
    eapply (close_inside_inv m i p next s Hm Hp ClosingCh _ _ _ false); try done.
    + right. by exists ClosingErr.
    + simpl. rewrite bool_decide_true by done. intros owned' [= ? <- ? ?]; simpl; congruence.
  - destruct (close_inside m i p next s Hm Hp ClosingErr Hi) as (Ho & _ & owned & Hf & Hown); [done|].
    simpl in Hf. injection Hf as Ec <- Ech Eerr. rewrite close_chan_open by done. simpl. eexists _, _. split; [done|].
    eapply (close_inside_inv m i p next s Hm Hp ClosingErr _ _ _ false); try done.
    + right. by exists Prolonging.
    + simpl. rewrite bool_decide_true by done. intros owned' [= ? <- ? ?]; simpl; congruence.
  - destruct (close_inside m i p next s Hm Hp Prolonging Hi) as (Ho & _ & owned & Hf & Hown); [done|].
    simpl in Hf. injection Hf as Ec <- Ech Eerr. eexists _, _. split; [done|].
    eapply (close_inside_inv m i p next s Hm Hp Prolonging _ _ s false); try done.
    + simpl. by rewrite upd_sub_same.
    + by left.
    + pose proof (Forall_lookup_1 _ _ _ _ (mv_gs m Hm) Hi) as Hok. apply g_ok_close in Hok as (_ & Hr & _).
      rewrite returns_phase by done. simpl. intros owned' [= ? <- ? ?]; simpl; congruence.
Qed.

(** ** One step of a notification *)

Definition only_send_panics {A} (r : result Panic A) (P : A → Prop) : Prop :=
  match r with Ok a => P a | Err e => e = SendOnClosedChannel end.

Lemma try_send_cases {A} (v : A) k :
  try_send v k = Err SendOnClosedChannel ∧ chan_closed k = true ∨
  chan_closed k = false ∧ try_send v k = Ok (if has_room k then (true, push v k) else (false, k)).
Proof.
  destruct (chan_closed k) eqn:E; [left | right; split; [done | by apply try_send_open]].
  unfold try_send. by rewrite E.
Qed.

(** A step that leaves the closing state of everything alone, and at most
    changes the buffers of [p]. *)
Lemma notify_buffers_inv m i g p s s' g' :
  machine_inv m → subs (cluster m) !! p = Some s → gs m !! i = Some g →
  (∀ q, phase_at q g = None) → (∀ q, ¬ closes_soon q g) → (∀ q, phase_at q g' = None) →
  g_ok (length (subs (cluster m))) g' →
  sub_id s' = sub_id s → closed s' = closed s → closeOnce s' = closeOnce s →
  chan_closed (ch s') = chan_closed (ch s) → chan_closed (errCh s') = chan_closed (errCh s) →
  chan_cap (ch s') = chan_cap (ch s) → chan_cap (errCh s') = chan_cap (errCh s) →
  len (chan_buf (ch s')) ≤ affiliateSubBuffer → len (chan_buf (errCh s')) ≤ 1 →
  (chan_buf (errCh s') ≠ chan_buf (errCh s) → closes_soon p g') →
  machine_inv (mkMachine (upd_sub p s' (cluster m)) (<[i := g']> (gs m))).
Proof.
  intros Hm Hp Hi Hφ Hc Hφ' Hok Eid Ec Eo Ech Eerr Ecap Eecap Hl Hel Hq.
  pose proof (mv_sub m Hm p s Hp) as [Hid ? ? ? ? (owned & Hf & Hown) Hquiet].
  eapply (machine_inv_sub m i g p s _ g' s' false); try done.
  - intros q _. by rewrite Hφ, Hφ'.
  - intros q _ H'. by destruct (Hc q).
  - split; rewrite ?Eid, ?Ec, ?Eo, ?Ech, ?Eerr, ?Ecap, ?Eecap; try done.
    + exists owned. split; [|done]. by rewrite (phases_insert_same p (gs m) i g) by (by rewrite ?Hφ, ?Hφ').
    + intros Hcl Hne. destruct (decide (chan_buf (errCh s') = chan_buf (errCh s))) as [E|Hd].
      * eapply Exists_insert_goroutine; [done | by intros H'; destruct (Hc p) |]. apply Hquiet; congruence.
      * apply Exists_exists. exists g'. split; [|by apply Hq].
        eapply list_elem_of_lookup_2, list_lookup_insert_eq. by eapply lookup_lt_Some.
Qed.

Lemma notify_step_ok m i g p s :
  machine_inv m → subs (cluster m) !! p = Some s → gs m !! i = Some g → target g = Some p →
  (∀ k q next, g ≠ GClose k q next) →
  only_send_panics (notify_step g s (cluster m))
    (λ r, machine_inv (mkMachine r.1 (<[i := r.2]> (gs m)))).
Proof.
  intros Hm Hp Hi Ht Hg. pose proof (mv_sub m Hm p s Hp) as [Hid Hcap Hlen Hecap Helen _ _].
  pose proof (Forall_lookup_1 _ _ _ _ (mv_gs m Hm) Hi) as Hok.
  destruct g as [| | | | |ev [|q ps] evs|ev q ps evs|ev q ps evs|k q next|]; simplify_eq/=;
    [apply Forall_cons in Hok as [_ Hok]..|by destruct (Hg k p next)].
  - destruct (closed s); simpl; (eapply machine_inv_quiet; [done | done | apply Hm | | | | | |]; try done; try by intros q []).
    simpl. apply Forall_cons. split; [by eapply lookup_lt_Some | done].
  - destruct (try_send_cases ev (ch s)) as [[-> _]|[Hch ->]]; [done|]. simpl.
    destruct (has_room (ch s)) eqn:Er; simpl.
    + eapply (notify_buffers_inv m i _ p s (with_ch _ s)); try done; try (by intros ? []).
      simpl. rewrite <- Hcap. by apply (len_push ev (ch s)).
    + eapply machine_inv_quiet; try done; try (by intros ? []); [apply Hm|].
      simpl. apply Forall_cons. split; [by eapply lookup_lt_Some | done].
  - destruct (try_send_cases lost_update (errCh s)) as [[-> _]|[Hch ->]]; [done|]. simpl.
    eapply (notify_buffers_inv m i _ p s (with_errCh _ s)); try done; try (by intros ? []); simpl.
    + intros q. rewrite bool_decide_false; [done|]. intros [_ Hn]. by apply Hn.
    + split; [by eapply lookup_lt_Some | done].
    + by destruct (has_room (errCh s)).
    + by destruct (has_room (errCh s)).
    + destruct (has_room (errCh s)) eqn:Er; [|done]. simpl. rewrite <- Hecap.
      by apply (len_push lost_update (errCh s)).
Qed.

(** ** Every action *)

Lemma sub_step_ok m i x g p :
  machine_inv m → gs m !! i = Some g → target g = Some p → blocked (gs m) g = false →
  only_send_panics (sub_step x g p (cluster m))
    (λ r, machine_inv (mkMachine r.1 (<[i := r.2]> (gs m)))).
Proof.
  intros Hm Hi Ht Hb. pose proof (Forall_lookup_1 _ _ _ _ (mv_gs m Hm) Hi) as Hok.
  assert (p < length (subs (cluster m)))%nat as Hlt.
  { destruct g as [| | | | |ev [|q ps] evs| | |k q next|]; simplify_eq/=; try (by apply Forall_cons in Hok as [? _]).
    by destruct Hok. }
  apply lookup_lt_is_Some in Hlt as [s Hp]. unfold sub_step. rewrite Hp.
  destruct g as [| | | | |ev ps evs|ev q ps evs|ev q ps evs|k q next|]; try done;
    try (eapply notify_step_ok; [done | done | done | done | by intros]).
  injection Ht as ->. destruct (close_step_ok m i x k p next s Hm Hp Hi Hb) as (c' & g' & -> & Hm').
  done.
Qed.

(** The copy [notify] takes of the subscribers. *)
Lemma subscribers_exist m ρ :
  machine_inv m → Forall (λ q, (q < length (subs (cluster m)))%nat) (range ρ (subscribers (cluster m))).*2.
Proof.
  intros Hm. apply Forall_forall. intros p Hp. apply list_elem_of_fmap in Hp as ([j q] & -> & Hj%elem_of_range).
  destruct (mv_map m Hm j q Hj) as (s & Hs & _). by eapply lookup_lt_Some.
Qed.

Lemma g_step_ok m i x g :
  machine_inv m → gs m !! i = Some g → blocked (gs m) g = false →
  only_send_panics (g_step x g (cluster m))
    (λ r, machine_inv (mkMachine r.1 (<[i := r.2]> (gs m)))).
Proof.
  intros Hm Hi Hb.
  assert (∀ c' g', wf_affiliates (affiliates c') → subs c' = subs (cluster m) →
    subscribers c' = subscribers (cluster m) → nextSubID c' = nextSubID (cluster m) →
    (∀ p, phase_at p g' = None) → (∀ p, phase_at p g = None) → (∀ p, ¬ closes_soon p g) →
    g_ok (length (subs (cluster m))) g' → machine_inv (mkMachine c' (<[i := g']> (gs m)))) as Hquiet.
  { intros c' g' ??????? Hg'. eapply machine_inv_quiet; try done. congruence. }
  pose proof (mv_affs m Hm) as Ha. pose proof (Forall_lookup_1 _ _ _ _ (mv_gs m Hm) Hi) as Hok.
  destruct g as [req|id| |ev|[|ev evs]|ev [|p ps] evs|ev p ps evs|ev p ps evs|k p next|]; simpl;
    try (by apply (sub_step_ok m i x)); try (by apply Hquiet; try done; intros ? []).
  - pose proof (updateAffiliateLocked_put (x_now x) req (cluster m) Ha) as (a & E & Hwf).
    destruct (updateAffiliateLocked _ _ _) as [c1 [[ev|]|e]]; simpl in *; subst c1;
      apply Hquiet; try done; intros ? [].
  - unfold deleteAffiliateLocked. destruct (affiliates (cluster m) !! id); simpl;
      apply Hquiet; try done; try (by intros ? []). by apply wf_affiliates_delete.
  - rewrite pruneAffiliates_eq. simpl. apply Hquiet; try done; try (by intros ? []). by apply prune_affiliates_wf.
  - apply Hquiet; try done; try (by intros ? []). by apply subscribers_exist.
Qed.

Lemma machine_inv_start m g :
  machine_inv m → (∀ p, phase_at p g = None) → g_ok (length (subs (cluster m))) g → machine_inv (start g m).
Proof.
  intros Hm Hφ Hg. split; simpl; try apply Hm.
  - intros p s Hs. eapply isub_ok_frame; [by apply Hm | | done |].
    + unfold phases. rewrite omap_app. simpl. by rewrite Hφ, app_nil_r.
    + intros H. apply Exists_app. by left.
  - apply Forall_app. split; [apply Hm | by constructor].
Qed.

(** Nobody is closing a subscription that does not exist yet. *)
Lemma phases_new n l : Forall (g_ok n) l → phases n l = [].
Proof.
  unfold phases. induction 1 as [|g l Hg _ IH]; simpl; [done|]. destruct (phase_at n g) eqn:E; [|done].
  destruct g; simplify_eq/=. case_bool_decide as Hq; [|done]. destruct Hq as [-> _]. destruct Hg. lia.
Qed.

Lemma g_ok_mono n k g : (n ≤ k)%nat → g_ok n g → g_ok k g.
Proof.
  intros Hle. assert (∀ ps, Forall (λ q, (q < n)%nat) ps → Forall (λ q, (q < k)%nat) ps) as Hps.
  { intros ps Hps. eapply Forall_impl; [exact Hps|]. simpl. lia. }
  destruct g as [| | | | | |ev p ps evs|ev p ps evs|c p next|]; simpl; auto; try apply (Hps (p :: ps)).
  intros [Hp Hn]. split; [lia|]. destruct next; auto.
Qed.

Lemma machine_inv_subscribe m ρ :
  machine_inv m → len (subs (cluster m)) + 1 < two64 →
  machine_inv (set_cluster (SubscribeWithSnapshot ρ (cluster m)).1 m).
Proof.
  intros Hm Hlt. pose proof (mv_next m Hm) as En. simpl. unfold set_cluster.
  assert (wrapu64 (nextSubID (cluster m) + 1) = wrapu64 (len (subs (cluster m)) + 1)) as Eid by by rewrite En.
  split; simpl; unfold len in *; rewrite ?length_app; simpl; try lia.
  - apply Hm.
  - rewrite Eid, wrapu64_id by lia. lia.
  - intros p s [Hs|[Hge Hs]]%lookup_app_Some.
    + eapply isub_ok_frame; [by apply Hm | done | | done]. apply lookup_insert_ne.
      rewrite (io_id _ _ _ _ (mv_sub m Hm p s Hs)), Eid. apply lookup_lt_Some in Hs as Hp.
      rewrite !wrapu64_id by lia. lia.
    + apply list_lookup_singleton_Some in Hs as [E0 <-].
      replace p with (length (subs (cluster m))) by lia. split; simpl; try done.
      exists true. rewrite phases_new by apply Hm. split; [done|]. apply lookup_insert_eq.
  - intros j p [[<- <-]|[Hne Hj]]%lookup_insert_Some.
    + eexists. rewrite lookup_app_r, Nat.sub_diag by done. done.
    + destruct (mv_map m Hm j p Hj) as (s & Hs & Es). exists s. split; [|done]. by apply lookup_app_l_Some.
  - eapply Forall_impl; [apply Hm|]. intros g. apply g_ok_mono. lia.
Qed.

(** No step of a goroutine allocates a subscription. *)
Lemma g_step_subs x g c c' g' : g_step x g c = Ok (c', g') → length (subs c') = length (subs c).
Proof.
  assert (∀ p, sub_step x g p c = Ok (c', g') → length (subs c') = length (subs c)) as Hsub.
  { intros p. unfold sub_step, notify_step, close_step, rbind. intros E.
    repeat case_match; simplify_eq/=; rewrite ?length_insert; done. }
  destruct g as [req|id| |ev|[|ev evs]|ev [|p ps] evs|ev p ps evs|ev p ps evs|k p next|]; simpl;
    try (by apply Hsub); try (by intros [= <- <-]).
  - pose proof (updateAffiliateLocked_subs (x_now x) req c) as Es.
    destruct (updateAffiliateLocked _ _ _) as [c1 r]. intros [= <- _]. simpl in Es. by rewrite Es.
  - unfold deleteAffiliateLocked. destruct (affiliates c !! id); by intros [= <- _].
  - rewrite pruneAffiliates_eq. by intros [= <- _].
Qed.

(** A receive shortens one buffer. *)
Lemma machine_inv_recv m p s s' :
  machine_inv m → subs (cluster m) !! p = Some s →
  sub_id s' = sub_id s → closed s' = closed s → closeOnce s' = closeOnce s →
  chan_closed (ch s') = chan_closed (ch s) → chan_closed (errCh s') = chan_closed (errCh s) →
  chan_cap (ch s') = chan_cap (ch s) → chan_cap (errCh s') = chan_cap (errCh s) →
  len (chan_buf (ch s')) ≤ affiliateSubBuffer → len (chan_buf (errCh s')) ≤ 1 →
  (chan_buf (errCh s') ≠ [] → chan_buf (errCh s) ≠ []) →
  machine_inv (set_cluster (upd_sub p s' (cluster m)) m).
Proof.
  intros Hm Hp Eid Ec Eo Ech Eerr Ecap Eecap Hl Hel Hq.
  pose proof (mv_sub m Hm p s Hp) as [Hid ? ? ? ? Hf Hquiet].
  split; simpl; unfold len; rewrite ?length_insert; try by apply Hm.
  - intros q t [(<- & <- & _)|[Hne Ht]]%list_lookup_insert_Some; [|by apply Hm].
    split; rewrite ?Eid, ?Ec, ?Eo, ?Ech, ?Eerr, ?Ecap, ?Eecap; auto.
  - intros j q Hj. destruct (mv_map m Hm j q Hj) as (t & Ht & Et). destruct (decide (q = p)) as [->|Hne].
    + exists s'. rewrite list_lookup_insert_eq by (by eapply lookup_lt_Some). split; [done|]. by simplify_eq.
    + exists t. by rewrite list_lookup_insert_ne.
Qed.

Lemma act_ok m a :
  machine_inv m → len (subs (cluster m)) + 1 < two64 →
  only_send_panics (act m a) (λ m', machine_inv m' ∧
    len (subs (cluster m')) ≤ len (subs (cluster m)) + 1).
Proof.
  intros Hm Hlt. assert (∀ m', machine_inv m' → length (subs (cluster m')) = length (subs (cluster m)) →
    machine_inv m' ∧ len (subs (cluster m')) ≤ len (subs (cluster m)) + 1) as Hsame.
  { intros m' ? E. split; [done|]. unfold len. rewrite E. lia. }
  destruct a as [i x|req|id| |p|ρ|p|p]; cbn [act only_send_panics].
  - destruct (gs m !! i) as [g|] eqn:Hi; [|by apply Hsame]. destruct (blocked (gs m) g) eqn:Hb; [by apply Hsame|].
    pose proof (g_step_ok m i x g Hm Hi Hb) as Hg. pose proof (g_step_subs x g (cluster m)) as Hs.
    destruct (g_step x g (cluster m)) as [[c' g']|e]; [|done]. simpl in *. apply Hsame; [done | by eapply Hs].
  - apply Hsame; [|done]. by apply machine_inv_start.
  - apply Hsame; [|done]. by apply machine_inv_start.
  - apply Hsame; [|done]. by apply machine_inv_start.
  - case_bool_decide; [|by apply Hsame]. apply Hsame; [|done]. apply machine_inv_start; [done | |done].
    intros q. simpl. rewrite bool_decide_false; [done|]. intros [_ Hn]. by apply Hn.
  - split; [by apply machine_inv_subscribe|]. unfold len. simpl. rewrite length_app. simpl. lia.
  - destruct (recv_event p (cluster m)) as [[ev c']|] eqn:E; simpl; [|by destruct m; apply Hsame].
    apply recv_event_inv in E as (s & b & Hp & Hb & ->). apply Hsame; [|by simpl; rewrite length_insert].
    pose proof (mv_sub m Hm p s Hp) as [_ _ Hl _ Hel _ _]. rewrite Hb in Hl. unfold len in *. simpl in *.
    eapply machine_inv_recv; try done. unfold len. simpl. lia.
  - destruct (recv_error p (cluster m)) as [[ev c']|] eqn:E; simpl; [|by destruct m; apply Hsame].
    apply recv_error_inv in E as (s & b & Hp & Hb & ->). apply Hsame; [|by simpl; rewrite length_insert].
    pose proof (mv_sub m Hm p s Hp) as [_ _ Hl _ Hel _ _]. rewrite Hb in Hel. unfold len in *. simpl in *.
    eapply machine_inv_recv; try done; [unfold len; simpl; lia|]. by rewrite Hb.
Qed.

Lemma acts_ok m acts :
  machine_inv m → len (subs (cluster m)) + len acts < two64 →
  only_send_panics (rfold act m acts) machine_inv.
Proof.
  revert m. induction acts as [|a acts IH]; intros m Hm Hlt; simpl; [done|].
  unfold len in Hlt. simpl in Hlt.
  pose proof (act_ok m a Hm) as Ha. destruct (act m a) as [m'|e]; simpl in *.
  - destruct Ha as [Hm' Hl]; [unfold len; lia|]. apply IH; [done|]. unfold len in *. lia.
  - apply Ha. unfold len. lia.
Qed.

(** ** Machines at rest *)

#[export] Instance finished_dec g : Decision (GDone = g).
Proof. destruct g; (by left) || by right. Defined.

Lemma phases_finished p l : Forall (eq GDone) l → phases p l = [].
Proof. unfold phases. induction 1 as [|g l <- _ IH]; [done|]. exact IH. Qed.

(** When no operation is in progress the cluster is well formed. *)
Lemma machine_inv_finished m : machine_inv m → Forall (eq GDone) (gs m) → wf_cluster (cluster m).
Proof.
  intros Hm Hd. split; [apply Hm|]. split; [apply Hm..| |apply Hm].
  intros p s Hp. destruct (mv_sub m Hm p s Hp) as [? ? ? ? ? (owned & Hf & Ho) Hq].
  rewrite phases_finished in Hf by done.
  assert (closed s = false → chan_buf (errCh s) = []) as Hq'.
  { intros Hc. destruct (decide (chan_buf (errCh s) = [])) as [|Hne]; [done|].
    specialize (Hq Hc Hne). apply Exists_exists in Hq as (g & Hg & Hcs).
    rewrite Forall_forall in Hd. by rewrite <- (Hd g Hg) in Hcs. }
  destruct (closeOnce s) eqn:Eo; simpl in Hf; injection Hf as Ec <- Ech Eerr;
    split; rewrite ?Eo, <- ?Ec, <- ?Ech, <- ?Eerr; auto. by rewrite Ec.
Qed.

(** Some operation in progress can take a step. *)
Lemma machine_progress m :
  machine_inv m → ¬ Forall (eq GDone) (gs m) →
  ∃ i g, gs m !! i = Some g ∧ g ≠ GDone ∧ blocked (gs m) g = false.
Proof.
  intros Hm Hd. destruct (decide (Forall (λ g, blocked (gs m) g = true) (gs m))) as [Hb|Hb].
  - apply not_Forall_Exists in Hd; [|intros g; apply _].
    apply Exists_exists in Hd as (g & Hg & Hne).
    rewrite Forall_forall in Hb. pose proof (Hb g Hg) as Hbg. destruct g as [| | | | | | | |[] p next|]; try done.
    simpl in Hbg. apply negb_true_iff, bool_decide_eq_false in Hbg.
    destruct (phases p (gs m)) as [|k φ] eqn:Eφ; [done|].
    assert (k ∈ phases p (gs m)) as Hk by (rewrite Eφ; left).
    unfold phases in Hk. apply list_elem_of_omap in Hk as (g' & Hg' & Ek).
    pose proof (Hb g' Hg') as Hb'. destruct g' as [| | | | | | | |k' q next'|]; try done.
    simpl in Ek. case_bool_decide as Hq; [|done]. destruct Hq as [_ Hk']. by destruct k'.
  - apply not_Forall_Exists in Hb; [|intros g; apply _]. apply Exists_exists in Hb as (g & Hg & Hb).
    apply list_elem_of_lookup in Hg as [i Hi]. exists i, g. split; [done|]. apply not_true_is_false in Hb.
    split; [|done]. by intros ->.
Qed.
