(* ===== verification/InterleaveProps.v ===== *)
(** * Properties of overlapping operations

    What holds however operations overlap, that the operations of [Cluster.v]
    are among the ways they can, and two ways in which the others differ. *)

From S2P Require Import Prelude GoTime GoChan Limits Affiliate Cluster ClusterSubs.
From S2P Require Import ClusterFacts.
From S2P Require Import Replication Interleave InterleaveFacts.

(** ** One goroutine running alone *)

(** [m] becomes [m'] when only the goroutine [i] runs. *)
Definition runs (i : nat) (m m' : Machine) : Prop := ∃ xs, rfold act m (Run i <$> xs) = Ok m'.

#[export] Instance runs_preorder i : PreOrder (runs i).
Proof.
  split.
  - intros m. by exists [].
  - intros m1 m2 m3 [xs1 E1] [xs2 E2]. exists (xs1 ++ xs2). by rewrite fmap_app, rfold_app, E1.
Qed.

Section alone.
Context (i : nat) (l : list Goroutine).
Hypothesis Hi : (i < length l)%nat.
(** No other goroutine is inside [Close]. *)
Hypothesis Hl : ∀ p, phases p l = [].

Definition at_point (c : Cluster) (g : Goroutine) : Machine := mkMachine c (<[i := g]> l).

Lemma runs_step x c g c' g' :
  g_step x g c = Ok (c', g') → g ≠ GDone → runs i (at_point c g) (at_point c' g').
Proof.
  intros E Hg. exists [x]. simpl. rewrite list_lookup_insert_eq by done.
  assert (blocked (<[i := g]> l) g = false) as ->.
  { destruct g as [| | | | | | | |[] p next|]; try done. simpl. apply negb_false_iff, bool_decide_eq_true.
    apply lookup_lt_is_Some in Hi as [g0 Hg0]. rewrite (phases_outside p l i g0 _ Hg0) by done. simpl.
    rewrite bool_decide_false; [done|]. intros [_ Hn]. by apply Hn. }
  rewrite E. simpl. by rewrite list_insert_insert_eq.
Qed.

Definition at_time (now : Time) (ρ : MapOrder Z) : Choice := mkChoice now (order_fwd string) ρ.

(** A step about one subscription. *)
Lemma runs_sub now c g p s c' g' :
  target g = Some p → subs c !! p = Some s →
  match g with
  | GClose k _ next => close_step now k p s next c
  | _ => notify_step g s c
  end = Ok (c', g') →
  runs i (at_point c g) (at_point c' g').
Proof.
  intros Ht Hp E. apply (runs_step (at_time now (order_fwd Z))); [|by destruct g].
  assert (g_step (at_time now (order_fwd Z)) g c = sub_step (at_time now (order_fwd Z)) g p c) as ->.
  { destruct g as [| | | | |? [|] ?| | | |]; simplify_eq/=; done. }
  unfold sub_step. rewrite Hp. by destruct g.
Qed.

Lemma upd_sub_upd_sub p s t c : upd_sub p s (upd_sub p t c) = upd_sub p s c.
Proof. unfold upd_sub, set_subs. simpl. by rewrite list_insert_insert_eq. Qed.

Lemma upd_sub_lookup p s t c : subs c !! p = Some t → subs (upd_sub p s c) !! p = Some s.
Proof. intros Hp. simpl. apply list_lookup_insert_eq. by eapply lookup_lt_Some. Qed.

(** Running [Close] to its end. *)
Lemma runs_Close now p c c' next :
  Subscription_Close now p c = Ok c' → runs i (at_point c (GClose AtOnce p next)) (at_point c' next).
Proof.
  unfold Subscription_Close. destruct (subs c !! p) as [s|] eqn:Hp; [|done].
  destruct (closeOnce s) eqn:Ho.
  { intros [= <-]. eapply (runs_sub now _ _ p s); [done..|]. simpl. by rewrite Ho. }
  intros E. etrans.
  { eapply (runs_sub now _ _ p s); [done..|]. simpl. by rewrite Ho. }
  etrans.
  { eapply (runs_sub now _ _ p); [done | by eapply upd_sub_lookup | done]. }
  rewrite upd_sub_upd_sub. set (s1 := mkSub _ _ _ true _) in *.
  change (mkSub (sub_id s) (ch s) (errCh s) true true) with s1 in E.
  assert (subs (upd_sub p s1 c) !! p = Some s1) as Hp1 by by eapply upd_sub_lookup.
  clearbody s1. unfold closeFn in E. rewrite Hp1 in E.
  destruct (subscribers (upd_sub p s1 c) !! sub_id s1) as [q|] eqn:Hq.
  2: { injection E as <-. eapply (runs_sub now _ _ p); [done | done |]. simpl in *. by rewrite Hq. }
  destruct (close_chan (ch s1)) as [k|] eqn:Ek; [|done]. simpl in E.
  destruct (close_chan (errCh s1)) as [k'|] eqn:Ek'; [|done]. simpl in E. injection E as <-.
  etrans. { eapply (runs_sub now _ _ p); [done | done |]. simpl in *. by rewrite Hq. }
  etrans. { eapply (runs_sub now _ _ p); [done | done |]. simpl in *. by rewrite Ek. }
  etrans.
  { eapply (runs_sub now _ _ p); [done | by eapply (upd_sub_lookup p _ s1) |]. simpl in *. by rewrite Ek'. }
  rewrite upd_sub_upd_sub.
  by eapply (runs_sub now _ _ p); [done | by eapply (upd_sub_lookup p _ s1) |].
Qed.

(** ... and a notification. *)
Lemma runs_notify_one now ev p c c' ps evs :
  Subscription_notify now ev c p = Ok c' →
  runs i (at_point c (GFan ev (p :: ps) evs)) (at_point c' (GFan ev ps evs)).
Proof.
  unfold Subscription_notify. destruct (subs c !! p) as [s|] eqn:Hp; [|done].
  destruct (closed s) eqn:Hc; intros E.
  { injection E as <-. eapply (runs_sub now _ _ p s); [done..|]. simpl. by rewrite Hc. }
  etrans. { eapply (runs_sub now _ _ p s); [done..|]. simpl. by rewrite Hc. }
  destruct (try_send ev (ch s)) as [[sent k]|] eqn:Es; [|done]. simpl in E.
  destruct sent.
  { injection E as <-. eapply (runs_sub now _ _ p s); [done..|]. simpl. unfold with_ch. by rewrite Es, Hc. }
  assert (k = ch s) as ->.
  { unfold try_send in Es. destruct (chan_closed (ch s)); [done|]. destruct (_ <? _); by simplify_eq. }
  etrans. { eapply (runs_sub now _ _ p s); [done..|]. simpl. by rewrite Es. }
  destruct (try_send lost_update (errCh s)) as [[sent k']|] eqn:Es'; [|done]. simpl in E.
  etrans. { eapply (runs_sub now _ _ p s); [done..|]. simpl. by rewrite Es'. }
  apply (runs_Close now). unfold with_errCh. simpl. by rewrite Hc.
Qed.

Lemma runs_fan now ev ps c c' evs :
  rfold (Subscription_notify now ev) c ps = Ok c' →
  runs i (at_point c (GFan ev ps evs)) (at_point c' (GNotify evs)).
Proof.
  revert c. induction ps as [|p ps IH]; intros c E; simpl in E.
  { injection E as <-. by apply (runs_step (at_time now (order_fwd Z))). }
  destruct (Subscription_notify now ev c p) as [c1|] eqn:E1; [|done].
  etrans; [by apply (runs_notify_one now ev p c c1) | by apply IH].
Qed.

Lemma runs_notify ρ now ev c c' evs :
  notify ρ now ev c = Ok c' →
  runs i (at_point c (GNotify (ev :: evs))) (at_point c' (GNotify evs)).
Proof.
  intros E. etrans; [by apply (runs_step (at_time now ρ)) | by eapply runs_fan].
Qed.

Lemma runs_end c : runs i (at_point c (GNotify [])) (at_point c GDone).
Proof. by apply (runs_step (at_time zero_time (order_fwd Z))). Qed.

Lemma runs_notify_all (ρs : nat → MapOrder Z) now evs c c' n :
  rfold (λ c' iev, notify (ρs iev.1) now iev.2 c') c (imap (λ k ev, (n + k, ev))%nat evs) = Ok c' →
  runs i (at_point c (GNotify evs)) (at_point c' GDone).
Proof.
  revert c n. induction evs as [|ev evs IH]; intros c n E; simpl in E; [injection E as <-; apply runs_end|].
  destruct (notify _ now ev c) as [c1|] eqn:E1; [|done]. simpl in E.
  etrans; [by eapply runs_notify|]. apply (IH c1 (S n)). rewrite <- E. f_equal.
  apply imap_ext. intros k x _. unfold compose. f_equal. lia.
Qed.
End alone.

(** ** Properties *)

(** C6: whatever operations overlap, and however their steps interleave, on a
    new cluster: the only panic there can be is a send on a closed channel (no
    channel is closed twice, no pointer is nil); at every moment the table is
    within its limits with affiliates filed under their own ids, no buffer is
    overfull, and, unless all operations have ended, one of them can take a
    step; and when all have ended the cluster satisfies the invariant that
    operations run one at a time maintain. *)
Theorem interleaved_ops_safe now id acts :
  len acts < two64 →
  match rfold act (boot now id) acts with
  | Err e => e = SendOnClosedChannel
  | Ok m =>
      wf_affiliates (affiliates (cluster m)) ∧
      (∀ p s, subs (cluster m) !! p = Some s →
         len (chan_buf (ch s)) ≤ affiliateSubBuffer ∧ len (chan_buf (errCh s)) ≤ 1 ∧
         (is_Some (subscribers (cluster m) !! sub_id s) → chan_closed (ch s) = false)) ∧
      (Forall (eq GDone) (gs m) ∨
       ∃ i g, gs m !! i = Some g ∧ g ≠ GDone ∧ blocked (gs m) g = false) ∧
      (Forall (eq GDone) (gs m) → wf_cluster (cluster m))
  end.
Proof.
  intros Hlt. pose proof (acts_ok (boot now id) acts (machine_inv_boot now id) Hlt) as H.
  destruct (rfold act (boot now id) acts) as [m|e]; [|exact H]. simpl in H.
  split; [apply H|]. split; [|split].
  - intros p s Hp. destruct (mv_sub m H p s Hp) as [? ? ? ? ? (owned & Hf & Ho) _].
    split; [done|]. split; [done|]. intros [q Hq]. rewrite Hq in Ho. destruct owned; [|done].
    by destruct (closeOnce s), (phases p (gs m)) as [|[] []]; simplify_eq/=.
  - destruct (decide (Forall (eq GDone) (gs m))); [by left | right; by apply machine_progress].
  - by apply machine_inv_finished.
Qed.

(** C7: the operations as [Cluster.v] defines them, each in one step, are among
    the interleavings: a goroutine that runs alone, from any cluster and
    beside any goroutines that are not closing a subscription, does exactly
    what [UpdateAffiliate], [DeleteAffiliate], [Prune] and [Close] say. *)
Theorem atomic_ops_are_interleavings i l c :
  (i < length l)%nat → (∀ p, phases p l = []) →
  (∀ ρ now req c' r, UpdateAffiliate ρ now req c = Ok (c', r) →
     runs i (at_point i l c (GUpdate req)) (at_point i l c' GDone)) ∧
  (∀ ρ now id c' r, DeleteAffiliate ρ now id c = Ok (c', r) →
     runs i (at_point i l c (GDelete id)) (at_point i l c' GDone)) ∧
  (∀ ρ ρs now c', Prune ρ ρs now c = Ok c' →
     runs i (at_point i l c GPrune) (at_point i l c' GDone)) ∧
  (∀ now p c', Subscription_Close now p c = Ok c' →
     runs i (at_point i l c (GClose AtOnce p GDone)) (at_point i l c' GDone)).
Proof.
  intros Hi Hl. split_and!.
  - intros ρ now req c' r E. unfold UpdateAffiliate in E.
    destruct (updateAffiliateLocked now req c) as [c1 r1] eqn:E1.
    etrans. { apply (runs_step i l Hi Hl (at_time now ρ)); [simpl; by rewrite E1 | done]. }
    destruct r1 as [[ev|]|e]; [|by simplify_eq..].
    destruct (notify ρ now ev c1) as [c2|] eqn:E2; [|done]. injection E as <- <-.
    etrans; [by eapply runs_notify | by apply runs_end].
  - intros ρ now id c' r E. unfold DeleteAffiliate in E.
    destruct (deleteAffiliateLocked id c) as [c1 oev] eqn:E1.
    etrans. { apply (runs_step i l Hi Hl (at_time now ρ)); [simpl; by rewrite E1 | done]. }
    destruct oev as [ev|]; [|by simplify_eq].
    destruct (notify ρ now ev _) as [c2|] eqn:E2; [|done]. injection E as <- <-.
    etrans; [by apply (runs_step i l Hi Hl (at_time now ρ))|].
    etrans; [by eapply runs_notify | by apply runs_end].
  - intros ρ ρs now c' E. unfold Prune in E. destruct (pruneAffiliates ρ now c) as [c1 evs] eqn:E1.
    etrans. { apply (runs_step i l Hi Hl (mkChoice now ρ (order_fwd Z))); [simpl; by rewrite E1 | done]. }
    by apply (runs_notify_all i l Hi Hl ρs now evs c1 c' 0).
  - intros now p c' E. by apply (runs_Close i l Hi Hl now).
Qed.

(** ** Closing and sending at the same time *)

Lemma machine_inv_acts now id acts m :
  rfold act (boot now id) acts = Ok m → len acts < two64 → machine_inv m.
Proof.
  intros E Hlt. pose proof (acts_ok (boot now id) acts (machine_inv_boot now id) Hlt) as H. by rewrite E in H.
Qed.

(** A step of the goroutine that was started last. *)
Lemma act_last l x g c c' g' :
  blocked (l ++ [g]) g = false → g_step x g c = Ok (c', g') →
  act (mkMachine c (l ++ [g])) (Run (length l) x) = Ok (mkMachine c' (l ++ [g'])).
Proof.
  intros Hb E. cbn [act gs cluster]. rewrite lookup_app_r, Nat.sub_diag by done. cbn [lookup list_lookup].
  rewrite Hb, E. cbn [rbind fst snd]. rewrite insert_app_r_alt, Nat.sub_diag by done. done.
Qed.

Lemma act_close_step l x k p next c s c' g' :
  subs c !! p = Some s → (k = AtOnce → phases p l = []) →
  close_step (x_now x) k p s next c = Ok (c', g') →
  act (mkMachine c (l ++ [GClose k p next])) (Run (length l) x) = Ok (mkMachine c' (l ++ [g'])).
Proof.
  intros Hp Hb E. apply act_last.
  - destruct k; try done. cbn [blocked]. apply negb_false_iff, bool_decide_eq_true.
    unfold phases. rewrite omap_app. fold (phases p l). rewrite Hb by done. simpl.
    rewrite bool_decide_false; [done|]. intros [_ Hn]. by apply Hn.
  - cbn [g_step target]. unfold sub_step. by rewrite Hp.
Qed.

(** [Close] up to and including [close(sub.ch)]. *)
Lemma act_close_ch l x p c s q :
  subs c !! p = Some s → phases p l = [] → closeOnce s = false → chan_closed (ch s) = false →
  subscribers c !! sub_id s = Some q →
  ∃ c' s', rfold act (mkMachine c (l ++ [GClose AtOnce p GDone])) (replicate 4 (Run (length l) x)) =
      Ok (mkMachine c' (l ++ [GClose ClosingErr p GDone])) ∧
    subs c' !! p = Some s' ∧ chan_closed (ch s') = true.
Proof.
  intros Hp Hl Ho Hc Hq. cbn [replicate rfold].
  erewrite (act_close_step l x AtOnce p GDone c s); [|done | done | cbn [close_step]; by rewrite Ho].
  cbn [rbind]. erewrite (act_close_step l x Storing p GDone); [|by eapply upd_sub_lookup | done | done].
  cbn [rbind]. rewrite upd_sub_upd_sub. cbn [sub_id ch errCh closeOnce].
  set (s1 := mkSub (sub_id s) (ch s) (errCh s) true true).
  assert (subs (upd_sub p s1 c) !! p = Some s1) as Hp1 by by eapply upd_sub_lookup.
  erewrite (act_close_step l x Removing p GDone); [|exact Hp1 | done | simpl; by rewrite Hq].
  cbn [rbind]. erewrite (act_close_step l x ClosingCh p GDone); [|exact Hp1 | done |].
  2: { cbn [close_step]. rewrite close_chan_open by done. cbn [rbind]. done. }
  cbn [rbind]. eexists _, (with_ch (shut (ch s1)) s1). split; [done|]. split; [|done]. by eapply upd_sub_lookup.
Qed.

(** C35: the send on a closed channel can happen.  Whenever a goroutine is in
    [notify] between its check of [closed] and its send to some watcher, and
    that watcher's context ends, the goroutine that closes the subscription can
    run up to [close(sub.ch)] first; the send then panics.  In a request the
    recovery interceptor makes an error of it and the watchers not yet notified
    miss the event; in the clean-up goroutine nothing recovers it. *)
Theorem close_races_with_send now id acts m i ev p ps evs s x :
  rfold act (boot now id) acts = Ok m → len acts < two64 →
  gs m !! i = Some (GSend ev p ps evs) → subs (cluster m) !! p = Some s → closeOnce s = false →
  rfold act m (StartClose p :: replicate 4 (Run (length (gs m)) x) ++ [Run i x]) =
  Err SendOnClosedChannel.
Proof.
  intros E Hlt Hi Hp Ho. pose proof (machine_inv_acts _ _ _ _ E Hlt) as Hm.
  destruct (io_flags _ _ _ _ (mv_sub m Hm p s Hp)) as (owned & Hf & Hown). rewrite Ho in Hf.
  destruct (phases p (gs m)) eqn:Eφ; [|done]. simpl in Hf. injection Hf as Ec <- Ech Eerr.
  destruct (act_close_ch (gs m) x p (cluster m) s p) as (c' & s' & Er & Hp' & Hc'); [done..|].
  cbn [rfold]. cbn [act]. rewrite bool_decide_true by (by eapply lookup_lt_Some). cbn [rbind].
  rewrite rfold_app. unfold start. rewrite Er. cbn [rbind rfold act gs cluster].
  rewrite lookup_app_l by (by eapply lookup_lt_Some). rewrite Hi. cbn [blocked g_step target].
  unfold sub_step. rewrite Hp'. cbn [notify_step]. unfold try_send. by rewrite Hc'.
Qed.

(** ** Events out of order *)

Definition race_now : Time := mkTime 0 None.
Definition race_choice : Choice := mkChoice race_now (order_fwd string) (order_fwd Z).
Definition race_req (data : bytes) : AffiliateUpdateRequest.t :=
  AffiliateUpdateRequest.mk "n1" data [] (60 * Second).

(** A watcher, then two updates of one affiliate: the first to change the table
    is the last to send its event. *)
Definition race_acts (first second : bytes) : list Act :=
  [DoSubscribe (order_fwd string); StartUpdate (race_req first); StartUpdate (race_req second);
   Run 0 race_choice; Run 1 race_choice]
  ++ replicate 5 (Run 1 race_choice) ++ replicate 5 (Run 0 race_choice).

(** Steps of goroutines that have started. *)
Definition is_run (a : Act) : Prop := match a with Run _ _ => True | _ => False end.
Definition schedules (m m' : Machine) : Prop := ∃ xs, Forall is_run xs ∧ rfold act m xs = Ok m'.

#[export] Instance schedules_preorder : PreOrder schedules.
Proof.
  split.
  - intros m. by exists [].
  - intros m1 m2 m3 (xs1 & H1 & E1) (xs2 & H2 & E2). exists (xs1 ++ xs2).
    split; [by apply Forall_app | by rewrite rfold_app, E1].
Qed.

Lemma runs_schedules i m m' : runs i m m' → schedules m m'.
Proof. intros [xs E]. exists (Run i <$> xs). split; [by apply Forall_fmap, Forall_true | done]. Qed.

(** One goroutine of a machine, between those before and those after it. *)
Lemma at_point_middle l r g0 c g : at_point (length l) (l ++ g0 :: r) c g = mkMachine c (l ++ g :: r).
Proof.
  unfold at_point. f_equal. rewrite insert_app_r_alt, Nat.sub_diag by done. done.
Qed.

Lemma runs_middle l r c c' g g' :
  runs (length l) (at_point (length l) (l ++ GDone :: r) c g) (at_point (length l) (l ++ GDone :: r) c' g') →
  schedules (mkMachine c (l ++ g :: r)) (mkMachine c' (l ++ g' :: r)).
Proof. rewrite !at_point_middle. apply runs_schedules. Qed.

(** The two halves of a successful update beside quiet goroutines. *)
Section halves.
Context (l r : list Goroutine).
Hypothesis Hq : ∀ p, phases p (l ++ GDone :: r) = [].

Lemma length_middle : (length l < length (l ++ GDone :: r))%nat.
Proof. rewrite length_app. simpl. lia. Qed.

Lemma update_changes now req c c1 ev :
  updateAffiliateLocked now req c = (c1, Ok (Some ev)) →
  schedules (mkMachine c (l ++ GUpdate req :: r)) (mkMachine c1 (l ++ GNotify [ev] :: r)).
Proof.
  intros E. apply runs_middle, (runs_step _ _ length_middle Hq (at_time now (order_fwd Z))); [|done].
  simpl. by rewrite E.
Qed.

Lemma update_announces now ev c :
  wf_subs c → schedules (mkMachine c (l ++ GNotify [ev] :: r)) (mkMachine (fan_out now ev c) (l ++ GDone :: r)).
Proof.
  intros Hwf. etransitivity; apply runs_middle.
  - apply (runs_notify _ _ length_middle Hq (order_fwd Z) now). by apply notify_fan_out.
  - by apply (runs_end _ _ length_middle Hq).
Qed.
End halves.

Lemma phases_quiet l p :
  Forall (λ g, match g with GClose _ _ _ => False | _ => True end) l → phases p l = [].
Proof. induction 1 as [|g l Hg _ IH]; [done|]. unfold phases in *. csimpl. destruct g; done || exact IH. Qed.

(** Both updates change the table, then the second one announces itself first. *)
Lemma updates_cross now1 now2 r1 r2 l c c1 ev1 c2 ev2 :
  Forall (eq GDone) l → wf_subs c2 →
  updateAffiliateLocked now1 r1 c = (c1, Ok (Some ev1)) →
  updateAffiliateLocked now2 r2 c1 = (c2, Ok (Some ev2)) →
  schedules (mkMachine c (l ++ [GUpdate r1; GUpdate r2]))
    (mkMachine (fan_out now1 ev1 (fan_out now2 ev2 c2)) (l ++ [GDone; GDone])).
Proof.
  intros Hl Hwf E1 E2.
  assert (∀ g h p, match g with GClose _ _ _ => False | _ => True end →
    match h with GClose _ _ _ => False | _ => True end → phases p (l ++ [g; h]) = []) as Hq.
  { intros g h p Hg Hh. apply phases_quiet, Forall_app. split; [|by repeat constructor].
    eapply Forall_impl; [exact Hl|]. by intros ? <-. }
  assert (∀ g h, l ++ [g; h] = (l ++ [g]) ++ [h]) as Happ by (intros; by rewrite <- app_assoc).
  etransitivity; [eapply (update_changes l [GUpdate r2]); [by intros; apply Hq | exact E1]|].
  etransitivity.
  { rewrite Happ. eapply (update_changes (l ++ [_]) []); [|exact E2]. intros p. rewrite <- Happ. by apply Hq. }
  etransitivity.
  { apply (update_announces (l ++ [_]) []); [|exact Hwf]. intros p. rewrite <- Happ. by apply Hq. }
  rewrite <- Happ. apply (update_announces l [GDone]); [by intros; apply Hq | by apply fan_out_wf].
Qed.

(** Events about other affiliates leave an entry alone. *)
Lemma apply_events_other v evs id :
  (∀ ev, ev ∈ evs → ID (Info ev) ≠ id) → apply_events v evs !! id = v !! id.
Proof.
  revert v. induction evs as [|ev evs IH]; intros v H; [done|].
  unfold apply_events in *. simpl. rewrite IH by (intros; apply H; by right).
  assert (ID (Info ev) ≠ id) by (apply H; left). unfold apply_event.
  destruct (_ =? _); [by rewrite lookup_delete_ne|]. destruct (_ =? _); [by rewrite lookup_insert_ne | done].
Qed.

(** C36: a watcher can be left with a state the cluster no longer has.  The
    table changes under a lock, but the event is sent after its release.  From
    any machine that is at rest, take two updates of one affiliate that both
    succeed and have something to announce, and any open watcher with two free
    places: the goroutines can be scheduled so that, when both updates have
    ended, the cluster holds what the second one wrote, while the watcher, open
    and with nothing lost, ends up with what the first one wrote, whatever view
    it has built; and it keeps that until an event about this affiliate comes. *)
Theorem events_can_be_reordered now id acts m now1 now2 r1 r2 c1 ev1 c2 ev2 p s :
  rfold act (boot now id) acts = Ok m → len acts < two64 → Forall (eq GDone) (gs m) →
  updateAffiliateLocked now1 r1 (cluster m) = (c1, Ok (Some ev1)) →
  updateAffiliateLocked now2 r2 c1 = (c2, Ok (Some ev2)) →
  AffiliateUpdateRequest.ID r1 = AffiliateUpdateRequest.ID r2 →
  subs (cluster m) !! p = Some s → closed s = false → len (chan_buf (ch s)) + 2 ≤ affiliateSubBuffer →
  let aid := AffiliateUpdateRequest.ID r1 in
  ∃ xs m' s', Forall is_run xs ∧ rfold act m (StartUpdate r1 :: StartUpdate r2 :: xs) = Ok m' ∧
    Forall (eq GDone) (gs m') ∧ subs (cluster m') !! p = Some s' ∧ closed s' = false ∧
    cluster_view (cluster m') !! aid = Some (Info ev2) ∧
    ∀ v evs, (∀ ev, ev ∈ evs → ID (Info ev) ≠ aid) →
      apply_events v (chan_buf (ch s') ++ evs) !! aid = Some (Info ev1).
Proof.
  intros E Hlt Hd E1 E2 Hid Hp Ho Hroom aid. pose proof (machine_inv_acts _ _ _ _ E Hlt) as Hm.
  pose proof (machine_inv_finished m Hm Hd) as Hwf. destruct m as [c l]. cbn [cluster gs] in *.
  pose proof (updateAffiliateLocked_wf _ _ _ _ _ Hwf E1) as Hwf1.
  pose proof (updateAffiliateLocked_wf _ _ _ _ _ Hwf1 E2) as Hwf2.
  pose proof (update_view now1 r1 c (wf_cl_affiliates c Hwf)) as V1. rewrite E1 in V1.
  pose proof (update_view now2 r2 c1 (wf_cl_affiliates c1 Hwf1)) as V2. rewrite E2 in V2.
  destruct V1 as (T1 & I1 & _ & _), V2 as (T2 & I2 & _ & V2).
  pose proof (updateAffiliateLocked_subs now1 r1 c) as S1. rewrite E1 in S1.
  pose proof (updateAffiliateLocked_subs now2 r2 c1) as S2. rewrite E2 in S2. simpl in S1, S2.
  destruct (updates_cross now1 now2 r1 r2 l c c1 ev1 c2 ev2 Hd (wf_cl_subs c2 Hwf2) E1 E2) as (xs & Hxs & Er).
  exists xs, (mkMachine (fan_out now1 ev1 (fan_out now2 ev2 c2)) (l ++ [GDone; GDone])), (with_ch (push ev1 (push ev2 (ch s))) s).
  pose proof (wf_sub_cap _ _ _ (wf_subs_sub c (wf_cl_subs c Hwf) p s Hp)) as Hcap.
  split; [done|]. split.
  { cbn [rfold act rbind]. unfold start. cbn [cluster gs]. by rewrite <- app_assoc. }
  split; [by apply Forall_app; split; [|repeat constructor]|]. split.
  { cbn [cluster]. rewrite !fan_out_lookup, S2, S1, Hp. cbn [fmap option_fmap option_map]. f_equal.
    assert (∀ t, closed t = false → has_room (ch t) = true → ∀ ev, deliver ev t = with_ch (push ev (ch t)) t) as Hdel.
    { intros t Ht Hroom' ev. unfold deliver, with_ch. by rewrite Ht, Hroom'. }
    rewrite (Hdel s) by (done || (unfold has_room; apply Z.ltb_lt; rewrite Hcap; unfold len in Hroom; lia)).
    rewrite Hdel; [done | done |]. unfold has_room, push. simpl. apply Z.ltb_lt. rewrite length_app, Hcap. simpl.
    unfold len in Hroom. lia. }
  split; [done|]. split.
  - cbn [cluster]. change (cluster_view (fan_out now1 ev1 (fan_out now2 ev2 c2))) with (cluster_view c2).
    rewrite V2. unfold apply_event. rewrite T2, I2. simpl. unfold aid. by rewrite Hid, lookup_insert_eq.
  - intros v evs Hevs. unfold apply_events. rewrite foldl_app. fold (apply_events v (chan_buf (ch (with_ch (push ev1 (push ev2 (ch s))) s)))).
    change (foldl apply_event ?w evs) with (apply_events w evs). rewrite apply_events_other by done.
    simpl. unfold apply_events. rewrite foldl_app. cbn [foldl].
    unfold apply_event at 1. rewrite T1, I1. simpl. by rewrite lookup_insert_eq.
Qed.

(** ** Witnesses *)

(** Two updates and a sweep that overlap, one watcher leaving. *)
Definition overlap_acts : list Act :=
  race_acts (bs "a") (bs "b") ++ [StartPrune; StartClose 0; Run 2 race_choice; Run 3 race_choice].

Lemma interleaved_ops_safe_witness :
  ∃ m, rfold act (boot race_now "c1") overlap_acts = Ok m ∧ wf_affiliates (affiliates (cluster m)).
Proof.
  pose proof (interleaved_ops_safe race_now "c1" overlap_acts ltac:(by vm_compute)) as H.
  destruct (rfold act (boot race_now "c1") overlap_acts) as [m|e] eqn:E.
  - exists m. split; [reflexivity | exact (proj1 H)].
  - exfalso. clear H. revert E. vm_compute. discriminate.
Defined.

(** A watcher, then two requests with different data. *)
Definition watched_machine : Machine :=
  match act (boot race_now "c1") (DoSubscribe (order_fwd string)) with Ok m => m | Err _ => boot race_now "c1" end.

Lemma events_can_be_reordered_witness :
  ∃ xs m' s', rfold act watched_machine
      (StartUpdate (race_req (bs "a")) :: StartUpdate (race_req (bs "b")) :: xs) = Ok m' ∧
    subs (cluster m') !! 0%nat = Some s' ∧
    cluster_view (cluster m') !! "n1" = Some (mkInfo "n1" (bs "b") []) ∧
    apply_events ∅ (chan_buf (ch s')) !! "n1" = Some (mkInfo "n1" (bs "a") []).
Proof.
  destruct (updateAffiliateLocked race_now (race_req (bs "a")) (cluster watched_machine)) as [c1 o1] eqn:E1.
  destruct (updateAffiliateLocked race_now (race_req (bs "b")) c1) as [c2 o2] eqn:E2.
  destruct (subs (cluster watched_machine) !! 0%nat) as [s|] eqn:Es; [|by vm_compute in Es].
  pose proof E1 as E1'. pose proof E2 as E2'. pose proof Es as Es'.
  vm_compute in E1'. injection E1' as <- <-. vm_compute in E2'. injection E2' as <- <-.
  vm_compute in Es'. injection Es' as <-.
  edestruct (events_can_be_reordered race_now "c1" [DoSubscribe (order_fwd string)] watched_machine race_now race_now
    _ _ _ _ _ _ 0%nat _ eq_refl eq_refl (Forall_nil_2 _) E1 E2 eq_refl Es)
    as (xs & m' & s' & _ & Er & _ & Hs & _ & Hv & Ha).
  - reflexivity.
  - by vm_compute.
  - exists xs, m', s'. split_and!; [exact Er | exact Hs | exact Hv |].
    specialize (Ha ∅ []). rewrite app_nil_r in Ha. apply Ha. intros ev []%elem_of_nil.
Defined.

Definition crash_acts : list Act :=
  [DoSubscribe (order_fwd string); StartUpdate (race_req (bs "a"))] ++ replicate 3 (Run 0 race_choice).

Definition crash_machine : Machine :=
  match rfold act (boot race_now "c1") crash_acts with Ok m => m | Err _ => boot race_now "c1" end.

Lemma close_races_with_send_witness :
  rfold act (boot race_now "c1")
    (crash_acts ++ StartClose 0 :: replicate 4 (Run 1 race_choice) ++ [Run 0 race_choice]) =
  Err SendOnClosedChannel.
Proof.
  assert (rfold act (boot race_now "c1") crash_acts = Ok crash_machine) as E by (vm_compute; reflexivity).
  rewrite rfold_app, E. cbn [rbind].
  eapply (close_races_with_send race_now "c1" crash_acts crash_machine 0 _ 0 _ _ _ race_choice E);
    vm_compute; reflexivity.
Defined.

(** Beside a goroutine in the middle of a fan-out. *)
Lemma atomic_ops_are_interleavings_witness :
  let l := [GDone; GNotify []] in
  let c := NewCluster race_now "c1" in
  ∃ c', runs 0 (at_point 0 l c (GUpdate (race_req (bs "a")))) (at_point 0 l c' GDone) ∧
    is_Some (affiliates c' !! "n1").
Proof.
  intros l c.
  destruct (atomic_ops_are_interleavings 0 l c ltac:(simpl; lia) ltac:(intros p; reflexivity)) as (H & _).
  destruct (UpdateAffiliate (order_fwd Z) race_now (race_req (bs "a")) c) as [[c' r]|e] eqn:E.
  - exists c'. split; [exact (H _ _ _ _ _ E)|]. revert E. vm_compute. intros [= <- _]. by eexists.
  - exfalso. revert E. vm_compute. discriminate.
Defined.
