(* ===== verification/XMap.v ===== *)
(** * The concurrent map of the state, as an interface

    [state.go] keeps its clusters in an [xsync.Map], which belongs to a library
    the repository only calls.  The class lists the methods the code uses; the
    law class states their documented behaviour through the finite map
    [xm_view] they represent.  [gmap_xmap] is a concrete instance. *)

From S2P Require Import Prelude.

Class XMap (M : Type → Type) : Type := {
  xm_new {V : Type} : M V;
  xm_load {V : Type} : M V → string → option V;
  xm_store {V : Type} : M V → string → V → M V;
  xm_delete {V : Type} : M V → string → M V;
  (** The value offered is the one the function would compute; the boolean
      says whether an existing one was loaded instead. *)
  xm_load_or_compute {V : Type} : M V → string → V → M V * V * bool;
  xm_range {V : Type} : M V → list (string * V);
}.

Class XMapLaws (M : Type → Type) `{XMap M} : Type := {
  xm_view {V : Type} : M V → gmap string V;
  xm_new_view (V : Type) : xm_view (xm_new (V := V)) = ∅;
  xm_load_view {V : Type} (m : M V) k : xm_load m k = xm_view m !! k;
  xm_store_view {V : Type} (m : M V) k v : xm_view (xm_store m k v) = <[k := v]> (xm_view m);
  xm_delete_view {V : Type} (m : M V) k : xm_view (xm_delete m k) = delete k (xm_view m);
  xm_load_or_compute_hit {V : Type} (m : M V) k v w :
    xm_view m !! k = Some w → xm_load_or_compute m k v = (m, w, true);
  xm_load_or_compute_miss {V : Type} (m : M V) k v :
    xm_view m !! k = None →
    ∃ m', xm_load_or_compute m k v = (m', v, false) ∧ xm_view m' = <[k := v]> (xm_view m);
  xm_range_view {V : Type} (m : M V) : xm_range m ≡ₚ map_to_list (xm_view m);
}.

(** ** A concrete instance *)

#[export] Instance gmap_xmap : XMap (gmap string) := {|
  xm_new V := ∅;
  xm_load V m k := m !! k;
  xm_store V m k v := <[k := v]> m;
  xm_delete V m k := delete k m;
  xm_load_or_compute V m k v :=
    match m !! k with
    | Some w => (m, w, true)
    | None => (<[k := v]> m, v, false)
    end;
  xm_range V m := map_to_list m;
|}.

#[export, refine] Instance gmap_xmap_laws : XMapLaws (gmap string) := {|
  xm_view V m := m;
|}.
Proof.
  - done.
  - done.
  - done.
  - done.
  - intros V m k v w E. simpl. by rewrite E.
  - intros V m k v E. simpl. rewrite E. eauto.
  - done.
Defined.

Section xmap.
Context {M : Type → Type} `{XMapLaws M} {V : Type}.
Implicit Types (m : M V).

Lemma elem_of_xm_range m k v : (k, v) ∈ xm_range m ↔ xm_view m !! k = Some v.
Proof. by rewrite xm_range_view, elem_of_map_to_list. Qed.

Lemma NoDup_xm_range m : NoDup (xm_range m).*1.
Proof. rewrite xm_range_view. apply NoDup_fst_map_to_list. Qed.
End xmap.
