(* ===== verification/State.v ===== *)
(** * The state: clusters by id ([internal/state/state.go])

    The map holds [*Cluster] pointers, and a request keeps the pointer it was
    given while other goroutines change the map; so clusters live in a store
    and the map's values are indices into it. *)

From S2P Require Import Prelude GoTime GoChan Limits Affiliate Cluster ClusterSubs.
From S2P Require Import ClusterFacts XMap.

Abbreviation ClusterPtr := nat.

Record State (M : Type → Type) : Type := mkState {
  clusters : M ClusterPtr;
  cstore : list Cluster;
}.
Arguments mkState {M}.
Arguments clusters {M}.
Arguments cstore {M}.

Section state.
Context {M : Type → Type} `{XMap M}.

(** [NewState] without a snapshot path. *)
Definition empty_state : State M := mkState xm_new [].

(** [ClusterFor]: the function given to [LoadOrCompute] allocates the cluster,
    and runs only when there is none. *)
Definition ClusterFor (now : Time) (clusterId : string) (s : State M) : State M * ClusterPtr :=
  let '(m, cluster, loaded) :=
    xm_load_or_compute (clusters s) clusterId (length (cstore s)) in
  (mkState m (if loaded : bool then cstore s else cstore s ++ [NewCluster now clusterId]), cluster).

Definition GetCluster (clusterId : string) (s : State M) : option ClusterPtr :=
  xm_load (clusters s) clusterId.

(** A method call through a pointer. *)
Definition with_cluster {A : Type} (p : ClusterPtr) (f : Cluster → result Panic (Cluster * A))
    (s : State M) : result Panic (State M * A) :=
  match cstore s !! p with
  | None => Err NilDereference
  | Some c => r <-? f c ;; Ok (mkState (clusters s) (<[p := r.1]> (cstore s)), r.2)
  end.

(** One iteration of [Cleanup]. *)
Definition cleanup_one (ρ : MapOrder string) (ρs : nat → MapOrder Z) (now : Time)
    (s : State M) (entry : string * ClusterPtr) : result Panic (State M) :=
  let '(id, p) := entry in
  r <-? with_cluster p (λ c, c' <-? Prune ρ ρs now c ;;
                              Ok (c', IsExpired now c' && IsEmpty c')) s ;;
  let '(s', drop) := r in
  Ok (if drop : bool then mkState (xm_delete (clusters s') id) (cstore s') else s').

Definition Cleanup (ρ : MapOrder string) (ρs : nat → MapOrder Z) (now : Time) (s : State M) :
    result Panic (State M) :=
  rfold (cleanup_one ρ ρs now) s (xm_range (clusters s)).

End state.

Arguments cleanup_one : simpl never.
