(* ===== verification/StateFacts.v ===== *)
(** * Facts and properties of the state *)

From S2P Require Import Prelude GoTime GoChan Limits Affiliate Cluster ClusterSubs.
From S2P Require Import ClusterFacts XMap State.

Lemma foldl_fan_out_id now c evs :
  cl_id (foldl (λ c' ev, fan_out now ev c') c evs) = cl_id c.
Proof. revert c. induction evs as [|ev evs IH]; intros c; simpl; [done|]. by rewrite IH. Qed.

(** The cluster after its sweep, and whether the sweep then drops it. *)
Definition cleaned (ρ : MapOrder string) (now : Time) (c : Cluster) : Cluster :=
  foldl (λ c' ev, fan_out now ev c') (swept now c) (range ρ (affiliates c) ≫= prune_events now).

Definition dropped (ρ : MapOrder string) (now : Time) (c : Cluster) : bool :=
  IsExpired now (cleaned ρ now c) && IsEmpty (cleaned ρ now c).

Lemma cleaned_wf ρ now c : wf_cluster c → wf_cluster (cleaned ρ now c).
Proof. intros Hwf. by apply foldl_fan_out_wf, swept_wf. Qed.

Lemma cleaned_id ρ now c : cl_id (cleaned ρ now c) = cl_id c.
Proof. unfold cleaned. by rewrite foldl_fan_out_id. Qed.

Lemma cleaned_affiliates ρ now c :
  affiliates (cleaned ρ now c) = omap (prune_one now) (affiliates c).
Proof. unfold cleaned. by rewrite foldl_fan_out_affiliates. Qed.

Section state.
Context {M : Type → Type} `{XMapLaws M}.
Implicit Types (s : State M) (id : string) (p : ClusterPtr).

(** Every id leads to the cluster of that id, and every cluster, listed or
    not, is well-formed. *)
Record wf_state (s : State M) : Prop := {
  wf_st_ptr id p :
    xm_view (clusters s) !! id = Some p → ∃ c, cstore s !! p = Some c ∧ cl_id c = id;
  wf_st_each p c : cstore s !! p = Some c → wf_cluster c;
}.

(** The cluster a request for [id] would find. *)
Definition find_cluster (s : State M) (id : string) : option Cluster :=
  p ← xm_view (clusters s) !! id; cstore s !! p.

Lemma empty_state_wf : wf_state empty_state.
Proof.
  split; simpl.
  - intros id p. rewrite xm_new_view. by rewrite lookup_empty.
  - intros p c. by rewrite lookup_nil.
Qed.

Lemma find_cluster_Some s id c :
  find_cluster s id = Some c ↔ ∃ p, xm_view (clusters s) !! id = Some p ∧ cstore s !! p = Some c.
Proof. unfold find_cluster. by rewrite bind_Some. Qed.

(** ** [ClusterFor] *)

Lemma ClusterFor_hit now s id p :
  xm_view (clusters s) !! id = Some p → ClusterFor now id s = (s, p).
Proof.
  intros E. unfold ClusterFor. rewrite (xm_load_or_compute_hit _ _ _ p) by done. by destruct s.
Qed.

Lemma ClusterFor_miss now s id :
  xm_view (clusters s) !! id = None →
  ∃ m', ClusterFor now id s = (mkState m' (cstore s ++ [NewCluster now id]), length (cstore s)) ∧
    xm_view m' = <[id := length (cstore s)]> (xm_view (clusters s)).
Proof.
  intros E. unfold ClusterFor.
  destruct (xm_load_or_compute_miss (clusters s) id (length (cstore s)) E) as (m' & -> & Ev). eauto.
Qed.

Lemma ClusterFor_wf now s id :
  wf_state s → wf_state (ClusterFor now id s).1.
Proof.
  intros [Hp Hc]. destruct (xm_view (clusters s) !! id) as [p|] eqn:E.
  { by rewrite (ClusterFor_hit _ _ _ p). }
  destruct (ClusterFor_miss now s id E) as (m' & -> & Ev). split; simpl.
  - intros j p. rewrite Ev. intros [[<- <-]|[Hne Hj]]%lookup_insert_Some.
    + exists (NewCluster now id). rewrite lookup_app_r, Nat.sub_diag by lia. done.
    + destruct (Hp j p Hj) as (c & Hcp & Hid). exists c. split; [|done]. by apply lookup_app_l_Some.
  - intros p c [Hcp|[_ Hcp]]%lookup_app_Some; [by eapply Hc|].
    apply list_lookup_singleton_Some in Hcp as [_ <-]. apply wf_new_cluster.
Qed.

(** ** [Cleanup] *)

Lemma cleanup_one_eq ρ ρs now s id p c :
  cstore s !! p = Some c → wf_cluster c →
  cleanup_one ρ ρs now s (id, p) =
  Ok (mkState (if dropped ρ now c then xm_delete (clusters s) id else clusters s)
        (<[p := cleaned ρ now c]> (cstore s))).
Proof.
  intros Hp Hwf. unfold cleanup_one, with_cluster. rewrite Hp, Prune_eq by done. simpl.
  fold (cleaned ρ now c). fold (dropped ρ now c). by destruct (dropped ρ now c).
Qed.

Lemma cleanup_loop ρ ρs now (l : list (string * ClusterPtr)) s :
  NoDup l.*1 → NoDup l.*2 →
  (∀ id p, (id, p) ∈ l → ∃ c, cstore s !! p = Some c ∧ wf_cluster c) →
  ∃ s', rfold (cleanup_one ρ ρs now) s l = Ok s' ∧
    (∀ p, cstore s' !! p =
       if bool_decide (p ∈ l.*2) then cleaned ρ now <$> cstore s !! p else cstore s !! p) ∧
    (∀ id, xm_view (clusters s') !! id =
       match (list_to_map l : gmap string ClusterPtr) !! id with
       | Some p => if from_option (dropped ρ now) false (cstore s !! p) then None
                   else xm_view (clusters s) !! id
       | None => xm_view (clusters s) !! id
       end).
Proof.
  revert s. induction l as [|[id p] l IH]; intros s Hnd1 Hnd2 Hl; [by exists s|].
  csimpl in *. apply NoDup_cons in Hnd1 as [Hid Hnd1], Hnd2 as [Hp Hnd2].
  destruct (Hl id p) as (c & Hc & Hwf); [left|].
  assert (p < length (cstore s))%nat as Hlt by (by eapply lookup_lt_Some).
  cbn [rfold]. rewrite (cleanup_one_eq _ _ _ _ _ _ c) by done. cbn [rbind].
  destruct (IH (mkState (if dropped ρ now c then xm_delete (clusters s) id else clusters s)
                 (<[p := cleaned ρ now c]> (cstore s)))) as (s' & E & Hs & Hv); [done | done | |].
  { intros j q Hin. assert (q ≠ p) as Hne.
    { intros ->. apply Hp. apply list_elem_of_fmap. by exists (j, p). }
    simpl. rewrite list_lookup_insert_ne by done. apply (Hl j). by right. }
  exists s'. split; [done|]. split.
  - intros q. rewrite Hs. simpl. destruct (decide (q = p)) as [->|Hne].
    + rewrite list_lookup_insert_eq by done. rewrite (bool_decide_false (p ∈ l.*2)) by done.
      rewrite (bool_decide_true (p ∈ p :: l.*2)) by left. by rewrite Hc.
    + rewrite list_lookup_insert_ne by done.
      rewrite (bool_decide_ext (q ∈ p :: l.*2) (q ∈ l.*2)); [done|].
      rewrite elem_of_cons. naive_solver.
  - intros j. rewrite Hv. simpl. destruct (decide (j = id)) as [->|Hne].
    + rewrite lookup_insert_eq, not_elem_of_list_to_map_1 by done. rewrite Hc. simpl.
      destruct (dropped ρ now c); [|done]. by rewrite xm_delete_view, lookup_delete_eq.
    + rewrite lookup_insert_ne by done.
      assert (xm_view (if dropped ρ now c then xm_delete (clusters s) id else clusters s) !! j =
              xm_view (clusters s) !! j) as ->.
      { destruct (dropped ρ now c); [|done]. by rewrite xm_delete_view, lookup_delete_ne. }
      destruct ((list_to_map l : gmap string ClusterPtr) !! j) as [q|] eqn:Eq; [|done].
      rewrite list_lookup_insert_ne; [done|]. intros ->.
      apply elem_of_list_to_map_2 in Eq. apply Hp. apply list_elem_of_fmap. by exists (j, q).
Qed.

Lemma xm_range_NoDup_ptr s : wf_state s → NoDup (xm_range (clusters s)).*2.
Proof.
  intros [Hp _]. apply NoDup_fmap_2_strong.
  - intros [i p] [j q] Hi%elem_of_xm_range Hj%elem_of_xm_range E. simpl in E. subst q.
    destruct (Hp i p Hi) as (c & Hc & <-). destruct (Hp j p Hj) as (d & Hd & <-). by simplify_eq.
  - eapply NoDup_fmap_1, NoDup_xm_range.
Qed.

Lemma list_to_map_xm_range s :
  (list_to_map (xm_range (clusters s)) : gmap string ClusterPtr) = xm_view (clusters s).
Proof.
  apply map_eq. intros id. apply option_eq. intros p.
  rewrite <- elem_of_list_to_map by apply NoDup_xm_range. apply elem_of_xm_range.
Qed.

Lemma Cleanup_eq ρ ρs now s :
  wf_state s →
  ∃ s', Cleanup ρ ρs now s = Ok s' ∧
    (∀ p, cstore s' !! p =
       if bool_decide (p ∈ (xm_range (clusters s)).*2)
       then cleaned ρ now <$> cstore s !! p else cstore s !! p) ∧
    (∀ id, xm_view (clusters s') !! id =
       p ← xm_view (clusters s) !! id;
       if from_option (dropped ρ now) false (cstore s !! p) then None else Some p).
Proof.
  intros Hwf.
  destruct (cleanup_loop ρ ρs now (xm_range (clusters s)) s) as (s' & E & Hs & Hv).
  - apply NoDup_xm_range.
  - by apply xm_range_NoDup_ptr.
  - intros id p Hin%elem_of_xm_range. destruct (wf_st_ptr s Hwf id p Hin) as (c & Hc & _).
    exists c. split; [done | by eapply wf_st_each].
  - exists s'. split; [done|]. split; [done|]. intros id. rewrite Hv, list_to_map_xm_range.
    destruct (xm_view (clusters s) !! id); done.
Qed.

Lemma elem_of_range_ptr s p :
  p ∈ (xm_range (clusters s)).*2 ↔ ∃ id, xm_view (clusters s) !! id = Some p.
Proof.
  rewrite list_elem_of_fmap. split.
  - intros ([id q] & -> & Hin%elem_of_xm_range). eauto.
  - intros [id Hid]. exists (id, p). by rewrite elem_of_xm_range.
Qed.

Lemma Cleanup_wf ρ ρs now s s' : wf_state s → Cleanup ρ ρs now s = Ok s' → wf_state s'.
Proof.
  intros Hwf E. destruct (Cleanup_eq ρ ρs now s Hwf) as (s1 & E1 & Hs & Hv).
  rewrite E in E1. injection E1 as <-. split.
  - intros id p. rewrite Hv. intros (q & Hq & Ed)%bind_Some.
    destruct (from_option _ _ _); simplify_eq.
    destruct (wf_st_ptr s Hwf id p Hq) as (c & Hc & Hid). rewrite Hs, Hc.
    rewrite bool_decide_true by (apply elem_of_range_ptr; eauto).
    exists (cleaned ρ now c). by rewrite cleaned_id.
  - intros p c. rewrite Hs. case_bool_decide; [|by apply Hwf].
    intros (d & Hd & ->)%fmap_Some. eapply cleaned_wf, wf_st_each; eauto.
Qed.

Lemma find_cluster_Cleanup ρ ρs now s s' id :
  wf_state s → Cleanup ρ ρs now s = Ok s' →
  find_cluster s' id =
  (c ← find_cluster s id; if dropped ρ now c then None else Some (cleaned ρ now c)).
Proof.
  intros Hwf E. destruct (Cleanup_eq ρ ρs now s Hwf) as (s1 & E1 & Hs & Hv).
  rewrite E in E1. injection E1 as <-. unfold find_cluster. rewrite Hv.
  destruct (xm_view (clusters s) !! id) as [p|] eqn:Hid; [|done]. simpl.
  destruct (wf_st_ptr s Hwf id p Hid) as (c & Hc & _). rewrite Hc. simpl.
  destruct (dropped ρ now c); [done|]. simpl. rewrite Hs, Hc.
  by rewrite bool_decide_true by (apply elem_of_range_ptr; eauto).
Qed.

(** An open watcher with room for all the events stays open. *)
Lemma foldl_fan_out_open now c evs p sub :
  wf_subs c → subs c !! p = Some sub → closed sub = false →
  len (chan_buf (ch sub)) + len evs ≤ affiliateSubBuffer →
  ∃ sub', subs (foldl (λ c' ev, fan_out now ev c') c evs) !! p = Some sub' ∧ closed sub' = false.
Proof.
  revert c sub. induction evs as [|ev evs IH]; intros c sub Hwf Hp Ho Hlen; simpl; [eauto|].
  assert (has_room (ch sub) = true) as Hr.
  { unfold has_room. apply Z.ltb_lt. rewrite (wf_sub_cap _ _ _ (wf_subs_sub c Hwf p sub Hp)).
    unfold len in *. simpl in Hlen. lia. }
  apply (IH _ (deliver ev sub)).
  - by apply fan_out_wf.
  - by rewrite fan_out_lookup, Hp.
  - rewrite deliver_is_closed. unfold lagging. by rewrite Ho, Hr.
  - unfold deliver. rewrite Ho, Hr. simpl. unfold len in *. rewrite length_app. simpl in *. lia.
Qed.

Lemma length_prune_events ρ now (m : gmap string Affiliate) :
  len (range ρ m ≫= prune_events now) ≤ len_map m.
Proof.
  unfold len, len_map. rewrite <- (length_range ρ m). apply inj_le.
  induction (range ρ m) as [|ka l IH]; csimpl; [done|]. rewrite length_app.
  assert (length (prune_events now ka) ≤ 1)%nat; [|lia].
  unfold prune_events. destruct (alive _ _); [destruct (forallb _ _)|]; simpl; lia.
Qed.

Lemma cleaned_open ρ now c p sub :
  wf_cluster c → subs c !! p = Some sub → closed sub = false →
  len (chan_buf (ch sub)) + len_map (affiliates c) ≤ affiliateSubBuffer →
  subscribers (cleaned ρ now c) ≠ ∅.
Proof.
  intros Hwf Hp Ho Hlen. pose proof (length_prune_events ρ now (affiliates c)) as Hev.
  destruct (foldl_fan_out_open now (swept now c) (range ρ (affiliates c) ≫= prune_events now) p sub)
    as (sub' & Hp' & Ho'); [by apply wf_cl_subs, swept_wf | done | done | lia |].
  fold (cleaned ρ now c) in Hp'. intros E.
  pose proof (wf_sub_owned _ _ _ (wf_subs_sub _ (wf_cl_subs _ (cleaned_wf ρ now c Hwf)) p sub' Hp')) as Hw.
  by rewrite Ho', E, lookup_empty in Hw.
Qed.

(** A cluster whose sweep keeps an affiliate or a watcher is not empty. *)
Lemma IsEmpty_spec c : IsEmpty c = true ↔ affiliates c = ∅ ∧ subscribers c = ∅.
Proof.
  unfold IsEmpty, len_map. rewrite andb_true_iff, !Z.eqb_eq.
  rewrite <- !(map_size_empty_iff (M := gmap _)). lia.
Qed.

(** ** Properties *)

(** [ClusterFor] returns the cluster of that id, creating an empty one that
    expires 30 minutes later exactly when there is none; clusters of other ids
    are found as before, and asking again returns the same pointer and changes
    nothing. *)
Theorem ClusterFor_spec now now' id s :
  wf_state s →
  let '(s', p) := ClusterFor now id s in
  wf_state s' ∧
  xm_view (clusters s') !! id = Some p ∧
  find_cluster s' id = Some (default (NewCluster now id) (find_cluster s id)) ∧
  (∀ j, j ≠ id → find_cluster s' j = find_cluster s j) ∧
  ClusterFor now' id s' = (s', p).
Proof.
  intros Hwf. pose proof (ClusterFor_wf now s id Hwf) as Hwf'.
  destruct (xm_view (clusters s) !! id) as [p|] eqn:E.
  - rewrite (ClusterFor_hit _ _ _ p) in * by done. simpl in *.
    destruct (wf_st_ptr s Hwf id p E) as (c & Hc & _).
    split_and!; try done.
    + unfold find_cluster. rewrite E. simpl. by rewrite Hc.
    + by apply ClusterFor_hit.
  - destruct (ClusterFor_miss now s id E) as (m' & Ec & Ev). rewrite Ec in *. simpl in *.
    assert (xm_view m' !! id = Some (length (cstore s))) as Hid by (by rewrite Ev, lookup_insert_eq).
    split_and!; try done.
    + unfold find_cluster. simpl. rewrite Hid, E. simpl. by rewrite lookup_app_r, Nat.sub_diag by lia.
    + intros j Hne. unfold find_cluster. simpl. rewrite Ev, lookup_insert_ne by done.
      destruct (xm_view (clusters s) !! j) as [q|] eqn:Eq; [|done]. simpl.
      destruct (wf_st_ptr s Hwf j q Eq) as (c & Hc & _). rewrite Hc. by apply lookup_app_l_Some.
    + by apply ClusterFor_hit.
Qed.

(** C21: [Cleanup] never panics and keeps the state well-formed.  Afterwards a
    cluster is listed exactly when it was listed before and the sweep leaves
    it unexpired, or with an affiliate or a watcher; its affiliates are
    exactly those not expired, and no new cluster appears. *)
Theorem Cleanup_spec ρ ρs now s :
  wf_state s →
  ∃ s', Cleanup ρ ρs now s = Ok s' ∧ wf_state s' ∧
    ∀ id,
      match find_cluster s id with
      | None => find_cluster s' id = None
      | Some c => ∃ c', Prune ρ ρs now c = Ok c' ∧
          find_cluster s' id = if IsExpired now c' && IsEmpty c' then None else Some c'
      end.
Proof.
  intros Hwf. destruct (Cleanup_eq ρ ρs now s Hwf) as (s' & E & _).
  exists s'. split; [done|]. split; [by eapply Cleanup_wf|]. intros id.
  rewrite (find_cluster_Cleanup ρ ρs now s s') by done.
  destruct (find_cluster s id) as [c|] eqn:Hc; [|done]. simpl.
  exists (cleaned ρ now c). split; [|done]. apply Prune_eq.
  apply find_cluster_Some in Hc as (p & _ & Hp). by eapply wf_st_each.
Qed.

(** A cluster that has an affiliate that has not expired, or an open
    watcher with room in its buffer for one event per affiliate, is never
    dropped by [Cleanup], however long ago it was last used. *)
Theorem Cleanup_keeps_used ρ ρs now s s' id c :
  wf_state s → Cleanup ρ ρs now s = Ok s' → find_cluster s id = Some c →
  (∃ aid a, affiliates c !! aid = Some a ∧ After (aff_expiry a) now = true) ∨
  (∃ p sub, subs c !! p = Some sub ∧ closed sub = false ∧
     len (chan_buf (ch sub)) + len_map (affiliates c) ≤ affiliateSubBuffer) →
  is_Some (find_cluster s' id).
Proof.
  intros Hwf E Hc Hused. rewrite (find_cluster_Cleanup ρ ρs now s s') by done. rewrite Hc. simpl.
  assert (wf_cluster c) as Hwfc.
  { apply find_cluster_Some in Hc as (p & _ & Hp). by eapply wf_st_each. }
  assert (IsEmpty (cleaned ρ now c) = false) as Hne; [|unfold dropped; rewrite Hne, andb_false_r; eauto].
  apply not_true_is_false. intros [Ha Hs]%IsEmpty_spec.
  destruct Hused as [(aid & a & Hl & Hal)|(p & sub & Hp & Ho & Hlen)].
  - assert (affiliates (cleaned ρ now c) !! aid = Some (pruned now a)) as Hx.
    { rewrite cleaned_affiliates, lookup_omap, Hl. simpl. unfold prune_one, alive. by rewrite Hal. }
    by rewrite Ha, lookup_empty in Hx.
  - by apply (cleaned_open ρ now c p sub).
Qed.

(** C37: a request that has been given its cluster can lose it.  [ClusterFor]
    does not prolong the expiry, so a [Cleanup] that runs between the
    [ClusterFor] and the [UpdateAffiliate] of one request drops a cluster that
    is expired and empty; the update then succeeds on a cluster that no later
    request finds. *)
Theorem update_lost_to_Cleanup ρ ρs ρ' now req s c :
  wf_state s →
  let id := cl_id c in
  find_cluster s id = Some c → IsExpired now c = true → IsEmpty c = true →
  endpoints_fit req c = true →
  let '(s1, p) := ClusterFor now id s in
  ∃ s2 s3, Cleanup ρ ρs now s1 = Ok s2 ∧
    with_cluster p (UpdateAffiliate ρ' now req) s2 = Ok (s3, Ok ()) ∧
    find_cluster s3 id = None.
Proof.
  intros Hwf id Hc Hexp Hemp Hfit. pose proof Hc as (p & Hid & Hp)%find_cluster_Some.
  rewrite (ClusterFor_hit _ _ _ p) by done.
  pose proof (wf_st_each s Hwf p c Hp) as Hwfc.
  destruct (Cleanup_eq ρ ρs now s Hwf) as (s2 & E & Hs & Hv).
  apply IsEmpty_spec in Hemp as Hemp'. destruct Hemp' as [Ha Hm].
  assert (cleaned ρ now c = c) as Hcl.
  { unfold cleaned, swept. rewrite Ha. rewrite omap_empty.
    rewrite (proj2 (range_nil ρ ∅)) by done. simpl. rewrite <- Ha. by destruct c. }
  assert (dropped ρ now c = true) as Hd by (unfold dropped; by rewrite Hcl, Hexp, Hemp).
  assert (cstore s2 !! p = Some c) as Hp2.
  { rewrite Hs, Hp, bool_decide_true by (apply elem_of_range_ptr; eauto). simpl. by rewrite Hcl. }
  assert (has_slot req c = true) as Hslot.
  { unfold has_slot, len_map. rewrite Ha. apply orb_true_r. }
  exists s2. unfold with_cluster. rewrite Hp2. rewrite UpdateAffiliate_eq by done.
  rewrite updateAffiliateLocked_ok by (done || apply Hwfc).
  assert (xm_view (clusters s2) !! id = None) as Hgone by (rewrite Hv, Hid; simpl; rewrite Hp; simpl; by rewrite Hd).
  destruct (announces req c); simpl; eexists; (split; [done|]); (split; [done|]);
    unfold find_cluster; simpl; by rewrite Hgone.
Qed.

End state.

(** ** Witnesses, on the concrete map *)

Definition st0 : Time := mkTime (1000 * Second) (Some 0).
(** Past the 30 minutes of a cluster. *)
Definition st1 : Time := mkTime (4000 * Second) (Some (3000 * Second)).

Definition st_request : AffiliateUpdateRequest.t :=
  AffiliateUpdateRequest.mk "node-1" (bs "data") [bs "10.0.0.1"] (60 * Minute).

(** One cluster, empty. *)
Definition state_empty_cluster : State (gmap string) := (ClusterFor st0 "c1" empty_state).1.

(** The same cluster with one affiliate. *)
Definition state_one_affiliate : State (gmap string) :=
  match with_cluster 0%nat (UpdateAffiliate (order_fwd Z) st0 st_request) state_empty_cluster with
  | Ok (s, _) => s
  | Err _ => state_empty_cluster
  end.

Definition cl_empty : Cluster := NewCluster st0 "c1".
Definition cl_one : Cluster :=
  match UpdateAffiliate (order_fwd Z) st0 st_request cl_empty with
  | Ok (c, _) => c
  | Err _ => cl_empty
  end.

Lemma state_empty_cluster_wf : wf_state state_empty_cluster.
Proof. apply ClusterFor_wf, empty_state_wf. Defined.

Lemma cl_one_wf : wf_cluster cl_one.
Proof.
  destruct (run_op_ok cl_empty (OpUpdate (order_fwd Z) st0 st_request)) as (c & E & Hwf & _);
    [apply wf_new_cluster | by vm_compute |].
  unfold cl_one. simpl in E. destruct (UpdateAffiliate _ _ _ _) as [[c' r]|]; [|done].
  simpl in E. by injection E as <-.
Defined.

Lemma state_one_affiliate_eq :
  state_one_affiliate = mkState (clusters state_empty_cluster) [cl_one].
Proof. by vm_compute. Defined.

Lemma state_one_affiliate_wf : wf_state state_one_affiliate.
Proof.
  rewrite state_one_affiliate_eq. split.
  - intros id p Hp. destruct (wf_st_ptr _ state_empty_cluster_wf id p Hp) as (c & Hc & <-).
    simpl in Hc. exists cl_one. destruct p as [|p]; [|done]. simpl in Hc. injection Hc as <-.
    split; [done | by vm_compute].
  - intros p c Hc. apply list_lookup_singleton_Some in Hc as [_ <-]. apply cl_one_wf.
Defined.

Lemma ClusterFor_spec_witness :
  find_cluster (ClusterFor st1 "c1" state_one_affiliate).1 "c1" = Some cl_one ∧
  find_cluster (ClusterFor st1 "c2" state_one_affiliate).1 "c1" = Some cl_one.
Proof.
  pose proof (ClusterFor_spec st1 st1 "c1" state_one_affiliate state_one_affiliate_wf) as H1.
  pose proof (ClusterFor_spec st1 st1 "c2" state_one_affiliate state_one_affiliate_wf) as H2.
  split.
  - destruct (ClusterFor _ "c1" _) as [s p]. destruct H1 as (_ & _ & E & _). cbn [fst].
    rewrite E. by vm_compute.
  - destruct (ClusterFor _ "c2" _) as [s p]. destruct H2 as (_ & _ & _ & E & _).
    cbn [fst]. rewrite E by done. by vm_compute.
Defined.

(** At [st1] the empty cluster is dropped, the one with an affiliate is kept. *)
Lemma Cleanup_spec_witness :
  ∃ s', Cleanup (order_fwd string) (λ _, order_fwd Z) st1 state_empty_cluster = Ok s' ∧
    find_cluster s' "c1" = None.
Proof.
  destruct (Cleanup_spec (order_fwd string) (λ _, order_fwd Z) st1 _ state_empty_cluster_wf)
    as (s' & E & _ & Hf). exists s'. split; [exact E|].
  specialize (Hf "c1"). simpl in Hf. destruct Hf as (c' & Ep & Ef). rewrite Ef.
  vm_compute in Ep. injection Ep as <-. by vm_compute.
Defined.

Lemma Cleanup_keeps_used_witness :
  ∃ s', Cleanup (order_fwd string) (λ _, order_fwd Z) st1 state_one_affiliate = Ok s' ∧
    IsExpired st1 cl_one = true ∧ is_Some (find_cluster s' "c1").
Proof.
  destruct (Cleanup_eq (order_fwd string) (λ _, order_fwd Z) st1 _ state_one_affiliate_wf)
    as (s' & E & _). exists s'. split; [exact E|]. split; [by vm_compute|].
  apply (Cleanup_keeps_used (order_fwd string) (λ _, order_fwd Z) st1 state_one_affiliate s' "c1" cl_one
    state_one_affiliate_wf E); [by vm_compute|].
  left. eexists "node-1", _. split; by vm_compute.
Defined.

Lemma update_lost_to_Cleanup_witness :
  let '(s1, p) := ClusterFor st1 "c1" state_empty_cluster in
  ∃ s2 s3, Cleanup (order_fwd string) (λ _, order_fwd Z) st1 s1 = Ok s2 ∧
    with_cluster p (UpdateAffiliate (order_fwd Z) st1 st_request) s2 = Ok (s3, Ok ()) ∧
    find_cluster s3 "c1" = None.
Proof.
  apply (update_lost_to_Cleanup (order_fwd string) (λ _, order_fwd Z) (order_fwd Z) st1 st_request
    state_empty_cluster cl_empty state_empty_cluster_wf); by vm_compute.
Defined.
