(* ===== verification/GoStrings.v ===== *)
(** * Go strings: [strings.TrimSpace]

    A Go string is a sequence of bytes, here Rocq's [string].  [TrimSpace]
    removes leading and trailing runes that [unicode.IsSpace] accepts; in UTF-8
    those are six ASCII bytes, two two-byte and seventeen three-byte sequences. *)

From S2P Require Import Prelude.
From Stdlib Require Import Strings.Byte.

Definition string_bytes (s : string) : bytes := String.list_byte_of_string s.
Definition bytes_string (b : bytes) : string := String.string_of_list_byte b.

(** A byte as a number, and back. *)
Definition byte_Z (b : Byte.byte) : Z := Z.of_N (Byte.to_N b).
Definition Z_byte (z : Z) : Byte.byte :=
  match Byte.of_N (Z.to_N z) with Some b => b | None => x00 end.

Lemma byte_Z_range b : 0 ≤ byte_Z b < 256.
Proof. unfold byte_Z. pose proof (Byte.to_N_bounded b). lia. Qed.

Lemma Z_byte_Z b : Z_byte (byte_Z b) = b.
Proof. unfold Z_byte, byte_Z. by rewrite N2Z.id, Byte.of_to_N. Qed.

(** Tab, newline, vertical tab, form feed, carriage return, space. *)
Definition space1 (x : Byte.byte) : bool :=
  match x with x09 | x0a | x0b | x0c | x0d | x20 => true | _ => false end.

(** U+0085 and U+00A0. *)
Definition space2 (x y : Byte.byte) : bool :=
  match x, y with xc2, x85 | xc2, xa0 => true | _, _ => false end.

(** U+1680, U+2000 to U+200A, U+2028, U+2029, U+202F, U+205F and U+3000. *)
Definition space3 (x y z : Byte.byte) : bool :=
  match x, y, z with
  | xe1, x9a, x80 => true
  | xe2, x80, (x80 | x81 | x82 | x83 | x84 | x85 | x86 | x87 | x88 | x89 | x8a) => true
  | xe2, x80, (xa8 | xa9 | xaf) => true
  | xe2, x81, x9f => true
  | xe3, x80, x80 => true
  | _, _, _ => false
  end.

Fixpoint trim_left (b : bytes) : bytes :=
  match b with
  | [] => []
  | x :: t1 =>
      if space1 x then trim_left t1 else
      match t1 with
      | [] => b
      | y :: t2 =>
          if space2 x y then trim_left t2 else
          match t2 with
          | [] => b
          | z :: t3 => if space3 x y z then trim_left t3 else b
          end
      end
  end.

(** The same from the end, on the reversed bytes. *)
Fixpoint trim_last (b : bytes) : bytes :=
  match b with
  | [] => []
  | z :: t1 =>
      if space1 z then trim_last t1 else
      match t1 with
      | [] => b
      | y :: t2 =>
          if space2 y z then trim_last t2 else
          match t2 with
          | [] => b
          | x :: t3 => if space3 x y z then trim_last t3 else b
          end
      end
  end.

Definition trim_bytes (b : bytes) : bytes := reverse (trim_last (reverse (trim_left b))).

Definition TrimSpace (s : string) : string := bytes_string (trim_bytes (string_bytes s)).

(** ** Blank strings: those made of spaces *)

Inductive blank : bytes → Prop :=
| blank_nil : blank []
| blank1 x b : space1 x = true → blank b → blank (x :: b)
| blank2 x y b : space2 x y = true → blank b → blank (x :: y :: b)
| blank3 x y z b : space3 x y z = true → blank b → blank (x :: y :: z :: b).
#[export] Hint Constructors blank : go.

Lemma blank_app b1 b2 : blank b1 → blank b2 → blank (b1 ++ b2).
Proof. induction 1; intros; simpl; auto with go. Qed.

(** Induction on a byte string three bytes at a time. *)
Lemma bytes_ind3 (P : bytes → Prop) :
  P [] → (∀ x b, P b → (∀ y b', b = y :: b' → P b') → (∀ y z b', b = y :: z :: b' → P b') → P (x :: b)) →
  ∀ b, P b.
Proof.
  intros Hnil Hcons b. remember (length b) as n eqn:En. revert b En.
  induction (lt_wf n) as [n _ IH]. intros b ->. destruct b as [|x b]; [done|].
  apply Hcons.
  - eapply IH; [|done]. simpl. lia.
  - intros y b' ->. eapply IH; [|done]. simpl. lia.
  - intros y z b' ->. eapply IH; [|done]. simpl. lia.
Qed.

Lemma trim_left_blank b : trim_left b = [] → blank b.
Proof.
  induction b as [|x b IH1 IH2 IH3] using bytes_ind3; [constructor|]. simpl.
  destruct (space1 x) eqn:E1; [auto with go|].
  destruct b as [|y b]; [done|]. destruct (space2 x y) eqn:E2; [eauto with go|].
  destruct b as [|z b]; [done|]. destruct (space3 x y z) eqn:E3; [eauto with go | done].
Qed.

(** No ASCII space starts a longer one, and no two-byte space a three-byte one. *)
Lemma space2_not_space1 x y : space2 x y = true → space1 x = false.
Proof. by destruct x. Qed.
Lemma space3_not_space1 x y z : space3 x y z = true → space1 x = false.
Proof. by destruct x. Qed.
Lemma space3_not_space2 x y z : space3 x y z = true → space2 x y = false.
Proof. by destruct x. Qed.

Lemma blank_trim_left b : blank b → trim_left b = [].
Proof.
  induction 1 as [|x b E _ IH|x y b E _ IH|x y z b E _ IH]; simpl; [done|..].
  - by rewrite E.
  - by rewrite (space2_not_space1 x y), E.
  - by rewrite (space3_not_space1 x y z), (space3_not_space2 x y z), E.
Qed.

Lemma trim_left_idem b : trim_left (trim_left b) = trim_left b.
Proof.
  induction b as [|x b IH1 IH2 IH3] using bytes_ind3; [done|]. simpl.
  destruct (space1 x) eqn:E1; [done|].
  destruct b as [|y b]; simpl; rewrite ?E1; [done|]. destruct (space2 x y) eqn:E2; [by eapply IH2|].
  destruct b as [|z b]; simpl; rewrite ?E1, ?E2; [done|].
  destruct (space3 x y z) eqn:E3; [by eapply IH3|]. simpl. by rewrite E1, E2, E3.
Qed.

Lemma trim_last_blank b : trim_last b = [] → blank (reverse b).
Proof.
  induction b as [|z b IH1 IH2 IH3] using bytes_ind3; [constructor|]. simpl. rewrite reverse_cons.
  destruct (space1 z) eqn:E1.
  { intros. apply blank_app; auto with go. }
  destruct b as [|y b]; [done|]. rewrite reverse_cons. destruct (space2 y z) eqn:E2.
  { intros. rewrite <- app_assoc. apply blank_app; [by eapply IH2 | simpl; auto with go]. }
  destruct b as [|x b]; [done|]. rewrite reverse_cons. destruct (space3 x y z) eqn:E3; [|done].
  intros. rewrite <- !app_assoc. apply blank_app; [by eapply IH3 | simpl; auto with go].
Qed.

(** [TrimSpace] leaves nothing exactly of the blank strings. *)
Lemma trim_bytes_nil b : trim_bytes b = [] ↔ blank b.
Proof.
  unfold trim_bytes. split.
  - intros E. apply (f_equal reverse) in E. rewrite reverse_involutive in E. simpl in E.
    apply trim_last_blank in E. rewrite reverse_involutive in E.
    apply blank_trim_left in E. rewrite trim_left_idem in E. by apply trim_left_blank.
  - intros Hb. by rewrite blank_trim_left.
Qed.

Lemma bytes_string_nil b : bytes_string b = EmptyString ↔ b = [].
Proof. unfold bytes_string. by destruct b. Qed.

Lemma TrimSpace_empty s : TrimSpace s = EmptyString ↔ blank (string_bytes s).
Proof. unfold TrimSpace. by rewrite bytes_string_nil, trim_bytes_nil. Qed.

Lemma length_string_bytes s : length (string_bytes s) = String.length s.
Proof. induction s; simpl; [done | by f_equal]. Qed.
