(* ===== verification/Grpc.v ===== *)
(** * gRPC errors

    The codes the server uses, and Go's [error] values as the server sees
    them: a status error carries its code and message; the sentinel errors of
    the state package and of [context] are told apart by [errors.Is], which
    looks through the errors that wrap them. *)

From S2P Require Import Prelude Affiliate.

Inductive Code : Type :=
| OK | Canceled | Unknown | InvalidArgument | DeadlineExceeded | NotFound | AlreadyExists
| PermissionDenied | ResourceExhausted | FailedPrecondition | Aborted | OutOfRange
| Unimplemented | Internal | Unavailable | DataLoss | Unauthenticated.

#[export] Instance Code_eq_dec : EqDecision Code.
Proof. solve_decision. Defined.

Inductive GoError : Type :=
| StatusError (code : Code) (msg : string)
| StateErr (e : StateError)
| ContextCanceled
| ContextDeadlineExceeded
| PlainError (msg : string)
| WrappedError (prefix : string) (err : GoError).      (** [fmt.Errorf(prefix + "%w", err)] *)

#[export] Instance GoError_eq_dec : EqDecision GoError.
Proof. solve_decision. Defined.

(** [errors.Is(err, target)], for a sentinel. *)
Fixpoint GoError_Is (err target : GoError) : bool :=
  bool_decide (err = target) ||
  match err with
  | WrappedError _ err => GoError_Is err target
  | _ => false
  end.

(** The [status] package, of a library the code only calls, through its
    documented behaviour: the code of a status error, and its text. *)
Class StatusPkg : Type := {
  status_Code : option GoError → Code;
  status_Error : Code → string → string;
}.
Class StatusPkgLaws `{StatusPkg} : Prop := {
  status_Code_status c msg : status_Code (Some (StatusError c msg)) = c;
  status_Code_nil : status_Code None = OK;
}.

(** [err.Error()] *)
Fixpoint GoError_Error `{StatusPkg} (e : GoError) : string :=
  match e with
  | StatusError c msg => status_Error c msg
  | StateErr s => StateError_Error s
  | ContextCanceled => "context canceled"
  | ContextDeadlineExceeded => "context deadline exceeded"
  | PlainError msg => msg
  | WrappedError prefix err => prefix +:+ GoError_Error err
  end.

(** The code of the status error that an error is or wraps. *)
Fixpoint wrapped_code (e : GoError) : Code :=
  match e with
  | StatusError c _ => c
  | WrappedError _ e => wrapped_code e
  | _ => Unknown
  end.

#[export] Instance status_pkg : StatusPkg := {|
  status_Code := from_option wrapped_code OK;
  status_Error c msg := "rpc error: desc = " +:+ msg;
|}.

#[export] Instance status_pkg_laws : StatusPkgLaws.
Proof. done. Qed.
