(* ===== verification/Protobuf.v ===== *)
(** * Interfaces to the protobuf libraries the code only calls

    [durationpb], [timestamppb] and the wire codec: each a class of the
    functions used, with its documented behaviour as laws, and a concrete
    instance. *)

From S2P Require Import Prelude GoTime.

(** ** durationpb *)

Class DurationPb : Type := {
  PbDuration : Type;
  AsDuration : PbDuration → Duration;
}.
(** [AsDuration] returns a [time.Duration], saturating on overflow. *)
Class DurationPbLaws `{DurationPb} : Prop := {
  AsDuration_range (d : PbDuration) : int64_range (AsDuration d);
}.

(** Seconds and nanoseconds. *)
Definition seconds_nanos_duration : DurationPb := {|
  PbDuration := Z * Z;
  AsDuration d := saturate64 (d.1 * Second + d.2);
|}.

Lemma seconds_nanos_duration_laws : @DurationPbLaws seconds_nanos_duration.
Proof. split. intros d. unfold int64_range, AsDuration, seconds_nanos_duration, saturate64, two63. lia. Qed.

(** ** timestamppb *)

Class TimestampPb : Type := {
  PbTimestamp : Type;
  timestamppb_New : Time → PbTimestamp;
  AsTime : PbTimestamp → Time;
}.
(** A timestamp keeps the wall clock and not the monotonic reading. *)
Class TimestampPbLaws `{TimestampPb} : Prop := {
  AsTime_New (t : Time) : AsTime (timestamppb_New t) = strip_mono t;
}.

(** Seconds and nanoseconds since the epoch. *)
#[export] Instance seconds_nanos_timestamp : TimestampPb := {|
  PbTimestamp := Z * Z;
  timestamppb_New t := (wall t / Second, wall t mod Second);
  AsTime ts := mkTime (ts.1 * Second + ts.2) None;
|}.

#[export] Instance seconds_nanos_timestamp_laws : TimestampPbLaws.
Proof.
  split. intros t. unfold AsTime, timestamppb_New, seconds_nanos_timestamp, strip_mono. f_equal. simpl.
  pose proof (Z.div_mod (wall t) Second). unfold Second in *. lia.
Qed.

(** ** The wire codec of a message type *)

Class Codec (A : Type) : Type := {
  Marshal : A → result string bytes;
  Unmarshal : bytes → result string A;
}.
Class CodecLaws (A : Type) `{Codec A} : Prop := {
  (** What was marshalled is what is read back. *)
  Unmarshal_Marshal (x : A) b : Marshal x = Ok b → Unmarshal b = Ok x;
}.

(** A concrete codec for any countable type: the code of the value in base 2. *)
Fixpoint positive_bytes (p : positive) : bytes :=
  match p with
  | xH => []
  | xO p => Byte.x00 :: positive_bytes p
  | xI p => Byte.x01 :: positive_bytes p
  end.

Fixpoint bytes_positive (b : bytes) : positive :=
  match b with
  | [] => xH
  | x :: b => if bool_decide (x = Byte.x00) then xO (bytes_positive b) else xI (bytes_positive b)
  end.

Lemma bytes_positive_bytes p : bytes_positive (positive_bytes p) = p.
Proof. induction p as [p IH|p IH|]; simpl; by rewrite ?IH. Qed.

Definition countable_codec (A : Type) `{Countable A} : Codec A := {|
  Marshal x := Ok (positive_bytes (encode x));
  Unmarshal b := match decode (bytes_positive b) with Some x => Ok x | None => Err "cannot parse" end;
|}.

Lemma countable_codec_laws (A : Type) `{Countable A} : @CodecLaws A (countable_codec A).
Proof.
  split. intros x b [= <-]. simpl. by rewrite bytes_positive_bytes, decode_encode.
Qed.
