(* ===== verification/Validation.v ===== *)
(** * Request validation ([internal/server/validation.go]) *)

From S2P Require Import Prelude GoTime Limits Affiliate GoStrings Grpc Protobuf.

Definition ErrClusterIDEmpty : GoError := StatusError InvalidArgument "Cluster ID can't be empty".
Definition ErrClusterIDTooLong : GoError := StatusError OutOfRange "Cluster ID is too long".
Definition ErrAffiliateIDEmpty : GoError := StatusError InvalidArgument "Affiliate ID can't be empty".
Definition ErrAffiliateTTLEmpty : GoError := StatusError InvalidArgument "Affiliate TTL can't be empty".
Definition ErrAffiliateIDTooLong : GoError := StatusError OutOfRange "Affiliate ID is too long".
Definition ErrAffiliateDataTooBig : GoError := StatusError OutOfRange "Affiliate data is too big".
Definition ErrAffiliateEndpointTooBig : GoError :=
  StatusError OutOfRange "Affiliate endpoint is too big".
Definition ErrTTLTooLong : GoError := StatusError OutOfRange "TTL is too long".

Definition validateClusterID (clusterId : string) : result GoError () :=
  if bool_decide (TrimSpace clusterId = EmptyString) then Err ErrClusterIDEmpty
  else if ClusterIDMax <? len_string clusterId then Err ErrClusterIDTooLong
  else Ok ().

Definition validateAffiliateID (affiliateId : string) : result GoError () :=
  if bool_decide (TrimSpace affiliateId = EmptyString) then Err ErrAffiliateIDEmpty
  else if AffiliateIDMax <? len_string affiliateId then Err ErrAffiliateIDTooLong
  else Ok ().

Definition validateAffiliateData (data : bytes) : result GoError () :=
  if AffiliateDataMax <? len data then Err ErrAffiliateDataTooBig else Ok ().

Fixpoint validateAffiliateEndpoints (endpoints : list bytes) : result GoError () :=
  match endpoints with
  | [] => Ok ()
  | endpoint :: rest =>
      if AffiliateEndpointMax <? len endpoint then Err ErrAffiliateEndpointTooBig
      else validateAffiliateEndpoints rest
  end.

Definition validateTTL (ttl : Duration) : result GoError () :=
  if TTLMax <? ttl then Err ErrTTLTooLong else Ok ().

Definition validateAffiliateTTL `{DurationPb} (ttl : option PbDuration) : result GoError () :=
  match ttl with
  | None => Err ErrAffiliateTTLEmpty
  | Some d => validateTTL (AsDuration d)
  end.

(** ** What each check accepts *)

(** An id that is not blank and fits. *)
Definition valid_id (max : Z) (id : string) : Prop :=
  ¬ blank (string_bytes id) ∧ len_string id ≤ max.

Lemma validateClusterID_ok id : validateClusterID id = Ok () ↔ valid_id ClusterIDMax id.
Proof.
  unfold validateClusterID, valid_id. rewrite <- TrimSpace_empty.
  case_bool_decide; [naive_solver|]. destruct (_ <? _) eqn:E; go_bool; naive_solver lia.
Qed.

Lemma validateAffiliateID_ok id : validateAffiliateID id = Ok () ↔ valid_id AffiliateIDMax id.
Proof.
  unfold validateAffiliateID, valid_id. rewrite <- TrimSpace_empty.
  case_bool_decide; [naive_solver|]. destruct (_ <? _) eqn:E; go_bool; naive_solver lia.
Qed.

Lemma validateAffiliateData_ok d : validateAffiliateData d = Ok () ↔ len d ≤ AffiliateDataMax.
Proof. unfold validateAffiliateData. destruct (_ <? _) eqn:E; go_bool; naive_solver lia. Qed.

Lemma validateAffiliateEndpoints_ok es :
  validateAffiliateEndpoints es = Ok () ↔ Forall (λ e, len e ≤ AffiliateEndpointMax) es.
Proof.
  induction es as [|e es IH]; simpl; [by split; [constructor|]|]. rewrite Forall_cons, <- IH.
  destruct (_ <? _) eqn:E; go_bool; naive_solver lia.
Qed.

Lemma validateAffiliateTTL_ok `{DurationPb} ttl :
  validateAffiliateTTL ttl = Ok () ↔ ∃ d, ttl = Some d ∧ AsDuration d ≤ TTLMax.
Proof.
  unfold validateAffiliateTTL, validateTTL.
  destruct ttl as [d|]; [destruct (_ <? _) eqn:E; go_bool|]; naive_solver lia.
Qed.
