(* ===== verification/NetIP.v ===== *)
(** * [net/netip]: parsing addresses

    [ParseAddr] and [ParseAddrPort] of Go's standard library, which
    [extractClientIP] applies to request headers and to the peer's address.
    The callers only test [err == nil], so a failed parse is [None]. *)

From S2P Require Import Prelude GoStrings.
From Stdlib Require Import Strings.Byte.

(** [Addr{}], IPv4, and IPv6 with its zone ("" for none). *)
Inductive Addr : Type :=
| NoAddr
| Addr4 (octets : list Z)
| Addr6 (octets : list Z) (zone : bytes).

#[export] Instance Addr_eq_dec : EqDecision Addr.
Proof. solve_decision. Defined.

Definition Addr_IsValid (a : Addr) : bool := match a with NoAddr => false | _ => true end.
Definition Addr_AsSlice (a : Addr) : list Z :=
  match a with NoAddr => [] | Addr4 o => o | Addr6 o _ => o end.

(** The value of a decimal or hexadecimal digit. *)
Definition dec_digit (c : Byte.byte) : option Z :=
  let z := byte_Z c in if (48 <=? z) && (z <=? 57) then Some (z - 48) else None.
Definition hex_digit (c : Byte.byte) : option Z :=
  let z := byte_Z c in
  if (48 <=? z) && (z <=? 57) then Some (z - 48)
  else if (97 <=? z) && (z <=? 102) then Some (z - 97 + 10)
  else if (65 <=? z) && (z <=? 70) then Some (z - 65 + 10)
  else None.

Definition is_byte (x y : Byte.byte) : bool := bool_decide (x = y).
Definition dot : Byte.byte := x2e.
Definition colon : Byte.byte := x3a.
Definition percent : Byte.byte := x25.
Definition comma : Byte.byte := x2c.

(** [parseIPv4Fields]: [prevdot] is [i == 0 || s[i-1] == '.']. *)
Fixpoint ipv4_fields (prevdot : bool) (val digLen : Z) (fields : list Z) (s : bytes) :
    option (list Z) :=
  match s with
  | [] => if Z.of_nat (length fields) <? 3 then None else Some (fields ++ [val])
  | c :: s' =>
      match dec_digit c with
      | Some d =>
          if (digLen =? 1) && (val =? 0) then None
          else
            let val' := val * 10 + d in
            if 255 <? val' then None else ipv4_fields false val' (digLen + 1) fields s'
      | None =>
          if is_byte c dot then
            if prevdot || bool_decide (s' = []) then None
            else if Z.of_nat (length fields) =? 3 then None
            else ipv4_fields true 0 0 (fields ++ [val]) s'
          else None
      end
  end.

Definition parseIPv4 (s : bytes) : option Addr := Addr4 <$> ipv4_fields true 0 0 [] s.

(** One group of hexadecimal digits: how many, their value, what follows. *)
Fixpoint hex_group (off acc : Z) (s : bytes) : option (Z * Z * bytes) :=
  match s with
  | [] => Some (off, acc, [])
  | c :: s' =>
      match hex_digit c with
      | None => Some (off, acc, s)
      | Some d =>
          let acc' := acc * 16 + d in
          if (3 <? off) || (65535 <? acc') then None else hex_group (off + 1) acc' s'
      end
  end.

(** The loop of [parseIPv6], at most eight groups: the bytes so far, the
    position of the ellipsis (-1 for none), and the unread rest. *)
Fixpoint ipv6_loop (fuel : nat) (ip : list Z) (ellipsis : Z) (s : bytes) :
    option (list Z * Z * bytes) :=
  match fuel with
  | O => Some (ip, ellipsis, s)
  | S fuel' =>
      g ← hex_group 0 0 s;
      let '(off, acc, rest) := g in
      if off =? 0 then None else
      if match rest with c :: _ => is_byte c dot | [] => false end then
        if (ellipsis <? 0) && negb (Z.of_nat (length ip) =? 12) then None
        else if 16 <? Z.of_nat (length ip) + 4 then None
        else f ← ipv4_fields true 0 0 [] s; Some (ip ++ f, ellipsis, [])
      else
        let ip' := ip ++ [acc / 256; acc mod 256] in
        match rest with
        | [] => Some (ip', ellipsis, [])
        | c :: rest1 =>
            if negb (is_byte c colon) then None
            else match rest1 with
            | [] => None
            | d :: rest2 =>
                if is_byte d colon then
                  if 0 <=? ellipsis then None
                  else match rest2 with
                  | [] => Some (ip', Z.of_nat (length ip'), [])
                  | _ => ipv6_loop fuel' ip' (Z.of_nat (length ip')) rest2
                  end
                else ipv6_loop fuel' ip' ellipsis rest1
            end
        end
  end.

(** [bytealg.IndexByteString(s, c)], as the text before and after. *)
Fixpoint cut (c : Byte.byte) (s : bytes) : option (bytes * bytes) :=
  match s with
  | [] => None
  | x :: s' =>
      if is_byte x c then Some ([], s')
      else r ← cut c s'; Some (x :: r.1, r.2)
  end.

Definition parseIPv6 (s0 : bytes) : option Addr :=
  sz ← match cut percent s0 with
       | None => Some (s0, [])
       | Some (s, zone) => if bool_decide (zone = []) then None else Some (s, zone)
       end;
  let '(s, zone) := sz in
  let '(ellipsis, s1) :=
    match s with
    | c :: d :: s' => if is_byte c colon && is_byte d colon then (0, s') else (-1, s)
    | _ => (-1, s)
    end in
  if (ellipsis =? 0) && bool_decide (s1 = []) then Some (Addr6 (replicate 16 0) zone)
  else
    r ← ipv6_loop 8 [] ellipsis s1;
    let '(ip, e, rest) := r in
    match rest with
    | _ :: _ => None
    | [] =>
        let i := length ip in
        if Z.of_nat i <? 16 then
          if e <? 0 then None
          else Some (Addr6 (take (Z.to_nat e) ip ++ replicate (16 - i) 0 ++ drop (Z.to_nat e) ip) zone)
        else if 0 <=? e then None else Some (Addr6 ip zone)
    end.

(** [ParseAddr]: the first of '.', ':' and '%' decides. *)
Fixpoint parse_addr_kind (s full : bytes) : option Addr :=
  match s with
  | [] => None
  | c :: s' =>
      if is_byte c dot then parseIPv4 full
      else if is_byte c colon then parseIPv6 full
      else if is_byte c percent then None
      else parse_addr_kind s' full
  end.

Definition ParseAddr (s : bytes) : option Addr := parse_addr_kind s s.

(** [strconv.ParseUint(port, 10, 16)] succeeds. *)
Fixpoint is_port (val : Z) (s : bytes) : bool :=
  match s with
  | [] => val <=? 65535
  | c :: s' => match dec_digit c with Some d => is_port (Z.min 65536 (val * 10 + d)) s' | None => false end
  end.

(** [ParseAddrPort(s)], the address only: split at the last ':'. *)
Definition ParseAddrPort (s : bytes) : option Addr :=
  r ← cut colon (reverse s);
  let '(port, ip) := (reverse r.1, reverse r.2) in
  if bool_decide (ip = []) || bool_decide (port = []) then None else
  let bracketed := match ip with c :: _ => is_byte c x5b | [] => false end in
  host ← (if bracketed then
            match reverse (drop 1 ip) with
            | c :: h => if is_byte c x5d then Some (reverse h) else None
            | [] => None
            end
          else Some ip);
  if negb (is_port 0 port) then None else
  a ← ParseAddr host;
  match a, bracketed with
  | Addr4 _, true => None
  | Addr6 _ _, false => None
  | _, _ => Some a
  end.

(** [strings.Split(s, ",")[0]]: what precedes the first separator. *)
Definition split_head (c : Byte.byte) (s : bytes) : bytes :=
  match cut c s with Some (h, _) => h | None => s end.
