(* ===== verification/Messages.v ===== *)
(** * The messages of the service ([api/v1alpha1/server/pb/cluster.pb.go])

    The fields of the generated structs; a pointer field that may be nil is an
    option.  The wire format belongs to the protobuf run-time. *)

From S2P Require Import Prelude GoTime Affiliate Protobuf.

Module Pb.

Record Affiliate : Type := mkAffiliate {
  Id : string;
  Data : bytes;
  Endpoints : list bytes;
}.

#[export] Instance Affiliate_eq_dec : EqDecision Affiliate.
Proof. solve_decision. Defined.

Record HelloRequest : Type := mkHelloRequest {
  hello_ClusterId : string;
  hello_ClientVersion : string;
}.

Record RedirectMessage : Type := mkRedirect { redirect_Endpoint : string }.

Record HelloResponse : Type := mkHelloResponse {
  Redirect : option RedirectMessage;
  ClientIp : list Z;
}.

Record AffiliateUpdateRequest `{DurationPb} : Type := mkUpdateRequest {
  update_ClusterId : string;
  update_AffiliateId : string;
  update_AffiliateData : bytes;
  update_AffiliateEndpoints : list bytes;
  update_Ttl : option PbDuration;
}.

Arguments mkUpdateRequest {_}.

Record AffiliateUpdateResponse : Type := mkUpdateResponse {}.

Record AffiliateDeleteRequest : Type := mkDeleteRequest {
  delete_ClusterId : string;
  delete_AffiliateId : string;
}.

Record AffiliateDeleteResponse : Type := mkDeleteResponse {}.

Record ListRequest : Type := mkListRequest { list_ClusterId : string }.

Record ListResponse : Type := mkListResponse { list_Affiliates : list Affiliate }.

Record WatchRequest : Type := mkWatchRequest { watch_ClusterId : string }.

Record WatchResponse : Type := mkWatchResponse {
  watch_Affiliates : list Affiliate;
  Deleted : bool;
}.

End Pb.
