(* ===== verification/Server.v ===== *)
(** * The cluster server's unary handlers ([internal/server/cluster_server.go])

    [Hello], [AffiliateUpdate], [AffiliateDelete] and [List] as functions on
    the state; [Watch] is in [Watch.v].  A handler that reads the clock twice
    takes two readings. *)

From S2P Require Import Prelude GoTime GoChan Limits Affiliate Cluster XMap State GoStrings.
From S2P Require Import Grpc Protobuf Messages NetIP Validation.

(** What the handlers read from a request's [context.Context] through
    [metadata.FromIncomingContext], [md.Get] and [peer.FromContext]. *)
Record RpcContext : Type := mkRpcContext {
  incoming_md : option (string → list string);
  peer_addr : option string;
}.

Definition extractClientIP (ctx : RpcContext) : Addr :=
  let from_peer :=
    match peer_addr ctx with
    | Some a => match ParseAddrPort (string_bytes a) with Some addr => addr | None => NoAddr end
    | None => NoAddr
    end in
  match incoming_md ctx with
  | None => from_peer
  | Some md =>
      let from_forwarded :=
        match md "x-forwarded-for" with
        | v :: _ =>
            let ip := trim_bytes (split_head comma (string_bytes v)) in
            match ParseAddr ip with Some addr => addr | None => from_peer end
        | [] => from_peer
        end in
      match md "x-real-ip" with
      | v :: _ => match ParseAddr (string_bytes v) with Some addr => addr | None => from_forwarded end
      | [] => from_forwarded
      end
  end.

Definition toProtoAffiliate (info : AffiliateInfo) : Pb.Affiliate :=
  Pb.mkAffiliate (ID info) (Data info) (InfoEndpoints info).

(** The error an [AffiliateUpdate] that failed in the state returns. *)
Definition update_status `{StatusPkg} (err : GoError) : GoError :=
  if GoError_Is err (StateErr ErrTooManyAffiliates)
     || GoError_Is err (StateErr ErrTooManyEndpoints)
  then StatusError ResourceExhausted (GoError_Error err)
  else StatusError Internal ("update affiliate: " +:+ GoError_Error err).

Record clusterServer (M : Type → Type) : Type := mkServer {
  srv_state : State M;
  redirectEndpoint : string;
}.
Arguments mkServer {M}.
Arguments srv_state {M}.
Arguments redirectEndpoint {M}.

Section server.
Context {M : Type → Type} `{XMap M} `{DurationPb}.
Implicit Types s : clusterServer M.

Definition with_state (st : State M) (s : clusterServer M) : clusterServer M :=
  mkServer st (redirectEndpoint s).

Definition newClusterServer (st : State M) (redirect : string) : clusterServer M :=
  mkServer st redirect.

Definition Hello (ctx : RpcContext) (req : Pb.HelloRequest) (s : clusterServer M) :
    result GoError Pb.HelloResponse :=
  _ <-? validateClusterID (Pb.hello_ClusterId req) ;;
  let clientIP := extractClientIP ctx in
  let ip := if Addr_IsValid clientIP then Addr_AsSlice clientIP else [] in
  let redirect :=
    if negb (bool_decide (redirectEndpoint s = EmptyString))
    then Some (Pb.mkRedirect (redirectEndpoint s)) else None in
  Ok (Pb.mkHelloResponse redirect ip).

(** The five checks of [AffiliateUpdate], in order. *)
Definition validate_update (req : Pb.AffiliateUpdateRequest) : result GoError () :=
  _ <-? validateClusterID (Pb.update_ClusterId req) ;;
  _ <-? validateAffiliateID (Pb.update_AffiliateId req) ;;
  _ <-? validateAffiliateData (Pb.update_AffiliateData req) ;;
  _ <-? validateAffiliateEndpoints (Pb.update_AffiliateEndpoints req) ;;
  validateAffiliateTTL (Pb.update_Ttl req).

(** The request given to the state; [AsDuration] of a nil duration is 0. *)
Definition state_request (req : Pb.AffiliateUpdateRequest) : AffiliateUpdateRequest.t :=
  AffiliateUpdateRequest.mk (Pb.update_AffiliateId req) (Pb.update_AffiliateData req)
    (Pb.update_AffiliateEndpoints req) (from_option AsDuration 0 (Pb.update_Ttl req)).

(** [now] is the reading of [NewCluster], [now'] the one of the update. *)
Definition AffiliateUpdate (ρ : MapOrder Z) (now now' : Time) (req : Pb.AffiliateUpdateRequest)
    (s : clusterServer M) :
    result Panic (clusterServer M * result GoError Pb.AffiliateUpdateResponse) :=
  match validate_update req with
  | Err e => Ok (s, Err e)
  | Ok _ =>
      let '(st, cluster) := ClusterFor now (Pb.update_ClusterId req) (srv_state s) in
      r <-? with_cluster cluster (UpdateAffiliate ρ now' (state_request req)) st ;;
      let '(st', err) := r in
      Ok (with_state st' s,
          match err with
          | Err e => Err (update_status (StateErr e))
          | Ok _ => Ok Pb.mkUpdateResponse
          end)
  end.

Definition AffiliateDelete (ρ : MapOrder Z) (now : Time) (req : Pb.AffiliateDeleteRequest)
    (s : clusterServer M) :
    result Panic (clusterServer M * result GoError Pb.AffiliateDeleteResponse) :=
  match (_ <-? validateClusterID (Pb.delete_ClusterId req) ;;
         validateAffiliateID (Pb.delete_AffiliateId req)) with
  | Err e => Ok (s, Err e)
  | Ok _ =>
      match GetCluster (Pb.delete_ClusterId req) (srv_state s) with
      | None => Ok (s, Ok Pb.mkDeleteResponse)
      | Some cluster =>
          r <-? with_cluster cluster (DeleteAffiliate ρ now (Pb.delete_AffiliateId req)) (srv_state s) ;;
          let '(st', err) := r in
          Ok (with_state st' s,
              match err with
              | Err e => Err (StatusError Internal ("delete affiliate: " +:+ StateError_Error e))
              | Ok _ => Ok Pb.mkDeleteResponse
              end)
      end
  end.

Definition List (ρ : MapOrder string) (req : Pb.ListRequest) (s : clusterServer M) :
    result Panic (result GoError Pb.ListResponse) :=
  match validateClusterID (Pb.list_ClusterId req) with
  | Err e => Ok (Err e)
  | Ok _ =>
      match GetCluster (Pb.list_ClusterId req) (srv_state s) with
      | None => Ok (Ok (Pb.mkListResponse []))
      | Some cluster =>
          match cstore (srv_state s) !! cluster with
          | None => Err NilDereference
          | Some c =>
              Ok match ListAffiliates ρ c with
                 | Err e => Err (StatusError Internal ("list affiliates: " +:+ StateError_Error e))
                 | Ok affiliates => Ok (Pb.mkListResponse (toProtoAffiliate <$> affiliates))
                 end
          end
      end
  end.

(** The head of [Watch]: what happens before the first [Send]. *)
Definition watch_subscribe (ρ : MapOrder string) (now : Time) (req : Pb.WatchRequest)
    (s : clusterServer M) :
    result Panic (clusterServer M * result GoError (ClusterPtr * list AffiliateInfo * SubPtr)) :=
  match validateClusterID (Pb.watch_ClusterId req) with
  | Err e => Ok (s, Err e)
  | Ok _ =>
      let '(st, cluster) := ClusterFor now (Pb.watch_ClusterId req) (srv_state s) in
      r <-? with_cluster cluster (λ c, Ok (SubscribeWithSnapshot ρ c)) st ;;
      let '(st', res) := r in
      Ok (with_state st' s,
          match res with
          | Err e => Err (StateErr e)
          | Ok (snapshot, sub) => Ok (cluster, snapshot, sub)
          end)
  end.

End server.
