(* ===== verification/Bounds.v ===== *)
(** * Resource bounds of the affiliate table

    Nothing stored outgrows the limits of [limits.go] as long as the updates
    were validated: sizes of ids, data and endpoints, and how far in the future
    an expiry can lie.  [T] bounds every clock reading so far. *)

From S2P Require Import Prelude GoTime GoChan Limits Affiliate Cluster ClusterSubs.
From S2P Require Import ClusterFacts GoStrings Grpc Validation.

Definition expiry_bounded (T : Z) (t : Time) : Prop := wall t ≤ T + TTLMax.

Definition endpoint_bounded (T : Z) (e : Endpoint) : Prop :=
  len (ep_data e) ≤ AffiliateEndpointMax ∧ expiry_bounded T (ep_expiry e).

Record affiliate_bounded (T : Z) (a : Affiliate) : Prop := {
  ab_data : len (aff_data a) ≤ AffiliateDataMax;
  ab_expiry : expiry_bounded T (aff_expiry a);
  ab_endpoints : Forall (endpoint_bounded T) (aff_endpoints a);
}.

Definition cluster_bounded (T : Z) (c : Cluster) : Prop :=
  ∀ id a, affiliates c !! id = Some a → valid_id AffiliateIDMax id ∧ affiliate_bounded T a.

(** A request that passed the checks, handled at [now]. *)
Record request_bounded (req : AffiliateUpdateRequest.t) : Prop := {
  rb_id : valid_id AffiliateIDMax (AffiliateUpdateRequest.ID req);
  rb_data : len (AffiliateUpdateRequest.Data req) ≤ AffiliateDataMax;
  rb_endpoints :
    Forall (λ d, len d ≤ AffiliateEndpointMax) (AffiliateUpdateRequest.Endpoints req);
  rb_ttl : AffiliateUpdateRequest.TTL req ≤ TTLMax;
}.

Lemma expiry_bounded_Add T now ttl : wall now ≤ T → ttl ≤ TTLMax → expiry_bounded T (Add now ttl).
Proof. unfold expiry_bounded. rewrite wall_Add. lia. Qed.

Lemma expiry_bounded_zero T : 0 ≤ T → expiry_bounded T zero_time.
Proof. unfold expiry_bounded, zero_time, TTLMax, Minute, Second. simpl. lia. Qed.

(** An invariant of single endpoints through the merge loop. *)
Lemma merge_loop_forall (P : Endpoint → Prop) expiry a chg eps :
  (∀ e, P e → P (mkEndpoint expiry (ep_data e))) →
  Forall P (aff_endpoints a) → Forall (λ d, P (mkEndpoint expiry d)) eps →
  Forall P (aff_endpoints (merge_loop expiry a chg eps).1).
Proof.
  intros Htouch. revert a chg. induction eps as [|ep eps IH]; intros a chg Ha He; simpl; [done|].
  apply Forall_cons in He as [Hep He]. destruct (0 <=? _).
  - apply IH; [|done]. simpl. rewrite Forall_lookup in *. intros i e Hi.
    rewrite list_lookup_alter in Hi. case_decide; [|by eapply Ha].
    apply fmap_Some in Hi as (e' & He' & ->). apply Ha in He'. unfold extend_endpoint.
    destruct (Before _ _); auto.
  - destruct (_ <=? _); [done|]. apply IH; [|done]. simpl.
    apply Forall_app. split; [done|]. by apply Forall_singleton.
Qed.

Lemma merge_loop_frame expiry a chg eps :
  aff_data (merge_loop expiry a chg eps).1 = aff_data a ∧
  aff_expiry (merge_loop expiry a chg eps).1 = aff_expiry a.
Proof.
  revert a chg. induction eps as [|ep eps IH]; intros a chg; simpl; [done|].
  destruct (0 <=? _).
  { by destruct (IH (set_endpoints (alter (extend_endpoint expiry)
      (Z.to_nat (findEndpointIndex a ep)) (aff_endpoints a)) a) chg) as [-> ->]. }
  destruct (_ <=? _); [done|].
  by destruct (IH (set_endpoints (aff_endpoints a ++ [mkEndpoint expiry (cloneBytes ep)]) a) true)
    as [-> ->].
Qed.

Lemma MergeEndpoints_bounded T eps expiry a :
  affiliate_bounded T a → expiry_bounded T expiry → Forall (λ d, len d ≤ AffiliateEndpointMax) eps →
  affiliate_bounded T (MergeEndpoints eps expiry a).1.
Proof.
  intros [Hd He Hes] Hx Hl. unfold MergeEndpoints.
  pose proof (merge_loop_forall (endpoint_bounded T) expiry a false eps) as Hm.
  pose proof (merge_loop_frame expiry a false eps) as [Ed Ee].
  destruct (merge_loop expiry a false eps) as [a' r]. simpl in *.
  assert (Forall (endpoint_bounded T) (aff_endpoints a')) as Hes'.
  { apply Hm; [intros e [? _]; by split | done |]. eapply Forall_impl; [exact Hl|]. by split. }
  destruct r; simpl; [destruct (Before _ _)|]; (split; simpl; [by rewrite Ed| |done]); by rewrite ?Ee.
Qed.

Lemma cluster_bounded_put T id a c :
  valid_id AffiliateIDMax id → affiliate_bounded T a → cluster_bounded T c →
  cluster_bounded T (put id a c).
Proof.
  intros Hid Ha Hc j b Hj. simpl in Hj.
  apply lookup_insert_Some in Hj as [[<- <-]|[_ Hj]]; [by split | by apply Hc].
Qed.

Lemma update_in_place_bounded T now req a c :
  0 ≤ T → wall now ≤ T → request_bounded req → affiliate_bounded T a → cluster_bounded T c →
  cluster_bounded T (update_in_place (Add now (AffiliateUpdateRequest.TTL req)) req a c).1.
Proof.
  intros HT Hnow [Hid Hd Hes Httl] [Had Hae Haes] Hc. unfold update_in_place.
  set (expiry := Add _ _). set (a1 := if (0 <? len (AffiliateUpdateRequest.Data req)) then set_data _ _ else a).
  assert (expiry_bounded T expiry) as Hx by by apply expiry_bounded_Add.
  assert (affiliate_bounded T a1) as Ha1.
  { unfold a1. destruct (0 <? _); by split. }
  pose proof (MergeEndpoints_bounded T (AffiliateUpdateRequest.Endpoints req) expiry a1 Ha1 Hx Hes) as Hm.
  destruct (MergeEndpoints _ _ a1) as [a2 r]. simpl in Hm.
  assert (cluster_bounded T (set_affiliates (<[AffiliateUpdateRequest.ID req := a2]> (affiliates c)) c)).
  { by apply cluster_bounded_put. }
  destruct r; [destruct (_ && _)|]; done.
Qed.

Lemma affiliate_bounded_new T id : 0 ≤ T → affiliate_bounded T (new_affiliate id).
Proof.
  intros HT. split; simpl; [by vm_compute | by apply expiry_bounded_zero | constructor].
Qed.

Lemma updateAffiliateLocked_bounded T now req c :
  0 ≤ T → wall now ≤ T → request_bounded req → cluster_bounded T c →
  cluster_bounded T (updateAffiliateLocked now req c).1.
Proof.
  intros HT Hnow Hreq Hc. unfold updateAffiliateLocked. pose proof (rb_id _ Hreq) as Hid.
  pose proof (affiliate_bounded_new T (AffiliateUpdateRequest.ID req) HT) as Hnew.
  destruct (_ !! _) as [a|] eqn:Ea.
  - apply update_in_place_bounded; try done. by apply (Hc _ _ Ea).
  - destruct (_ <=? _); [done|]. apply update_in_place_bounded; try done.
    by apply cluster_bounded_put.
Qed.

(** Operations that only read, drop or pass on what is stored. *)
Lemma cluster_bounded_ext T c c' :
  cluster_bounded T c → affiliates c' = affiliates c → cluster_bounded T c'.
Proof. unfold cluster_bounded. by intros H ->. Qed.

Lemma pruned_bounded T now a : affiliate_bounded T a → affiliate_bounded T (pruned now a).
Proof.
  intros [Hd He Hes]. split; simpl; [done..|]. rewrite Forall_forall in *.
  intros e [_ Hin]%list_elem_of_filter. by apply Hes.
Qed.

Lemma swept_bounded T now c : cluster_bounded T c → cluster_bounded T (swept now c).
Proof.
  intros Hc id a. simpl. rewrite lookup_omap. intros (b & Hb & Ep)%bind_Some.
  destruct (Hc id b Hb) as [Hid Hbb]. unfold prune_one in Ep. destruct (alive now b); [|done].
  injection Ep as <-. split; [done | by apply pruned_bounded].
Qed.

Lemma cluster_bounded_mono T T' c : T ≤ T' → cluster_bounded T c → cluster_bounded T' c.
Proof.
  intros HT Hc id a Ha. destruct (Hc id a Ha) as [Hid [Hd He Hes]]. split; [done|].
  unfold expiry_bounded in *. split; [done | unfold expiry_bounded; lia |].
  eapply Forall_impl; [exact Hes|]. intros e [? ?]. split; [done|]. unfold expiry_bounded in *. lia.
Qed.
