(* ===== verification/ServerFacts.v ===== *)
(** * Facts on the unary handlers: no panic, and the invariant of the server *)

From S2P Require Import Prelude GoTime GoChan Limits Affiliate Cluster ClusterSubs.
From S2P Require Import ClusterFacts XMap State StateFacts GoStrings Grpc Protobuf Messages.
From S2P Require Import NetIP.
From S2P Require Import Validation Bounds Server.

(** ** Method calls through a pointer *)

Section with_cluster.
Context {M : Type → Type} `{XMapLaws M}.
Implicit Types (s : State M).

Lemma with_cluster_eq {A} s p c (f : Cluster → result Panic (Cluster * A)) c' a :
  cstore s !! p = Some c → f c = Ok (c', a) →
  with_cluster p f s = Ok (mkState (clusters s) (<[p := c']> (cstore s)), a).
Proof. intros Hp Hf. unfold with_cluster. by rewrite Hp, Hf. Qed.

Lemma set_cluster_wf s p c c' :
  wf_state s → cstore s !! p = Some c → wf_cluster c' → cl_id c' = cl_id c →
  wf_state (mkState (clusters s) (<[p := c']> (cstore s))).
Proof.
  intros [Hptr Hc] Hp Hwf Hid. assert (p < length (cstore s))%nat by (by eapply lookup_lt_Some).
  split; simpl.
  - intros j q Hq. destruct (Hptr j q Hq) as (d & Hd & <-). destruct (decide (q = p)) as [->|Hne].
    + exists c'. rewrite list_lookup_insert_eq by done. by simplify_eq.
    + exists d. by rewrite list_lookup_insert_ne by done.
  - intros q d Hq. apply list_lookup_insert_Some in Hq as [(_ & <- & _)|[_ Hq]]; [done|].
    by eapply Hc.
Qed.

Lemma set_cluster_find s id p c c' j :
  wf_state s → xm_view (clusters s) !! id = Some p → cstore s !! p = Some c →
  find_cluster (mkState (clusters s) (<[p := c']> (cstore s))) j =
  if bool_decide (j = id) then Some c' else find_cluster s j.
Proof.
  intros Hwf Hid Hp. assert (p < length (cstore s))%nat by (by eapply lookup_lt_Some).
  unfold find_cluster. simpl. case_bool_decide as Hj.
  - subst j. rewrite Hid. simpl. by rewrite list_lookup_insert_eq.
  - destruct (xm_view (clusters s) !! j) as [q|] eqn:Hq; [|done]. simpl.
    rewrite list_lookup_insert_ne; [done|]. intros ->.
    destruct (wf_st_ptr s Hwf j q Hq) as (d & Hd & Ed).
    destruct (wf_st_ptr s Hwf id q Hid) as (e & He & Ee). congruence.
Qed.

(** A call on the cluster [ClusterFor] returns, as the state sees it. *)
Lemma ClusterFor_call {A} now id s (f : Cluster → result Panic (Cluster * A)) c' a :
  wf_state s →
  let c := default (NewCluster now id) (find_cluster s id) in
  f c = Ok (c', a) → wf_cluster c' → cl_id c' = cl_id c →
  let '(s1, p) := ClusterFor now id s in
  ∃ s2, with_cluster p f s1 = Ok (s2, a) ∧ wf_state s2 ∧
    ∀ j, find_cluster s2 j = if bool_decide (j = id) then Some c' else find_cluster s j.
Proof.
  intros Hwf c Hf Hwfc Hidc. pose proof (ClusterFor_wf now s id Hwf) as Hwf1.
  assert (∀ s1 p, ClusterFor now id s = (s1, p) → xm_view (clusters s1) !! id = Some p ∧
    cstore s1 !! p = Some c ∧ ∀ j, j ≠ id → find_cluster s1 j = find_cluster s j) as Hcf.
  { intros s1 p E. destruct (xm_view (clusters s) !! id) as [q|] eqn:Eq.
    - rewrite (ClusterFor_hit _ _ _ q) in E by done. injection E as <- <-.
      destruct (wf_st_ptr s Hwf id q Eq) as (d & Hd & _). split_and!; try done.
      unfold c, find_cluster. rewrite Eq. simpl. by rewrite Hd.
    - destruct (ClusterFor_miss now s id Eq) as (m' & E' & Ev). rewrite E' in E. injection E as <- <-.
      simpl. rewrite Ev, lookup_insert_eq, lookup_app_r, Nat.sub_diag by lia. split_and!; try done.
      { unfold c, find_cluster. by rewrite Eq. }
      intros j Hne. unfold find_cluster. simpl. rewrite Ev, lookup_insert_ne by done.
      destruct (xm_view (clusters s) !! j) as [q|] eqn:Eqj; [|done]. simpl.
      destruct (wf_st_ptr s Hwf j q Eqj) as (d & Hd & _). rewrite Hd. by apply lookup_app_l_Some. }
  destruct (ClusterFor now id s) as [s1 p]. simpl in Hwf1.
  destruct (Hcf s1 p eq_refl) as (Hid & Hp & Hrest).
  eexists. split; [by apply (with_cluster_eq s1 p c)|]. split; [by apply (set_cluster_wf s1 p c)|].
  intros j. rewrite (set_cluster_find s1 id p c) by done. case_bool_decide; [done | by apply Hrest].
Qed.
End with_cluster.

(** ** Clusters that requests can build *)

(** [T] bounds the clock readings, [n] the subscriptions, so far. *)
Record good_cluster (T n : Z) (c : Cluster) : Prop := {
  good_wf : wf_cluster c;
  good_bounded : cluster_bounded T c;
  good_id : valid_id ClusterIDMax (cl_id c);
  good_subs : len (subs c) ≤ n;
}.

Definition op_bounded (T : Z) (op : ClusterOp) : Prop :=
  match op with
  | OpUpdate ρ now req => wall now ≤ T ∧ request_bounded req
  | _ => True
  end.

Lemma updateAffiliateLocked_id now req c : cl_id (updateAffiliateLocked now req c).1 = cl_id c.
Proof.
  rewrite updateAffiliateLocked_head. destruct (has_slot req c); [|done].
  unfold update_in_place. destruct (MergeEndpoints _ _ _) as [a [b|e]]; [|done].
  by destruct (_ && _).
Qed.

(** What an operation does to the id and to what the table stores. *)
Lemma run_op_frame T c op c' :
  0 ≤ T → wf_cluster c → cluster_bounded T c → op_bounded T op → run_op c op = Ok c' →
  cl_id c' = cl_id c ∧ cluster_bounded T c'.
Proof.
  intros HT Hwf Hb Hop E. destruct op as [ρ now req|ρ now id|ρ ρs now|ρ|now p|p|p]; simpl in E.
  - rewrite UpdateAffiliate_eq in E by done. destruct Hop as [Hnow Hreq].
    pose proof (updateAffiliateLocked_id now req c) as Eid.
    pose proof (updateAffiliateLocked_bounded T now req c HT Hnow Hreq Hb) as Hb'.
    destruct (updateAffiliateLocked now req c) as [c1 [[ev|]|e]]; simpl in E, Eid, Hb'; by simplify_eq.
  - rewrite DeleteAffiliate_eq in E by done. simpl in E. injection E as <-.
    case_bool_decide; [|done]. split; [done|]. intros j a Ha. simpl in Ha.
    apply lookup_delete_Some in Ha as [_ Ha]. by apply Hb.
  - rewrite Prune_eq in E by done. injection E as <-. rewrite foldl_fan_out_id. split; [done|].
    apply (cluster_bounded_ext T (swept now c)); [by apply swept_bounded|]. apply foldl_fan_out_affiliates.
  - injection E as <-. done.
  - case_bool_decide as Hp; [|by simplify_eq]. apply lookup_lt_is_Some in Hp as [s Hs].
    rewrite (Subscription_Close_eq now p s) in E by (done || apply Hwf). injection E as <-.
    unfold close_at. by destruct (closed s).
  - destruct (recv_event p c) as [[ev c1]|] eqn:Er; simpl in E; injection E as <-; [|done].
    by apply recv_event_inv in Er as (s & b & _ & _ & ->).
  - destruct (recv_error p c) as [[ev c1]|] eqn:Er; simpl in E; injection E as <-; [|done].
    by apply recv_error_inv in Er as (s & b & _ & _ & ->).
Qed.

Lemma run_op_good T n c op :
  0 ≤ T → n + 1 < two64 → good_cluster T n c → op_bounded T op →
  ∃ c', run_op c op = Ok c' ∧ good_cluster T (n + 1) c' ∧ cl_id c' = cl_id c.
Proof.
  intros HT Hn [Hwf Hb Hid Hs] Hop.
  destruct (run_op_ok c op) as (c' & E & Hwf' & Hl); [done | lia |].
  destruct (run_op_frame T c op c') as [Eid Hb']; [done..|].
  exists c'. split; [done|]. split; [|done]. split; [done | done | by rewrite Eid | lia].
Qed.

Lemma good_mono T n n' c : n ≤ n' → good_cluster T n c → good_cluster T n' c.
Proof. intros Hn [? ? ? ?]. split; try done. lia. Qed.

Lemma good_new T now id : valid_id ClusterIDMax id → good_cluster T 0 (NewCluster now id).
Proof.
  intros Hid. split; [apply wf_new_cluster | | done | done].
  intros j a. simpl. by rewrite lookup_empty.
Qed.

Lemma state_request_bounded `{DurationPb} req :
  validate_update req = Ok () →
  valid_id ClusterIDMax (Pb.update_ClusterId req) ∧ request_bounded (state_request req).
Proof.
  unfold validate_update. intros E.
  destruct (validateClusterID _) as [[]|] eqn:E1; [|done].
  destruct (validateAffiliateID _) as [[]|] eqn:E2; [|done].
  destruct (validateAffiliateData _) as [[]|] eqn:E3; [|done].
  destruct (validateAffiliateEndpoints _) as [[]|] eqn:E4; [|done]. simpl in E.
  apply validateClusterID_ok in E1. apply validateAffiliateID_ok in E2.
  apply validateAffiliateData_ok in E3. apply validateAffiliateEndpoints_ok in E4.
  apply validateAffiliateTTL_ok in E as (d & Ed & Hd).
  split; [done|]. split; try done. simpl. by rewrite Ed.
Qed.
