(* ===== verification/ServerSafety.v ===== *)
(** * The server under any sequence of requests

    Requests, sweeps and the steps of watchers, run one at a time on a new
    server: none panics, and what the server stores stays within its limits. *)

From S2P Require Import Prelude GoTime GoChan Limits Affiliate Cluster ClusterSubs.
From S2P Require Import ClusterFacts XMap State StateFacts GoStrings Grpc Protobuf Messages.
From S2P Require Import NetIP.
From S2P Require Import Validation Bounds Server ServerFacts.

Section safety.
Context {M : Type → Type} `{XMapLaws M} `{DurationPb}.
Implicit Types s : clusterServer M.

Inductive ServerOp : Type :=
| SUpdate (ρ : MapOrder Z) (now now' : Time) (req : Pb.AffiliateUpdateRequest)
| SDelete (ρ : MapOrder Z) (now : Time) (req : Pb.AffiliateDeleteRequest)
| SList (ρ : MapOrder string) (req : Pb.ListRequest)
| SHello (ctx : RpcContext) (req : Pb.HelloRequest)
| SWatch (ρ : MapOrder string) (now : Time) (req : Pb.WatchRequest)
| SClose (now : Time) (cluster : ClusterPtr) (p : SubPtr)
| SRecvEvent (cluster : ClusterPtr) (p : SubPtr)
| SRecvError (cluster : ClusterPtr) (p : SubPtr)
| SCleanup (ρ : MapOrder string) (ρs : nat → MapOrder Z) (now : Time).

(** A watcher's own step, through a pointer it was given. *)
Definition run_watcher_op (cluster : ClusterPtr) (op : ClusterOp) s : result Panic (clusterServer M) :=
  if bool_decide (cluster < length (cstore (srv_state s)))%nat then
    r <-? with_cluster cluster (λ c, c' <-? run_op c op ;; Ok (c', ())) (srv_state s) ;;
    Ok (with_state r.1 s)
  else Ok s.

Definition run_server_op s (op : ServerOp) : result Panic (clusterServer M) :=
  match op with
  | SUpdate ρ now now' req => r <-? AffiliateUpdate ρ now now' req s ;; Ok r.1
  | SDelete ρ now req => r <-? AffiliateDelete ρ now req s ;; Ok r.1
  | SList ρ req => _ <-? List ρ req s ;; Ok s
  | SHello ctx req => Ok s
  | SWatch ρ now req => r <-? watch_subscribe ρ now req s ;; Ok r.1
  | SClose now cl p => run_watcher_op cl (OpClose now p) s
  | SRecvEvent cl p => run_watcher_op cl (OpRecvEvent p) s
  | SRecvError cl p => run_watcher_op cl (OpRecvError p) s
  | SCleanup ρ ρs now => st <-? Cleanup ρ ρs now (srv_state s) ;; Ok (with_state st s)
  end.

Definition server_op_before (T : Z) (op : ServerOp) : Prop :=
  match op with SUpdate _ _ now' _ => wall now' ≤ T | _ => True end.

Record server_inv (T n : Z) (s : clusterServer M) : Prop := {
  si_state : wf_state (srv_state s);
  si_clusters p c : cstore (srv_state s) !! p = Some c → good_cluster T n c;
}.

Lemma server_inv_new T redirect : server_inv T 0 (newClusterServer empty_state redirect).
Proof. split; [apply empty_state_wf|]. intros p c. simpl. by rewrite lookup_nil. Qed.

Lemma server_inv_mono T n n' s : n ≤ n' → server_inv T n s → server_inv T n' s.
Proof. intros Hn [Hs Hc]. split; [done|]. intros p c Hp. eapply good_mono; [done|]. by eapply Hc. Qed.

(** A step on the cluster at [p] that is an operation of the cluster. *)
Lemma with_cluster_op {A} T n s p c (f : Cluster → result Panic (Cluster * A)) op :
  0 ≤ T → n + 1 < two64 → server_inv T n s → cstore (srv_state s) !! p = Some c → op_bounded T op →
  (∀ c', run_op c op = Ok c' → ∃ a, f c = Ok (c', a)) →
  ∃ st a, with_cluster p f (srv_state s) = Ok (st, a) ∧ server_inv T (n + 1) (with_state st s).
Proof.
  intros HT Hn [Hs Hc] Hp Hop Hf.
  destruct (run_op_good T n c op HT Hn (Hc p c Hp) Hop) as (c' & E & Hg & Eid).
  destruct (Hf c' E) as [a Ea]. rewrite (with_cluster_eq _ p c f c' a) by done.
  eexists _, _. split; [done|]. split; simpl.
  - apply (set_cluster_wf _ p c); [done | done | apply Hg | done].
  - intros q d Hq. apply list_lookup_insert_Some in Hq as [(_ & <- & _)|[_ Hq]]; [done|].
    eapply good_mono; [|by eapply Hc]. lia.
Qed.

Lemma ClusterFor_inv T n now id s :
  0 ≤ n → valid_id ClusterIDMax id → server_inv T n s →
  let '(st, p) := ClusterFor now id (srv_state s) in
  server_inv T n (with_state st s) ∧ ∃ c, cstore st !! p = Some c.
Proof.
  intros Hn Hid [Hs Hc]. pose proof (ClusterFor_wf now (srv_state s) id Hs) as Hwf.
  destruct (xm_view (clusters (srv_state s)) !! id) as [q|] eqn:Eq.
  - rewrite (ClusterFor_hit _ _ _ q) by done.
    destruct (wf_st_ptr _ Hs id q Eq) as (c & Hcq & _). split; [by split | eauto].
  - destruct (ClusterFor_miss now (srv_state s) id Eq) as (m' & E & _). rewrite E in *. simpl in Hwf.
    split; [|exists (NewCluster now id); simpl; by rewrite lookup_app_r, Nat.sub_diag by lia].
    split; [done|]. simpl. intros p c [Hp|[_ Hp]]%lookup_app_Some; [by eapply Hc|].
    apply list_lookup_singleton_Some in Hp as [_ <-]. apply (good_mono T 0); [done | by apply good_new].
Qed.

Lemma GetCluster_ptr id (st : State M) p :
  wf_state st → GetCluster id st = Some p → ∃ c, cstore st !! p = Some c ∧ find_cluster st id = Some c.
Proof.
  unfold GetCluster. rewrite xm_load_view. intros Hwf E.
  destruct (wf_st_ptr st Hwf id p E) as (c & Hc & _). exists c. split; [done|].
  unfold find_cluster. by rewrite E.
Qed.

Lemma run_watcher_op_inv T n cl op s :
  0 ≤ T → n + 1 < two64 → server_inv T n s → op_bounded T op →
  ∃ s', run_watcher_op cl op s = Ok s' ∧ server_inv T (n + 1) s'.
Proof.
  intros HT Hn Hi Hop. unfold run_watcher_op. case_bool_decide as Hlt.
  - apply lookup_lt_is_Some in Hlt as [c Hc].
    destruct (with_cluster_op T n s cl c (λ c, c' <-? run_op c op ;; Ok (c', ())) op)
      as (st & [] & -> & Hi'); [done..| |by eexists].
    intros c' ->. by exists ().
  - exists s. split; [done|]. apply (server_inv_mono T n); [lia | done].
Qed.

Lemma Cleanup_inv T n ρ ρs now s st :
  server_inv T n s → Cleanup ρ ρs now (srv_state s) = Ok st → server_inv T n (with_state st s).
Proof.
  intros [Hs Hc] E. split; [by eapply Cleanup_wf|]. simpl.
  destruct (Cleanup_eq ρ ρs now (srv_state s) Hs) as (st' & E' & Hst & _).
  rewrite E in E'. injection E' as <-. intros p c. rewrite Hst.
  case_bool_decide; [|by apply Hc]. intros (d & Hd & ->)%fmap_Some.
  destruct (Hc p d Hd) as [Hwf Hb Hid Hl]. split.
  - by apply cleaned_wf.
  - apply (cluster_bounded_ext T (swept now d)); [by apply swept_bounded|].
    unfold cleaned. apply foldl_fan_out_affiliates.
  - by rewrite cleaned_id.
  - unfold cleaned, len. rewrite foldl_fan_out_subs. simpl. done.
Qed.

Lemma SUpdate_inv T n ρ now now' req s :
  0 ≤ T → 0 ≤ n → n + 1 < two64 → wall now' ≤ T → server_inv T n s →
  ∃ s' r, AffiliateUpdate ρ now now' req s = Ok (s', r) ∧ server_inv T (n + 1) s'.
Proof.
  intros HT Hn0 Hn Hnow Hi. unfold AffiliateUpdate.
  destruct (validate_update req) as [[]|e] eqn:Ev.
  2: { eexists s, _. split; [done|]. apply (server_inv_mono T n); [lia | done]. }
  apply state_request_bounded in Ev as [Hid Hreq].
  pose proof (ClusterFor_inv T n now _ s Hn0 Hid Hi) as Hcf.
  destruct (ClusterFor _ _ _) as [st p]. destruct Hcf as [Hi1 [c Hc]].
  destruct (with_cluster_op T n (with_state st s) p c (UpdateAffiliate ρ now' (state_request req))
    (OpUpdate ρ now' (state_request req))) as (st' & r & Ew & Hi2); [done..| |].
  { intros c' E. simpl in E. destruct (UpdateAffiliate _ _ _ _) as [[c1 r]|]; [|done].
    simpl in E. injection E as <-. eauto. }
  simpl in Ew. rewrite Ew. simpl. eauto.
Qed.

Lemma SDelete_inv T n ρ now req s :
  0 ≤ T → n + 1 < two64 → server_inv T n s →
  ∃ s' r, AffiliateDelete ρ now req s = Ok (s', r) ∧ server_inv T (n + 1) s'.
Proof.
  intros HT Hn Hi. unfold AffiliateDelete.
  assert (server_inv T (n + 1) s) as Hi1 by (apply (server_inv_mono T n); [lia | done]).
  destruct (rbind _ _); [|by eexists s, _].
  destruct (GetCluster _ _) as [p|] eqn:Eg; [|by eexists s, _].
  apply GetCluster_ptr in Eg as (c & Hc & _); [|apply Hi].
  destruct (with_cluster_op T n s p c (DeleteAffiliate ρ now (Pb.delete_AffiliateId req))
    (OpDelete ρ now (Pb.delete_AffiliateId req))) as (st' & r & Ew & Hi2); [done..| |].
  { intros c' E. simpl in E. destruct (DeleteAffiliate _ _ _ _) as [[c1 r]|]; [|done].
    simpl in E. injection E as <-. eauto. }
  rewrite Ew. simpl. eauto.
Qed.

Lemma SWatch_inv T n ρ now req s :
  0 ≤ T → 0 ≤ n → n + 1 < two64 → server_inv T n s →
  ∃ s' r, watch_subscribe ρ now req s = Ok (s', r) ∧ server_inv T (n + 1) s'.
Proof.
  intros HT Hn0 Hn Hi. unfold watch_subscribe.
  destruct (validateClusterID _) as [[]|e] eqn:Ev.
  2: { eexists s, _. split; [done|]. apply (server_inv_mono T n); [lia | done]. }
  apply validateClusterID_ok in Ev.
  pose proof (ClusterFor_inv T n now _ s Hn0 Ev Hi) as Hcf.
  destruct (ClusterFor _ _ _) as [st p]. destruct Hcf as [Hi1 [c Hc]].
  destruct (with_cluster_op T n (with_state st s) p c (λ c, Ok (SubscribeWithSnapshot ρ c))
    (OpSubscribe ρ)) as (st' & r & Ew & Hi2); [done..| |].
  { intros c' E. simpl in E. injection E as <-. eauto. }
  simpl in Ew. rewrite Ew. simpl. eauto.
Qed.

Lemma List_total T n ρ req s : server_inv T n s → ∃ r, List ρ req s = Ok r.
Proof.
  intros Hi. unfold List. destruct (validateClusterID _); [|eauto].
  destruct (GetCluster _ _) as [p|] eqn:Eg; [|eauto].
  apply GetCluster_ptr in Eg as (c & -> & _); [eauto | apply Hi].
Qed.

Lemma run_server_op_inv T n s op :
  0 ≤ T → 0 ≤ n → n + 1 < two64 → server_inv T n s → server_op_before T op →
  ∃ s', run_server_op s op = Ok s' ∧ server_inv T (n + 1) s'.
Proof.
  intros HT Hn0 Hn Hi Hop.
  assert (server_inv T (n + 1) s) as Hi1 by (apply (server_inv_mono T n); [lia | done]).
  destruct op as [ρ now now' req|ρ now req|ρ req|ctx req|ρ now req|now cl p|cl p|cl p|ρ ρs now]; simpl.
  - destruct (SUpdate_inv T n ρ now now' req s) as (s' & r & -> & Hi'); [done..|]. by exists s'.
  - destruct (SDelete_inv T n ρ now req s) as (s' & r & -> & Hi'); [done..|]. by exists s'.
  - destruct (List_total T n ρ req s Hi) as [r ->]. by exists s.
  - by exists s.
  - destruct (SWatch_inv T n ρ now req s) as (s' & r & -> & Hi'); [done..|]. by exists s'.
  - by apply (run_watcher_op_inv T n).
  - by apply (run_watcher_op_inv T n).
  - by apply (run_watcher_op_inv T n).
  - destruct (Cleanup_eq ρ ρs now (srv_state s) (si_state _ _ _ Hi)) as (st & E & _). rewrite E.
    exists (with_state st s). split; [done|]. by apply (Cleanup_inv T (n + 1) ρ ρs now).
Qed.

Lemma run_server_ops_inv T n s ops :
  0 ≤ T → 0 ≤ n → n + len ops < two64 → server_inv T n s → Forall (server_op_before T) ops →
  ∃ s', rfold run_server_op s ops = Ok s' ∧ server_inv T (n + len ops) s'.
Proof.
  intros HT. revert n s. induction ops as [|op ops IH]; intros n s Hn0 Hn Hi Hops; simpl.
  { exists s. split; [done|]. unfold len. simpl. by rewrite Z.add_0_r. }
  apply Forall_cons in Hops as [Hop Hops]. unfold len in *. simpl in Hn.
  destruct (run_server_op_inv T n s op) as (s1 & -> & Hi1); [done | done | lia | done..|]. simpl.
  destruct (IH (n + 1) s1) as (s' & E & Hi'); [lia | lia | done..|].
  exists s'. split; [done|]. eapply server_inv_mono; [|done]. lia.
Qed.

(** ** Properties *)

(** C3: run any sequence of requests (updates, deletions, lists, hellos,
    watches), watchers' steps and sweeps on a new server, with clock readings
    at most [T]: nothing panics; and every cluster stored then has a valid id
    of at most 256 bytes, at most 1024 affiliates with valid ids of at most
    256 bytes, data of at most 2048 bytes, at most 64 pairwise distinct
    endpoints of at most 32 bytes each, and no affiliate or endpoint expires
    later than 30 minutes after [T]. *)
Theorem requests_stay_within_limits T redirect ops :
  0 ≤ T → len ops < two64 → Forall (server_op_before T) ops →
  ∃ s, rfold run_server_op (newClusterServer empty_state redirect) ops = Ok s ∧
    wf_state (srv_state s) ∧
    ∀ p c, cstore (srv_state s) !! p = Some c →
      valid_id ClusterIDMax (cl_id c) ∧ len_map (affiliates c) ≤ AffiliatesMax ∧
      ∀ id a, affiliates c !! id = Some a →
        valid_id AffiliateIDMax id ∧ aff_id a = id ∧ len (aff_data a) ≤ AffiliateDataMax ∧
        wall (aff_expiry a) ≤ T + TTLMax ∧
        len (aff_endpoints a) ≤ AffiliateEndpointsMax ∧ NoDup (endpoint_data a) ∧
        ∀ e, e ∈ aff_endpoints a →
          len (ep_data e) ≤ AffiliateEndpointMax ∧ wall (ep_expiry e) ≤ T + TTLMax.
Proof.
  intros HT Hlen Hops.
  destruct (run_server_ops_inv T 0 (newClusterServer empty_state redirect) ops) as (s & E & Hs & Hc);
    [done | done | done | apply server_inv_new | done |].
  exists s. split; [done|]. split; [done|]. intros p c Hp.
  destruct (Hc p c Hp) as [[[Hsz Haff] _] Hb Hid _]. split; [done|]. split; [done|]. intros id a Ha.
  destruct (Haff id a Ha) as [Eid [Hnd Hlen']]. destruct (Hb id a Ha) as [Hvid [Hd He Hes]].
  split_and!; try done. by apply Forall_forall.
Qed.

End safety.

(** ** Witness *)

#[local] Existing Instance seconds_nanos_duration.

Definition sv_t0 : Time := mkTime (1000 * Second) (Some 0).
Definition sv_request : Pb.AffiliateUpdateRequest :=
  Pb.mkUpdateRequest "c1" "node-1" (bs "data") [bs "10.0.0.1"] (Some (60, 0)).
Definition sv_ops : list ServerOp :=
  [SWatch (order_fwd string) sv_t0 (Pb.mkWatchRequest "c1");
   SUpdate (order_fwd Z) sv_t0 sv_t0 sv_request;
   SRecvEvent 0%nat 0%nat;
   SCleanup (order_fwd string) (λ _, order_fwd Z) (mkTime (2000 * Second) (Some (1000 * Second)));
   SClose sv_t0 0%nat 0%nat].

Lemma requests_stay_within_limits_witness :
  ∃ s : clusterServer (gmap string),
    rfold run_server_op (newClusterServer empty_state "") sv_ops = Ok s ∧
    wf_state (srv_state s).
Proof.
  destruct (requests_stay_within_limits (M := gmap string) (1000 * Second) "" sv_ops)
    as (s & E & Hs & _); [by vm_compute | by vm_compute | by repeat constructor |].
  exists s. split; [exact E | exact Hs].
Defined.
