(* ===== verification/ServerProps.v ===== *)
(** * Properties of the unary handlers *)

From S2P Require Import Prelude GoTime GoChan Limits Affiliate Cluster ClusterSubs.
From S2P Require Import ClusterFacts Replication XMap State StateFacts GoStrings Grpc Protobuf.
From S2P Require Import Messages NetIP Validation Bounds Server ServerFacts ServerSafety.

(** ** Requests that pass the checks *)

Record valid_update `{DurationPb} (req : Pb.AffiliateUpdateRequest) : Prop := {
  vu_cluster : valid_id ClusterIDMax (Pb.update_ClusterId req);
  vu_affiliate : valid_id AffiliateIDMax (Pb.update_AffiliateId req);
  vu_data : len (Pb.update_AffiliateData req) ≤ AffiliateDataMax;
  vu_endpoints : Forall (λ e, len e ≤ AffiliateEndpointMax) (Pb.update_AffiliateEndpoints req);
  vu_ttl : ∃ d, Pb.update_Ttl req = Some d ∧ AsDuration d ≤ TTLMax;
}.

Lemma rbind_ok {E A B} (m : result E A) (f : A → result E B) b :
  rbind m f = Ok b ↔ ∃ a, m = Ok a ∧ f a = Ok b.
Proof. destruct m; simpl; naive_solver. Qed.

Lemma validate_update_ok `{DurationPb} req : validate_update req = Ok () ↔ valid_update req.
Proof.
  unfold validate_update. rewrite rbind_ok. split.
  - intros ([] & E1%validateClusterID_ok & E).
    apply rbind_ok in E as ([] & E2%validateAffiliateID_ok & E).
    apply rbind_ok in E as ([] & E3%validateAffiliateData_ok & E).
    apply rbind_ok in E as ([] & E4%validateAffiliateEndpoints_ok & E%validateAffiliateTTL_ok).
    by split.
  - intros [E1%validateClusterID_ok E2%validateAffiliateID_ok E3%validateAffiliateData_ok
      E4%validateAffiliateEndpoints_ok E5%validateAffiliateTTL_ok].
    exists (). split; [done|]. rewrite E2. simpl. rewrite E3. simpl. rewrite E4. done.
Qed.

(** The codes of the checks. *)
Definition rejection (e : GoError) : Prop :=
  ∃ msg, e = StatusError InvalidArgument msg ∨ e = StatusError OutOfRange msg.

Lemma validateID_rejection id e :
  validateClusterID id = Err e ∨ validateAffiliateID id = Err e → rejection e.
Proof.
  unfold validateClusterID, validateAffiliateID, rejection.
  intros [E|E]; case_bool_decide; simplify_eq; try (eexists; by left);
    destruct (_ <? _); simplify_eq; eexists; by right.
Qed.

Lemma validate_update_rejection `{DurationPb} req e : validate_update req = Err e → rejection e.
Proof.
  unfold validate_update. intros E.
  destruct (validateClusterID _) as [[]|e1] eqn:E1; simpl in E.
  2: { simplify_eq. eapply validateID_rejection. by left. }
  destruct (validateAffiliateID _) as [[]|e2] eqn:E2; simpl in E.
  2: { simplify_eq. eapply validateID_rejection. by right. }
  destruct (validateAffiliateData _) as [[]|e3] eqn:E3; simpl in E.
  2: { unfold validateAffiliateData in E3. destruct (_ <? _); simplify_eq. eexists. by right. }
  destruct (validateAffiliateEndpoints _) as [[]|e4] eqn:E4; simpl in E.
  2: { simplify_eq. clear -E4. induction (Pb.update_AffiliateEndpoints req) as [|x l IH]; [done|].
       simpl in E4. destruct (_ <? _); simplify_eq; [eexists; by right | by apply IH]. }
  unfold validateAffiliateTTL, validateTTL in E.
  destruct (Pb.update_Ttl req); [destruct (_ <? _)|]; simplify_eq; eexists; [by right | by left].
Qed.

Section props.
Context {M : Type → Type} `{XMapLaws M} `{DurationPb}.
Implicit Types s : clusterServer M.

(** The cluster an update or a watch of [id] works on. *)
Definition cluster_for (now : Time) (id : string) s : Cluster :=
  default (NewCluster now id) (find_cluster (srv_state s) id).

Lemma cluster_for_wf now id s :
  wf_state (srv_state s) → wf_cluster (cluster_for now id s) ∧ cl_id (cluster_for now id s) = id.
Proof.
  intros Hwf. unfold cluster_for. destruct (find_cluster _ id) as [c|] eqn:Hc; simpl.
  - apply find_cluster_Some in Hc as (p & Hid & Hp). split; [by eapply wf_st_each|].
    destruct (wf_st_ptr _ Hwf id p Hid) as (d & Hd & <-). by simplify_eq.
  - split; [apply wf_new_cluster | done].
Qed.

(** A valid update is the cluster's update, on the cluster of that id. *)
Lemma AffiliateUpdate_eq ρ now now' req s :
  wf_state (srv_state s) → valid_update req →
  let cid := Pb.update_ClusterId req in
  ∃ c' r s',
    UpdateAffiliate ρ now' (state_request req) (cluster_for now cid s) = Ok (c', r) ∧
    AffiliateUpdate ρ now now' req s =
      Ok (s', match r with Ok _ => Ok Pb.mkUpdateResponse
              | Err e => Err (StatusError ResourceExhausted (StateError_Error e)) end) ∧
    wf_state (srv_state s') ∧ redirectEndpoint s' = redirectEndpoint s ∧
    (∀ j, find_cluster (srv_state s') j =
       if bool_decide (j = cid) then Some c' else find_cluster (srv_state s) j).
Proof.
  intros Hwf Hv cid. destruct (cluster_for_wf now cid s Hwf) as [Hwfc Hidc].
  set (c := cluster_for now cid s) in *.
  pose proof (updateAffiliateLocked_wf now' (state_request req) c) as Hw.
  pose proof (updateAffiliateLocked_id now' (state_request req) c) as Hi.
  assert (∃ c' r, UpdateAffiliate ρ now' (state_request req) c = Ok (c', r) ∧
    wf_cluster c' ∧ cl_id c' = cl_id c) as (c' & r & Eu & Hwf' & Hid').
  { rewrite UpdateAffiliate_eq by done. destruct (updateAffiliateLocked _ _ _) as [c1 r1].
    specialize (Hw c1 r1 Hwfc eq_refl). simpl in Hi.
    destruct r1 as [[ev|]|e]; (do 2 eexists); (split; [reflexivity|]); split; try done.
    by apply fan_out_cluster_wf. }
  pose proof (ClusterFor_call now cid (srv_state s) (UpdateAffiliate ρ now' (state_request req)) c' r
    Hwf Eu Hwf' Hid') as Hcall.
  unfold AffiliateUpdate. rewrite (proj2 (validate_update_ok req) Hv). fold cid.
  destruct (ClusterFor now cid (srv_state s)) as [s1 p]. destruct Hcall as (s2 & Ew & Hwf2 & Hf).
  rewrite Ew. simpl. exists c', r. eexists. split; [done|].
  split; [by destruct r as [|[|]]|]. by split_and!.
Qed.

(** The table of the cluster [id], as the state has it. *)
Definition table s (id : string) : View := from_option cluster_view ∅ (find_cluster (srv_state s) id).

Lemma table_id s id k i : wf_state (srv_state s) → table s id !! k = Some i → ID i = k.
Proof.
  unfold table. intros Hwf. destruct (find_cluster _ _) as [c|] eqn:Hc; [|done].
  apply find_cluster_Some in Hc as (p & _ & Hp). simpl. unfold cluster_view. rewrite lookup_fmap.
  intros (a & Ha & ->)%fmap_Some.
  by destruct (wf_affs_each _ (wf_cl_affiliates _ (wf_st_each _ Hwf p c Hp)) _ _ Ha).
Qed.

(** [List] shows the table, one entry per affiliate, in any order. *)
Definition shows (l : list Pb.Affiliate) (V : View) : Prop :=
  NoDup (Pb.Id <$> l) ∧
  ∀ a, a ∈ l ↔ ∃ i, V !! Pb.Id a = Some i ∧ a = toProtoAffiliate i.

Lemma shows_nil : shows [] ∅.
Proof. split; [constructor|]. intros a. rewrite lookup_empty, elem_of_nil. naive_solver. Qed.

Lemma shows_range ρ c :
  wf_affiliates (affiliates c) →
  shows (toProtoAffiliate <$> ((λ ka, ToInfo ka.2) <$> range ρ (affiliates c))) (cluster_view c).
Proof.
  intros Hwf. split.
  - rewrite <- !list_fmap_compose.
    rewrite (list_fmap_ext _ fst (range ρ (affiliates c))); [apply NoDup_range_fst|].
    intros i [k a] Hka. apply list_elem_of_lookup_2, elem_of_range in Hka. by apply Hwf in Hka as [? _].
  - intros a. unfold cluster_view. rewrite list_elem_of_fmap. setoid_rewrite list_elem_of_fmap.
    setoid_rewrite lookup_fmap. setoid_rewrite fmap_Some. split.
    + intros (i & -> & [k b] & -> & Hin%elem_of_range). exists (ToInfo b). split; [|done].
      exists b. split; [|done]. simpl. by destruct (wf_affs_each _ Hwf _ _ Hin) as [-> _].
    + intros (i & (b & Hb & ->) & ->). exists (ToInfo b). split; [done|].
      eexists (_, b). split; [done|]. apply elem_of_range. exact Hb.
Qed.

Lemma List_shows ρ id s :
  wf_state (srv_state s) → valid_id ClusterIDMax id →
  ∃ l, List ρ (Pb.mkListRequest id) s = Ok (Ok (Pb.mkListResponse l)) ∧ shows l (table s id).
Proof.
  intros Hwf Hv. unfold List, table. simpl. rewrite (proj2 (validateClusterID_ok id) Hv).
  destruct (GetCluster id (srv_state s)) as [p|] eqn:Eg.
  - apply GetCluster_ptr in Eg as (c & Hp & Hc); [|done]. rewrite Hp, Hc. simpl.
    eexists. split; [done|]. apply shows_range.
    apply find_cluster_Some in Hc as (q & _ & Hq). by eapply wf_cl_affiliates, wf_st_each.
  - exists []. split; [done|]. unfold find_cluster.
    unfold GetCluster in Eg. rewrite xm_load_view in Eg. rewrite Eg. apply shows_nil.
Qed.

(** The public part of an updated affiliate. *)
Lemma updated_info now req c :
  wf_affiliates (affiliates c) → endpoints_fit req c = true →
  let i := ToInfo (updated now req c) in
  ID i = AffiliateUpdateRequest.ID req ∧
  (AffiliateUpdateRequest.Data req ≠ [] → Data i = AffiliateUpdateRequest.Data req) ∧
  ∀ ep, ep ∈ InfoEndpoints i ↔ ep ∈ AffiliateUpdateRequest.Endpoints req ∨
    ∃ j, cluster_view c !! AffiliateUpdateRequest.ID req = Some j ∧ ep ∈ InfoEndpoints j.
Proof.
  intros Hwf Hfit. split; [by apply (wf_updated now req c Hwf)|]. split.
  { intros Hne. unfold updated, with_data, data_changed. simpl.
    by destruct (AffiliateUpdateRequest.Data req) as [|x d]. }
  intros ep. unfold updated. simpl. unfold Endpoints_ToInfo.
  change (λ ep, cloneBytes (ep_data ep)) with ep_data. rewrite merge_spec_data, with_data_endpoints.
  rewrite elem_of_app. unfold cluster_view. setoid_rewrite lookup_fmap. unfold update_base.
  destruct (affiliates c !! _) as [a|]; simpl.
  - split; [intros [Hin|Hin%fresh_not_seen]|intros [Hin|(j & [= <-] & Hin)]].
    + right. eexists. split; [done|]. done.
    + left. apply Hin.
    + destruct (fresh_complete (ep_data <$> aff_endpoints a) _ _ Hin); auto.
    + by left.
  - split; [intros [Hin%elem_of_nil|Hin%fresh_not_seen]; [done | left; apply Hin]|].
    intros [Hin|(j & ? & ?)]; [|done]. destruct (fresh_complete [] _ _ Hin); auto.
Qed.

(** A successful update of a cluster, on its table. *)
Lemma UpdateAffiliate_ok_view ρ now req c c' :
  wf_cluster c → UpdateAffiliate ρ now req c = Ok (c', Ok ()) →
  endpoints_fit req c = true ∧
  cluster_view c' = <[AffiliateUpdateRequest.ID req := ToInfo (updated now req c)]> (cluster_view c).
Proof.
  intros Hwfc Eu. pose proof (wf_cl_affiliates c Hwfc) as Ha. rewrite UpdateAffiliate_eq in Eu by done.
  destruct (has_slot req c) eqn:Hs.
  2: { rewrite updateAffiliateLocked_head, Hs in Eu. by simplify_eq. }
  destruct (endpoints_fit req c) eqn:Hfit.
  2: { destruct (updateAffiliateLocked_too_many_endpoints now req c)
         as (? & ? & ? & _ & _ & _ & El); [done..|]. rewrite El in Eu. by simplify_eq. }
  split; [done|]. rewrite updateAffiliateLocked_ok in Eu by done.
  rewrite <- (cluster_view_put _ _ c (proj2 (wf_updated now req c Ha Hfit))).
  destruct (announces req c); by injection Eu as <-.
Qed.

(** What a successful update leaves in the table. *)
Lemma update_table ρ now now' req s s' :
  wf_state (srv_state s) → AffiliateUpdate ρ now now' req s = Ok (s', Ok Pb.mkUpdateResponse) →
  wf_state (srv_state s') ∧ valid_update req ∧
  ∃ i, table s' (Pb.update_ClusterId req) =
         <[Pb.update_AffiliateId req := i]> (table s (Pb.update_ClusterId req)) ∧
    ID i = Pb.update_AffiliateId req ∧
    (Pb.update_AffiliateData req ≠ [] → Data i = Pb.update_AffiliateData req) ∧
    (∀ ep, ep ∈ InfoEndpoints i ↔ ep ∈ Pb.update_AffiliateEndpoints req ∨
       ∃ j, table s (Pb.update_ClusterId req) !! Pb.update_AffiliateId req = Some j ∧
            ep ∈ InfoEndpoints j) ∧
    (∀ id, id ≠ Pb.update_ClusterId req → table s' id = table s id).
Proof.
  intros Hwf E. destruct (validate_update req) as [[]|e] eqn:Ev.
  2: { unfold AffiliateUpdate in E. by rewrite Ev in E. }
  apply validate_update_ok in Ev as Hv.
  destruct (AffiliateUpdate_eq ρ now now' req s Hwf Hv) as (c' & r & s1 & Eu & E1 & Hwf1 & _ & Hf).
  rewrite E in E1. injection E1 as <- Er. split; [done|]. split; [done|].
  set (cid := Pb.update_ClusterId req) in *. set (c := cluster_for now cid s) in *.
  destruct (cluster_for_wf now cid s Hwf) as [Hwfc _]. fold c in Hwfc.
  assert (table s cid = cluster_view c) as Et.
  { unfold table, c, cluster_for. destruct (find_cluster _ cid); simpl; [done|].
    unfold cluster_view. simpl. by rewrite fmap_empty. }
  destruct r as [[]|e]; [|done].
  apply UpdateAffiliate_ok_view in Eu as [Hfit Ec']; [|done].
  destruct (updated_info now' (state_request req) c (wf_cl_affiliates c Hwfc) Hfit) as (Eid & Ed & Ee).
  rewrite <- Et in *. eexists. split; [|split; [exact Eid|split; [exact Ed|split; [exact Ee|]]]].
  - unfold table at 1. rewrite Hf, bool_decide_true by done. exact Ec'.
  - intros id Hne. unfold table. by rewrite Hf, bool_decide_false.
Qed.

(** A valid deletion. *)
Lemma AffiliateDelete_table ρ now req s :
  wf_state (srv_state s) →
  valid_id ClusterIDMax (Pb.delete_ClusterId req) → valid_id AffiliateIDMax (Pb.delete_AffiliateId req) →
  ∃ s', AffiliateDelete ρ now req s = Ok (s', Ok Pb.mkDeleteResponse) ∧
    wf_state (srv_state s') ∧
    table s' (Pb.delete_ClusterId req) =
      delete (Pb.delete_AffiliateId req) (table s (Pb.delete_ClusterId req)) ∧
    (∀ id, id ≠ Pb.delete_ClusterId req → table s' id = table s id) ∧
    (∀ id, is_Some (find_cluster (srv_state s') id) ↔ is_Some (find_cluster (srv_state s) id)).
Proof.
  intros Hwf Hc%validateClusterID_ok Ha%validateAffiliateID_ok. unfold AffiliateDelete.
  rewrite Hc, Ha. simpl. unfold GetCluster. rewrite xm_load_view.
  destruct (xm_view _ !! _) as [p|] eqn:Hp.
  2: { exists s. split; [done|]. split; [done|].
       split; [unfold table, find_cluster; by rewrite Hp | done]. }
  destruct (wf_st_ptr _ Hwf _ p Hp) as (c & Hcp & Hid).
  pose proof (wf_st_each _ Hwf p c Hcp) as Hwfc.
  pose proof (DeleteAffiliate_eq ρ now (Pb.delete_AffiliateId req) c Hwfc) as Ed.
  set (c' := if bool_decide _ then _ else c) in Ed.
  assert (wf_cluster c' ∧ cl_id c' = cl_id c ∧
    affiliates c' = delete (Pb.delete_AffiliateId req) (affiliates c)) as (Hwf' & Hid' & Ea).
  { unfold c'. case_bool_decide as Hs.
    - split_and!; try done. by apply fan_out_cluster_wf, prolong_wf, deleted_wf.
    - split_and!; try done. rewrite delete_id; [done|]. by apply eq_None_not_Some. }
  rewrite (with_cluster_eq _ p c _ c' (Ok ())) by done. simpl. eexists. split; [done|].
  split; [by apply (set_cluster_wf _ p c)|].
  pose proof (λ j, set_cluster_find (srv_state s) _ p c c' j Hwf Hp Hcp) as Hf. unfold table. simpl.
  split_and!.
  - rewrite Hf, bool_decide_true by done. unfold find_cluster. rewrite Hp.
    simpl. rewrite Hcp. simpl. unfold cluster_view. rewrite Ea. apply fmap_delete.
  - intros id Hne. by rewrite Hf, bool_decide_false by done.
  - intros id. rewrite Hf. case_bool_decide; [|done]. subst id.
    unfold find_cluster. rewrite Hp. simpl. rewrite Hcp. split; eauto.
Qed.

(** ** Properties *)

(** C12: [AffiliateUpdate] accepts exactly the requests whose cluster and
    affiliate ids are not blank and at most 256 bytes, whose data and
    endpoints fit, and whose TTL is present and at most 30 minutes.  Any other
    is answered with an [InvalidArgument] or [OutOfRange] status and changes
    nothing, not even creating the cluster.  An accepted request is the
    cluster's [UpdateAffiliate], on the cluster of that id (created if there
    is none) and on no other, and only the two resource errors of the state
    can come back, as [ResourceExhausted]; it never panics. *)
Theorem AffiliateUpdate_refines ρ now now' req s :
  wf_state (srv_state s) →
  (¬ valid_update req ∧ ∃ e, rejection e ∧ AffiliateUpdate ρ now now' req s = Ok (s, Err e)) ∨
  (valid_update req ∧
   let cid := Pb.update_ClusterId req in
   ∃ c' r s',
     UpdateAffiliate ρ now' (state_request req)
       (default (NewCluster now cid) (find_cluster (srv_state s) cid)) = Ok (c', r) ∧
     AffiliateUpdate ρ now now' req s =
       Ok (s', match r with Ok _ => Ok Pb.mkUpdateResponse
               | Err e => Err (StatusError ResourceExhausted (StateError_Error e)) end) ∧
     wf_state (srv_state s') ∧
     ∀ j, find_cluster (srv_state s') j =
       if bool_decide (j = cid) then Some c' else find_cluster (srv_state s) j).
Proof.
  intros Hwf. destruct (validate_update req) as [[]|e] eqn:Ev.
  - right. apply validate_update_ok in Ev. split; [done|]. intros cid.
    destruct (AffiliateUpdate_eq ρ now now' req s Hwf Ev) as (c' & r & s' & Eu & E & Hwf' & _ & Hf).
    by exists c', r, s'.
  - left. split.
    + intros Hv%validate_update_ok. congruence.
    + exists e. split; [by eapply validate_update_rejection|].
      unfold AffiliateUpdate. by rewrite Ev.
Qed.

(** C13: what is written is what is read.  After an [AffiliateUpdate] that
    succeeded, [List] of that cluster shows the affiliate once, with the
    request's data if it carried any, and with exactly the request's endpoints
    and those it had before; every other affiliate of the cluster, and every
    other cluster, is listed as before. *)
Theorem update_then_list ρ now now' ρ1 ρ2 req s s' :
  wf_state (srv_state s) → AffiliateUpdate ρ now now' req s = Ok (s', Ok Pb.mkUpdateResponse) →
  let list_req := Pb.mkListRequest (Pb.update_ClusterId req) in
  ∃ before after a,
    List ρ1 list_req s = Ok (Ok (Pb.mkListResponse before)) ∧
    List ρ2 list_req s' = Ok (Ok (Pb.mkListResponse after)) ∧
    NoDup (Pb.Id <$> after) ∧ a ∈ after ∧ Pb.Id a = Pb.update_AffiliateId req ∧
    (Pb.update_AffiliateData req ≠ [] → Pb.Data a = Pb.update_AffiliateData req) ∧
    (∀ ep, ep ∈ Pb.Endpoints a ↔ ep ∈ Pb.update_AffiliateEndpoints req ∨
       ∃ b, b ∈ before ∧ Pb.Id b = Pb.Id a ∧ ep ∈ Pb.Endpoints b) ∧
    (∀ b, Pb.Id b ≠ Pb.update_AffiliateId req → b ∈ after ↔ b ∈ before) ∧
    (∀ id, id ≠ Pb.update_ClusterId req → table s' id = table s id).
Proof.
  intros Hwf E list_req.
  destruct (update_table ρ now now' req s s' Hwf E) as (Hwf' & [Hv _ _ _ _] & i & Et & Ei & Ed & Ee & Ho).
  destruct (List_shows ρ1 _ s Hwf Hv) as (before & El1 & Hnd1 & Hin1).
  destruct (List_shows ρ2 _ s' Hwf' Hv) as (after & El2 & Hnd2 & Hin2).
  exists before, after, (toProtoAffiliate i). split_and!; try done.
  - apply Hin2. exists i. split; [|done]. rewrite Et. simpl. by rewrite Ei, lookup_insert_eq.
  - intros ep. simpl. rewrite Ee. apply or_iff_compat_l. rewrite Ei. split.
    + intros (j & Hj & Hep). exists (toProtoAffiliate j).
      pose proof (table_id _ _ _ _ Hwf Hj) as Ej.
      split; [|done]. apply Hin1. exists j. simpl. by rewrite Ej.
    + intros (b & Hb & Eb & Hep). apply Hin1 in Hb as (j & Hj & ->). simpl in *.
      exists j. by rewrite <- Eb.
  - intros b Hne. rewrite Hin1, Hin2, Et. setoid_rewrite lookup_insert_ne; [done|]. done.
Qed.

(** C14: [AffiliateDelete] with valid ids always succeeds: afterwards [List]
    does not show that affiliate, and shows everything else as before; no
    cluster is created or dropped, even when the id is unknown. *)
Theorem delete_then_list ρ now ρ1 ρ2 req s :
  wf_state (srv_state s) →
  valid_id ClusterIDMax (Pb.delete_ClusterId req) → valid_id AffiliateIDMax (Pb.delete_AffiliateId req) →
  let list_req := Pb.mkListRequest (Pb.delete_ClusterId req) in
  ∃ s' before after,
    AffiliateDelete ρ now req s = Ok (s', Ok Pb.mkDeleteResponse) ∧
    List ρ1 list_req s = Ok (Ok (Pb.mkListResponse before)) ∧
    List ρ2 list_req s' = Ok (Ok (Pb.mkListResponse after)) ∧
    (∀ a, a ∈ after ↔ a ∈ before ∧ Pb.Id a ≠ Pb.delete_AffiliateId req) ∧
    (∀ id, is_Some (find_cluster (srv_state s') id) ↔ is_Some (find_cluster (srv_state s) id)) ∧
    (∀ id, id ≠ Pb.delete_ClusterId req → table s' id = table s id).
Proof.
  intros Hwf Hc Ha list_req.
  destruct (AffiliateDelete_table ρ now req s Hwf Hc Ha) as (s' & E & Hwf' & Et & Ho & Hsome).
  destruct (List_shows ρ1 _ s Hwf Hc) as (before & El1 & _ & Hin1).
  destruct (List_shows ρ2 _ s' Hwf' Hc) as (after & El2 & _ & Hin2).
  exists s', before, after. split_and!; try done. intros a. rewrite Hin1, Hin2, Et.
  setoid_rewrite lookup_delete_Some. naive_solver.
Qed.

(** [List] never panics and creates nothing: for a valid id it returns the
    cluster's table, each affiliate exactly once under its own id with its
    data and endpoints in order (nothing for an unknown cluster), in an order
    that depends on the map's iteration alone; for an invalid id it is
    rejected. *)
Theorem List_refines ρ req s :
  wf_state (srv_state s) →
  (¬ valid_id ClusterIDMax (Pb.list_ClusterId req) ∧
   ∃ e, rejection e ∧ List ρ req s = Ok (Err e)) ∨
  (valid_id ClusterIDMax (Pb.list_ClusterId req) ∧
   ∃ l, List ρ req s = Ok (Ok (Pb.mkListResponse l)) ∧
     l ≡ₚ (λ ki, toProtoAffiliate ki.2) <$> map_to_list (table s (Pb.list_ClusterId req))).
Proof.
  intros Hwf. destruct (validateClusterID (Pb.list_ClusterId req)) as [[]|e] eqn:Ev.
  - right. apply validateClusterID_ok in Ev as Hv. split; [done|].
    unfold List. rewrite Ev. unfold table.
    destruct (GetCluster _ _) as [p|] eqn:Eg.
    + apply GetCluster_ptr in Eg as (c & Hp & Hc); [|done]. rewrite Hp, Hc. simpl.
      eexists. split; [done|]. unfold cluster_view. rewrite map_to_list_fmap, range_perm.
      rewrite <- !list_fmap_compose. done.
    + eexists. split; [done|]. unfold find_cluster, GetCluster in *. rewrite xm_load_view in Eg.
      rewrite Eg. simpl. by rewrite map_to_list_empty.
  - left. split; [intros Hv%validateClusterID_ok; congruence|]. exists e.
    split; [apply (validateID_rejection _ _ (or_introl Ev))|]. unfold List. by rewrite Ev.
Qed.

End props.

(** ** Witnesses *)

#[local] Existing Instance seconds_nanos_duration.

Definition sp_t : Time := mkTime (1000 * Second) (Some 0).
Definition sp_new : clusterServer (gmap string) := newClusterServer empty_state "".
Definition sp_request (aid : string) : Pb.AffiliateUpdateRequest :=
  Pb.mkUpdateRequest "c1" aid (bs "data") [bs "10.0.0.1"] (Some (60, 0)).
(** Too long a TTL. *)
Definition sp_late : Pb.AffiliateUpdateRequest :=
  Pb.mkUpdateRequest "c1" "node-1" (bs "data") [] (Some (1801, 0)).

Lemma sp_new_wf : wf_state (srv_state sp_new).
Proof. apply empty_state_wf. Defined.

Definition sp_one : clusterServer (gmap string) :=
  match AffiliateUpdate (order_fwd Z) sp_t sp_t (sp_request "node-1") sp_new with
  | Ok (s, _) => s
  | Err _ => sp_new
  end.

Lemma sp_one_wf : wf_state (srv_state sp_one).
Proof.
  destruct (update_table (order_fwd Z) sp_t sp_t (sp_request "node-1") sp_new sp_one sp_new_wf)
    as [Hwf _]; [by vm_compute | exact Hwf].
Defined.

Lemma sp_valid_id : valid_id ClusterIDMax "c1" ∧ valid_id AffiliateIDMax "node-1".
Proof. split; [apply validateClusterID_ok | apply validateAffiliateID_ok]; by vm_compute. Defined.

(** One request is accepted, the other rejected. *)
Lemma AffiliateUpdate_refines_witness :
  valid_update (sp_request "node-1") ∧
  ∃ e, AffiliateUpdate (order_fwd Z) sp_t sp_t sp_late sp_new = Ok (sp_new, Err e).
Proof.
  split; [by apply validate_update_ok; vm_compute|].
  destruct (AffiliateUpdate_refines (order_fwd Z) sp_t sp_t sp_late sp_new sp_new_wf)
    as [(_ & e & _ & E)|[Hv _]]; [by exists e|].
  apply validate_update_ok in Hv. by vm_compute in Hv.
Defined.

Lemma update_then_list_witness :
  ∃ after a, List (order_bwd string) (Pb.mkListRequest "c1") sp_one = Ok (Ok (Pb.mkListResponse after)) ∧
    a ∈ after ∧ Pb.Id a = "node-1" ∧ bs "10.0.0.1" ∈ Pb.Endpoints a.
Proof.
  destruct (update_then_list (order_fwd Z) sp_t sp_t (order_fwd string) (order_bwd string)
    (sp_request "node-1") sp_new sp_one sp_new_wf) as
    (before & after & a & _ & El & _ & Ha & Eid & _ & He & _); [by vm_compute|].
  exists after, a. split; [exact El|]. split; [exact Ha|]. split; [exact Eid|].
  apply He. left. left.
Defined.

Lemma delete_then_list_witness :
  ∃ s' after,
    AffiliateDelete (order_fwd Z) sp_t (Pb.mkDeleteRequest "c1" "node-1") sp_one = Ok (s', Ok Pb.mkDeleteResponse) ∧
    List (order_fwd string) (Pb.mkListRequest "c1") s' = Ok (Ok (Pb.mkListResponse after)) ∧
    ∀ a, a ∈ after → Pb.Id a ≠ "node-1".
Proof.
  destruct (delete_then_list (order_fwd Z) sp_t (order_fwd string) (order_fwd string)
    (Pb.mkDeleteRequest "c1" "node-1") sp_one sp_one_wf (proj1 sp_valid_id) (proj2 sp_valid_id))
    as (s' & before & after & Ed & _ & El & Hin & _).
  exists s', after. split; [exact Ed|]. split; [exact El|]. intros a [_ Hne]%Hin. exact Hne.
Defined.

Lemma List_refines_witness :
  ∃ l, List (order_bwd string) (Pb.mkListRequest "c1") sp_one = Ok (Ok (Pb.mkListResponse l)) ∧
    length l = 1%nat.
Proof.
  destruct (List_refines (order_bwd string) (Pb.mkListRequest "c1") sp_one sp_one_wf)
    as [[Hn _]|(_ & l & El & Hp)]; [destruct (Hn (proj1 sp_valid_id))|].
  exists l. split; [exact El|]. apply Permutation_length in Hp. rewrite Hp. by vm_compute.
Defined.
