(* ===== verification/Watch.v ===== *)
(** * The streaming handler ([clusterServer.Watch], cluster_server.go:130-202)

    [Watch] subscribes, sends the snapshot, and then loops over a [select].
    The program counter [WatchPC] names the points between two shared actions;
    [watch_step] is the handler's own step relation, with the choices of the
    [select] and the outcome of [Send] left to the run-time and the peer. *)

From S2P Require Import Prelude GoTime GoChan Limits Affiliate Cluster ClusterSubs Grpc.
From S2P Require Import Messages.
From S2P Require Import Server.

Inductive WatchPC : Type :=
| Sending (resp : Pb.WatchResponse)   (** about to call [server.Send(resp)] *)
| Selecting                            (** at the [select] *)
| Returning (err : option GoError)     (** the deferred [sub.Close()] *)
| Returned (err : option GoError).

(** The first response, sent only when there is something in it. *)
Definition snapshot_response (snapshot : list AffiliateInfo) : Pb.WatchResponse :=
  Pb.mkWatchResponse (toProtoAffiliate <$> snapshot) false.

Definition watch_begin (snapshot : list AffiliateInfo) : WatchPC :=
  if 0 <? len snapshot then Sending (snapshot_response snapshot) else Selecting.

(** [switch ev.Type] *)
Definition event_response (ev : AffiliateEvent) : option Pb.WatchResponse :=
  if Type_ ev =? AffiliateEventDelete then
    Some (Pb.mkWatchResponse [Pb.mkAffiliate (ID (Info ev)) [] []] true)
  else if Type_ ev =? AffiliateEventUpsert then
    Some (Pb.mkWatchResponse [toProtoAffiliate (Info ev)] false)
  else None.

(** [if status.Code(err) == codes.Canceled { return nil }; return err] *)
Definition send_error `{StatusPkg} (err : GoError) : option GoError :=
  if bool_decide (status_Code (Some err) = Canceled) then None else Some err.

(** [status.Errorf(codes.Aborted, "subscription canceled: %s", err)] with a nil [err]. *)
Definition subscription_canceled : GoError :=
  StatusError Aborted "subscription canceled: %!s(<nil>)".

(** After a receive from [Errors()] or [Events()]. *)
Definition on_error (r : Received string) : option WatchPC :=
  match r with
  | Got e _ => Some (Returning (Some (PlainError e)))
  | ClosedEmpty => Some (Returning (Some subscription_canceled))
  | Blocks => None
  end.

Definition on_event (r : Received AffiliateEvent) : option WatchPC :=
  match r with
  | Got ev _ => Some match event_response ev with Some resp => Sending resp | None => Selecting end
  | ClosedEmpty => Some (Returning None)
  | Blocks => None
  end.

(** The cluster after a receive; an empty channel is left alone. *)
Definition took_error (p : SubPtr) (c : Cluster) : Cluster := default c (snd <$> recv_error p c).
Definition took_event (p : SubPtr) (c : Cluster) : Cluster := default c (snd <$> recv_event p c).

(** One step of the handler that holds the subscription [p].  [sent] is the
    stream the client has been given. *)
Inductive watch_step `{StatusPkg} (p : SubPtr) :
    Cluster * WatchPC * list Pb.WatchResponse → Cluster * WatchPC * list Pb.WatchResponse → Prop :=
| watch_sent c resp sent :
    watch_step p (c, Sending resp, sent) (c, Selecting, sent ++ [resp])
| watch_send_failed c resp sent err :
    watch_step p (c, Sending resp, sent) (c, Returning (send_error err), sent)
| watch_ctx_done c sent err :
    err = ContextCanceled ∨ err = ContextDeadlineExceeded →
    watch_step p (c, Selecting, sent) (c, Returning (Some err), sent)
| watch_error c sub pc sent :
    subs c !! p = Some sub → on_error (recv (errCh sub)) = Some pc →
    watch_step p (c, Selecting, sent) (took_error p c, pc, sent)
| watch_event c sub pc sent :
    subs c !! p = Some sub → on_event (recv (ch sub)) = Some pc →
    watch_step p (c, Selecting, sent) (took_event p c, pc, sent)
| watch_close now c c' err sent :
    Subscription_Close now p c = Ok c' →
    watch_step p (c, Returning err, sent) (c', Returned err, sent).

#[export] Hint Constructors watch_step : go.

(** ** What a client makes of the stream *)

(** A client keeps a map from ids to affiliates. *)
Definition apply_response (v : gmap string Pb.Affiliate) (r : Pb.WatchResponse) :
    gmap string Pb.Affiliate :=
  foldl (λ v a, if Pb.Deleted r then delete (Pb.Id a) v else <[Pb.Id a := a]> v) v
    (Pb.watch_Affiliates r).

Definition client_view (rs : list Pb.WatchResponse) : gmap string Pb.Affiliate :=
  foldl apply_response ∅ rs.

(** The response the handler holds, not yet sent. *)
Definition in_flight (pc : WatchPC) : list Pb.WatchResponse :=
  match pc with Sending r => [r] | _ => [] end.

(** The handler is still serving. *)
Definition serving (pc : WatchPC) : bool :=
  match pc with Sending _ | Selecting => true | _ => false end.
