(* ===== verification/WatchProps.v ===== *)
(** * Properties of [Watch]: the stream a client is sent

    A cluster runs together with its [Watch] handlers, one per subscription,
    each at its own program point.  The stream refines the replication of
    [Replication.v]: what a handler has sent, then what it holds and what is
    queued for it, rebuilds the cluster's table, except at the ids that the
    subscription has missed. *)

From S2P Require Import Prelude GoTime GoChan Limits Affiliate Cluster ClusterSubs.
From S2P Require Import ClusterFacts Replication XMap State StateFacts Grpc Messages Server.
From S2P Require Import ServerProps Watch.

(** ** Streams of responses *)

Definition proto_view (v : View) : gmap string Pb.Affiliate := toProtoAffiliate <$> v.

Lemma client_view_app l1 l2 : client_view (l1 ++ l2) = foldl apply_response (client_view l1) l2.
Proof. apply foldl_app. Qed.

(** An event and its response act alike. *)
Lemma apply_response_event v ev :
  match event_response ev with
  | Some r => apply_response (proto_view v) r = proto_view (apply_event v ev)
  | None => apply_event v ev = v
  end.
Proof.
  unfold event_response, apply_event. destruct (Type_ ev =? AffiliateEventDelete).
  { unfold proto_view. by rewrite fmap_delete. }
  destruct (Type_ ev =? AffiliateEventUpsert); [|done].
  unfold proto_view. by rewrite fmap_insert.
Qed.

Lemma apply_responses_events v evs :
  foldl apply_response (proto_view v) (omap event_response evs) = proto_view (apply_events v evs).
Proof.
  revert v. induction evs as [|ev evs IH]; intros v; [done|].
  pose proof (apply_response_event v ev) as Hr. csimpl.
  destruct (event_response ev) as [r|]; simpl.
  - by rewrite Hr, IH.
  - rewrite IH. f_equal. unfold apply_events. simpl. by rewrite Hr.
Qed.

Lemma foldl_insert_lookup (l : list Pb.Affiliate) (m : gmap string Pb.Affiliate) k a :
  NoDup (Pb.Id <$> l) →
  foldl (λ v a, <[Pb.Id a := a]> v) m l !! k = Some a ↔
  (a ∈ l ∧ Pb.Id a = k) ∨ ((k ∉ Pb.Id <$> l) ∧ m !! k = Some a).
Proof.
  revert m. induction l as [|b l IH]; intros m; csimpl.
  { intros _. split; [right; split; [apply not_elem_of_nil | done]|].
    intros [[?%not_elem_of_nil ?]|[_ ?]]; done. }
  intros [Hb Hnd]%NoDup_cons. rewrite IH by done.
  rewrite lookup_insert_Some, !elem_of_cons. split.
  - intros [[? ?]|[Hk [[<- <-]|[Hne Hm]]]]; [by left; auto | by left; auto |].
    right. split; [|done]. intros [->|?]; done.
  - intros [[[->|Ha] <-]|[Hk Hm]].
    + right. split; [done|]. by left.
    + left. done.
    + right. split; [by intros ?; apply Hk; right|]. right. split; [|done].
      intros E. apply Hk. by left.
Qed.

(** The snapshot, as a first response, is the table. *)
Lemma client_view_snapshot ρ c :
  wf_affiliates (affiliates c) →
  client_view (in_flight (watch_begin ((λ ka, ToInfo ka.2) <$> range ρ (affiliates c)))) =
  proto_view (cluster_view c).
Proof.
  intros Hwf. destruct (shows_range ρ c Hwf) as [Hnd Hin]. unfold watch_begin.
  set (snapshot := (λ ka, ToInfo ka.2) <$> range ρ (affiliates c)) in *.
  assert (∀ k, foldl (λ v a, <[Pb.Id a := a]> v) (∅ : gmap string Pb.Affiliate) (toProtoAffiliate <$> snapshot) !! k =
     proto_view (cluster_view c) !! k) as Hall.
  { intros k. apply option_eq. intros a. rewrite foldl_insert_lookup by done. rewrite lookup_empty, Hin.
    unfold proto_view. rewrite lookup_fmap, fmap_Some. split.
    - intros [[(i & Hi & ->) <-]|[_ ?]]; [eauto | done].
    - intros (i & Hi & ->). left.
      assert (ID i = k) as <-; [|simpl; eauto].
      unfold cluster_view in Hi. rewrite lookup_fmap in Hi. apply fmap_Some in Hi as (b & Hb & ->).
      by apply (wf_affs_each _ Hwf) in Hb as [? _]. }
  apply map_eq. intros k. rewrite <- Hall.
  destruct snapshot as [|x l]; [done|]. unfold len. simpl. done.
Qed.

(** ** Cluster and handlers *)

(** [sys_missed]: the ids that the subscription of each handler has missed, as
    in [Replication.v]. *)
Record Sys : Type := mkSys {
  sys_cluster : Cluster;
  sys_watchers : list (WatchPC * list Pb.WatchResponse);
  sys_missed : list (gset string);
}.

Section sys.
Context `{StatusPkg}.

Inductive sys_step : Sys → Sys → Prop :=
| ss_update ρ now req c c' r ws us :
    UpdateAffiliate ρ now req c = Ok (c', r) →
    sys_step (mkSys c ws us) (mkSys c' ws (missed_update req c <$> us))
| ss_delete ρ now id c c' r ws us :
    DeleteAffiliate ρ now id c = Ok (c', r) →
    sys_step (mkSys c ws us) (mkSys c' ws (missed_delete id c <$> us))
| ss_prune ρ ρs now c c' ws us :
    Prune ρ ρs now c = Ok c' →
    sys_step (mkSys c ws us) (mkSys c' ws (missed_prune now c <$> us))
| ss_watch ρ c c' snapshot p ws us :
    SubscribeWithSnapshot ρ c = (c', Ok (snapshot, p)) → len (subs c) + 1 < two64 →
    sys_step (mkSys c ws us) (mkSys c' (ws ++ [(watch_begin snapshot, [])]) (us ++ [∅]))
| ss_ctx_closes now p c c' ws us :
    Subscription_Close now p c = Ok c' →
    sys_step (mkSys c ws us) (mkSys c' ws us)
| ss_handler p c pc sent c' pc' sent' ws us :
    ws !! p = Some (pc, sent) → watch_step p (c, pc, sent) (c', pc', sent') →
    sys_step (mkSys c ws us) (mkSys c' (<[p := (pc', sent')]> ws) us).

(** Each serving handler has sent, or holds, what its abstract watcher has seen. *)
Definition streams (ws : list (WatchPC * list Pb.WatchResponse)) (vs : list View) : Prop :=
  length ws = length vs ∧
  ∀ p pc sent v, ws !! p = Some (pc, sent) → vs !! p = Some v → serving pc = true →
    client_view (sent ++ in_flight pc) = proto_view v.

Definition sys_inv (σ : Sys) : Prop :=
  ∃ vs, config_inv (mkConfig (sys_cluster σ) vs (sys_missed σ)) ∧ streams (sys_watchers σ) vs.

Lemma streams_update ws vs p pc sent pc' sent' v v' :
  streams ws vs → ws !! p = Some (pc, sent) → vs !! p = Some v →
  (serving pc' = true → serving pc = true ∧
     (client_view (sent ++ in_flight pc) = proto_view v →
      client_view (sent' ++ in_flight pc') = proto_view v')) →
  streams (<[p := (pc', sent')]> ws) (<[p := v']> vs).
Proof.
  intros [Hlen Hs] Hp Hv Hstep. split; [by rewrite !length_insert|].
  intros q pcq sq vq Hq Hvq Hserv.
  apply list_lookup_insert_Some in Hq as [(<- & [= <- <-] & _)|[Hne Hq]].
  - apply list_lookup_insert_Some in Hvq as [(_ & <- & _)|[? _]]; [|done].
    destruct (Hstep Hserv) as [Hserv' Hc]. apply Hc. by eapply Hs.
  - rewrite list_lookup_insert_ne in Hvq by done. by eapply Hs.
Qed.

(** The same watcher's view. *)
Lemma streams_update_same ws vs p pc sent pc' sent' :
  streams ws vs → ws !! p = Some (pc, sent) →
  (serving pc' = true → serving pc = true ∧
     client_view (sent' ++ in_flight pc') = client_view (sent ++ in_flight pc)) →
  streams (<[p := (pc', sent')]> ws) vs.
Proof.
  intros Hst Hp Hstep. pose proof Hst as [Hlen _].
  assert (∃ v, vs !! p = Some v) as [v Hv].
  { apply lookup_lt_is_Some. rewrite <- Hlen. by eapply lookup_lt_Some. }
  rewrite <- (list_insert_id vs p v) by done. eapply streams_update; [done..|].
  intros Hs. destruct (Hstep Hs) as [? E]. split; [done|]. by rewrite E.
Qed.

Lemma took_error_inv p c vs us :
  config_inv (mkConfig c vs us) → config_inv (mkConfig (took_error p c) vs us).
Proof.
  intros Hi. unfold took_error. destruct (recv_error p c) as [[e c']|] eqn:E; simpl; [|done].
  by eapply config_inv_error.
Qed.

Lemma recv_event_got p c sub ev ch' :
  subs c !! p = Some sub → recv (ch sub) = Got ev ch' → ∃ c', recv_event p c = Some (ev, c').
Proof. intros Hp E. unfold recv_event. rewrite Hp. simpl. rewrite E. eauto. Qed.

Lemma took_event_stuck p c sub :
  subs c !! p = Some sub → recv (ch sub) = ClosedEmpty → took_event p c = c.
Proof. intros Hp E. unfold took_event, recv_event. rewrite Hp. simpl. by rewrite E. Qed.

Lemma sys_inv_event p c ws us sub pc sent :
  sys_inv (mkSys c ws us) → ws !! p = Some (Selecting, sent) → subs c !! p = Some sub →
  on_event (recv (ch sub)) = Some pc →
  sys_inv (mkSys (took_event p c) (<[p := (pc, sent)]> ws) us).
Proof.
  intros (vs & Hi & Hst) Hp Hsub Hon. simpl in *. pose proof Hst as [Hlen _].
  assert (∃ v, vs !! p = Some v) as [v Hv].
  { apply lookup_lt_is_Some. rewrite <- Hlen. by eapply lookup_lt_Some. }
  destruct (recv (ch sub)) as [ev ch'| |] eqn:Er; simpl in Hon; [|injection Hon as <-|done].
  - destruct (recv_event_got p c sub ev ch' Hsub Er) as [c' Erecv].
    unfold took_event. rewrite Erecv. simpl.
    exists (<[p := apply_event v ev]> vs). simpl. split; [by eapply config_inv_event|].
    eapply streams_update; [done..|]. intros _. split; [done|]. simpl. rewrite app_nil_r.
    intros Ev. pose proof (apply_response_event v ev) as Hr. injection Hon as <-.
    destruct (event_response ev) as [r|]; simpl.
    + rewrite client_view_app. simpl. by rewrite Ev.
    + by rewrite app_nil_r, Hr.
  - rewrite (took_event_stuck p c sub) by done. exists vs. simpl. split; [done|].
    eapply streams_update_same; [done..|]. done.
Qed.

Lemma sys_inv_handler p c ws us pc sent c' pc' sent' :
  sys_inv (mkSys c ws us) → ws !! p = Some (pc, sent) →
  watch_step p (c, pc, sent) (c', pc', sent') →
  sys_inv (mkSys c' (<[p := (pc', sent')]> ws) us).
Proof.
  intros Hinv Hp Hstep. pose proof Hinv as (vs & Hi & Hst). simpl in *. inversion Hstep; subst.
  - exists vs. split; [done|]. eapply streams_update_same; [done..|]. intros _. split; [done|].
    simpl. by rewrite app_nil_r.
  - exists vs. split; [done|]. by eapply streams_update_same.
  - exists vs. split; [done|]. by eapply streams_update_same.
  - exists vs. split; [by apply took_error_inv|]. eapply streams_update_same; [done..|].
    destruct (recv (errCh sub)); simpl in *; by simplify_eq.
  - by eapply sys_inv_event.
  - exists vs. split; [by eapply config_inv_close|]. by eapply streams_update_same.
Qed.

Lemma sys_inv_watch ρ c c' snapshot p ws us :
  sys_inv (mkSys c ws us) → SubscribeWithSnapshot ρ c = (c', Ok (snapshot, p)) →
  len (subs c) + 1 < two64 → sys_inv (mkSys c' (ws ++ [(watch_begin snapshot, [])]) (us ++ [∅])).
Proof.
  intros (vs & Hi & Hlen & Hst) E Hlt. simpl in *.
  exists (vs ++ [snapshot_view snapshot]). split; [by eapply config_inv_subscribe|].
  destruct Hi as [[Ha _] _]. simpl in Ha. rewrite SubscribeWithSnapshot_eq in E. injection E as _ <- _.
  simpl. split; [rewrite !length_app; simpl; lia|].
  intros q pcq sq v Hq Hv Hserv. apply lookup_app_Some in Hq as [Hq|[Hge Hq]].
  - rewrite lookup_app_l in Hv; [by eapply Hst|]. rewrite <- Hlen. by eapply lookup_lt_Some.
  - apply list_lookup_singleton_Some in Hq as [Hz [= <- <-]].
    rewrite lookup_app_r in Hv by lia.
    apply list_lookup_singleton_Some in Hv as [_ <-]. simpl.
    rewrite client_view_snapshot by done. by rewrite snapshot_view_ok.
Qed.

Lemma sys_inv_step σ σ' : sys_inv σ → sys_step σ σ' → sys_inv σ'.
Proof.
  intros Hinv Hstep. destruct Hstep;
    [destruct Hinv as (vs & Hi & Hst); exists vs; split; [eauto with go | done] .. | | |].
  - by eapply sys_inv_watch.
  - destruct Hinv as (vs & Hi & Hst); exists vs; split; [by eapply config_inv_close | done].
  - by eapply sys_inv_handler.
Qed.

Lemma sys_inv_reachable now id σ : rtc sys_step (mkSys (NewCluster now id) [] []) σ → sys_inv σ.
Proof.
  intros Hr. assert (sys_inv (mkSys (NewCluster now id) [] [])) as Hi.
  { exists []. split; [apply config_inv_init | by split]. }
  induction Hr; eauto using sys_inv_step.
Qed.

End sys.

(** ** A handler left to itself *)

(** Steps it has left, once nobody can queue more for it. *)
Definition watch_measure (p : SubPtr) (st : Cluster * WatchPC * list Pb.WatchResponse) : nat :=
  match st.1.2 with
  | Returned _ => 0
  | Returning _ => 1
  | Selecting => 2 + 2 * from_option (λ s, length (chan_buf (ch s))) 0 (subs st.1.1 !! p)
  | Sending _ => 3 + 2 * from_option (λ s, length (chan_buf (ch s))) 0 (subs st.1.1 !! p)
  end%nat.

Definition closed_at (p : SubPtr) (c : Cluster) : Prop :=
  wf_subs c ∧ ∃ s, subs c !! p = Some s ∧ closed s = true.

Lemma took_event_got p c s ev ch' :
  subs c !! p = Some s → recv (ch s) = Got ev ch' →
  ∃ b, chan_buf (ch s) = ev :: b ∧
    took_event p c = upd_sub p (mkSub (sub_id s) (mkChan b (chan_cap (ch s)) (chan_closed (ch s)))
                      (errCh s) (closed s) (closeOnce s)) c.
Proof.
  intros Hp E. destruct (recv_event_got p c s ev ch' Hp E) as [c' Er]. unfold took_event.
  rewrite Er. simpl. apply recv_event_inv in Er as (s' & b & Hp' & Hb & ->). simplify_eq. eauto.
Qed.

Lemma closed_at_event p c s :
  wf_subs c → subs c !! p = Some s → closed s = true → closed_at p (took_event p c).
Proof.
  intros Hwf Hp Hc. unfold took_event. destruct (recv_event p c) as [[ev c']|] eqn:E; simpl; [|by split; eauto].
  split; [by eapply recv_event_wf|]. apply recv_event_inv in E as (s' & b & Hp' & _ & ->). simplify_eq.
  eexists. split; [apply list_lookup_insert_eq; by eapply lookup_lt_Some | done].
Qed.

Lemma closed_at_error p c s :
  wf_subs c → subs c !! p = Some s → closed s = true → closed_at p (took_error p c).
Proof.
  intros Hwf Hp Hc. unfold took_error. destruct (recv_error p c) as [[ev c']|] eqn:E; simpl; [|by split; eauto].
  split; [by eapply recv_error_wf|]. apply recv_error_inv in E as (s' & b & Hp' & _ & ->). simplify_eq.
  eexists. split; [apply list_lookup_insert_eq; by eapply lookup_lt_Some | done].
Qed.

Lemma closed_at_close now p c c' :
  closed_at p c → Subscription_Close now p c = Ok c' → c' = c.
Proof.
  intros (Hwf & s & Hp & Hc) E. rewrite (Subscription_Close_eq now p s) in E by done.
  unfold close_at in E. rewrite Hc in E. by injection E.
Qed.

Lemma recv_closed {A} (x : Chan A) :
  chan_closed x = true → recv x ≠ Blocks ∧ (recv x = ClosedEmpty ↔ chan_buf x = []).
Proof. unfold recv. intros Hc. destruct (chan_buf x); rewrite ?Hc; done. Qed.

Section alone.
Context `{StatusPkg}.

(** A closed handler's step keeps it closed and uses up one step. *)
Lemma watch_step_closed p st st' :
  closed_at p st.1.1 → watch_step p st st' →
  closed_at p st'.1.1 ∧ (watch_measure p st' < watch_measure p st)%nat.
Proof.
  intros Hcl Hstep. pose proof Hcl as (Hwf & s & Hp & Hc).
  destruct Hstep as [| |? ? ? Herr|c sub pc sent Hsub Hon|c sub pc sent Hsub Hon|now c c' err sent Hclose];
    unfold watch_measure; simpl in *; try (split; [done | lia]).
  - assert (sub = s) as -> by congruence. split; [by eapply closed_at_error|].
    destruct (recv (errCh _)); simpl in *; simplify_eq; lia.
  - assert (sub = s) as -> by congruence. split; [by eapply closed_at_event|].
    destruct (recv (ch s)) as [ev ch'| |] eqn:Er; simpl in *; [|simplify_eq; lia|done].
    destruct (took_event_got p c s ev ch' Hp Er) as (b & Eb & ->). simpl.
    rewrite list_lookup_insert_eq by (by eapply lookup_lt_Some). rewrite Hp. simpl. rewrite Eb.
    injection Hon as <-. destruct (event_response ev); simpl; lia.
  - rewrite (closed_at_close _ _ _ _ Hcl Hclose). split; [done | lia].
Qed.

Lemma watch_steps_closed p n st st' :
  closed_at p st.1.1 → nsteps (watch_step p) n st st' →
  closed_at p st'.1.1 ∧ (n + watch_measure p st' ≤ watch_measure p st)%nat.
Proof.
  intros Hcl Hn. induction Hn as [st|n st st1 st' Hstep _ IH]; [by split; [|lia]|].
  destruct (watch_step_closed p st st1 Hcl Hstep) as [Hcl1 Hm].
  destruct (IH Hcl1) as [Hcl' Hm']. split; [done|]. lia.
Qed.

Lemma watch_step_progress p st :
  closed_at p st.1.1 → (∀ err, st.1.2 ≠ Returned err) → ∃ st', watch_step p st st'.
Proof.
  destruct st as [[c pc] sent]. intros (Hwf & s & Hp & Hc) Hpc. simpl in *.
  pose proof (wf_sub_ch _ _ _ (wf_subs_sub c Hwf p s Hp)) as Hch. rewrite Hc in Hch.
  destruct pc as [resp| |err|err]; [| | |by destruct (Hpc err)].
  - eexists. apply watch_sent.
  - destruct (recv_closed (ch s) Hch) as [Hb _].
    destruct (recv (ch s)) as [ev ch'| |] eqn:Er; [| |done];
      eexists; (eapply watch_event; [done|by rewrite Er]).
  - eexists. eapply (watch_close _ zero_time). by rewrite (Subscription_Close_eq zero_time p s).
Qed.

(** Draining the queue, one send per event, down to the end of the channel. *)
Lemma watch_drains p n c s sent :
  closed_at p c → subs c !! p = Some s → length (chan_buf (ch s)) = n →
  ∃ c' sent', rtc (watch_step p) (c, Selecting, sent) (c', Returned None, sent').
Proof.
  revert c s sent. induction n as [|n IH]; intros c s sent Hcl Hp Hn; pose proof Hcl as (Hwf & s' & Hp' & Hc);
    simplify_eq; pose proof (wf_sub_ch _ _ _ (wf_subs_sub c Hwf p s Hp)) as Hch; rewrite Hc in Hch.
  - assert (recv (ch s) = ClosedEmpty) as Er by (by apply recv_closed; [|apply length_zero_iff_nil]).
    exists c, sent. eapply rtc_l.
    { eapply watch_event; [done | by rewrite Er]. }
    rewrite (took_event_stuck p c s) by done. apply rtc_once, (watch_close _ zero_time).
    rewrite (Subscription_Close_eq zero_time p s) by done. unfold close_at. by rewrite Hc.
  - destruct (recv (ch s)) as [ev ch'| |] eqn:Er.
    2,3: apply recv_closed in Er || (unfold recv in Er; rewrite Hch in Er);
      destruct (chan_buf (ch s)); simplify_eq/=; done.
    destruct (took_event_got p c s ev ch' Hp Er) as (b & Eb & Ec). rewrite Eb in Hn. simpl in Hn.
    pose proof (closed_at_event p c s Hwf Hp Hc) as Hcl'.
    assert (subs (took_event p c) !! p = Some (mkSub (sub_id s) (mkChan b (chan_cap (ch s)) (chan_closed (ch s)))
                      (errCh s) (closed s) (closeOnce s))) as Hp'.
    { rewrite Ec. apply list_lookup_insert_eq. by eapply lookup_lt_Some. }
    set (sent1 := match event_response ev with Some r => sent ++ [r] | None => sent end).
    destruct (IH (took_event p c) _ sent1 Hcl' Hp') as (c' & sent' & Hr); [simpl; lia|].
    exists c', sent'. eapply rtc_l; [eapply watch_event; [done | by rewrite Er]|]. simpl. unfold sent1 in Hr.
    destruct (event_response ev); [|done]. eapply rtc_l; [apply watch_sent | done].
Qed.

(** ** Properties *)

(** C4: the end-to-end contract of [Watch].  Run a new cluster and its watch
    handlers through any interleaving of updates, deletions, sweeps, new
    watches, context cancellations and the handlers' own steps (with any
    choices of their [select]s and any failures of [Send]).  For every handler
    still serving whose subscription is open, a client that applies the
    responses sent to it, then the one about to be sent, then those of the
    queued events, has exactly the cluster's entry, the initial snapshot
    included, for every id that the subscription has not missed; and exactly
    the cluster's table if it has missed none.  An id is missed from a silent
    update on (one that fails with too many endpoints, or that creates an
    affiliate with neither data nor endpoints) until its next event. *)
Theorem watch_streams_table now id c ws us p pc sent s u :
  rtc sys_step (mkSys (NewCluster now id) [] []) (mkSys c ws us) →
  ws !! p = Some (pc, sent) → serving pc = true →
  subs c !! p = Some s → closed s = false → us !! p = Some u →
  let view := client_view (sent ++ in_flight pc ++ omap event_response (chan_buf (ch s))) in
  (∀ k, k ∉ u → view !! k = toProtoAffiliate <$> cluster_view c !! k) ∧
  (u = ∅ → view = toProtoAffiliate <$> cluster_view c).
Proof.
  intros Hr Hw Hserv Hp Ho Hu view.
  destruct (sys_inv_reachable now id _ Hr) as (vs & [Hwf (Hlen' & _ & Hsync)] & Hlen & Hst). simpl in *.
  assert (∃ v, vs !! p = Some v) as [v Hv].
  { apply lookup_lt_is_Some. rewrite <- Hlen. by eapply lookup_lt_Some. }
  assert (view = proto_view (apply_events v (chan_buf (ch s)))) as ->.
  { unfold view. by rewrite app_assoc, client_view_app, (Hst p pc sent v), apply_responses_events. }
  specialize (Hsync p s v u Hp Ho Hv Hu). split.
  - intros k Hk. unfold proto_view. by rewrite lookup_fmap, (Hsync k Hk).
  - intros ->. unfold proto_view. f_equal. apply map_eq. intros k. apply Hsync, not_elem_of_empty.
Qed.

(** C17: [Watch] returns once its subscription is closed (by a cancelled
    context, by lagging, or by itself).  Whatever choices its [select] makes
    and whether or not [Send] fails, it takes at most 131 more steps of its
    own, it is never stuck before it has returned, and its own [Close] then
    changes nothing. *)
Theorem watch_returns_after_close p c s pc sent :
  wf_subs c → subs c !! p = Some s → closed s = true →
  (∀ n st, nsteps (watch_step p) n (c, pc, sent) st → Z.of_nat n ≤ 3 + 2 * affiliateSubBuffer) ∧
  (∀ st, rtc (watch_step p) (c, pc, sent) st →
     (∀ err, st.1.2 ≠ Returned err) → ∃ st', watch_step p st st').
Proof.
  intros Hwf Hp Hc. assert (closed_at p c) as Hcl by (split; eauto).
  pose proof (wf_sub_len _ _ _ (wf_subs_sub c Hwf p s Hp)) as Hlen. unfold len in Hlen. split.
  - intros n st Hn. destruct (watch_steps_closed p n _ _ (Hcl : closed_at p (c, pc, sent).1.1) Hn) as [_ Hm].
    unfold watch_measure in Hm at 2. simpl in Hm. rewrite Hp in Hm. simpl in Hm.
    destruct pc; unfold affiliateSubBuffer in *; lia.
  - intros st [n Hn]%rtc_nsteps. apply watch_step_progress.
    by apply (watch_steps_closed p n _ _ (Hcl : closed_at p (c, pc, sent).1.1) Hn).
Qed.

(** A lagging client may never be told.  A subscription dropped with the
    error "lost update" also has its event channel closed, and the [select]
    chooses freely between the two: [Watch] can send the queued events and
    then return nil, so that the client sees a clean end of stream although
    events were lost. *)
Theorem lost_update_can_be_silent now ev c p s sent :
  wf_subs c → subs c !! p = Some s → closed s = false → has_room (ch s) = false →
  ∃ c1 s1 c' sent',
    Subscription_notify now ev c p = Ok c1 ∧
    subs c1 !! p = Some s1 ∧ chan_buf (errCh s1) = [lost_update] ∧
    rtc (watch_step p) (c1, Selecting, sent) (c', Returned None, sent').
Proof.
  intros Hwf Hp Ho Hfull. pose proof (notify_at_sub now ev c p p) as Hd.
  rewrite bool_decide_true, Hp in Hd by done. simpl in Hd.
  assert (closed_at p (notify_at now ev c p)) as Hcl.
  { split; [by apply notify_at_wf|]. eexists. split; [done|].
    rewrite deliver_is_closed. unfold lagging. by rewrite Ho, Hfull. }
  destruct (watch_drains p _ (notify_at now ev c p) _ sent Hcl Hd eq_refl) as (c' & sent' & Hr).
  exists (notify_at now ev c p), (deliver ev s), c', sent'.
  split; [by apply (Subscription_notify_eq now ev c p s)|]. split_and!; try done.
  unfold deliver. rewrite Ho, Hfull. simpl.
  by rewrite (wf_sub_quiet _ _ _ (wf_subs_sub c Hwf p s Hp) Ho).
Qed.

End alone.

(** ** Witnesses *)

Definition wa_t : Time := mkTime (1000 * Second) (Some 0).
Definition wa_request : AffiliateUpdateRequest.t :=
  AffiliateUpdateRequest.mk "node-1" (bs "data") [bs "10.0.0.1"] (60 * Second).

(** One watcher, then [n] updates of one affiliate. *)
Definition wa_cluster (n : nat) : Cluster :=
  match rfold run_op (NewCluster wa_t "c1")
          (OpSubscribe (order_fwd string) :: replicate n (OpUpdate (order_fwd Z) wa_t wa_request)) with
  | Ok c => c
  | Err _ => NewCluster wa_t "c1"
  end.

Lemma wa_cluster_wf n : (n < 1000)%nat → wf_cluster (wa_cluster n).
Proof.
  intros Hn. unfold wa_cluster.
  destruct (run_ops_ok (NewCluster wa_t "c1")
    (OpSubscribe (order_fwd string) :: replicate n (OpUpdate (order_fwd Z) wa_t wa_request))
    (wf_new_cluster _ _)) as (c & E & Hwf).
  - unfold len, two64. cbn [length]. rewrite length_replicate. cbn [subs NewCluster length]. lia.
  - by rewrite E.
Defined.

Definition wa_sub (n : nat) : Subscription :=
  default (mkSub 0 (make_chan 0) (make_chan 0) false false) (subs (wa_cluster n) !! 0%nat).

Lemma ss_update_to `{StatusPkg} ρ now req c c' r ws us us' :
  UpdateAffiliate ρ now req c = Ok (c', r) → missed_update req c <$> us = us' →
  sys_step (mkSys c ws us) (mkSys c' ws us').
Proof. intros E <-. by apply (ss_update ρ now req c c' r). Defined.

Lemma watch_streams_table_witness :
  client_view ([] ++ in_flight Selecting ++ omap event_response (chan_buf (ch (wa_sub 1)))) =
    toProtoAffiliate <$> cluster_view (wa_cluster 1) ∧
  is_Some (cluster_view (wa_cluster 1) !! "node-1").
Proof.
  split; [|by vm_compute; eexists].
  apply (watch_streams_table wa_t "c1" (wa_cluster 1) [(Selecting, [])] [∅] 0%nat Selecting [] (wa_sub 1) ∅).
  - eapply rtc_l.
    { apply (ss_watch (order_fwd string) (NewCluster wa_t "c1") (wa_cluster 0) [] 0%nat []); by vm_compute. }
    apply rtc_once.
    apply (ss_update_to (order_fwd Z) wa_t wa_request (wa_cluster 0) (wa_cluster 1) (Ok ()) _ [∅]); by vm_compute.
  - reflexivity.
  - reflexivity.
  - by vm_compute.
  - by vm_compute.
  - reflexivity.
  - reflexivity.
Defined.

(** The 65th update drops the watcher. *)
Lemma watch_returns_after_close_witness :
  closed (wa_sub 65) = true ∧
  ∀ n st, nsteps (watch_step 0%nat) n (wa_cluster 65, Selecting, []) st → Z.of_nat n ≤ 131.
Proof.
  split; [by vm_compute|].
  apply (watch_returns_after_close 0%nat (wa_cluster 65) (wa_sub 65) Selecting []).
  - apply wa_cluster_wf. lia.
  - by vm_compute.
  - by vm_compute.
Defined.

Lemma lost_update_can_be_silent_witness :
  ∃ c1 s1 c' sent',
    Subscription_notify wa_t (tombstone "x") (wa_cluster 64) 0%nat = Ok c1 ∧
    subs c1 !! 0%nat = Some s1 ∧ chan_buf (errCh s1) = [lost_update] ∧
    rtc (watch_step 0%nat) (c1, Selecting, []) (c', Returned None, sent').
Proof.
  apply (lost_update_can_be_silent wa_t (tombstone "x") (wa_cluster 64) 0%nat (wa_sub 64) []).
  - apply wa_cluster_wf. lia.
  - by vm_compute.
  - by vm_compute.
  - by vm_compute.
Defined.
