(* ===== verification/HelloProps.v ===== *)
(** * Properties of [Hello]: the client's address

    Printing an IPv4 address and parsing it back, and which of the request's
    sources of an address [Hello] reports. *)

From S2P Require Import Prelude GoTime Limits Affiliate Cluster XMap State GoStrings Grpc.
From S2P Require Import Messages.
From S2P Require Import NetIP Validation Server.
From Stdlib Require Import Strings.Byte.

(** ** The dotted decimal form of an IPv4 address *)

Definition digit (d : Z) : Byte.byte :=
  match Byte.of_N (Z.to_N (48 + d)) with Some b => b | None => x00 end.

Definition octet (n : Z) : bytes :=
  if n <? 10 then [digit n]
  else if n <? 100 then [digit (n / 10); digit (n mod 10)]
  else [digit (n / 100); digit (n / 10 mod 10); digit (n mod 10)].

Definition dotted (a b c d : Z) : bytes :=
  octet a ++ dot :: octet b ++ dot :: octet c ++ dot :: octet d.

Definition is_octet (n : Z) : Prop := 0 ≤ n ≤ 255.

Lemma digit_cases (P : Z → Prop) :
  P 0 → P 1 → P 2 → P 3 → P 4 → P 5 → P 6 → P 7 → P 8 → P 9 → ∀ d, 0 ≤ d ≤ 9 → P d.
Proof.
  intros. assert (d = 0 ∨ d = 1 ∨ d = 2 ∨ d = 3 ∨ d = 4 ∨ d = 5 ∨ d = 6 ∨ d = 7 ∨ d = 8 ∨ d = 9)
    as Hd by lia. by repeat destruct Hd as [->|Hd]; subst.
Qed.

Lemma dec_digit_digit d : 0 ≤ d ≤ 9 → dec_digit (digit d) = Some d.
Proof. revert d. by apply digit_cases. Qed.

(** A digit is no separator. *)
Lemma digit_plain d : 0 ≤ d ≤ 9 →
  is_byte (digit d) dot = false ∧ is_byte (digit d) colon = false ∧
  is_byte (digit d) percent = false ∧ is_byte (digit d) comma = false ∧ space1 (digit d) = false ∧
  (∀ x, space2 (digit d) x = false) ∧ (∀ x y, space3 (digit d) x y = false).
Proof. revert d. by apply digit_cases. Qed.

Lemma ipv4_digit pd val digLen fields d s :
  0 ≤ d ≤ 9 → 0 ≤ val → (digLen = 1 → val ≠ 0) → val * 10 + d ≤ 255 →
  ipv4_fields pd val digLen fields (digit d :: s) =
  ipv4_fields false (val * 10 + d) (digLen + 1) fields s.
Proof.
  intros Hd Hv Hz Hle. simpl. rewrite dec_digit_digit by done.
  destruct ((digLen =? 1) && (val =? 0)) eqn:E.
  - apply andb_true_iff in E as [?%Z.eqb_eq ?%Z.eqb_eq]. lia.
  - by rewrite (proj2 (Z.ltb_ge _ _)) by lia.
Qed.

Lemma ipv4_octet fields n s :
  is_octet n →
  ∃ l, ipv4_fields true 0 0 fields (octet n ++ s) = ipv4_fields false n l fields s.
Proof.
  unfold is_octet, octet. intros Hn. destruct (n <? 10) eqn:E1; go_bool.
  { exists 1. cbn [app]. rewrite ipv4_digit by lia. f_equal; lia. }
  pose proof (Z.div_mod n 10 ltac:(lia)). pose proof (Z.mod_pos_bound n 10 ltac:(lia)).
  pose proof (Z.div_mod (n / 10) 10 ltac:(lia)). pose proof (Z.mod_pos_bound (n / 10) 10 ltac:(lia)).
  assert (n / 100 = n / 10 / 10) as E100 by (rewrite Z.div_div by lia; done).
  destruct (n <? 100) eqn:E2; go_bool.
  { exists 2. cbn [app]. rewrite !ipv4_digit by lia. f_equal; lia. }
  exists 3. cbn [app]. rewrite !ipv4_digit by lia. f_equal; lia.
Qed.

Lemma octet_nonempty n : octet n ≠ [].
Proof. unfold octet. destruct (n <? 10); [done|]. by destruct (n <? 100). Qed.

Lemma octet_app_nonempty n s : octet n ++ s ≠ [].
Proof. intros [E _]%app_nil. by apply octet_nonempty in E. Qed.

(** The '.' after a field that is not the last. *)
Lemma ipv4_dot val l fields s :
  (length fields < 3)%nat → s ≠ [] →
  ipv4_fields false val l fields (dot :: s) = ipv4_fields true 0 0 (fields ++ [val]) s.
Proof.
  intros Hf Hs. simpl. rewrite bool_decide_false by done.
  by rewrite (proj2 (Z.eqb_neq _ _)) by lia.
Qed.

Lemma dotted_parses a b c d :
  is_octet a → is_octet b → is_octet c → is_octet d →
  ipv4_fields true 0 0 [] (dotted a b c d) = Some [a; b; c; d].
Proof.
  intros Ha Hb Hc Hd. unfold dotted.
  destruct (ipv4_octet [] a (dot :: octet b ++ dot :: octet c ++ dot :: octet d) Ha) as [l1 ->].
  rewrite ipv4_dot by (simpl; try lia; apply octet_app_nonempty).
  destruct (ipv4_octet ([] ++ [a]) b (dot :: octet c ++ dot :: octet d) Hb) as [l2 ->].
  rewrite ipv4_dot by (simpl; try lia; apply octet_app_nonempty).
  destruct (ipv4_octet (([] ++ [a]) ++ [b]) c (dot :: octet d) Hc) as [l3 ->].
  rewrite ipv4_dot by (simpl; try lia; apply octet_nonempty).
  destruct (ipv4_octet ((([] ++ [a]) ++ [b]) ++ [c]) d [] Hd) as [l4 E4].
  rewrite app_nil_r in E4. by rewrite E4.
Qed.

(** ** Parsing it back *)

Lemma kind_octet n s full :
  is_octet n → parse_addr_kind (octet n ++ s) full = parse_addr_kind s full.
Proof.
  assert (∀ d s', 0 ≤ d ≤ 9 → parse_addr_kind (digit d :: s') full = parse_addr_kind s' full) as Hd.
  { intros d s' Hd. destruct (digit_plain d Hd) as (E1 & E2 & E3 & _). simpl. by rewrite E1, E2, E3. }
  unfold is_octet, octet. intros Hn.
  pose proof (Z.div_mod n 10 ltac:(lia)). pose proof (Z.mod_pos_bound n 10 ltac:(lia)).
  pose proof (Z.div_mod (n / 10) 10 ltac:(lia)). pose proof (Z.mod_pos_bound (n / 10) 10 ltac:(lia)).
  assert (n / 100 = n / 10 / 10) as E100 by (rewrite Z.div_div by lia; done).
  destruct (n <? 10) eqn:E1; go_bool; [cbn [app]; apply Hd; lia|].
  destruct (n <? 100) eqn:E2; go_bool; cbn [app]; rewrite !Hd by lia; done.
Qed.

Lemma ParseAddr_dotted a b c d :
  is_octet a → is_octet b → is_octet c → is_octet d →
  ParseAddr (dotted a b c d) = Some (Addr4 [a; b; c; d]).
Proof.
  intros Ha Hb Hc Hd. unfold ParseAddr.
  change (parse_addr_kind (dotted a b c d)) with
    (parse_addr_kind (octet a ++ dot :: octet b ++ dot :: octet c ++ dot :: octet d)).
  rewrite kind_octet by done. simpl. unfold parseIPv4. by rewrite dotted_parses.
Qed.

(** The bytes of a dotted address: digits at both ends, and no separator inside. *)
Definition inner_byte (x : Byte.byte) : Prop := x = dot ∨ ∃ d, 0 ≤ d ≤ 9 ∧ x = digit d.

Lemma octet_digits n : is_octet n → Forall (λ x, ∃ d, 0 ≤ d ≤ 9 ∧ x = digit d) (octet n).
Proof.
  unfold is_octet, octet. intros Hn.
  pose proof (Z.mod_pos_bound n 10 ltac:(lia)). pose proof (Z.mod_pos_bound (n / 10) 10 ltac:(lia)).
  pose proof (Z.div_mod n 10 ltac:(lia)). pose proof (Z.div_mod n 100 ltac:(lia)).
  pose proof (Z.mod_pos_bound n 100 ltac:(lia)).
  destruct (n <? 10) eqn:E1; go_bool; [repeat constructor; eexists; (split; [|done]); lia|].
  destruct (n <? 100) eqn:E2; go_bool; repeat constructor; (eexists; split; [|done]); lia.
Qed.

Lemma dotted_inner a b c d :
  is_octet a → is_octet b → is_octet c → is_octet d → Forall inner_byte (dotted a b c d).
Proof.
  intros Ha%octet_digits Hb%octet_digits Hc%octet_digits Hd%octet_digits.
  assert (∀ l, Forall (λ x, ∃ d, 0 ≤ d ≤ 9 ∧ x = digit d) l → Forall inner_byte l) as Hin.
  { intros l Hl. eapply Forall_impl; [exact Hl|]. by right. }
  unfold dotted. rewrite !Forall_app, !Forall_cons, !Forall_app, !Forall_cons, !Forall_app, !Forall_cons.
  split_and!; auto; by left.
Qed.

Lemma inner_not_comma s : Forall inner_byte s → comma ∉ s.
Proof.
  rewrite Forall_forall. intros Hs Hin. destruct (Hs _ Hin) as [|(d & Hd & E)]; [done|].
  destruct (digit_plain d Hd) as (_ & _ & _ & Hc & _). unfold is_byte in Hc. rewrite <- E in Hc. done.
Qed.

Lemma cut_app_first c s t : c ∉ s → cut c (s ++ c :: t) = Some (s, t).
Proof.
  induction s as [|x s IH]; simpl; intros Hs.
  - unfold is_byte. by rewrite bool_decide_true.
  - apply not_elem_of_cons in Hs as [Hx Hs]. unfold is_byte.
    rewrite bool_decide_false by congruence. by rewrite (IH Hs).
Qed.

Lemma cut_none c s : c ∉ s → cut c s = None.
Proof.
  induction s as [|x s IH]; simpl; intros Hs; [done|].
  apply not_elem_of_cons in Hs as [Hx Hs]. unfold is_byte.
  rewrite bool_decide_false by congruence. by rewrite (IH Hs).
Qed.

Lemma trim_left_digit d s : 0 ≤ d ≤ 9 → trim_left (digit d :: s) = digit d :: s.
Proof.
  intros Hd. destruct (digit_plain d Hd) as (_ & _ & _ & _ & E1 & E2 & E3).
  simpl. rewrite E1. destruct s as [|y s]; [done|]. rewrite E2. destruct s; [done|]. by rewrite E3.
Qed.

(** A digit ends no space either. *)
Lemma digit_no_space_end d : 0 ≤ d ≤ 9 →
  (∀ x, space2 x (digit d) = false) ∧ (∀ x y, space3 x y (digit d) = false).
Proof.
  revert d. apply digit_cases; (split; [by intros []|]); intros [] y; try done; by destruct y.
Qed.

Lemma trim_last_digit d s : 0 ≤ d ≤ 9 → trim_last (digit d :: s) = digit d :: s.
Proof.
  intros Hd. destruct (digit_plain d Hd) as (_ & _ & _ & _ & E1 & _).
  destruct (digit_no_space_end d Hd) as [E2 E3].
  simpl. rewrite E1. destruct s as [|y s]; [done|]. rewrite E2. destruct s; [done|]. by rewrite E3.
Qed.

Lemma octet_ends n :
  is_octet n →
  (∃ d s, 0 ≤ d ≤ 9 ∧ octet n = digit d :: s) ∧ (∃ d s, 0 ≤ d ≤ 9 ∧ octet n = s ++ [digit d]).
Proof.
  intros Hn%octet_digits. pose proof (octet_nonempty n). split.
  - destruct (octet n) as [|x s]; [done|]. apply Forall_cons in Hn as [(d & Hd & ->) _]. eauto.
  - destruct (octet n) as [|x s _] using rev_ind; [done|].
    apply Forall_app in Hn as [_ [(d & Hd & ->) _]%Forall_cons]. eauto.
Qed.

(** Single-byte spaces. *)
Definition spaces (s : bytes) : Prop := Forall (λ x, space1 x = true) s.

Lemma trim_left_spaces l s : spaces l → trim_left (l ++ s) = trim_left s.
Proof. induction 1 as [|x l Hx _ IH]; simpl; [done|]. by rewrite Hx. Qed.

Lemma trim_last_spaces l s : spaces l → trim_last (l ++ s) = trim_last s.
Proof. induction 1 as [|x l Hx _ IH]; simpl; [done|]. by rewrite Hx. Qed.

Lemma spaces_no_comma s : spaces s → comma ∉ s.
Proof. unfold spaces. rewrite Forall_forall. by intros Hs Hin%Hs. Qed.

(** Spaces around an address are trimmed, and nothing else. *)
Lemma trim_dotted l r a b c d :
  spaces l → spaces r → is_octet a → is_octet d →
  trim_bytes (l ++ dotted a b c d ++ r) = dotted a b c d.
Proof.
  intros Hl Hr Ha Hd. destruct (octet_ends a Ha) as [(d1 & s1 & Hd1 & E1) _].
  destruct (octet_ends d Hd) as [_ (d2 & s2 & Hd2 & E2)]. unfold trim_bytes.
  rewrite trim_left_spaces by done.
  assert (trim_left (dotted a b c d ++ r) = dotted a b c d ++ r) as ->.
  { unfold dotted. rewrite E1. cbn [app]. by rewrite trim_left_digit. }
  rewrite reverse_app, trim_last_spaces by (by apply Forall_reverse).
  assert (dotted a b c d = (octet a ++ dot :: octet b ++ dot :: octet c ++ dot :: s2) ++ [digit d2]) as E.
  { unfold dotted. rewrite E2. by rewrite !app_comm_cons, !app_assoc. }
  rewrite E at 1. rewrite reverse_app, reverse_singleton. cbn [app]. rewrite trim_last_digit by done.
  change (digit d2 :: ?t) with (reverse [digit d2] ++ t). rewrite <- reverse_app, <- E.
  apply reverse_involutive.
Qed.

Lemma ParseAddrPort_dotted a b c d port :
  is_octet a → is_octet b → is_octet c → is_octet d →
  port ≠ [] → colon ∉ port → is_port 0 port = true →
  ParseAddrPort (dotted a b c d ++ colon :: port) = Some (Addr4 [a; b; c; d]).
Proof.
  intros Ha Hb Hc Hd Hne Hcol Hport. unfold ParseAddrPort.
  rewrite reverse_app, reverse_cons, <- app_assoc. cbn [app].
  rewrite cut_app_first by (by rewrite elem_of_reverse). simpl. rewrite !reverse_involutive.
  destruct (octet_ends a Ha) as [(d1 & s1 & Hd1 & E1) _].
  assert (dotted a b c d = digit d1 :: s1 ++ dot :: octet b ++ dot :: octet c ++ dot :: octet d) as E.
  { unfold dotted. by rewrite E1. }
  rewrite bool_decide_false by (by rewrite E). rewrite bool_decide_false by done. simpl.
  assert (match dotted a b c d with c :: _ => is_byte c x5b | [] => false end = false) as ->.
  { rewrite E. clear -Hd1. revert d1 Hd1. by apply digit_cases. }
  simpl. rewrite Hport. simpl. by rewrite ParseAddr_dotted.
Qed.

(** ** Which address is reported *)

(** A header that is absent, or whose text does not parse as an address. *)
Definition unusable (text : string → bytes) (vals : list string) : Prop :=
  ∀ v vs, vals = v :: vs → ParseAddr (text v) = None.

(** The first element of a list of forwarding addresses, trimmed. *)
Definition first_forwarded (v : string) : bytes := trim_bytes (split_head comma (string_bytes v)).

Definition headers_unusable (ctx : RpcContext) : Prop :=
  ∀ md, incoming_md ctx = Some md →
    unusable string_bytes (md "x-real-ip") ∧ unusable first_forwarded (md "x-forwarded-for").

(** The request's sources of an address, in the order [extractClientIP] tries
    them, the first usable one being the text [ip]. *)
Inductive reports (ctx : RpcContext) (ip : bytes) : Prop :=
| from_real_ip md rest :
    incoming_md ctx = Some md → md "x-real-ip" = bytes_string ip :: rest → reports ctx ip
| from_forwarded_for md l r tail rest :
    incoming_md ctx = Some md → unusable string_bytes (md "x-real-ip") →
    md "x-forwarded-for" = bytes_string (l ++ ip ++ r ++ tail) :: rest →
    spaces l → spaces r → tail = [] ∨ (∃ others, tail = comma :: others) →
    reports ctx ip
| from_peer port :
    headers_unusable ctx → peer_addr ctx = Some (bytes_string (ip ++ colon :: port)) →
    port ≠ [] → colon ∉ port → is_port 0 port = true →
    reports ctx ip.

Definition no_source (ctx : RpcContext) : Prop :=
  headers_unusable ctx ∧ ∀ peer, peer_addr ctx = Some peer → ParseAddrPort (string_bytes peer) = None.

Lemma string_bytes_string b : string_bytes (bytes_string b) = b.
Proof. apply String.list_byte_of_string_of_list_byte. Qed.

(** With no usable header it is up to the peer. *)
Lemma extractClientIP_peer ctx :
  headers_unusable ctx →
  extractClientIP ctx =
    match peer_addr ctx with Some peer => default NoAddr (ParseAddrPort (string_bytes peer)) | None => NoAddr end.
Proof.
  unfold headers_unusable, unusable, first_forwarded, extractClientIP. intros Hu.
  assert (∀ peer, match ParseAddrPort (string_bytes peer) with Some addr => addr | None => NoAddr end =
    default NoAddr (ParseAddrPort (string_bytes peer))) as Hd by (intros peer; by destruct (ParseAddrPort _)).
  destruct (incoming_md ctx) as [md|]; [destruct (Hu md eq_refl) as [Hr Hf]|].
  - destruct (md "x-real-ip") as [|v vs]; [|rewrite (Hr v vs) by done];
      (destruct (md "x-forwarded-for") as [|w ws]; [|rewrite (Hf w ws) by done]);
      by destruct (peer_addr ctx).
  - by destruct (peer_addr ctx).
Qed.

Lemma extractClientIP_dotted ctx a b c d :
  is_octet a → is_octet b → is_octet c → is_octet d → reports ctx (dotted a b c d) →
  extractClientIP ctx = Addr4 [a; b; c; d].
Proof.
  intros Ha Hb Hc Hd [md rest E1 E2|md l r tail rest E1 E2 E3 Hl Hr Ht|port Hu E2 Hne Hcol Hport].
  - unfold extractClientIP. by rewrite E1, E2, string_bytes_string, ParseAddr_dotted.
  - unfold extractClientIP. rewrite E1, E3, string_bytes_string.
    assert (split_head comma (l ++ dotted a b c d ++ r ++ tail) = l ++ dotted a b c d ++ r) as ->.
    { pose proof (inner_not_comma _ (dotted_inner a b c d Ha Hb Hc Hd)) as Hn.
      assert (comma ∉ l ++ dotted a b c d ++ r) as Hn'.
      { rewrite !elem_of_app. pose proof (spaces_no_comma l Hl). pose proof (spaces_no_comma r Hr). tauto. }
      assert (l ++ dotted a b c d ++ r ++ tail = (l ++ dotted a b c d ++ r) ++ tail) as ->
        by (by rewrite <- !app_assoc).
      unfold split_head.
      destruct Ht as [->|(others & ->)]; [by rewrite app_nil_r, cut_none | by rewrite cut_app_first]. }
    rewrite trim_dotted, ParseAddr_dotted by done.
    destruct (md "x-real-ip") as [|v vs]; [done|]. by rewrite (E2 v vs).
  - by rewrite extractClientIP_peer, E2, string_bytes_string, ParseAddrPort_dotted.
Qed.

Lemma extractClientIP_none ctx : no_source ctx → extractClientIP ctx = NoAddr.
Proof.
  intros [Hu Hp]. rewrite extractClientIP_peer by done.
  destruct (peer_addr ctx) as [peer|]; [|done]. by rewrite (Hp peer eq_refl).
Qed.

Section hello.
Context {M : Type → Type} `{XMap M}.

(** C24: [Hello] rejects an invalid cluster id; otherwise it returns the
    configured redirect (none when it is empty) and, for a client with an IPv4
    address, its four bytes, from the first usable source: the "x-real-ip"
    header; else, when that is absent or does not parse, the first element of
    "x-forwarded-for" without the spaces around it; else, when that is absent or
    does not parse either, the peer's address without its port.  It parses back
    what the dotted decimal form of any address prints; when no source is
    usable, the address is empty. *)
Theorem Hello_reports_client (s : clusterServer M) ctx req :
  match Hello ctx req s with
  | Err _ => ¬ valid_id ClusterIDMax (Pb.hello_ClusterId req)
  | Ok resp =>
      valid_id ClusterIDMax (Pb.hello_ClusterId req) ∧
      (∀ a b c d, is_octet a → is_octet b → is_octet c → is_octet d →
         reports ctx (dotted a b c d) → Pb.ClientIp resp = [a; b; c; d]) ∧
      (no_source ctx → Pb.ClientIp resp = []) ∧
      (Pb.redirect_Endpoint <$> Pb.Redirect resp) =
        if decide (redirectEndpoint s = EmptyString) then None else Some (redirectEndpoint s)
  end.
Proof.
  unfold Hello. destruct (validateClusterID (Pb.hello_ClusterId req)) as [[]|e] eqn:Ev; simpl.
  - split; [by apply validateClusterID_ok|]. split; [|split].
    + intros a b c d Ha Hb Hc Hd Hr. by rewrite (extractClientIP_dotted ctx a b c d).
    + intros Hn. by rewrite extractClientIP_none.
    + case_decide; [by rewrite bool_decide_true | by rewrite bool_decide_false].
  - intros Hv%validateClusterID_ok. congruence.
Qed.

End hello.

(** A forwarded request whose "x-real-ip" does not parse. *)
Definition hello_md (k : string) : list string :=
  if bool_decide (k = "x-real-ip") then ["unknown"]
  else if bool_decide (k = "x-forwarded-for") then [" 10.0.20.255 , 192.168.0.1"] else [].
Definition hello_ctx : RpcContext := mkRpcContext (Some hello_md) (Some "127.0.0.1:4321").

Lemma Hello_reports_client_witness :
  Pb.ClientIp <$> (match Hello hello_ctx (Pb.mkHelloRequest "c1" "v1.0")
                    (newClusterServer (M := gmap string) empty_state "other:443") with
                   | Ok r => Some r | Err _ => None end) = Some [10; 0; 20; 255].
Proof.
  pose proof (Hello_reports_client (newClusterServer (M := gmap string) empty_state "other:443")
    hello_ctx (Pb.mkHelloRequest "c1" "v1.0")) as H.
  destruct (Hello _ _ _) as [r|e] eqn:E; [|by vm_compute in E].
  destruct H as (_ & H & _). simpl. f_equal. apply H; try (unfold is_octet; lia).
  apply (from_forwarded_for _ _ hello_md (bs " ") (bs " ") (comma :: bs " 192.168.0.1") []);
    [reflexivity | | reflexivity | by repeat constructor | by repeat constructor | right; by eexists].
  intros v vs [= <- <-]. reflexivity.
Defined.
