(* ===== verification/Interceptors.v ===== *)
(** * The gRPC server and its interceptors ([internal/server/discovery_server.go])

    What [NewDiscoveryServer] builds.  The logging, metrics and recovery
    interceptors belong to libraries: they are parameters, functions from
    handlers to handlers. *)

From S2P Require Import Prelude GoTime GoChan Affiliate Cluster Grpc Messages Server Watch.

(** ** Errors of a context *)

Definition normalizeContextErr `{StatusPkg} (err : option GoError) : option GoError :=
  match err with
  | None => None
  | Some e =>
      if GoError_Is e ContextCanceled then Some (StatusError Canceled (GoError_Error e))
      else if GoError_Is e ContextDeadlineExceeded then
        Some (StatusError DeadlineExceeded (GoError_Error e))
      else Some e
  end.

(** ** Log levels *)

Inductive Level : Type := LevelDebug | LevelInfo | LevelWarn | LevelError.

#[export] Instance Level_eq_dec : EqDecision Level.
Proof. solve_decision. Defined.

(** [logging.WithLevels(...)], given the library's default. *)
Definition code_level (DefaultServerCodeToLevel : Code → Level) (code : Code) : Level :=
  match code with
  | OK | Canceled | DeadlineExceeded => LevelInfo
  | _ => DefaultServerCodeToLevel code
  end.

(** Which function of the log library a message goes to; a level is an [int]. *)
Inductive LogCall : Type := Debugw | DebugCw | InfoCw | WarnCw | ErrorCw.

Definition level_number (l : Level) : Z :=
  match l with LevelDebug => -4 | LevelInfo => 0 | LevelWarn => 4 | LevelError => 8 end.

Definition log_call (lvl : Z) : LogCall :=
  if lvl =? level_number LevelDebug then DebugCw
  else if lvl =? level_number LevelInfo then InfoCw
  else if lvl =? level_number LevelWarn then WarnCw
  else if lvl =? level_number LevelError then ErrorCw
  else InfoCw.

(** ** Interceptors *)

Section interceptors.
(** [W] is the world that handlers act on. *)
Context {W Ctx Req Resp : Type} `{StatusPkg}.
(** The log library: what a message does to the world. *)
Context (zlog : LogCall → list string → W → W).

(** [logging.Logger] *)
Definition Logger : Type := Z → list string → W → W.

Definition grpcInterceptorLogger : Logger := λ lvl msg, zlog (log_call lvl) msg.

(** What is returned, or the panic that goes through instead. *)
Definition Handler (A : Type) : Type := W → W * result Panic A.

(** A unary handler returns a response and an error, a stream handler an error. *)
Definition UnaryHandler : Type := Ctx → Req → Handler (option Resp * option GoError).
Definition StreamHandler : Type := Handler (option GoError).

Definition normalizeContextUnaryServerInterceptor (handler : UnaryHandler) : UnaryHandler :=
  λ ctx req w, let '(w', r) := handler ctx req w in
    (w', r <-? r ;; Ok (r.1, normalizeContextErr r.2)).

Definition normalizeContextStreamServerInterceptor (handler : StreamHandler) : StreamHandler :=
  λ w, let '(w', r) := handler w in (w', err <-? r ;; Ok (normalizeContextErr err)).

(** The start of a call, as it is logged. *)
Record CallInfo : Type := mkCallInfo {
  FullMethod : string;
  IsClientStream : bool;
  IsServerStream : bool;
}.

Definition stream_method_type (info : CallInfo) : string :=
  if IsClientStream info && IsServerStream info then "bidi_stream"
  else if IsClientStream info then "client_stream"
  else "server_stream".

Definition started (info : CallInfo) (method_type : string) : list string :=
  ["started call"; "grpc.method"; FullMethod info; "grpc.method_type"; method_type].

Definition debugStartUnaryInterceptor (info : CallInfo) (handler : UnaryHandler) : UnaryHandler :=
  λ ctx req w, handler ctx req (zlog Debugw (started info "unary") w).

Definition debugStartStreamInterceptor (info : CallInfo) (handler : StreamHandler) : StreamHandler :=
  λ w, handler (zlog Debugw (started info (stream_method_type info)) w).

(** The interceptors of the libraries, for calls of one kind.  The one for logging
    is given the logger and the levels of the codes. *)
Record Libraries (H : Type) : Type := mkLibraries {
  logging : Logger → (Code → Level) → H → H;
  srvMetrics : H → H;
  recovery : H → H;
}.
Arguments logging {H}.
Arguments srvMetrics {H}.
Arguments recovery {H}.

(** [logging.DefaultServerCodeToLevel] *)
Context (DefaultServerCodeToLevel : Code → Level).

(** [grpc.ChainUnaryInterceptor] and [grpc.ChainStreamInterceptor]: the first
    one is the outermost. *)
Definition unary_chain (lib : Libraries UnaryHandler) (info : CallInfo)
    (handler : UnaryHandler) : UnaryHandler :=
  debugStartUnaryInterceptor info
    (logging lib grpcInterceptorLogger (code_level DefaultServerCodeToLevel)
       (normalizeContextUnaryServerInterceptor (srvMetrics lib (recovery lib handler)))).

Definition stream_chain (lib : Libraries StreamHandler) (info : CallInfo)
    (handler : StreamHandler) : StreamHandler :=
  debugStartStreamInterceptor info
    (logging lib grpcInterceptorLogger (code_level DefaultServerCodeToLevel)
       (normalizeContextStreamServerInterceptor (srvMetrics lib (recovery lib handler)))).

(** ** The server *)

Inductive GrpcService : Type := ServerReflection | ClusterService | HealthService.
Inductive ServingStatus : Type := SERVING | NOT_SERVING.

Record DiscoveryServer : Type := mkDiscoveryServer {
  unaryInterceptor : CallInfo → UnaryHandler → UnaryHandler;
  streamInterceptor : CallInfo → StreamHandler → StreamHandler;
  services : list GrpcService;
  servingStatus : gmap string ServingStatus;
}.

(** Its metrics are registered in [WebServer.v]; the health server starts with
    the empty name, which stands for the whole server. *)
Definition NewDiscoveryServer (unary : Libraries UnaryHandler) (stream : Libraries StreamHandler) :
    DiscoveryServer :=
  mkDiscoveryServer (unary_chain unary) (stream_chain stream)
    [ServerReflection; ClusterService; HealthService]
    (<["sidero.discovery.server.Cluster" := SERVING]> {["" := SERVING]}).

(** ** Properties *)

(** An interceptor that lets through what its handler returns, or its panic; it
    may act on the world before and after, and give the handler a context of
    its own. *)
Definition passes_unary (i : UnaryHandler → UnaryHandler) : Prop :=
  ∀ h ctx req, ∃ ctx' before after, ∀ w,
    i h ctx req w = (after (h ctx' req (before w)), (h ctx' req (before w)).2).
Definition passes_stream (i : StreamHandler → StreamHandler) : Prop :=
  ∀ h, ∃ before after, ∀ w, i h w = (after (h (before w)), (h (before w)).2).

(** The interceptor of the logging library: it passes on what its handler returns,
    and then logs one line, at the level of the code of the error. *)
Definition logs_unary (i : Logger → (Code → Level) → UnaryHandler → UnaryHandler) : Prop :=
  ∀ logger levels h ctx req, ∃ ctx' before after line, ∀ w,
    i logger levels h ctx req w =
      let '(w', r) := h ctx' req (before w) in
      (match r with
       | Ok r => logger (level_number (levels (status_Code r.2))) (line r.2) (after w')
       | Err _ => after w'
       end, r).
Definition logs_stream (i : Logger → (Code → Level) → StreamHandler → StreamHandler) : Prop :=
  ∀ logger levels h, ∃ before after line, ∀ w,
    i logger levels h w =
      let '(w', r) := h (before w) in
      (match r with
       | Ok err => logger (level_number (levels (status_Code err))) (line err) (after w')
       | Err _ => after w'
       end, r).

(** Neither a context error nor one that wraps it. *)
Definition no_context_err (err : option GoError) : Prop :=
  ∀ e, err = Some e → GoError_Is e ContextCanceled = false ∧ GoError_Is e ContextDeadlineExceeded = false.

(** An interceptor that makes an error of a panic. *)
Definition recovers_unary (i : UnaryHandler → UnaryHandler) : Prop :=
  ∃ panic_err : Panic → GoError, (∀ p, no_context_err (Some (panic_err p))) ∧
  ∀ h ctx req w, i h ctx req w =
    let '(w', r) := h ctx req w in
    (w', Ok match r with Ok r => r | Err p => (None, Some (panic_err p)) end).
Definition recovers_stream (i : StreamHandler → StreamHandler) : Prop :=
  ∃ panic_err : Panic → GoError, (∀ p, no_context_err (Some (panic_err p))) ∧
  ∀ h w, i h w =
    let '(w', r) := h w in
    (w', Ok match r with Ok err => err | Err p => Some (panic_err p) end).

(** What a caller gets for what a handler did. *)
Definition call_outcome (did : result Panic (option GoError)) (err : option GoError) : Prop :=
  no_context_err err ∧
  match did with
  | Ok (Some e) =>
      if GoError_Is e ContextCanceled then err = Some (StatusError Canceled (GoError_Error e))
      else if GoError_Is e ContextDeadlineExceeded then
        err = Some (StatusError DeadlineExceeded (GoError_Error e))
      else err = Some e
  | Ok None => err = None
  | Err _ => err ≠ None
  end.

(** Its log line is the last thing that is done. *)
Definition call_logged (err : option GoError) (w : W) : Prop :=
  ∃ line w1, w = zlog (log_call (level_number (code_level DefaultServerCodeToLevel (status_Code err)))) line w1.

Lemma normalizeContextErr_outcome (f : Panic → GoError) r :
  (∀ p, no_context_err (Some (f p))) →
  call_outcome r (normalizeContextErr match r with Ok err => err | Err p => Some (f p) end).
Proof.
  intros Hf. destruct r as [[e|]|p]; simpl.
  - destruct (GoError_Is e ContextCanceled) eqn:Ec; simpl; [split; [by intros ? [= <-] | by rewrite Ec]|].
    destruct (GoError_Is e ContextDeadlineExceeded) eqn:Ed; simpl;
      [split; [by intros ? [= <-] | by rewrite Ec, Ed]|].
    split; [by intros ? [= <-] | by rewrite Ec, Ed].
  - done.
  - destruct (Hf p _ eq_refl) as [-> ->]. by split; [apply Hf|].
Qed.

(** The code of a context error, once it is normalised, is logged at info. *)
Lemma context_errors_info `{!StatusPkgLaws} e err :
  call_outcome (Ok (Some e)) err → GoError_Is e ContextCanceled || GoError_Is e ContextDeadlineExceeded = true →
  log_call (level_number (code_level DefaultServerCodeToLevel (status_Code err))) = InfoCw.
Proof.
  intros [_ Ho] Hc. destruct (GoError_Is e ContextCanceled); [|destruct (GoError_Is e ContextDeadlineExceeded); [|done]];
    subst err; by rewrite status_Code_status.
Qed.

(** The error of a unary handler's result. *)
Definition unary_error (r : result Panic (option Resp * option GoError)) : result Panic (option GoError) :=
  r <-? r ;; Ok r.2.

(** A whole call: what the handler did, and the world and the result after it. *)
Definition call_ok (did : result Panic (option GoError)) (w : W) (got : result Panic (option GoError)) : Prop :=
  ∃ err, got = Ok err ∧ call_outcome did err ∧ call_logged err w ∧
    ∀ e, did = Ok (Some e) → GoError_Is e ContextCanceled || GoError_Is e ContextDeadlineExceeded = true →
      ∃ line w1, w = zlog InfoCw line w1.

Lemma call_ok_intro `{!StatusPkgLaws} did err w :
  call_outcome did err → call_logged err w → call_ok did w (Ok err).
Proof.
  intros Ho Hl. exists err. split_and!; [done.. |]. intros e -> Hc. destruct Hl as (line & w1 & ->).
  exists line, w1. by rewrite (context_errors_info e err).
Qed.

(** C25: what callers of the server can see, and what is logged.  Whatever a
    handler does, a caller never gets a context error, bare or wrapped, and never
    brings the process down: an error that is or wraps a cancellation or an
    exceeded deadline comes out as the status error of that code, with its text;
    a panic (a watcher closed in the middle of a notification, say) comes out as
    an error; every other result is passed on unchanged.  The last thing done
    for a call is one log line, at the level of the code that the caller gets;
    for the context errors it is at level info. *)
Theorem stream_chain_normalizes `{!StatusPkgLaws} unary stream info :
  logs_unary (logging unary) → passes_unary (srvMetrics unary) → recovers_unary (recovery unary) →
  logs_stream (logging stream) → passes_stream (srvMetrics stream) → recovers_stream (recovery stream) →
  let server := NewDiscoveryServer unary stream in
  (∀ handler, ∃ before, ∀ w,
     let '(w', got) := streamInterceptor server info handler w in
     call_ok (handler (before w)).2 w' got) ∧
  (∀ handler ctx req, ∃ ctx' before, ∀ w,
     let '(w', got) := unaryInterceptor server info handler ctx req w in
     call_ok (unary_error (handler ctx' req (before w)).2) w' (unary_error got)).
Proof.
  intros Hul Hum (uf & Huf & Hur) Hsl Hsm (sf & Hsf & Hsr). split.
  - intros h. destruct (Hsm (recovery stream h)) as (b2 & a2 & E2).
    destruct (Hsl grpcInterceptorLogger (code_level DefaultServerCodeToLevel)
      (normalizeContextStreamServerInterceptor (srvMetrics stream (recovery stream h)))) as (b1 & a1 & line & E1).
    exists (λ w, b2 (b1 (zlog Debugw (started info (stream_method_type info)) w))). intros w. simpl.
    unfold stream_chain, debugStartStreamInterceptor. rewrite E1.
    unfold normalizeContextStreamServerInterceptor. rewrite E2, Hsr. destruct (h _) as [w' r]. simpl.
    apply call_ok_intro; [by apply normalizeContextErr_outcome | by do 2 eexists].
  - intros h ctx req.
    destruct (Hul grpcInterceptorLogger (code_level DefaultServerCodeToLevel)
      (normalizeContextUnaryServerInterceptor (srvMetrics unary (recovery unary h))) ctx req)
      as (c1 & b1 & a1 & line & E1).
    destruct (Hum (recovery unary h) c1 req) as (c2 & b2 & a2 & E2).
    exists c2, (λ w, b2 (b1 (zlog Debugw (started info "unary") w))). intros w. simpl.
    unfold unary_chain, debugStartUnaryInterceptor. rewrite E1.
    unfold normalizeContextUnaryServerInterceptor. rewrite E2, Hur. destruct (h _ _ _) as [w' r]. simpl.
    pose proof (normalizeContextErr_outcome uf (unary_error r) Huf) as Ho.
    destruct r as [r|p]; (apply call_ok_intro; [exact Ho | by do 2 eexists]).
Qed.

End interceptors.

(** ** Witness: a wrapped cancellation and a panic, behind small interceptors *)

Definition recover_stream {W : Type} (h : StreamHandler (W := W)) : StreamHandler :=
  λ w, let '(w', r) := h w in (w', Ok match r with Ok err => err | Err p => Some (PlainError "panic") end).

Definition recover_unary {W Ctx Req Resp : Type} (h : UnaryHandler (W := W) (Ctx := Ctx) (Req := Req) (Resp := Resp)) :
    UnaryHandler :=
  λ ctx req w, let '(w', r) := h ctx req w in
    (w', Ok match r with Ok r => r | Err p => (None, Some (PlainError "panic")) end).

(** The world is the log, the last line first. *)
Definition log_world : Type := list (LogCall * list string).
Definition log_to (call : LogCall) (msg : list string) (w : log_world) : log_world := (call, msg) :: w.

Definition log_stream (logger : Logger (W := log_world)) (levels : Code → Level)
    (h : StreamHandler (W := log_world)) : StreamHandler :=
  λ w, let '(w', r) := h w in
    (match r with
     | Ok err => logger (level_number (levels (status_Code err))) ["finished call"] w'
     | Err _ => w'
     end, r).

Definition log_unary (logger : Logger (W := log_world)) (levels : Code → Level)
    (h : UnaryHandler (W := log_world) (Ctx := unit) (Req := unit) (Resp := unit)) : UnaryHandler :=
  λ ctx req w, let '(w', r) := h ctx req w in
    (match r with
     | Ok r => logger (level_number (levels (status_Code r.2))) ["finished call"] w'
     | Err _ => w'
     end, r).

Definition unary_lib : Libraries (UnaryHandler (Ctx := unit) (Req := unit) (Resp := unit)) :=
  mkLibraries _ log_unary id recover_unary.
Definition stream_lib : Libraries StreamHandler := mkLibraries _ log_stream id recover_stream.

Definition plain_server : DiscoveryServer (W := log_world) (Ctx := unit) (Req := unit) (Resp := unit) :=
  NewDiscoveryServer log_to (λ _, LevelError) unary_lib stream_lib.

Definition wrapped_cancel : GoError := WrappedError "send: " ContextCanceled.

Lemma stream_chain_normalizes_witness :
  (∃ w line, streamInterceptor plain_server (mkCallInfo "Watch" false true) (λ w, (w, Ok (Some wrapped_cancel))) []
     = ((InfoCw, line) :: w, Ok (Some (StatusError Canceled "send: context canceled")))) ∧
  ∃ err, (streamInterceptor plain_server (mkCallInfo "Watch" false true) (λ w, (w, Err SendOnClosedChannel)) []).2
     = Ok (Some err).
Proof.
  destruct (stream_chain_normalizes log_to (λ _, LevelError) unary_lib stream_lib
    (mkCallInfo "Watch" false true)) as [H _].
  - intros logger levels h ctx req. exists ctx, id, id, (λ _, ["finished call"]). intros w. reflexivity.
  - intros h ctx req. exists ctx, id, fst. intros w. unfold id. simpl. unfold id. by destruct (h ctx req w).
  - by exists (λ _, PlainError "panic"); split; [intros p e [= <-]|].
  - intros logger levels h. exists id, id, (λ _, ["finished call"]). intros w. reflexivity.
  - intros h. exists id, fst. intros w. simpl. unfold id. by destruct (h w).
  - by exists (λ _, PlainError "panic"); split; [intros p e [= <-]|].
  - split.
    + destruct (H (λ w, (w, Ok (Some wrapped_cancel)))) as [before Hb]. specialize (Hb []).
      destruct (streamInterceptor plain_server _ _ _) as [w' got] eqn:E. unfold plain_server in E.
      rewrite E in Hb. destruct Hb as (err & -> & [_ Ho] & _ & Hi). simpl in Ho.
      destruct (Hi wrapped_cancel eq_refl eq_refl) as (line & w1 & ->). exists w1, line. by rewrite Ho.
    + destruct (H (λ w, (w, Err SendOnClosedChannel))) as [before Hb]. specialize (Hb []).
      destruct (streamInterceptor plain_server _ _ _) as [w' got] eqn:E. unfold plain_server in E.
      rewrite E in Hb. destruct Hb as ([err|] & -> & [_ Hn] & _); [by exists err | done].
Defined.
