(* ===== verification/FileSystem.v ===== *)
(** * Files, and the writer of the snapshot file

    The part of [os] that [atomicWriteFile] (snapshot.go:107-150) uses, on a
    file system that can fail at every call.  A procedure returns every state
    the file system passes through, for a reader, or a crash, may see any of
    them.  The state holds the directory as readers see it and as it is on the
    disk, which is what a loss of power goes back to. *)

From S2P Require Import Prelude.

(** [f_synced]: whether the content is known to have reached the disk. *)
Record File : Type := mkFile { f_content : bytes; f_synced : bool; f_perm : Z }.

#[export] Instance File_eq_dec : EqDecision File.
Proof. solve_decision. Defined.

(** Files by path: as readers see them, and as far as the directory is known to
    have reached the disk. *)
Record FS : Type := mkFS { files : gmap string File; on_disk : gmap string File }.

#[export] Instance FS_lookup : Lookup string File FS := λ q fs, files fs !! q.
#[export] Instance FS_empty : Empty FS := mkFS ∅ ∅.

Lemma lookup_files (fs : FS) q : fs !! q = files fs !! q.
Proof. done. Qed.

(** What may be under [q] after a loss of power: either directory entry may be
    the one on the disk, and the content of a file that was not synced may be
    anything.  (A file is not written again once its directory was synced.) *)
Inductive survives (fs : FS) (q : string) : option File → Prop :=
| sv_none : on_disk fs !! q = None ∨ fs !! q = None → survives fs q None
| sv_some f f' : on_disk fs !! q = Some f ∨ fs !! q = Some f →
    (f_synced f = true → f' = f) → survives fs q (Some f').

(** ** Procedures on the file system *)

(** The states passed through, the last one, and the result. *)
Definition Proc (A : Type) : Type := FS → list FS * FS * result string A.

Definition pret {A} (a : A) : Proc A := λ fs, ([], fs, Ok a).

Definition pbind {A B} (m : Proc A) (f : A → Proc B) : Proc B :=
  λ fs,
    let '(tr, fs1, r) := m fs in
    match r with
    | Err e => (tr, fs1, Err e)
    | Ok a => let '(tr', fs2, r') := f a fs1 in (tr ++ tr', fs2, r')
    end.

(** [defer]: [d] runs whatever [m] returns, and cannot change the result. *)
Definition pdefer {A} (d : FS → FS) (m : Proc A) : Proc A :=
  λ fs, let '(tr, fs1, r) := m fs in (tr ++ [d fs1], d fs1, r).

(** [_ = m]: the outcome of [m] is dropped. *)
Definition pignore {A} (m : Proc A) : Proc () :=
  λ fs, let '(tr, fs1, _) := m fs in (tr, fs1, Ok ()).

(** One call: it fails after doing part of its work, or does all of it; a
    failure is wrapped as [fmt.Errorf("<what>: %w", err)]. *)
Definition syscall (what : string) (failure : option string) (partial complete : FS → FS) : Proc () :=
  λ fs,
    match failure with
    | Some e => let fs' := partial fs in ([fs'], fs', Err (what +:+ ": " +:+ e))
    | None => let fs' := complete fs in ([fs'], fs', Ok ())
    end.

Notation "x <-! m ;; k" := (pbind m (λ x, k))
  (at level 100, m at next level, right associativity) : go_scope.

(** ** Calls *)

(** Which calls fail; a failed write has written its first bytes. *)
Record Faults : Type := mkFaults {
  fail_create : option string;
  fail_chmod : option string;
  fail_write : option string;
  written : nat;
  fail_sync : option string;
  fail_close : option string;
  fail_rename : option string;
  fail_open_dir : option string;
  fail_sync_dir : option string;
  fail_remove : bool;
}.

Definition no_faults : Faults := mkFaults None None None 0 None None None None None false.

Definition on_files (f : gmap string File → gmap string File) (fs : FS) : FS :=
  mkFS (f (files fs)) (on_disk fs).

Definition create_file (name : string) : FS → FS := on_files (<[name := mkFile [] false 384]>).
Definition write_file (name : string) (data : bytes) : FS → FS :=
  on_files (alter (λ f,
    mkFile (f_content f ++ data) (bool_decide (data = []) && f_synced f) (f_perm f)) name).
Definition sync_file (name : string) : FS → FS :=
  on_files (alter (λ f, mkFile (f_content f) true (f_perm f)) name).
Definition chmod_file (name : string) (perm : Z) : FS → FS :=
  on_files (alter (λ f, mkFile (f_content f) (f_synced f) perm) name).
(** [rename(2)] replaces the target in one step. *)
Definition rename_file (from to : string) : FS → FS :=
  on_files (λ m, match m !! from with Some f => <[to := f]> (delete from m) | None => m end).
Definition remove_file (φ : Faults) (name : string) : FS → FS :=
  if fail_remove φ then id else on_files (delete name).
(** [Sync] on the directory. *)
Definition sync_dir (fs : FS) : FS := mkFS (files fs) (files fs).

(** 0o600 *)
Definition defaultPerm : Z := 384.

(** [tmpName] is the name [os.CreateTemp(dir, ".tmp-@")] chooses.  The errors
    of opening and syncing the directory, and of the removal, are dropped. *)
Definition atomicWriteFile (φ : Faults) (tmpName path : string) (data : bytes) (perm : Z) : Proc () :=
  _ <-! syscall "create temp file" (fail_create φ) id (create_file tmpName) ;;
  pdefer (remove_file φ tmpName)
   (_ <-! syscall "chmod temp file" (fail_chmod φ) id (chmod_file tmpName perm) ;;
    _ <-! syscall "write temp file" (fail_write φ) (write_file tmpName (take (written φ) data))
            (write_file tmpName data) ;;
    _ <-! syscall "sync temp file" (fail_sync φ) id (sync_file tmpName) ;;
    _ <-! syscall "close temp file" (fail_close φ) id id ;;
    _ <-! syscall "rename temp file" (fail_rename φ) id (rename_file tmpName path) ;;
    pignore (_ <-! syscall "open directory" (fail_open_dir φ) id id ;;
             syscall "sync directory" (fail_sync_dir φ) id sync_dir)).

(** ** What the calls do to a file system with a temporary file *)

Section temp.
Context (tmpName path : string) (fs : FS).
Hypothesis Htmp : fs !! tmpName = None.
Hypothesis Hne : tmpName ≠ path.

(** The file system with [f] as the temporary file. *)
Definition with_temp (f : File) : FS := on_files (<[tmpName := f]>) fs.

Lemma create_temp : create_file tmpName fs = with_temp (mkFile [] false 384).
Proof. done. Qed.

Lemma chmod_temp f perm :
  chmod_file tmpName perm (with_temp f) = with_temp (mkFile (f_content f) (f_synced f) perm).
Proof. unfold with_temp, chmod_file, on_files. simpl. by rewrite alter_insert_eq. Qed.

Lemma write_temp f data :
  write_file tmpName data (with_temp f) =
  with_temp (mkFile (f_content f ++ data) (bool_decide (data = []) && f_synced f) (f_perm f)).
Proof. unfold with_temp, write_file, on_files. simpl. by rewrite alter_insert_eq. Qed.

Lemma sync_temp f :
  sync_file tmpName (with_temp f) = with_temp (mkFile (f_content f) true (f_perm f)).
Proof. unfold with_temp, sync_file, on_files. simpl. by rewrite alter_insert_eq. Qed.

Lemma remove_temp φ f :
  remove_file φ tmpName (with_temp f) = if fail_remove φ then with_temp f else fs.
Proof.
  unfold remove_file. destruct (fail_remove φ); [done|]. unfold with_temp, on_files. simpl.
  rewrite delete_insert_eq, delete_id by exact Htmp. by destruct fs.
Qed.

(** ... and with [f] in place, its directory synced or not. *)
Definition renamed (f : File) (synced : bool) : FS :=
  let m := <[path := f]> (files fs) in mkFS m (if synced then m else on_disk fs).

Lemma rename_temp f : rename_file tmpName path (with_temp f) = renamed f false.
Proof.
  unfold rename_file, with_temp, on_files, renamed. simpl.
  by rewrite lookup_insert_eq, delete_insert_eq, delete_id.
Qed.

Lemma sync_dir_renamed f : sync_dir (renamed f false) = renamed f true.
Proof. done. Qed.

Lemma remove_renamed φ f b : remove_file φ tmpName (renamed f b) = renamed f b.
Proof.
  unfold remove_file. destruct (fail_remove φ); [done|]. unfold on_files, renamed. simpl.
  rewrite delete_id; [done|]. by rewrite lookup_insert_ne by done.
Qed.

(** The states in which the old file is in place. *)
Inductive before_rename : FS → Prop :=
| br_none : before_rename fs
| br_temp f : before_rename (with_temp f).

Lemma before_rename_path st : before_rename st → st !! path = fs !! path.
Proof.
  intros []; [done|]. rewrite lookup_files. simpl. by rewrite lookup_insert_ne.
Qed.

(** ... and those in which the new one is. *)
Definition new_file (data : bytes) : File := mkFile data true defaultPerm.

Definition passes (data : bytes) (st : FS) : Prop :=
  before_rename st ∨ ∃ b, st = renamed (new_file data) b.

Lemma renamed_path f b : renamed f b !! path = Some f.
Proof. rewrite lookup_files. apply lookup_insert_eq. Qed.

Lemma passes_frame data st q :
  passes data st → q ≠ tmpName → q ≠ path →
  st !! q = fs !! q ∧ (on_disk st !! q = on_disk fs !! q ∨ on_disk st !! q = fs !! q).
Proof.
  rewrite !lookup_files. intros [[|f] | [b ->]] Ht Hp; simpl; [by auto | |].
  - rewrite lookup_insert_ne by done. auto.
  - destruct b; rewrite !lookup_insert_ne by done; auto.
Qed.

(** A loss of power, before and after the new file is in place. *)
Lemma survives_before st o : before_rename st → survives st path o → survives fs path o.
Proof.
  intros Hb Hs. pose proof (before_rename_path st Hb) as E.
  assert (on_disk st = on_disk fs) as Ed by (by destruct Hb).
  destruct Hs as [Hn|f f' Hf Hs]; [apply sv_none | apply (sv_some _ _ f); [|done]]; by rewrite <- E, <- Ed.
Qed.

Lemma survives_frame data st q o :
  passes data st → q ≠ tmpName → q ≠ path → survives st q o → survives fs q o.
Proof.
  intros Hp Ht Hq Hs. destruct (passes_frame data st q Hp Ht Hq) as [E Ed].
  destruct Hs as [Hn|f f' Hf Hs]; [apply sv_none | apply (sv_some _ _ f); [|done]];
    rewrite E in *; destruct Ed as [Ed|Ed]; rewrite Ed in *; tauto.
Qed.

Lemma survives_renamed data b o :
  survives (renamed (new_file data) b) path o →
  o = Some (new_file data) ∨ (b = false ∧ survives fs path o).
Proof.
  intros Hs. destruct Hs as [Hn|f f' Hf Hs]; rewrite renamed_path in *; simpl in *.
  - destruct Hn as [Hn|]; [|done]. destruct b; [by rewrite lookup_insert_eq in Hn|].
    right. split; [done|]. apply sv_none. by left.
  - destruct Hf as [Hf|[= <-]]; [|left; f_equal; by apply Hs].
    destruct b; [rewrite lookup_insert_eq in Hf; injection Hf as <-; left; f_equal; by apply Hs|].
    right. split; [done|]. apply (sv_some _ _ f); [by left | done].
Qed.

End temp.

#[export] Hint Rewrite create_temp chmod_temp write_temp sync_temp sync_dir_renamed : go.

(** ** Property *)

(** Whether the calls that count succeed, and those on the directory. *)
Definition calls_succeed (φ : Faults) : Prop :=
  fail_create φ = None ∧ fail_chmod φ = None ∧ fail_write φ = None ∧
  fail_sync φ = None ∧ fail_close φ = None ∧ fail_rename φ = None.
Definition dir_synced (φ : Faults) : bool :=
  bool_decide (fail_open_dir φ = None ∧ fail_sync_dir φ = None).

(** The calls of [atomicWriteFile], for every combination of faults. *)
Lemma atomicWriteFile_states φ tmpName path data fs :
  fs !! tmpName = None → tmpName ≠ path →
  let '(tr, fs', r) := atomicWriteFile φ tmpName path data defaultPerm fs in
  Forall (passes tmpName path fs data) tr ∧
  match r with
  | Ok _ => fs' = renamed path fs (new_file data) (dir_synced φ)
  | Err _ => before_rename tmpName fs fs' ∧ (fail_remove φ = false → fs' = fs)
  end ∧
  (is_ok r = true ↔ calls_succeed φ).
Proof.
  intros Htmp Hne. unfold atomicWriteFile, pdefer, pbind, pignore, syscall, calls_succeed, dir_synced.
  destruct (fail_create φ) as [e|]; [|destruct (fail_chmod φ) as [e|]; [|destruct (fail_write φ) as [e|];
    [|destruct (fail_sync φ) as [e|]; [|destruct (fail_close φ) as [e|]; [|destruct (fail_rename φ) as [e|];
    [|destruct (fail_open_dir φ) as [e|]; [|destruct (fail_sync_dir φ) as [e|]]]]]]]];
    simpl; autorewrite with go; simpl; rewrite ?rename_temp by done; autorewrite with go;
    rewrite ?remove_temp, ?remove_renamed by done; (split; [|split; [|naive_solver]]).
  all: rewrite ?Forall_cons; split_and?; try done.
  all: try (right; by eexists).
  all: try (left; first [by apply br_none | by apply br_temp | case_match; [apply br_temp | apply br_none]]).
  all: try first [by apply br_none | by apply br_temp | case_match; [apply br_temp | apply br_none]].
  all: by intros ->.
Qed.

(** C9: [atomicWriteFile] is atomic whatever fails.  A reader at any moment
    finds under [path] either the file that was there before, untouched, or the
    complete new data, synced to the disk, with mode 0600; after a loss of
    power at any moment it finds the complete new data or what it could have
    found had the power gone before the call; no other file is ever touched.
    It succeeds exactly when none of creating, changing the mode, writing,
    syncing, closing and renaming the temporary file fails (the failures of
    opening and syncing the directory, and of the removal, are ignored), and
    then only [path] differs; once the directory has been synced too, a loss of
    power cannot bring the old file back.  When it fails, the old file is in
    place and, unless the removal fails too, no temporary file is left. *)
Theorem atomicWriteFile_atomic φ tmpName path data fs :
  fs !! tmpName = None → tmpName ≠ path →
  let new := mkFile data true 384 in
  let '(tr, fs', r) := atomicWriteFile φ tmpName path data defaultPerm fs in
  (∀ st, st ∈ tr →
     (st !! path = fs !! path ∨ st !! path = Some new) ∧
     (∀ o, survives st path o → survives fs path o ∨ o = Some new) ∧
     ∀ q, q ≠ tmpName → q ≠ path → st !! q = fs !! q ∧ ∀ o, survives st q o → survives fs q o) ∧
  match r with
  | Ok _ => files fs' = <[path := new]> (files fs) ∧
      (fail_open_dir φ = None ∧ fail_sync_dir φ = None → ∀ o, survives fs' path o → o = Some new)
  | Err _ => fs' !! path = fs !! path ∧ (fail_remove φ = false → fs' = fs)
  end ∧
  (is_ok r = true ↔ fail_create φ = None ∧ fail_chmod φ = None ∧ fail_write φ = None ∧
     fail_sync φ = None ∧ fail_close φ = None ∧ fail_rename φ = None).
Proof.
  intros Htmp Hne new. pose proof (atomicWriteFile_states φ tmpName path data fs Htmp Hne) as H.
  destruct (atomicWriteFile _ _ _ _ _ _) as [[tr fs'] r]. destruct H as (Htr & Hr & Hok).
  split; [|split; [|done]].
  - intros st Hin. rewrite Forall_forall in Htr. specialize (Htr st Hin). split; [|split].
    + destruct Htr as [Hb | [b ->]]; [left; by apply (before_rename_path tmpName)|].
      right. by rewrite renamed_path.
    + intros o Ho. destruct Htr as [Hb | [b ->]]; [left; by apply (survives_before tmpName path fs Hne st)|].
      apply survives_renamed in Ho as [->|[_ Ho]]; auto.
    + intros q Hq1 Hq2. split; [by eapply passes_frame | intros o; by eapply survives_frame].
  - destruct r; [|destruct Hr as [Hb Hrm]; split; [by apply (before_rename_path tmpName) | done]].
    subst fs'. split; [done|]. intros Hd o Ho. unfold dir_synced in Ho. rewrite bool_decide_true in Ho by done.
    by apply survives_renamed in Ho as [->|[? _]].
Qed.

(** ** Witness: a full disk, then a loss of power *)

Lemma atomicWriteFile_atomic_witness :
  let old := mkFile (bs "old") true 384 in
  let fs := mkFS {["state.db" := old]} {["state.db" := old]} in
  let φ := mkFaults None None (Some "no space left on device") 2 None None None None None false in
  (atomicWriteFile φ ".tmp-1" "state.db" (bs "new") defaultPerm fs).1.2 !! "state.db" = Some old ∧
  ∀ o, survives (atomicWriteFile no_faults ".tmp-1" "state.db" (bs "new") defaultPerm fs).1.2 "state.db" o →
    o = Some (mkFile (bs "new") true 384).
Proof.
  intros old fs φ. split.
  - pose proof (atomicWriteFile_atomic φ ".tmp-1" "state.db" (bs "new") fs
      (ltac:(by vm_compute)) (ltac:(done))) as H.
    destruct (atomicWriteFile φ ".tmp-1" "state.db" (bs "new") defaultPerm fs) as [[tr fs'] r] eqn:E.
    assert (r = Err "write temp file: no space left on device") as Er.
    { change r with (tr, fs', r).2. rewrite <- E. by vm_compute. }
    rewrite Er in H. destruct H as (_ & [Hp _] & _). cbn [fst snd]. rewrite Hp. by vm_compute.
  - pose proof (atomicWriteFile_atomic no_faults ".tmp-1" "state.db" (bs "new") fs
      (ltac:(by vm_compute)) (ltac:(done))) as H.
    destruct (atomicWriteFile no_faults ".tmp-1" "state.db" (bs "new") defaultPerm fs) as [[tr fs'] r] eqn:E.
    assert (r = Ok ()) as Er by (change r with (tr, fs', r).2; rewrite <- E; by vm_compute).
    rewrite Er in H. destruct H as (_ & [_ Hd] & _). by apply Hd.
Defined.
