(* ===== verification/Snapshot.v ===== *)
(** * Snapshots of the state ([internal/state/snapshot.go], [NewState] of state.go)

    [SaveSnapshot] copies every cluster's affiliates into protobuf messages and
    writes them to a file; [LoadSnapshot] reads them back at start-up. *)

From S2P Require Import Prelude GoTime GoChan Limits Affiliate Cluster XMap State Protobuf.
From S2P Require Import FileSystem.

(** ** The messages ([internal/proto/snapshot/v1/snapshot.pb.go]) *)

Module snapshotv1.

Section messages.
Context `{TimestampPb}.

Record Endpoint : Type := mkEndpoint {
  ep_Data : bytes;
  ep_Expiry : option PbTimestamp;
}.

Record Affiliate : Type := mkAffiliate {
  aff_Id : string;
  aff_Data : bytes;
  aff_Expiry : option PbTimestamp;
  aff_Endpoints : list Endpoint;
}.

Record Cluster : Type := mkCluster {
  cl_Id : string;
  cl_Affiliates : list Affiliate;
}.

Record Snapshot : Type := mkSnapshot { Clusters : list Cluster }.

End messages.

End snapshotv1.

Section snapshot.
Context {M : Type → Type} `{XMap M} `{TimestampPb} `{Codec snapshotv1.Snapshot}.
Implicit Types (s : State M).

(** ** Saving *)

Definition save_endpoint (ep : Endpoint) : snapshotv1.Endpoint :=
  snapshotv1.mkEndpoint (ep_data ep) (Some (timestamppb_New (ep_expiry ep))).

Definition save_affiliate (aff : Affiliate) : snapshotv1.Affiliate :=
  snapshotv1.mkAffiliate (aff_id aff) (aff_data aff) (Some (timestamppb_New (aff_expiry aff)))
    (save_endpoint <$> aff_endpoints aff).

Definition save_cluster (ρ : MapOrder string) (id : string) (cluster : Cluster) : snapshotv1.Cluster :=
  snapshotv1.mkCluster id ((λ ka, save_affiliate ka.2) <$> range ρ (affiliates cluster)).

(** The function given to [Range], on the message so far. *)
Definition save_entry (ρ : MapOrder string) s (snap : list snapshotv1.Cluster)
    (entry : string * ClusterPtr) : result Panic (list snapshotv1.Cluster) :=
  match cstore s !! entry.2 with
  | None => Err NilDereference
  | Some cluster => Ok (snap ++ [save_cluster ρ entry.1 cluster])
  end.

Definition snapshot_message (ρ : MapOrder string) s : result Panic snapshotv1.Snapshot :=
  cs <-? rfold (save_entry ρ s) [] (xm_range (clusters s)) ;;
  Ok (snapshotv1.mkSnapshot cs).

(** [φ] and [tmpName] are what the file system does, as in [atomicWriteFile]. *)
Definition SaveSnapshot (ρ : MapOrder string) (φ : Faults) (tmpName path : string) s :
    FS → result Panic (list FS * FS * result string ()) := λ fs,
  snap <-? snapshot_message ρ s ;;
  match Marshal snap with
  | Err e => Ok ([], fs, Err e)
  | Ok data => Ok (atomicWriteFile φ tmpName path data defaultPerm fs)
  end.

(** ** Loading *)

Definition expiry_of (ts : option PbTimestamp) : Time := from_option AsTime zero_time ts.

Definition load_endpoint (se : snapshotv1.Endpoint) : Endpoint :=
  mkEndpoint (expiry_of (snapshotv1.ep_Expiry se)) (snapshotv1.ep_Data se).

Definition load_affiliate (sa : snapshotv1.Affiliate) : Affiliate :=
  mkAffiliate (snapshotv1.aff_Id sa) (expiry_of (snapshotv1.aff_Expiry sa)) (snapshotv1.aff_Data sa)
    (load_endpoint <$> snapshotv1.aff_Endpoints sa).

Definition load_cluster (now : Time) (sc : snapshotv1.Cluster) : Cluster :=
  foldl (λ c sa, set_affiliates (<[snapshotv1.aff_Id sa := load_affiliate sa]> (affiliates c)) c)
    (NewCluster now (snapshotv1.cl_Id sc)) (snapshotv1.cl_Affiliates sc).

(** One iteration of the loop: a new cluster, stored under its id. *)
Definition load_entry (now : Time) s (sc : snapshotv1.Cluster) : State M :=
  mkState (xm_store (clusters s) (snapshotv1.cl_Id sc) (length (cstore s)))
    (cstore s ++ [load_cluster now sc]).

(** [os.ReadFile], failing with [read_fault] or for a file that is missing. *)
Inductive ReadError : Type := NotExist | ReadFault (e : string).

Definition ReadFile (read_fault : option string) (path : string) (fs : FS) : result ReadError bytes :=
  match read_fault with
  | Some e => Err (ReadFault e)
  | None => match fs !! path with Some f => Ok (f_content f) | None => Err NotExist end
  end.

(** The map, with the store of the clusters it points to. *)
Definition LoadSnapshot (now : Time) (read_fault : option string) (path : string) (fs : FS) :
    result string (State M) :=
  match ReadFile read_fault path fs with
  | Err NotExist => Ok (mkState xm_new [])
  | Err (ReadFault e) => Err e
  | Ok data =>
      snap <-? Unmarshal data ;;
      Ok (foldl (load_entry now) (mkState xm_new []) (snapshotv1.Clusters snap))
  end.

(** ** [NewState] *)

Definition stateConfig : Type := string.
Definition StateOption : Type := stateConfig → stateConfig.
Definition WithSnapshot (path : string) : StateOption := λ c, path.

Definition NewState (now : Time) (read_fault : option string) (fs : FS) (opts : list StateOption) :
    result string (State M) :=
  let snapshotPath := foldl (λ cfg (o : StateOption), o cfg) EmptyString opts in
  if bool_decide (snapshotPath = EmptyString) then Ok (mkState xm_new [])
  else LoadSnapshot now read_fault snapshotPath fs.

End snapshot.
