(* ===== verification/SnapshotProps.v ===== *)
(** * Properties of snapshots

    States are compared through [equiv]: the same clusters with the same
    affiliates, up to the monotonic clock readings, which a file cannot hold,
    and leaving out watchers and the clusters' own expiry. *)

From S2P Require Import Prelude GoTime GoChan Limits Affiliate Cluster ClusterSubs.
From S2P Require Import ClusterFacts Replication XMap State StateFacts Protobuf FileSystem.
From S2P Require Import Snapshot.

(** ** What survives in a file *)

Definition strip_endpoint (e : Endpoint) : Endpoint :=
  mkEndpoint (strip_mono (ep_expiry e)) (ep_data e).

Definition strip_affiliate (a : Affiliate) : Affiliate :=
  mkAffiliate (aff_id a) (strip_mono (aff_expiry a)) (aff_data a) (strip_endpoint <$> aff_endpoints a).

Definition durable (c : Cluster) : gmap string Affiliate := strip_affiliate <$> affiliates c.

Lemma strip_affiliate_idem a : strip_affiliate (strip_affiliate a) = strip_affiliate a.
Proof.
  destruct a as [i e d es]. unfold strip_affiliate. simpl. f_equal.
  rewrite <- list_fmap_compose. apply list_fmap_ext. by intros ? [].
Qed.

Lemma ToInfo_strip a : ToInfo (strip_affiliate a) = ToInfo a.
Proof.
  unfold ToInfo, Endpoints_ToInfo. simpl. f_equal. rewrite <- list_fmap_compose. done.
Qed.

Lemma strip_affiliate_wf a : wf_affiliate a → wf_affiliate (strip_affiliate a).
Proof.
  intros [Hnd Hl]. split; unfold endpoint_data, len in *; simpl.
  - by rewrite <- list_fmap_compose.
  - by rewrite length_fmap.
Qed.

Lemma durable_wf c : wf_affiliates (affiliates c) → wf_affiliates (durable c).
Proof.
  intros [Hsz Hm]. unfold durable. split.
  - unfold len_map in *. by rewrite map_size_fmap.
  - intros id a. rewrite lookup_fmap. intros (b & Hb & ->)%fmap_Some.
    destruct (Hm id b Hb). split; [done | by apply strip_affiliate_wf].
Qed.

(** ** States up to what survives *)

Section equiv.
Context {M : Type → Type} `{XMapLaws M}.

#[export] Instance state_equiv : Equiv (State M) :=
  λ s t, ∀ id, durable <$> find_cluster s id = durable <$> find_cluster t id.

#[export] Instance state_equivalence : Equivalence (≡@{State M}).
Proof.
  split; [done | by intros s t E id | intros s t u E1 E2 id; by rewrite E1].
Qed.

(** What requests can observe of the tables is an observation of the class. *)
Definition state_table (id : string) (s : State M) : View :=
  from_option cluster_view ∅ (find_cluster s id).

Lemma cluster_view_durable c : cluster_view c = ToInfo <$> durable c.
Proof.
  unfold cluster_view, durable. rewrite <- map_fmap_compose. apply map_fmap_ext.
  intros. symmetry. apply ToInfo_strip.
Qed.

#[export] Instance state_table_proper id : Proper ((≡) ==> (=)) (state_table id).
Proof.
  intros s t E. specialize (E id). unfold state_table.
  destruct (find_cluster s id), (find_cluster t id); simplify_eq/=; [|done].
  rewrite !cluster_view_durable. congruence.
Qed.
End equiv.

(** ** Loading what was saved *)

Section snapshot.
Context {M : Type → Type} `{XMapLaws M} `{TimestampPbLaws} `{CodecLaws snapshotv1.Snapshot}.
Implicit Types (s : State M).

Lemma load_save_affiliate a : load_affiliate (save_affiliate a) = strip_affiliate a.
Proof.
  unfold load_affiliate, save_affiliate, strip_affiliate. simpl. rewrite AsTime_New. f_equal.
  rewrite <- list_fmap_compose. apply list_fmap_ext. intros i e _. unfold compose, load_endpoint. simpl.
  by rewrite AsTime_New.
Qed.

Lemma load_cluster_affiliates now sc :
  affiliates (load_cluster now sc) =
  foldl (λ m sa, <[snapshotv1.aff_Id sa := load_affiliate sa]> m) ∅ (snapshotv1.cl_Affiliates sc).
Proof.
  unfold load_cluster. change ∅ with (affiliates (NewCluster now (snapshotv1.cl_Id sc))).
  generalize (NewCluster now (snapshotv1.cl_Id sc)).
  induction (snapshotv1.cl_Affiliates sc) as [|sa l IH]; intros c; simpl; [done | by rewrite IH].
Qed.

(** Everything but the affiliates of a loaded cluster is new. *)
Lemma load_cluster_frame now sc :
  load_cluster now sc =
  set_affiliates (affiliates (load_cluster now sc)) (NewCluster now (snapshotv1.cl_Id sc)).
Proof.
  unfold load_cluster. generalize (NewCluster now (snapshotv1.cl_Id sc)).
  induction (snapshotv1.cl_Affiliates sc) as [|sa l IH]; intros c; simpl; [by destruct c|].
  by rewrite IH.
Qed.

Lemma load_save_cluster ρ now cid c :
  wf_affiliates (affiliates c) →
  load_cluster now (save_cluster ρ cid c) = set_affiliates (durable c) (NewCluster now cid).
Proof.
  intros Hwf. rewrite load_cluster_frame, load_cluster_affiliates. simpl. f_equal.
  assert ((λ ka : string * Affiliate, (snapshotv1.aff_Id (save_affiliate ka.2),
      load_affiliate (save_affiliate ka.2))) <$> range ρ (affiliates c) =
    prod_map id strip_affiliate <$> range ρ (affiliates c)) as E.
  { apply list_fmap_ext. intros i [k a] Hka%list_elem_of_lookup_2%elem_of_range.
    unfold prod_map. simpl. rewrite load_save_affiliate.
    by destruct (wf_affs_each _ Hwf k a Hka) as [-> _]. }
  rewrite foldl_insert_list_to_map.
  - rewrite <- list_fmap_compose. unfold compose. rewrite E, map_union_empty.
    rewrite list_to_map_fmap. unfold durable. by rewrite list_to_map_range.
  - apply (f_equal (fmap fst)) in E. rewrite <- !list_fmap_compose in E. rewrite <- list_fmap_compose.
    eapply eq_ind_r; [|exact E]. apply NoDup_range_fst.
Qed.

(** The messages, one per listed cluster. *)
Definition saved (ρ : MapOrder string) s (entry : string * ClusterPtr) : option snapshotv1.Cluster :=
  save_cluster ρ entry.1 <$> cstore s !! entry.2.

Lemma save_loop ρ s (l : list (string * ClusterPtr)) acc :
  (∀ id p, (id, p) ∈ l → is_Some (cstore s !! p)) →
  rfold (save_entry ρ s) acc l = Ok (acc ++ omap (saved ρ s) l).
Proof.
  revert acc. induction l as [|[id p] l IH]; intros acc Hl; csimpl; [by rewrite app_nil_r|].
  destruct (Hl id p) as [c Hc]; [left|]. unfold save_entry at 1, saved at 1. simpl. rewrite Hc. simpl.
  rewrite IH; [by rewrite <- app_assoc|]. intros; apply (Hl id0); by right.
Qed.

(** Loading entries with distinct ids. *)
Lemma load_loop now (l : list snapshotv1.Cluster) s :
  NoDup (snapshotv1.cl_Id <$> l) →
  (∀ id p, xm_view (clusters s) !! id = Some p → (p < length (cstore s))%nat) →
  ∀ id, find_cluster (foldl (load_entry now) s l) id =
    match (list_to_map ((λ sc, (snapshotv1.cl_Id sc, sc)) <$> l) : gmap string snapshotv1.Cluster) !! id with
    | Some sc => Some (load_cluster now sc)
    | None => find_cluster s id
    end.
Proof.
  revert s. induction l as [|sc l IH]; intros s Hnd Hptr id; csimpl in *; [done|].
  apply NoDup_cons in Hnd as [Hsc Hnd]. rewrite IH; [|done|].
  2: { intros j p. simpl. rewrite xm_store_view, length_app. simpl.
       intros [[_ <-]|[_ Hj]]%lookup_insert_Some; [lia|]. apply Hptr in Hj. lia. }
  destruct (decide (id = snapshotv1.cl_Id sc)) as [->|Hne].
  - rewrite lookup_insert_eq, not_elem_of_list_to_map_1 by (by rewrite <- list_fmap_compose).
    unfold find_cluster. simpl. rewrite xm_store_view, lookup_insert_eq. simpl.
    by rewrite lookup_app_r, Nat.sub_diag by lia.
  - rewrite lookup_insert_ne by done. destruct (list_to_map _ !! id); [done|].
    unfold find_cluster. simpl. rewrite xm_store_view, lookup_insert_ne by done.
    destruct (xm_view (clusters s) !! id) as [p|] eqn:Ep; [|done]. simpl.
    by rewrite lookup_app_l by (by eapply Hptr).
Qed.

Lemma load_entry_wf now s sc :
  wf_state s → wf_cluster (load_cluster now sc) → wf_state (load_entry now s sc).
Proof.
  intros [Hptr Hc] Hwf. split; simpl.
  - intros id p. rewrite xm_store_view. intros [[<- <-]|[_ Hp]]%lookup_insert_Some.
    + eexists. rewrite lookup_app_r, Nat.sub_diag by lia. split; [done|]. by rewrite load_cluster_frame.
    + destruct (Hptr id p Hp) as (c & Hcp & Hid). exists c. split; [by apply lookup_app_l_Some | done].
  - intros p c [Hp|[_ Hp]]%lookup_app_Some; [by eapply Hc|].
    by apply list_lookup_singleton_Some in Hp as [_ <-].
Qed.

Lemma load_entries_wf now (l : list snapshotv1.Cluster) s :
  wf_state s → Forall (λ sc, wf_cluster (load_cluster now sc)) l →
  wf_state (foldl (load_entry now) s l).
Proof.
  revert s. induction l as [|sc l IH]; intros s Hwf Hl; simpl; [done|].
  apply Forall_cons in Hl as [Hsc Hl]. by apply IH; [apply load_entry_wf|].
Qed.

Lemma reloaded_wf now id c :
  wf_cluster c → wf_cluster (set_affiliates (durable c) (NewCluster now id)).
Proof.
  intros [Ha _]. split; [by apply durable_wf|]. by eapply wf_subs_ext; [apply (wf_subs_new now id)|..].
Qed.

(** The messages of a list of entries, by id. *)
Lemma saved_by_id ρ s (l : list (string * ClusterPtr)) id :
  (∀ j p, (j, p) ∈ l → is_Some (cstore s !! p)) →
  snapshotv1.cl_Id <$> omap (saved ρ s) l = l.*1 ∧
  (list_to_map ((λ sc, (snapshotv1.cl_Id sc, sc)) <$> omap (saved ρ s) l) : gmap string _) !! id =
  (list_to_map l : gmap string ClusterPtr) !! id ≫= λ p, saved ρ s (id, p).
Proof.
  induction l as [|[j p] l IH]; intros Hl; csimpl; [done|].
  destruct (Hl j p) as [c Hc]; [left|]. destruct IH as [IH1 IH2]; [intros; eapply Hl; by right|].
  assert (saved ρ s (j, p) = Some (save_cluster ρ j c)) as Es by (unfold saved; simpl; by rewrite Hc).
  rewrite Es. csimpl. rewrite IH1. split; [done|].
  destruct (decide (id = j)) as [->|Hne].
  - by rewrite !lookup_insert_eq.
  - by rewrite !lookup_insert_ne by done.
Qed.

(** The state read back from the messages of [s]. *)
Definition reloaded (ρ : MapOrder string) (now : Time) s : State M :=
  foldl (load_entry now) (mkState xm_new []) (omap (saved ρ s) (xm_range (clusters s))).

Lemma listed_ptr s id p : wf_state s → (id, p) ∈ xm_range (clusters s) → is_Some (cstore s !! p).
Proof. intros Hwf Hin%elem_of_xm_range. destruct (wf_st_ptr s Hwf id p Hin) as (c & -> & _). eauto. Qed.

Lemma reloaded_find ρ now s id :
  wf_state s →
  find_cluster (reloaded ρ now s) id =
  (λ c, set_affiliates (durable c) (NewCluster now id)) <$> find_cluster s id.
Proof.
  intros Hwf. unfold reloaded.
  destruct (saved_by_id ρ s (xm_range (clusters s)) id) as [Hids Hmap].
  { intros j p. by apply listed_ptr. }
  rewrite load_loop; [|rewrite Hids; apply NoDup_xm_range|].
  2: { intros j p. simpl. rewrite xm_new_view, lookup_empty. done. }
  rewrite Hmap, list_to_map_xm_range. unfold find_cluster.
  destruct (xm_view (clusters s) !! id) as [p|] eqn:Ep; simpl; [|by rewrite xm_new_view, lookup_empty].
  destruct (wf_st_ptr s Hwf id p Ep) as (c & Hc & Hid). unfold saved. simpl. rewrite Hc. simpl.
  f_equal. apply load_save_cluster. by eapply wf_cl_affiliates, wf_st_each.
Qed.

Lemma reloaded_wf_state ρ now s : wf_state s → wf_state (reloaded ρ now s).
Proof.
  intros Hwf. apply load_entries_wf; [apply empty_state_wf|]. apply Forall_forall.
  intros sc ([id p] & Hin & Hs)%list_elem_of_omap. unfold saved in Hs. simpl in Hs.
  apply fmap_Some in Hs as (c & Hc & ->). pose proof (wf_st_each s Hwf p c Hc) as Hwfc.
  rewrite load_save_cluster by apply Hwfc. by apply reloaded_wf.
Qed.

Lemma reloaded_equiv ρ now s : wf_state s → reloaded ρ now s ≡ s.
Proof.
  intros Hwf id. rewrite reloaded_find by done. destruct (find_cluster s id); [|done]. simpl. f_equal.
  unfold durable. simpl. rewrite <- map_fmap_compose. apply map_fmap_ext.
  intros. apply strip_affiliate_idem.
Qed.

Lemma snapshot_message_eq ρ s :
  wf_state s →
  snapshot_message ρ s = Ok (snapshotv1.mkSnapshot (omap (saved ρ s) (xm_range (clusters s)))).
Proof.
  intros Hwf. unfold snapshot_message. rewrite save_loop; [done|]. intros id p. by apply listed_ptr.
Qed.

(** Reading a file that holds the marshalled messages of [s]. *)
Lemma Load_saved ρ now path s data f fs :
  Marshal (snapshotv1.mkSnapshot (omap (saved ρ s) (xm_range (clusters s)))) = Ok data →
  fs !! path = Some f → f_content f = data →
  LoadSnapshot now None path fs = Ok (reloaded ρ now s).
Proof.
  intros Hm Hf Hd. unfold LoadSnapshot, ReadFile. rewrite Hf, Hd. simpl.
  by rewrite (Unmarshal_Marshal _ _ Hm).
Qed.

(** Every state of the disk during a save, for whichever call fails. *)
Lemma SaveSnapshot_states ρ φ tmpName path now s fs old :
  wf_state s → fs !! tmpName = None → tmpName ≠ path →
  LoadSnapshot now None path fs = Ok old →
  ∃ tr fs' r, SaveSnapshot ρ φ tmpName path s fs = Ok (tr, fs', r) ∧
    ∀ st, st ∈ tr ++ [fs'] →
      ∃ t, LoadSnapshot now None path st = Ok t ∧ (t = old ∨ t ≡ s) ∧
        (st = fs' → if is_ok r then t ≡ s else t = old).
Proof.
  intros Hwf Htmp Hne Hold. unfold SaveSnapshot. rewrite snapshot_message_eq by done. simpl.
  assert (∀ st, st !! path = fs !! path → LoadSnapshot now None path st = Ok old) as Hsame.
  { intros st E. unfold LoadSnapshot, ReadFile in *. by rewrite E. }
  destruct (Marshal _) as [data|e] eqn:Em.
  2: { exists [], fs, (Err e). split; [done|]. intros st ->%list_elem_of_singleton.
       exists old. split; [done|]. by split; [left|]. }
  pose proof (atomicWriteFile_states φ tmpName path data fs Htmp Hne) as Hw.
  destruct (atomicWriteFile _ _ _ _ _ _) as [[tr fs'] r]. destruct Hw as (Htr & Hr & _).
  exists tr, fs', r. split; [done|].
  assert (∀ st b, st = renamed path fs (new_file data) b →
    LoadSnapshot now None path st = Ok (reloaded ρ now s)) as Hnew.
  { intros st b ->. eapply Load_saved; [done | apply renamed_path | done]. }
  assert (∀ st, passes tmpName path fs data st → ∃ t, LoadSnapshot now None path st = Ok t ∧
    (t = old ∨ t ≡ s)) as Hall.
  { intros st [Hb|[b E]].
    - exists old. split; [|by left]. by apply Hsame, (before_rename_path tmpName).
    - exists (reloaded ρ now s). split; [by eapply Hnew|]. right. by apply reloaded_equiv. }
  rewrite Forall_forall in Htr. intros st Hst. destruct r as [[]|e].
  - assert (passes tmpName path fs data st) as Hp.
    { apply elem_of_app in Hst as [Hin|Hin%list_elem_of_singleton]; [by apply Htr|].
      subst st. right. by eexists. }
    destruct (Hall st Hp) as (t & Et & Ht). exists t. split; [done|]. split; [done|].
    intros ->. rewrite (Hnew fs' _ Hr) in Et. injection Et as <-. by apply reloaded_equiv.
  - assert (passes tmpName path fs data st) as Hp.
    { apply elem_of_app in Hst as [Hin|Hin%list_elem_of_singleton]; [by apply Htr|].
      subst st. left. apply Hr. }
    destruct (Hall st Hp) as (t & Et & Ht). exists t. split; [done|]. split; [done|].
    intros ->. rewrite (Hsame fs') in Et; [by injection Et as <-|].
    by apply (before_rename_path tmpName path), Hr.
Qed.

(** ** Properties *)

(** C8: a snapshot round trip.  If [SaveSnapshot] reports success, whatever
    order the maps were ranged over in, then [NewState] on the resulting files
    succeeds and returns a well-formed state with the same clusters and the
    same affiliates, data, endpoints and expiry times (to the wall clock); the
    clusters are given 30 more minutes and have no watchers. *)
Theorem snapshot_round_trip ρ φ tmpName path now s fs tr fs' :
  wf_state s → fs !! tmpName = None → tmpName ≠ path → path ≠ EmptyString →
  SaveSnapshot ρ φ tmpName path s fs = Ok (tr, fs', Ok ()) →
  ∃ s', NewState now None fs' [WithSnapshot path] = Ok s' ∧ wf_state s' ∧ s' ≡ s ∧
    (∀ id, state_table id s' = state_table id s) ∧
    ∀ id c, find_cluster s id = Some c →
      ∃ c', find_cluster s' id = Some c' ∧ affiliates c' = strip_affiliate <$> affiliates c ∧
        subscribers c' = ∅ ∧ cl_expiry c' = UnixNano (Add now ClusterTTL).
Proof.
  intros Hwf Htmp Hne Hpath E. unfold SaveSnapshot in E. rewrite snapshot_message_eq in E by done.
  simpl in E. destruct (Marshal _) as [data|e] eqn:Em; [|done].
  pose proof (atomicWriteFile_states φ tmpName path data fs Htmp Hne) as Hw.
  injection E as E. rewrite E in Hw. destruct Hw as (_ & -> & _).
  exists (reloaded ρ now s). split.
  { unfold NewState. cbn [foldl WithSnapshot]. unfold WithSnapshot. rewrite bool_decide_false by done.
    eapply (Load_saved ρ now path s data); [done | apply renamed_path | done]. }
  pose proof (reloaded_equiv ρ now s Hwf) as Heq.
  split; [by apply reloaded_wf_state|]. split; [done|]. split; [intros id; by rewrite Heq|].
  intros id c Hc. rewrite reloaded_find, Hc by done. eexists. by split_and!.
Qed.

(** Saving is crash-safe.  If the file under [path] loads as some state
    before, then at every moment of a [SaveSnapshot], however it fails and
    whether or not it returns, the file loads as that state or as the one
    being saved; when it has returned, it loads as the new one if it reports
    success and as the old one if not; and it never panics. *)
Theorem snapshot_crash_safe ρ φ tmpName path now s fs old :
  wf_state s → fs !! tmpName = None → tmpName ≠ path →
  LoadSnapshot now None path fs = Ok old →
  ∃ tr fs' r, SaveSnapshot ρ φ tmpName path s fs = Ok (tr, fs', r) ∧
    ∀ st, st ∈ tr ++ [fs'] →
      ∃ t, LoadSnapshot now None path st = Ok t ∧ (t = old ∨ t ≡ s) ∧
        (st = fs' → if is_ok r then t ≡ s else t = old).
Proof. apply SaveSnapshot_states. Qed.

End snapshot.

(** ** Witnesses, with concrete timestamps and a concrete codec *)

#[local] Instance byte_countable : Countable Byte.byte.
Proof.
  refine (inj_countable Byte.to_N Byte.of_N _). apply Byte.of_to_N.
Defined.

#[local] Instance pb_endpoint_eq_dec : EqDecision snapshotv1.Endpoint.
Proof. intros [d1 e1] [d2 e2]. unfold Decision. decide equality; apply (decide (_ = _)). Defined.
#[local] Instance pb_endpoint_countable : Countable snapshotv1.Endpoint.
Proof.
  refine (inj_countable' (λ e, (snapshotv1.ep_Data e, snapshotv1.ep_Expiry e))
    (λ t, snapshotv1.mkEndpoint t.1 t.2) _). by intros [].
Defined.
#[local] Instance pb_affiliate_eq_dec : EqDecision snapshotv1.Affiliate.
Proof. intros [? ? ? ?] [? ? ? ?]. unfold Decision. decide equality; apply (decide (_ = _)). Defined.
#[local] Instance pb_affiliate_countable : Countable snapshotv1.Affiliate.
Proof.
  refine (inj_countable' (λ a, (snapshotv1.aff_Id a, snapshotv1.aff_Data a, snapshotv1.aff_Expiry a,
      snapshotv1.aff_Endpoints a))
    (λ t, snapshotv1.mkAffiliate t.1.1.1 t.1.1.2 t.1.2 t.2) _). by intros [].
Defined.
#[local] Instance pb_cluster_eq_dec : EqDecision snapshotv1.Cluster.
Proof. intros [? ?] [? ?]. unfold Decision. decide equality; apply (decide (_ = _)). Defined.
#[local] Instance pb_cluster_countable : Countable snapshotv1.Cluster.
Proof.
  refine (inj_countable' (λ c, (snapshotv1.cl_Id c, snapshotv1.cl_Affiliates c))
    (λ t, snapshotv1.mkCluster t.1 t.2) _). by intros [].
Defined.
#[local] Instance pb_snapshot_eq_dec : EqDecision snapshotv1.Snapshot.
Proof. intros [?] [?]. unfold Decision. decide equality; apply (decide (_ = _)). Defined.
#[local] Instance pb_snapshot_countable : Countable snapshotv1.Snapshot.
Proof. refine (inj_countable' snapshotv1.Clusters snapshotv1.mkSnapshot _). by intros []. Defined.

#[local] Instance pb_snapshot_codec : Codec snapshotv1.Snapshot := countable_codec snapshotv1.Snapshot.
#[local] Instance pb_snapshot_codec_laws : CodecLaws snapshotv1.Snapshot :=
  countable_codec_laws snapshotv1.Snapshot.

(** A snapshot of the state with one affiliate, over an older file. *)
Definition sn_fs : FS :=
  match SaveSnapshot (order_fwd string) no_faults ".tmp-0" "state.db" state_empty_cluster ∅ with
  | Ok (_, fs, _) => fs
  | Err _ => ∅
  end.

Definition save_succeeds (r : result Panic (list FS * FS * result string ())) : bool :=
  match r with Ok (_, _, Ok _) => true | _ => false end.

Lemma sn_saves :
  save_succeeds
    (SaveSnapshot (order_bwd string) no_faults ".tmp-1" "state.db" state_one_affiliate sn_fs) = true.
Proof. by vm_compute. Qed.

Lemma sn_no_temp : sn_fs !! ".tmp-1" = None.
Proof. by vm_compute. Qed.

Lemma snapshot_round_trip_witness :
  match SaveSnapshot (order_bwd string) no_faults ".tmp-1" "state.db" state_one_affiliate sn_fs with
  | Ok (_, fs', Ok _) =>
      ∃ s', NewState st1 None fs' [WithSnapshot "state.db"] = Ok s' ∧ s' ≡ state_one_affiliate
  | _ => False
  end.
Proof.
  destruct (SaveSnapshot (order_bwd string) no_faults ".tmp-1" "state.db" state_one_affiliate sn_fs)
    as [[[tr fs'] [[]|e]]|e] eqn:E;
    [|by pose proof sn_saves as Hs; rewrite E in Hs ..].
  destruct (snapshot_round_trip (order_bwd string) no_faults ".tmp-1" "state.db" st1
    state_one_affiliate sn_fs tr fs' state_one_affiliate_wf sn_no_temp) as (s' & E' & _ & Heq & _);
    [by intros [=] | by intros [=] | exact E |].
  exists s'. split; [exact E' | exact Heq].
Defined.

(** The disk is full: the older snapshot still loads. *)
Lemma snapshot_crash_safe_witness :
  let φ := mkFaults None None (Some "no space left on device") 5 None None None None None true in
  ∃ old tr fs' r, LoadSnapshot st1 None "state.db" sn_fs = Ok old ∧
    SaveSnapshot (order_bwd string) φ ".tmp-1" "state.db" state_one_affiliate sn_fs = Ok (tr, fs', r) ∧
    ∃ t, LoadSnapshot st1 None "state.db" fs' = Ok t ∧ (t = old ∨ t ≡ state_one_affiliate).
Proof.
  intros φ. destruct (LoadSnapshot st1 None "state.db" sn_fs) as [old|e] eqn:Eold; [|by vm_compute in Eold].
  destruct (snapshot_crash_safe (order_bwd string) φ ".tmp-1" "state.db" st1 state_one_affiliate sn_fs old
    state_one_affiliate_wf sn_no_temp) as (tr & fs' & r & E & H); [by intros [=] | exact Eold |].
  exists old, tr, fs', r. split; [reflexivity|]. split; [exact E|].
  destruct (H fs') as (t & Et & Ht & _); [apply elem_of_app; right; left|].
  exists t. split; [exact Et | exact Ht].
Defined.
