(* ===== verification/Service.v ===== *)
(** * The service: requests, clean-up, snapshots and restarts

    [internal/server/server.go]: what [StartDiscoveryServer] builds, and its
    two actors, the clean-up loop and the snapshot loop, running beside the
    requests.  One event is one iteration of an actor's loop or one request. *)

From S2P Require Import Prelude GoTime GoChan ConfigTypes Limits Affiliate Cluster ClusterSubs.
From S2P Require Import ClusterFacts.
From S2P Require Import XMap State StateFacts GoStrings Grpc Protobuf Messages NetIP.
From S2P Require Import Validation.
From S2P Require Import Bounds Server.
From S2P Require Import ServerFacts ServerSafety FileSystem Snapshot SnapshotProps.

(** [durable_state] is what the last save that reported success saved, or what
    the service started from; [seen] is every state the disk has been in, with
    the [durable_state] and the state of the server at that moment. *)
Record Service (M : Type → Type) : Type := mkService {
  server : clusterServer M;
  disk : FS;
  ctx_done : bool;
  cleanup : ActorPC;
  snapshot : ActorPC;
  seen : list (FS * State M * State M);
  durable_state : State M;
}.
Arguments mkService {M}.
Arguments server {M}.
Arguments disk {M}.
Arguments ctx_done {M}.
Arguments cleanup {M}.
Arguments snapshot {M}.
Arguments seen {M}.
Arguments durable_state {M}.

Section service.
Context {M : Type → Type} `{XMap M} `{DurationPb} `{TimestampPb} `{Codec snapshotv1.Snapshot}.
Implicit Types v : Service M.

Definition set_server (s : clusterServer M) v : Service M :=
  mkService s (disk v) (ctx_done v) (cleanup v) (snapshot v) (seen v) (durable_state v).
Definition set_cleanup (a : ActorPC) v : Service M :=
  mkService (server v) (disk v) (ctx_done v) a (snapshot v) (seen v) (durable_state v).
Definition set_snapshot (a : ActorPC) v : Service M :=
  mkService (server v) (disk v) (ctx_done v) (cleanup v) a (seen v) (durable_state v).

Definition StartDiscoveryServer (now : Time) (read_fault : option string) (fs : FS)
    (cfg : DiscoveryConfig) : result string (Service M) :=
  match NewState now read_fault fs [WithSnapshot (SnapshotPath cfg)] with
  | Err e => Err ("failed to create state: " +:+ e)
  | Ok st =>
      Ok (mkService (newClusterServer st (RedirectEndpoint cfg)) fs false
            (addCleanupActor cfg) (addSnapshotActor cfg) [(fs, st, st)] st)
  end.

(** [st.SaveSnapshot(cfg.SnapshotPath)], its error only logged. *)
Definition save (ρ : MapOrder string) (φ : Faults) (tmpName : string) (cfg : DiscoveryConfig) v :
    result Panic (Service M) :=
  r <-? SaveSnapshot ρ φ tmpName (SnapshotPath cfg) (srv_state (server v)) (disk v) ;;
  let '(tr, fs', err) := r in
  Ok (mkService (server v) fs' (ctx_done v) (cleanup v) (snapshot v)
        (seen v ++ ((λ fs, (fs, durable_state v, srv_state (server v))) <$> tr ++ [fs']))
        (if is_ok err then srv_state (server v) else durable_state v)).

Inductive ServiceEvent : Type :=
| Request (op : ServerOp)
| Signal                                              (** the context ends *)
| CleanupTick (ρ : MapOrder string) (ρs : nat → MapOrder Z) (now : Time)
| CleanupDone                                         (** the clean-up actor sees it *)
| SnapshotTick (ρ : MapOrder string) (φ : Faults) (tmpName : string)
| SnapshotDone (ρ : MapOrder string) (φ : Faults) (tmpName : string).

(** [os.CreateTemp] chooses a name that no file has. *)
Definition temp_ok (cfg : DiscoveryConfig) (tmpName : string) v : bool :=
  bool_decide (disk v !! tmpName = None ∧ tmpName ≠ SnapshotPath cfg).

(** One event; one that cannot happen changes nothing.  When the context has
    ended and a tick is there too, [select] may take either. *)
Definition serve (cfg : DiscoveryConfig) v (e : ServiceEvent) : result Panic (Service M) :=
  match e with
  | Request (SCleanup _ _ _) => Ok v
  | Request op => s <-? run_server_op (server v) op ;; Ok (set_server s v)
  | Signal => Ok (mkService (server v) (disk v) true (cleanup v) (snapshot v) (seen v) (durable_state v))
  | CleanupTick ρ ρs now =>
      if bool_decide (cleanup v = Looping) then
        st <-? Cleanup ρ ρs now (srv_state (server v)) ;; Ok (set_server (with_state st (server v)) v)
      else Ok v
  | CleanupDone =>
      Ok (if bool_decide (cleanup v = Looping) && ctx_done v then set_cleanup Returned v else v)
  | SnapshotTick ρ φ tmpName =>
      if bool_decide (snapshot v = Looping) && temp_ok cfg tmpName v then save ρ φ tmpName cfg v else Ok v
  | SnapshotDone ρ φ tmpName =>
      if bool_decide (snapshot v = Looping) && ctx_done v && temp_ok cfg tmpName v then
        v' <-? save ρ φ tmpName cfg v ;; Ok (set_snapshot Returned v')
      else Ok v
  end.

End service.

(** ** Facts *)

Section facts.
Context {M : Type → Type} `{XMapLaws M} `{DurationPb} `{TimestampPbLaws} `{CodecLaws snapshotv1.Snapshot}.
Context (cfg : DiscoveryConfig) (now : Time).
Implicit Types v : Service M.

Definition loads (d : FS) (st : State M) : Prop :=
  ∃ t, LoadSnapshot now None (SnapshotPath cfg) d = Ok t ∧ t ≡ st.

Record service_inv (T n : Z) v : Prop := {
  sv_inv : server_inv T n (server v);
  sv_disk : loads (disk v) (durable_state v);
  sv_seen d old st : (d, old, st) ∈ seen v → loads d old ∨ loads d st;
}.

Lemma service_inv_server T n n' s v :
  service_inv T n v → server_inv T n' s → service_inv T n' (set_server s v).
Proof. intros [_ Hd Hs] Hi. by split. Qed.

Lemma service_inv_mono T n n' v : n ≤ n' → service_inv T n v → service_inv T n' v.
Proof. intros Hn [Hi Hd Hs]. split; [by eapply server_inv_mono | done..]. Qed.

Lemma temp_ok_spec tmpName v :
  temp_ok cfg tmpName v = true → disk v !! tmpName = None ∧ tmpName ≠ SnapshotPath cfg.
Proof. apply bool_decide_eq_true. Qed.

Lemma save_inv T n ρ φ tmpName v :
  service_inv T n v → temp_ok cfg tmpName v = true →
  ∃ v', save ρ φ tmpName cfg v = Ok v' ∧ service_inv T n v'.
Proof.
  intros [Hi (old & El & Eold) Hs] [Htmp Hne]%temp_ok_spec. unfold save.
  destruct (SaveSnapshot_states ρ φ tmpName (SnapshotPath cfg) now (srv_state (server v)) (disk v) old)
    as (tr & fs' & r & -> & Hst); [apply Hi | done..|]. cbn [rbind].
  eexists. split; [done|]. split; simpl.
  - done.
  - destruct (Hst fs') as (t & Et & _ & Hr); [apply elem_of_app; right; left|]. specialize (Hr eq_refl).
    exists t. split; [done|]. destruct (is_ok r); [done|]. by subst t.
  - intros d o st [Hin|Hin]%elem_of_app; [by eapply Hs|].
    apply list_elem_of_fmap in Hin as (d' & [= -> -> ->] & Hin).
    destruct (Hst d' Hin) as (t & Et & Ht & _). destruct Ht as [->|Ht]; [left | right]; by eexists.
Qed.

Definition event_before (T : Z) (e : ServiceEvent) : Prop :=
  match e with Request op => server_op_before T op | _ => True end.

Lemma set_snapshot_inv T n a v : service_inv T n v → service_inv T n (set_snapshot a v).
Proof. intros [Hi Hd Hs]. by split. Qed.

Lemma serve_inv T n v e :
  0 ≤ T → 0 ≤ n → n + 1 < two64 → service_inv T n v → event_before T e →
  ∃ v', serve cfg v e = Ok v' ∧ service_inv T (n + 1) v'.
Proof.
  intros HT Hn0 Hn Hv He.
  assert (service_inv T (n + 1) v) as Hv1 by (apply (service_inv_mono T n); [lia | done]).
  assert (∀ op, server_op_before T op →
    ∃ v', (s <-? run_server_op (server v) op ;; Ok (set_server s v)) = Ok v' ∧ service_inv T (n + 1) v') as Hop.
  { intros op Hop. destruct (run_server_op_inv T n (server v) op) as (s & -> & Hs); [done..|apply Hv|done|].
    simpl. eexists. split; [done|]. by apply (service_inv_server T n). }
  destruct e as [op| |ρ ρs t| |ρ φ tmp|ρ φ tmp]; cbn [serve].
  - destruct op; try (by apply Hop); by exists v.
  - eexists. split; [done|]. destruct Hv1 as [Hi Hd Hs]. by split.
  - case_bool_decide; [|by exists v].
    destruct (Hop (SCleanup ρ ρs t) I) as (v' & E & Hv'). simpl in E.
    destruct (Cleanup ρ ρs t (srv_state (server v))) as [st|]; [|done]. simpl in *.
    injection E as <-. by eexists.
  - eexists. split; [done|]. destruct Hv1 as [Hi Hd Hs]. by destruct (_ && _).
  - destruct (_ && _) eqn:E; [|by exists v]. apply andb_true_iff in E as [_ Ht].
    by apply (save_inv T (n + 1)).
  - destruct (_ && _) eqn:E; [|by exists v]. apply andb_true_iff in E as [_ Ht].
    destruct (save_inv T (n + 1) ρ φ tmp v Hv1 Ht) as (v' & -> & Hv'). simpl.
    eexists. split; [done|]. by apply set_snapshot_inv.
Qed.

Lemma serve_all_inv T n v evs :
  0 ≤ T → 0 ≤ n → n + len evs < two64 → service_inv T n v → Forall (event_before T) evs →
  ∃ v', rfold (serve cfg) v evs = Ok v' ∧ service_inv T (n + len evs) v'.
Proof.
  intros HT. revert n v. induction evs as [|e evs IH]; intros n v Hn0 Hn Hv He; simpl.
  { exists v. split; [done|]. unfold len. simpl. by rewrite Z.add_0_r. }
  apply Forall_cons in He as [He Hes]. unfold len in *. simpl in Hn.
  destruct (serve_inv T n v e) as (v1 & -> & Hv1); [done | done | lia | done..|]. simpl.
  destruct (IH (n + 1) v1) as (v' & E & Hv'); [lia | lia | done..|].
  exists v'. split; [done|]. eapply service_inv_mono; [|done]. lia.
Qed.

(** Loading a file later changes nothing that is compared. *)
Lemma load_entries_now now' (l : list snapshotv1.Cluster) (s t : State M) :
  clusters s = clusters t → affiliates <$> cstore s = affiliates <$> cstore t →
  foldl (load_entry now) s l ≡ foldl (load_entry now') t l.
Proof.
  revert s t. induction l as [|sc l IH]; intros s t Em Ea; simpl.
  - intros id. unfold find_cluster. rewrite Em. destruct (xm_view (clusters t) !! id) as [p|]; [|done]. simpl.
    assert (affiliates <$> cstore s !! p = affiliates <$> cstore t !! p) as E.
    { by rewrite <- !list_lookup_fmap, Ea. }
    destruct (cstore s !! p), (cstore t !! p); simplify_eq/=; [|done]. unfold durable. by f_equal; f_equal.
  - apply IH; simpl.
    + assert (length (cstore s) = length (cstore t)) as ->; [|by rewrite Em].
      by rewrite <- (length_fmap affiliates (cstore s)), Ea, length_fmap.
    + rewrite !fmap_app, Ea. csimpl. by rewrite !load_cluster_affiliates.
Qed.

Lemma load_later now0 d st :
  LoadSnapshot now0 None (SnapshotPath cfg) d = Ok st → loads d st.
Proof.
  unfold loads, LoadSnapshot. destruct (ReadFile _ _ d) as [data|[|e]]; [|by eexists|done].
  destruct (Unmarshal data) as [snap|]; [|done]. simpl. intros [= <-].
  eexists. split; [done|]. by apply load_entries_now.
Qed.

Lemma start_loads d st :
  SnapshotPath cfg ≠ EmptyString → loads d st →
  ∃ v, StartDiscoveryServer now None d cfg = Ok v ∧ srv_state (server v) ≡ st ∧
    ∀ id, state_table id (srv_state (server v)) = state_table id st.
Proof.
  intros Hp (t & Et & Eq). unfold StartDiscoveryServer, NewState. cbn [foldl WithSnapshot]. unfold WithSnapshot.
  rewrite bool_decide_false by done. rewrite Et. eexists. split; [done|]. split; [done|].
  intros id. simpl. by rewrite Eq.
Qed.

(** ** Property *)

(** C10: what a restart brings back.  Start the service on a file system it can
    read, let it serve any sequence of requests, clean-ups, snapshots (any of
    whose system calls may fail) and a shutdown: nothing panics; the service
    can then be started again, and shows, for every cluster, exactly the
    affiliates of the last snapshot that reported success, or those it was
    started with if none did; and if instead the machine stops at any moment,
    even inside a snapshot, it shows either those or the ones being saved. *)
Theorem restart_recovers_snapshot now0 T fs0 v0 evs :
  StartDiscoveryServer now0 None fs0 cfg = Ok v0 → SnapshotPath cfg ≠ EmptyString →
  server_inv T 0 (server v0) → 0 ≤ T → len evs < two64 → Forall (event_before T) evs →
  ∃ v, rfold (serve cfg) v0 evs = Ok v ∧
    (∃ v1, StartDiscoveryServer now None (disk v) cfg = Ok v1 ∧
       ∀ id, state_table id (srv_state (server v1)) = state_table id (durable_state v)) ∧
    ∀ d old st, (d, old, st) ∈ seen v →
      ∃ v1, StartDiscoveryServer now None d cfg = Ok v1 ∧
        ((∀ id, state_table id (srv_state (server v1)) = state_table id old) ∨
         (∀ id, state_table id (srv_state (server v1)) = state_table id st)).
Proof.
  intros E Hp Hi HT Hlen Hevs. unfold StartDiscoveryServer, NewState in E. cbn [foldl WithSnapshot] in E.
  unfold WithSnapshot in E. rewrite bool_decide_false in E by done.
  destruct (LoadSnapshot now0 None (SnapshotPath cfg) fs0) as [st0|] eqn:El; [|done]. injection E as <-.
  apply load_later in El. edestruct (serve_all_inv T 0) as (v & Ev & Hv); [done | done | exact Hlen | | done |].
  { split; [exact Hi | exact El |]. simpl. intros d old st Hin%list_elem_of_singleton. simplify_eq. by left. }
  exists v. split; [exact Ev|]. destruct Hv as [_ Hd Hs]. split.
  - destruct (start_loads _ _ Hp Hd) as (v1 & E1 & _ & Ht). eauto.
  - intros d old st Hin. destruct (Hs d old st Hin) as [Hl|Hl];
      destruct (start_loads _ _ Hp Hl) as (v1 & E1 & _ & Ht); eauto.
Qed.
End facts.

(** ** Witness *)

#[local] Existing Instance seconds_nanos_duration.
#[local] Existing Instance pb_snapshot_codec.
#[local] Existing Instance pb_snapshot_codec_laws.

Definition svc_cfg : DiscoveryConfig := mkDiscoveryConfig "" (60 * Second) "state.db" (60 * Second).

(** An update, a snapshot, a second update whose snapshot fails, a shutdown. *)
Definition svc_events : list ServiceEvent :=
  [Request (SUpdate (order_fwd Z) sv_t0 sv_t0 sv_request);
   SnapshotTick (order_fwd string) no_faults ".tmp-1";
   Request (SDelete (order_fwd Z) sv_t0 (Pb.mkDeleteRequest "c1" "node-1"));
   Signal;
   SnapshotDone (order_fwd string) (mkFaults None None (Some "disk full") 3 None None None None None true) ".tmp-2"].

Definition svc_start : Service (gmap string) :=
  mkService (newClusterServer empty_state "") ∅ false Looping Looping [(∅, empty_state, empty_state)] empty_state.

Lemma restart_recovers_snapshot_witness :
  ∃ v v1 : Service (gmap string), rfold (serve svc_cfg) svc_start svc_events = Ok v ∧
    StartDiscoveryServer sv_t0 None (disk v) svc_cfg = Ok v1 ∧
    state_table "c1" (srv_state (server v1)) = state_table "c1" (durable_state v).
Proof.
  destruct (restart_recovers_snapshot (M := gmap string) svc_cfg sv_t0 sv_t0 (1000 * Second) ∅ svc_start svc_events)
    as (v & E & (v1 & E1 & Ht) & _).
  - reflexivity.
  - intros [=].
  - apply server_inv_new.
  - by vm_compute.
  - by vm_compute.
  - by repeat constructor.
  - exists v, v1. split; [exact E|]. split; [exact E1 | exact (Ht "c1")].
Defined.
