(* ===== verification/Base64.v ===== *)
(** * Standard base64, as [encoding/base64] encodes it

    [StdEncoding.EncodeToString], three bytes at a time, and a decoder to
    state that nothing is lost. *)

From S2P Require Import Prelude GoStrings.
From Stdlib Require Import Strings.Byte.

Definition alphabet : bytes :=
  bs "ABCDEFGHIJKLMNOPQRSTUVWXYZabcdefghijklmnopqrstuvwxyz0123456789+/".

Definition pad : Byte.byte := x3d.

(** [enc.encode[v & 0x3F]] *)
Definition enc_char (v : Z) : Byte.byte := nth (Z.to_nat (Z.land v 63)) alphabet pad.

(** The block value [uint(src[0])<<16 | uint(src[1])<<8 | uint(src[2])]. *)
Definition block (x y z : Z) : Z := Z.lor (Z.lor (Z.shiftl x 16) (Z.shiftl y 8)) z.

Fixpoint encode_b64 (src : bytes) : bytes :=
  match src with
  | [] => []
  | [x] =>
      let v := block (byte_Z x) 0 0 in
      [enc_char (Z.shiftr v 18); enc_char (Z.shiftr v 12); pad; pad]
  | [x; y] =>
      let v := block (byte_Z x) (byte_Z y) 0 in
      [enc_char (Z.shiftr v 18); enc_char (Z.shiftr v 12); enc_char (Z.shiftr v 6); pad]
  | x :: y :: z :: rest =>
      let v := block (byte_Z x) (byte_Z y) (byte_Z z) in
      enc_char (Z.shiftr v 18) :: enc_char (Z.shiftr v 12) :: enc_char (Z.shiftr v 6) :: enc_char v
        :: encode_b64 rest
  end.

(** ** A decoder *)

Fixpoint index_in (c : Byte.byte) (l : bytes) (i : Z) : option Z :=
  match l with
  | [] => None
  | x :: l' => if bool_decide (x = c) then Some i else index_in c l' (i + 1)
  end.

Definition dec_char (c : Byte.byte) : option Z := index_in c alphabet 0.

Fixpoint decode_b64 (s : bytes) : option bytes :=
  match s with
  | [] => Some []
  | a :: b :: c :: d :: rest =>
      va ← dec_char a; vb ← dec_char b;
      if bool_decide (c = pad) then
        if bool_decide (d = pad ∧ rest = []) then Some [Z_byte (va * 4 + vb / 16)] else None
      else
        vc ← dec_char c;
        if bool_decide (d = pad) then
          if bool_decide (rest = []) then
            Some [Z_byte (va * 4 + vb / 16); Z_byte (vb mod 16 * 16 + vc / 4)]
          else None
        else
          vd ← dec_char d; tl ← decode_b64 rest;
          Some (Z_byte (va * 4 + vb / 16) :: Z_byte (vb mod 16 * 16 + vc / 4)
                  :: Z_byte (vc mod 4 * 64 + vd) :: tl)
  | _ => None
  end.

(** ** The round trip *)

Lemma lor_shiftl a b n : 0 ≤ n → 0 ≤ b < 2 ^ n → Z.lor (Z.shiftl a n) b = a * 2 ^ n + b.
Proof.
  intros Hn Hb. assert (Z.land (Z.shiftl a n) b = 0) as E.
  { apply Z.bits_inj'. intros i Hi. rewrite Z.land_spec, Z.bits_0.
    destruct (decide (i < n)); [by rewrite Z.shiftl_spec_low by lia|].
    replace b with (b mod 2 ^ n) by (by apply Z.mod_small).
    rewrite Z.mod_pow2_bits_high by lia. apply andb_false_r. }
  by rewrite <- Z.add_nocarry_lor, Z.shiftl_mul_pow2.
Qed.

Lemma block_value x y z :
  0 ≤ x < 256 → 0 ≤ y < 256 → 0 ≤ z < 256 → block x y z = x * 65536 + y * 256 + z.
Proof.
  intros Hx Hy Hz. unfold block. rewrite <- Z.lor_assoc, (lor_shiftl y z 8), lor_shiftl by lia. lia.
Qed.

Lemma dec_enc_char v : dec_char (enc_char v) = Some (v mod 64) ∧ enc_char v ≠ pad.
Proof.
  unfold enc_char. change 63 with (Z.ones 6). rewrite Z.land_ones by lia.
  pose proof (Z.mod_pos_bound v (2 ^ 6) eq_refl) as Hr. change (2 ^ 6) with 64 in *.
  set (r := v mod 64) in *. clearbody r. clear v.
  assert (forallb (λ n, bool_decide (dec_char (nth n alphabet pad) = Some (Z.of_nat n) ∧
    nth n alphabet pad ≠ pad)) (seq 0 64) = true) as Hall by by vm_compute.
  rewrite forallb_forall in Hall. specialize (Hall (Z.to_nat r)).
  rewrite bool_decide_eq_true in Hall. rewrite Z2Nat.id in Hall by lia. apply Hall, in_seq. lia.
Qed.

Local Arguments enc_char : simpl never.
Local Arguments dec_char : simpl never.

Lemma decode_encode_b64 b : decode_b64 (encode_b64 b) = Some b.
Proof.
  induction b as [|x b _ _ IH] using bytes_ind3; [done|].
  pose proof (byte_Z_range x). destruct b as [|y b].
  { cbn [encode_b64]. rewrite block_value, !Z.shiftr_div_pow2 by lia.
    set (v := byte_Z x * 65536 + 0 * 256 + 0). cbn [decode_b64].
    rewrite !(proj1 (dec_enc_char _)). cbn [mbind option_bind].
    rewrite !bool_decide_true by done. do 2 f_equal.
    rewrite <- (Z_byte_Z x). f_equal. unfold v. Z.to_euclidean_division_equations. lia. }
  pose proof (byte_Z_range y). destruct b as [|z b].
  { cbn [encode_b64]. rewrite block_value, !Z.shiftr_div_pow2 by lia.
    set (v := byte_Z x * 65536 + byte_Z y * 256 + 0). cbn [decode_b64].
    rewrite !(proj1 (dec_enc_char _)). cbn [mbind option_bind].
    rewrite bool_decide_false by apply dec_enc_char. rewrite !bool_decide_true by done. f_equal.
    rewrite <- (Z_byte_Z x), <- (Z_byte_Z y).
    f_equal; [|f_equal]; f_equal; unfold v; rewrite ?Z_byte_Z; Z.to_euclidean_division_equations; lia. }
  pose proof (byte_Z_range z). cbn [encode_b64]. rewrite block_value, !Z.shiftr_div_pow2 by lia.
  set (v := byte_Z x * 65536 + byte_Z y * 256 + byte_Z z). cbn [decode_b64].
  rewrite !(proj1 (dec_enc_char _)). cbn [mbind option_bind].
  rewrite !bool_decide_false by apply dec_enc_char. rewrite (IH y z b eq_refl). cbn [mbind option_bind].
  f_equal. rewrite <- (Z_byte_Z x), <- (Z_byte_Z y), <- (Z_byte_Z z).
  f_equal; [|f_equal; [|f_equal]]; try done; f_equal; unfold v; rewrite ?Z_byte_Z;
    Z.to_euclidean_division_equations; lia.
Qed.
