(* ===== verification/Json.v ===== *)
(** * [encoding/json] strings

    The string encoder of Go's [json.Marshal] (with HTML escaping, its
    default), byte by byte, and a parser to state that nothing is lost. *)

From S2P Require Import Prelude GoStrings.
From Stdlib Require Import Strings.Byte.

Definition quote : Byte.byte := x22.
Definition backslash : Byte.byte := x5c.

(** ** UTF-8 *)

Definition in_range (lo hi : Z) (b : Byte.byte) : bool := (lo <=? byte_Z b) && (byte_Z b <=? hi).
Definition cont (b : Byte.byte) : bool := in_range 128 191 b.

(** The well-formed sequences of two, three and four bytes. *)
Definition utf8_2 (a b : Byte.byte) : bool := in_range 194 223 a && cont b.
Definition utf8_3 (a b c : Byte.byte) : bool :=
  ((bool_decide (a = xe0) && in_range 160 191 b)
   || (in_range 225 236 a && cont b)
   || (bool_decide (a = xed) && in_range 128 159 b)
   || (in_range 238 239 a && cont b)) && cont c.
Definition utf8_4 (a b c d : Byte.byte) : bool :=
  ((bool_decide (a = xf0) && in_range 144 191 b)
   || (in_range 241 243 a && cont b)
   || (bool_decide (a = xf4) && in_range 128 143 b)) && cont c && cont d.

Definition ascii (b : Byte.byte) : bool := byte_Z b <? 128.

(** U+2028 and U+2029. *)
Definition line_sep (a b c : Byte.byte) : bool :=
  bool_decide (a = xe2) && bool_decide (b = x80) && (bool_decide (c = xa8) || bool_decide (c = xa9)).

(** ** Encoding *)

Definition hex_lower (n : Z) : Byte.byte := nth (Z.to_nat n) (bs "0123456789abcdef") quote.

(** An ASCII byte. *)
Definition json_ascii (c : Byte.byte) : bytes :=
  match c with
  | x22 | x5c => [backslash; c]
  | x08 => bs "\b"
  | x0c => bs "\f"
  | x0a => bs "\n"
  | x0d => bs "\r"
  | x09 => bs "\t"
  | _ =>
      if (byte_Z c <? 32) || bool_decide (c = x3c) || bool_decide (c = x3e) || bool_decide (c = x26)
      then bs "\u00" ++ [hex_lower (Z.shiftr (byte_Z c) 4); hex_lower (Z.land (byte_Z c) 15)]
      else [c]
  end.

Fixpoint json_chars (s : bytes) : bytes :=
  match s with
  | [] => []
  | a :: t1 =>
      if ascii a then json_ascii a ++ json_chars t1 else
      match t1 with
      | b :: t2 =>
          if utf8_2 a b then a :: b :: json_chars t2 else
          match t2 with
          | c :: t3 =>
              if utf8_3 a b c then
                if line_sep a b c then bs "\u202" ++ [hex_lower (Z.land (byte_Z c) 15)] ++ json_chars t3
                else a :: b :: c :: json_chars t3
              else
                match t3 with
                | d :: t4 =>
                    if utf8_4 a b c d then a :: b :: c :: d :: json_chars t4
                    else bs "\ufffd" ++ json_chars t1
                | [] => bs "\ufffd" ++ json_chars t1
                end
          | [] => bs "\ufffd" ++ json_chars t1
          end
      | [] => bs "\ufffd" ++ json_chars t1
      end
  end.

Definition json_string (s : bytes) : bytes := quote :: json_chars s ++ [quote].

(** Text that the encoder passes on without replacing anything. *)
Fixpoint valid_utf8 (s : bytes) : bool :=
  match s with
  | [] => true
  | a :: t1 =>
      if ascii a then valid_utf8 t1 else
      match t1 with
      | b :: t2 =>
          if utf8_2 a b then valid_utf8 t2 else
          match t2 with
          | c :: t3 =>
              if utf8_3 a b c then valid_utf8 t3 else
              match t3 with
              | d :: t4 => utf8_4 a b c d && valid_utf8 t4
              | [] => false
              end
          | [] => false
          end
      | [] => false
      end
  end.

(** ** Parsing the inside of a string, up to its closing quote *)

Definition hex_value (c : Byte.byte) : option Z :=
  let z := byte_Z c in
  if (48 <=? z) && (z <=? 57) then Some (z - 48)
  else if (97 <=? z) && (z <=? 102) then Some (z - 87) else None.

(** The escape after a backslash, for the runes the encoder escapes. *)
Definition unescape (c : Byte.byte) : option Byte.byte :=
  match c with
  | x22 => Some x22 | x5c => Some x5c
  | x62 => Some x08 | x66 => Some x0c | x6e => Some x0a | x72 => Some x0d | x74 => Some x09
  | _ => None
  end.

Definition unescape_u (h1 h2 h3 h4 : Byte.byte) : option bytes :=
  v3 ← hex_value h3; v4 ← hex_value h4;
  if bool_decide (h1 = x30 ∧ h2 = x30) then Some [Z_byte (v3 * 16 + v4)]
  else if bool_decide (h1 = x32 ∧ h2 = x30 ∧ h3 = x32) then Some [xe2; x80; Z_byte (160 + v4)]
  else None.

Fixpoint parse_chars (s : bytes) : option (bytes * bytes) :=
  match s with
  | [] => None
  | c :: s1 =>
      if bool_decide (c = quote) then Some ([], s1)
      else if bool_decide (c = backslash) then
        match s1 with
        | x75 :: h1 :: h2 :: h3 :: h4 :: s2 =>
            u ← unescape_u h1 h2 h3 h4; r ← parse_chars s2; Some (u ++ r.1, r.2)
        | e :: s2 => u ← unescape e; r ← parse_chars s2; Some (u :: r.1, r.2)
        | [] => None
        end
      else r ← parse_chars s1; Some (c :: r.1, r.2)
  end.

Definition parse_string (s : bytes) : option (bytes * bytes) :=
  match s with c :: s1 => if bool_decide (c = quote) then parse_chars s1 else None | [] => None end.

(** ** The round trip *)

Lemma parse_plain c s t rest :
  c ≠ quote → c ≠ backslash → parse_chars s = Some (t, rest) →
  parse_chars (c :: s) = Some (c :: t, rest).
Proof. intros Hq Hb E. simpl. rewrite !bool_decide_false by done. by rewrite E. Qed.

Lemma parse_u h1 h2 h3 h4 u s t rest :
  unescape_u h1 h2 h3 h4 = Some u → parse_chars s = Some (t, rest) →
  parse_chars (backslash :: x75 :: h1 :: h2 :: h3 :: h4 :: s) = Some (u ++ t, rest).
Proof. intros Hu E. simpl. rewrite Hu. simpl. by rewrite E. Qed.

Lemma parse_ascii c s t rest :
  ascii c = true → parse_chars s = Some (t, rest) →
  parse_chars (json_ascii c ++ s) = Some (c :: t, rest).
Proof.
  intros Hc E. destruct c; try discriminate Hc; clear Hc;
    match goal with |- parse_chars (json_ascii ?c ++ _) = _ =>
      let l := eval vm_compute in (json_ascii c) in change (json_ascii c) with l end;
    cbn [app];
    first [ by apply parse_plain
          | eapply (parse_u _ _ _ _ [_]); [reflexivity | exact E]
          | simpl; by rewrite E ].
Qed.

Lemma high_plain c : ascii c = false → c ≠ quote ∧ c ≠ backslash.
Proof. by destruct c. Qed.

Lemma cont_high c : cont c = true → ascii c = false.
Proof. by destruct c. Qed.

Lemma in_range_high lo hi c : 128 ≤ lo → in_range lo hi c = true → ascii c = false.
Proof. unfold in_range, ascii. intros Hlo [?%Z.leb_le _]%andb_true_iff. apply Z.ltb_ge. lia. Qed.

Lemma utf8_2_high a b : utf8_2 a b = true → ascii b = false.
Proof. unfold utf8_2. intros [_ ?]%andb_true_iff. by apply cont_high. Qed.

Lemma utf8_3_high a b c : utf8_3 a b c = true → ascii b = false ∧ ascii c = false.
Proof.
  unfold utf8_3. intros [H ?%cont_high]%andb_true_iff. split; [|done].
  rewrite !orb_true_iff, !andb_true_iff in H.
  destruct H as [[[[_ H]|[_ H]]|[_ H]]|[_ H]]; eauto using cont_high, in_range_high with lia.
  all: by eapply in_range_high; [|exact H].
Qed.

Lemma utf8_4_high a b c d :
  utf8_4 a b c d = true → ascii b = false ∧ ascii c = false ∧ ascii d = false.
Proof.
  unfold utf8_4. intros [[H ?%cont_high]%andb_true_iff ?%cont_high]%andb_true_iff. split; [|done].
  rewrite !orb_true_iff, !andb_true_iff in H.
  destruct H as [[[_ H]|[_ H]]|[_ H]]; eauto using cont_high.
  all: by eapply in_range_high; [|exact H].
Qed.

Lemma parse_high c s t rest :
  ascii c = false → parse_chars s = Some (t, rest) → parse_chars (c :: s) = Some (c :: t, rest).
Proof. intros [? ?]%high_plain. by apply parse_plain. Qed.

Lemma parse_line_sep a b c s t rest :
  line_sep a b c = true → parse_chars s = Some (t, rest) →
  parse_chars (bs "\u202" ++ [hex_lower (Z.land (byte_Z c) 15)] ++ s) = Some (a :: b :: c :: t, rest).
Proof.
  unfold line_sep. rewrite !andb_true_iff, orb_true_iff, !bool_decide_eq_true.
  intros [[-> ->] [-> | ->]] E; by apply (parse_u _ _ _ _ [xe2; x80; _]).
Qed.

(** Induction on a byte string up to four bytes at a time. *)
Lemma bytes_ind_suffix (P : bytes → Prop) :
  (∀ s, (∀ s', (length s' < length s)%nat → P s') → P s) → ∀ s, P s.
Proof.
  intros H s. remember (length s) as n eqn:En. revert s En.
  induction (lt_wf n) as [n _ IH]. intros s ->. apply H. intros s' Hs'. by eapply IH.
Qed.

Lemma parse_json_chars s rest :
  valid_utf8 s = true → parse_chars (json_chars s ++ quote :: rest) = Some (s, rest).
Proof.
  induction s as [s IH] using bytes_ind_suffix. destruct s as [|a t1]; [done|]. simpl.
  destruct (ascii a) eqn:Ea.
  { intros Hv. rewrite <- app_assoc. apply parse_ascii; [done|]. apply IH; [simpl; lia | done]. }
  destruct t1 as [|b t2]; [done|]. destruct (utf8_2 a b) eqn:E2.
  { intros Hv. cbn [app]. apply utf8_2_high in E2.
    do 2 (apply parse_high; [done|]). apply IH; [simpl; lia | done]. }
  destruct t2 as [|c t3]; [done|]. destruct (utf8_3 a b c) eqn:E3.
  { intros Hv. apply utf8_3_high in E3 as [??]. destruct (line_sep a b c) eqn:El.
    - refine (parse_line_sep _ _ _ (json_chars t3 ++ quote :: rest) _ _ El _).
      apply IH; [simpl; lia | done].
    - cbn [app]. do 3 (apply parse_high; [done|]). apply IH; [simpl; lia | done]. }
  destruct t3 as [|d t4]; [done|]. intros [E4 Hv]%andb_true_iff. rewrite E4. cbn [app].
  apply utf8_4_high in E4 as (? & ? & ?).
  do 4 (apply parse_high; [done|]). apply IH; [simpl; lia | done].
Qed.

Lemma parse_json_string s rest :
  valid_utf8 s = true → parse_string (json_string s ++ rest) = Some (s, rest).
Proof.
  intros Hv. unfold json_string. cbn [app parse_string]. rewrite bool_decide_true by done.
  rewrite <- app_assoc. by apply parse_json_chars.
Qed.

(** ** No control characters: the text of a string is a single line *)

Definition printable (b : Byte.byte) : bool := 32 <=? byte_Z b.

Lemma json_ascii_printable c : ascii c = true → forallb printable (json_ascii c) = true.
Proof. by destruct c. Qed.

Lemma high_printable c : ascii c = false → printable c = true.
Proof. by destruct c. Qed.

Lemma json_chars_printable s : forallb printable (json_chars s) = true.
Proof.
  induction s as [s IH] using bytes_ind_suffix. destruct s as [|a t1]; [done|]. cbn [json_chars].
  destruct (ascii a) eqn:Ea.
  { rewrite forallb_app, json_ascii_printable, IH by (simpl; lia || done). done. }
  assert (forallb printable (bs "\ufffd" ++ json_chars t1) = true) as Hbad.
  { rewrite forallb_app, IH by (simpl; lia). done. }
  destruct t1 as [|b t2]; [done|]. destruct (utf8_2 a b) eqn:E2.
  { apply utf8_2_high in E2. simpl. rewrite !high_printable, IH by (simpl; lia || done). done. }
  destruct t2 as [|c t3]; [done|]. destruct (utf8_3 a b c) eqn:E3.
  { apply utf8_3_high in E3 as [??]. destruct (line_sep a b c) eqn:El.
    - rewrite !forallb_app, IH by (simpl; lia). simpl. rewrite andb_true_r. unfold hex_lower.
      assert (∀ n, (n < 16)%nat → printable (nth n (bs "0123456789abcdef") quote) = true) as Hn.
      { intros n Hn. do 16 (destruct n as [|n]; [done|]). lia. }
      rewrite Hn; [done|]. change 15 with (Z.ones 4). rewrite Z.land_ones by lia.
      pose proof (Z.mod_pos_bound (byte_Z c) (2 ^ 4) eq_refl). lia.
    - simpl. rewrite !high_printable, IH by (simpl; lia || done). done. }
  destruct t3 as [|d t4]; [done|]. destruct (utf8_4 a b c d) eqn:E4; [|done].
  apply utf8_4_high in E4 as (? & ? & ?). simpl.
  rewrite !high_printable, IH by (simpl; lia || done). done.
Qed.
