(* ===== verification/Utf8.v ===== *)
(** * [strings.ToValidUTF8]

    Each run of bytes that are not well-formed UTF-8 is replaced, once, by a
    replacement text.  The recogniser of well-formed sequences is that of the
    JSON encoder. *)

From S2P Require Import Prelude GoStrings Json.
From Stdlib Require Import Strings.Byte.

(** U+FFFD *)
Definition replacement_char : bytes := [xef; xbf; xbd].

(** [bad]: the byte before was replaced. *)
Fixpoint replace_runs (r : bytes) (bad : bool) (s : bytes) : bytes :=
  match s with
  | [] => []
  | a :: t1 =>
      if ascii a then a :: replace_runs r false t1 else
      let invalid := (if bad then [] else r) ++ replace_runs r true t1 in
      match t1 with
      | b :: t2 =>
          if utf8_2 a b then a :: b :: replace_runs r false t2 else
          match t2 with
          | c :: t3 =>
              if utf8_3 a b c then a :: b :: c :: replace_runs r false t3 else
              match t3 with
              | d :: t4 =>
                  if utf8_4 a b c d then a :: b :: c :: d :: replace_runs r false t4 else invalid
              | [] => invalid
              end
          | [] => invalid
          end
      | [] => invalid
      end
  end.

Definition ToValidUTF8 (s : string) (r : bytes) : string :=
  bytes_string (replace_runs r false (string_bytes s)).

(** ** Facts *)

(** A first byte that is neither ASCII nor the start of a sequence decides. *)
Lemma valid_utf8_replacement s : valid_utf8 (replacement_char ++ s) = valid_utf8 s.
Proof. done. Qed.

(** Of what starts with a byte that is not ASCII, a prefix is well formed in
    one way only; these say so for the sequences of two, three and four. *)
Lemma valid_utf8_3 a b c s :
  ascii a = false → utf8_2 a b = false → utf8_3 a b c = true →
  valid_utf8 (a :: b :: c :: s) = valid_utf8 s.
Proof. simpl. by intros -> -> ->. Qed.

Lemma valid_utf8_4 a b c d s :
  ascii a = false → utf8_2 a b = false → utf8_3 a b c = false → utf8_4 a b c d = true →
  valid_utf8 (a :: b :: c :: d :: s) = valid_utf8 s.
Proof. simpl. by intros -> -> -> ->. Qed.

Lemma replace_runs_valid bad s : valid_utf8 (replace_runs replacement_char bad s) = true.
Proof.
  revert bad. induction s as [s IH] using bytes_ind_suffix. intros bad. destruct s as [|a t1]; [done|].
  assert (valid_utf8 ((if bad then [] else replacement_char)
    ++ replace_runs replacement_char true t1) = true) as Hbad.
  { destruct bad; [|rewrite valid_utf8_replacement]; apply IH; simpl; lia. }
  cbn [replace_runs]. destruct (ascii a) eqn:Ea.
  { cbn [valid_utf8]. rewrite Ea. apply IH. simpl. lia. }
  destruct t1 as [|b t2]; [done|]. destruct (utf8_2 a b) eqn:E2.
  { cbn [valid_utf8]. rewrite Ea, E2. apply IH. simpl. lia. }
  destruct t2 as [|c t3]; [done|]. destruct (utf8_3 a b c) eqn:E3.
  { rewrite valid_utf8_3 by done. apply IH. simpl. lia. }
  destruct t3 as [|d t4]; [done|]. destruct (utf8_4 a b c d) eqn:E4; [|done].
  rewrite valid_utf8_4 by done. apply IH. simpl. lia.
Qed.

Lemma replace_runs_id r bad s : valid_utf8 s = true → replace_runs r bad s = s.
Proof.
  revert bad. induction s as [s IH] using bytes_ind_suffix. intros bad. destruct s as [|a t1]; [done|].
  cbn [replace_runs valid_utf8]. destruct (ascii a) eqn:Ea.
  { intros Hv. f_equal. apply IH; [simpl; lia | done]. }
  destruct t1 as [|b t2]; [done|]. destruct (utf8_2 a b) eqn:E2.
  { intros Hv. do 2 f_equal. apply IH; [simpl; lia | done]. }
  destruct t2 as [|c t3]; [done|]. destruct (utf8_3 a b c) eqn:E3.
  { intros Hv. do 3 f_equal. apply IH; [simpl; lia | done]. }
  destruct t3 as [|d t4]; [done|]. intros [E4 Hv]%andb_true_iff. rewrite E4.
  do 4 f_equal. apply IH; [simpl; lia | done].
Qed.

(** [utf8.ValidString] *)
Definition ValidString (s : string) : bool := valid_utf8 (string_bytes s).

Lemma string_bytes_of b : string_bytes (bytes_string b) = b.
Proof. apply String.list_byte_of_string_of_list_byte. Qed.

Lemma bytes_string_of s : bytes_string (string_bytes s) = s.
Proof. apply String.string_of_list_byte_of_string. Qed.

Lemma ToValidUTF8_valid s : ValidString (ToValidUTF8 s replacement_char) = true.
Proof. unfold ValidString, ToValidUTF8. rewrite string_bytes_of. apply replace_runs_valid. Qed.

Lemma ToValidUTF8_id s r : ValidString s = true → ToValidUTF8 s r = s.
Proof.
  intros Hv. unfold ToValidUTF8. by rewrite replace_runs_id, bytes_string_of.
Qed.

(** Concatenation of valid texts, where the first is ASCII. *)
Lemma ValidString_ascii s : forallb ascii (string_bytes s) = true → ValidString s = true.
Proof.
  unfold ValidString. induction (string_bytes s) as [|b l IH]; [done|]. simpl.
  intros [-> Hl]%andb_true_iff. by apply IH.
Qed.
