(* ===== verification/Metrics.v ===== *)
(** * The HTTP metrics ([internal/metrics/prometheus.go])

    The middleware that counts and times requests, the default status, the
    gin handler around the middleware, and the handler that exposes metrics.
    [C] is what a handler can reach: gin's context and the metric vectors; [W]
    is the state of the registries.  gin and the Prometheus library are classes
    with the behaviour their documentation gives.  The service installs the
    handler only; the middleware is exported for use by others. *)

From stdpp Require Import sorting pretty.
From S2P Require Import Prelude GoTime GoChan GoErrors GoSort GoStrings Json Utf8 Labels.
From Stdlib Require Import Floats.SpecFloat.

(** ** The standard library *)

(** [float64(d)] rounds to nearest, ties to even. *)
Definition float64 (d : Z) : spec_float := binary_normalize 53 1024 d 0 false.

(** [strconv.Itoa] *)
Definition Itoa (i : Z) : string := pretty i.

(** [l[i] = x] *)
Definition set_index {A : Type} (i : Z) (x : A) (l : list A) : result Panic (list A) :=
  if (0 <=? i) && (i <? Z.of_nat (length l)) then Ok (<[Z.to_nat i := x]> l) else Err IndexOutOfRange.

(** ** Libraries *)

(** [gin.Context]. *)
Class GinContext (C : Type) : Type := {
  FullPath : C → string;
  Request_Method : C → string;
  Request_Host : C → string;
  Writer_Status : C → Z;
  c_Errors : C → list error;
  c_Next : C → result Panic C;
  c_Error : error → C → C;
  time_Now : C → Time;
}.

Record MetricOpts : Type := mkOpts {
  opts_Namespace : string;
  opts_Subsystem : string;
  opts_Name : string;
  opts_Help : string;
}.

(** [prometheus.NewCounterVec] and [prometheus.NewHistogramVec] (whose opts
    also name the default buckets). *)
Inductive Collector : Type :=
| NewCounterVec (opts : MetricOpts) (labelNames : list string)
| NewHistogramVec (opts : MetricOpts) (labelNames : list string).

Definition collector_labels (v : Collector) : list string :=
  match v with NewCounterVec _ ls | NewHistogramVec _ ls => ls end.

(** [Registerer] is a reference to a registry.  A metric is its vector and its
    label values; [GetMetricWithLabelValues] may refuse to give it. *)
Class Prometheus (C W : Type) : Type := {
  Registerer : Type;
  DefaultRegisterer : Registerer;
  Register : Registerer → Collector → W → W * option error;
  GetMetricWithLabelValues : Collector → list string → option error;
  Observe : Collector → list string → spec_float → C → C;
  Inc : Collector → list string → C → C;
}.
Arguments Registerer : clear implicits.
Arguments Registerer C W {_}.
Arguments GetMetricWithLabelValues C W {_} _ _.
Arguments Observe {C} W {_} _ _ _ _.
Arguments Inc {C} W {_} _ _ _.
Arguments DefaultRegisterer C W {_}.
Arguments Register C {W _} _ _ _.

(** What the documentation says: the error of [GetMetricWithLabelValues] is for
    another number of values than of labels, or for values that are not UTF-8
    (and a histogram, which has a label "le" of its own, refuses another one);
    [c.Error] appends; metrics are not part of gin's context. *)
Class PrometheusLaws (C W : Type) `{GinContext C, !Prometheus C W} : Prop := {
  get_metric v vs :
    length vs = length (collector_labels v) → forallb ValidString vs = true →
    "le" ∉ collector_labels v → GetMetricWithLabelValues C W v vs = None;
  errors_Error e (c : C) : c_Errors (c_Error e c) = c_Errors c ++ [e];
  errors_Observe v vs x (c : C) : c_Errors (Observe W v vs x c) = c_Errors c;
  errors_Inc v vs (c : C) : c_Errors (Inc W v vs c) = c_Errors c;
}.

Section metrics.
Context {C W : Type} `{GinContext C, !Prometheus C W}.

(** ** Types *)

Definition HandlerFunc : Type := C → result Panic (C * option error).
Definition MiddlewareFunc : Type := HandlerFunc → HandlerFunc.
Definition LabelValueFunc : Type := C → option error → string.

(** A nil function or interface is [None]. *)
Record MiddlewareConfig : Type := mkMiddlewareConfig {
  Namespace : string;
  Subsystem : string;
  IncludeHost : bool;
  LabelFuncs : gmap string LabelValueFunc;
  HistogramOptsFunc : option (MetricOpts → MetricOpts);
  CounterOptsFunc : option (MetricOpts → MetricOpts);
  conf_Registerer : option (Registerer C W);
  timeNow : option (C → Time);
  StatusCodeResolver : option (C → option error → Z);
}.

Definition defaultSubsystem : string := "gin".

Definition defaultStatusResolver (c : C) (err : option error) : Z :=
  let status := Writer_Status c in
  let status :=
    match err with
    | Some _ => if (status =? 0) || (status =? 200) then 500 else status
    | None => status
    end in
  if status =? 0 then 200 else status.

(** The configuration with its defaults. *)
Definition with_defaults (conf : MiddlewareConfig) : MiddlewareConfig :=
  mkMiddlewareConfig (Namespace conf)
    (if bool_decide (Subsystem conf = EmptyString) then defaultSubsystem else Subsystem conf)
    (IncludeHost conf) (LabelFuncs conf)
    (Some (default (λ opts, opts) (HistogramOptsFunc conf)))
    (Some (default (λ opts, opts) (CounterOptsFunc conf)))
    (Some (default (DefaultRegisterer C W) (conf_Registerer conf)))
    (Some (default time_Now (timeNow conf)))
    (Some (default defaultStatusResolver (StatusCodeResolver conf))).

(** ** The labels and the vectors *)

Definition baseLabels (conf : MiddlewareConfig) : list string :=
  ["code"; "method"; "url"] ++ (if IncludeHost conf then ["host"] else []).

Definition middleware_labels (ρ : MapOrder string) (σ : SliceSort) (conf : MiddlewareConfig) :
    list string * list (customLabelValuer LabelValueFunc) :=
  createLabels ρ σ (baseLabels conf) (LabelFuncs conf).

Definition requestCount (conf : MiddlewareConfig) (labelNames : list string) : Collector :=
  NewCounterVec (default (λ opts, opts) (CounterOptsFunc conf)
    (mkOpts (Namespace conf) (Subsystem conf) "requests_total"
       "How many HTTP requests processed, partitioned by status code and HTTP method.")) labelNames.

Definition requestDuration (conf : MiddlewareConfig) (labelNames : list string) : Collector :=
  NewHistogramVec (default (λ opts, opts) (HistogramOptsFunc conf)
    (mkOpts (Namespace conf) (Subsystem conf) "request_duration_seconds"
       "The HTTP request latencies in seconds.")) labelNames.

(** ** A request *)

(** The switch on the name of a label. *)
Definition base_value (c : C) (status : Z) (url name : string) : string :=
  if bool_decide (name = "code") then Itoa status
  else if bool_decide (name = "method") then Request_Method c
  else if bool_decide (name = "host") then Request_Host c
  else if bool_decide (name = "url") then ToValidUTF8 url replacement_char
  else EmptyString.

Definition request_values (conf : MiddlewareConfig) (labelNames : list string)
    (customValuers : list (customLabelValuer LabelValueFunc)) (c : C) (err : option error) :
    result Panic (list string) :=
  let url := if bool_decide (FullPath c = EmptyString) then "/" else FullPath c in
  let status := default defaultStatusResolver (StatusCodeResolver conf) c err in
  rfold (λ values cv, set_index (index cv) (valueFunc cv c err) values)
    (base_value c status url <$> labelNames) customValuers.

(** Observing the duration, then counting the request. *)
Definition record_request (cnt hist : Collector) (values : list string) (elapsed : spec_float)
    (c : C) (err : option error) : C * option error :=
  match GetMetricWithLabelValues C W hist values with
  | Some e => (c, Some (Errorf "failed to label request duration metric with values, err: " e))
  | None =>
      let c := Observe W hist values elapsed c in
      match GetMetricWithLabelValues C W cnt values with
      | Some e => (c, Some (Errorf "failed to label request count metric with values, err: " e))
      | None => (Inc W cnt values c, err)
      end
  end.

Definition serve_request (conf : MiddlewareConfig) (labelNames : list string)
    (customValuers : list (customLabelValuer LabelValueFunc)) : MiddlewareFunc := λ next c,
  let now := default time_Now (timeNow conf) in
  let start := now c in
  r <-? next c ;;
  let '(c, err) := r in
  let elapsed := SFdiv 53 1024 (float64 (Sub (now c) start)) (float64 Second) in
  values <-? request_values conf labelNames customValuers c err ;;
  Ok (record_request (requestCount conf labelNames) (requestDuration conf labelNames) values elapsed c err).

Definition ToMiddleware (ρ : MapOrder string) (σ : SliceSort) (conf : MiddlewareConfig) (w : W) :
    W * result error MiddlewareFunc :=
  let conf := with_defaults conf in
  let '(labelNames, customValuers) := middleware_labels ρ σ conf in
  let reg := default (DefaultRegisterer C W) (conf_Registerer conf) in
  match Register C reg (requestCount conf labelNames) w with
  | (w, Some err) => (w, Err err)
  | (w, None) =>
      match Register C reg (requestDuration conf labelNames) w with
      | (w, Some err) => (w, Err err)
      | (w, None) => (w, Ok (serve_request conf labelNames customValuers))
      end
  end.

Definition NewMiddlewareWithConfig := ToMiddleware.

Definition NewMiddleware (ρ : MapOrder string) (σ : SliceSort) (subsystem : string) (w : W) :
    W * result error MiddlewareFunc :=
  NewMiddlewareWithConfig ρ σ
    (mkMiddlewareConfig "" subsystem false ∅ None None None None None) w.

(** ** gin's handlers *)

Definition GinMiddleware (m : MiddlewareFunc) (c : C) : result Panic C :=
  let next : HandlerFunc := λ ctx, ctx <-? c_Next ctx ;; Ok (ctx, head (c_Errors ctx)) in
  r <-? m next c ;;
  Ok (match r with
      | (c, Some err) => c_Error err c
      | (c, None) => c
      end).

End metrics.
Arguments MiddlewareConfig C W {_}.

(** [promhttp]: handlers for a gatherer; a registry is both a gatherer and a
    registerer. *)
Class PromHTTP (C W : Type) `{!Prometheus C W} : Type := {
  Gatherer : Type;
  DefaultGatherer : Gatherer;
  as_Registerer : Gatherer → option (Registerer C W);
  HandlerFor : Gatherer → C → C;
  InstrumentMetricHandler : Registerer C W → (C → C) → C → C;
}.
Arguments Gatherer C W {_ _}.
Arguments DefaultGatherer C W {_ _}.

Section handler.
Context {C W : Type} `{PromHTTP C W}.

Definition NewHandlerWithConfig (gatherer : option (Gatherer C W)) : C → C :=
  let g := default (DefaultGatherer C W) gatherer in
  let h := HandlerFor g in
  match as_Registerer g with
  | Some r => InstrumentMetricHandler r h
  | None => h
  end.

Definition NewHandler : C → C := NewHandlerWithConfig None.
End handler.

(** ** Facts *)

Lemma string_bytes_cons a s : string_bytes (String a s) = Ascii.byte_of_ascii a :: string_bytes s.
Proof. done. Qed.

(** Decimal numbers are valid UTF-8. *)
Lemma pretty_N_go_ascii x s :
  forallb ascii (string_bytes s) = true → forallb ascii (string_bytes (pretty_N_go x s)) = true.
Proof.
  revert s. induction (N.lt_wf_0 x) as [x _ IH]. intros s Hs.
  destruct (decide (0 < x)%N) as [Hx|Hx].
  - rewrite pretty_N_go_step by done. apply IH; [by apply N.div_lt|].
    rewrite string_bytes_cons. cbn [forallb]. rewrite Hs, andb_true_r.
    assert (x `mod` 10 < 10)%N as Hlt by (by apply N.mod_lt).
    destruct (x `mod` 10)%N as [|p]; [done|]. by do 4 (destruct p as [p|p|]; try done).
  - assert (x = 0%N) as -> by lia. by rewrite pretty_N_go_0.
Qed.

Lemma Itoa_valid i : ValidString (Itoa i) = true.
Proof.
  apply ValidString_ascii. unfold Itoa, pretty, pretty_Z.
  assert (∀ n : N, forallb ascii (string_bytes (pretty n)) = true) as HN.
  { intros n. unfold pretty, pretty_N. case_decide; [done | by apply pretty_N_go_ascii]. }
  destruct i as [|p|p]; [done | apply (HN (N.pos p)) |].
  change (forallb ascii (string_bytes (String (Ascii.ascii_of_nat 45) (pretty (N.pos p)))) = true).
  rewrite string_bytes_cons. cbn [forallb]. by rewrite HN.
Qed.

Section facts.
Context {C W : Type} `{GinContext C, !Prometheus C W}.
Implicit Types (c : C) (conf : MiddlewareConfig C W).
Local Abbreviation Valuer := (customLabelValuer (C → option error → string)).

Lemma set_index_points names (g : string → string) (x : string) (cv : Valuer) :
  NoDup names → points_to names cv →
  set_index (index cv) x (g <$> names) =
    Ok ((λ name, if bool_decide (name = label cv) then x else g name) <$> names).
Proof.
  intros Hnd (j & -> & Hj). unfold set_index. rewrite length_fmap.
  pose proof (lookup_lt_Some _ _ _ Hj) as Hlt.
  assert ((0 <=? Z.of_nat j) && (Z.of_nat j <? Z.of_nat (length names)) = true) as ->.
  { apply andb_true_iff. split; [apply Z.leb_le; lia | apply Z.ltb_lt; lia]. }
  f_equal. rewrite Nat2Z.id. apply list_eq. intros i.
  rewrite list_lookup_fmap. destruct (decide (i = j)) as [->|Hne].
  - rewrite list_lookup_insert_eq by (by rewrite length_fmap). rewrite Hj. simpl.
    by rewrite bool_decide_true.
  - rewrite list_lookup_insert_ne by done. rewrite list_lookup_fmap.
    destruct (names !! i) as [name|] eqn:Ei; [|done]. simpl. f_equal.
    rewrite bool_decide_false; [done|]. intros ->. by pose proof (NoDup_lookup _ _ _ _ Hnd Ei Hj).
Qed.

Definition override (val : Valuer → string) (g : string → string) (cv : Valuer) (name : string) : string :=
  if bool_decide (name = label cv) then val cv else g name.

Lemma set_all names (val : Valuer → string) g cvs :
  NoDup names → Forall (points_to names) cvs →
  rfold (λ values cv, set_index (index cv) (val cv) values) (g <$> names) cvs =
    Ok (foldl (override val) g cvs <$> names).
Proof.
  intros Hnd. revert g. induction cvs as [|cv cvs IH]; intros g Hp; [done|].
  apply Forall_cons in Hp as [Hcv Hp]. cbn [rfold foldl]. rewrite set_index_points by done.
  apply (IH (override val g cv) Hp).
Qed.

Lemma foldl_override (val : Valuer → string) g (cvs : list Valuer) name :
  NoDup (label <$> cvs) →
  (∀ cv, cv ∈ cvs → label cv = name → foldl (override val) g cvs name = val cv) ∧
  (name ∉ label <$> cvs → foldl (override val) g cvs name = g name).
Proof.
  revert g. induction cvs as [|cv cvs IH]; intros g Hnd.
  { split; [by intros ? ?%elem_of_nil | done]. }
  rewrite fmap_cons in *. apply NoDup_cons in Hnd as [Hn Hnd]. cbn [foldl].
  destruct (IH (override val g cv) Hnd) as [Hin Hout]. split.
  - intros cv' [->|Hcv]%elem_of_cons E; [|by apply Hin]. rewrite Hout by congruence.
    unfold override. by rewrite bool_decide_true.
  - intros [Hne Hni]%not_elem_of_cons. rewrite Hout by done.
    unfold override. by rewrite bool_decide_false.
Qed.

Lemma baseLabels_NoDup conf : NoDup (baseLabels conf).
Proof.
  unfold baseLabels. apply (bool_decide_unpack _). by destruct (IncludeHost conf).
Qed.

(** What a label says: its configured function, or the built-in value. *)
Definition label_value conf c (err : option error) (name : string) : string :=
  match LabelFuncs conf !! name with
  | Some f => f c err
  | None =>
      base_value c (default defaultStatusResolver (StatusCodeResolver conf) c err)
        (if bool_decide (FullPath c = EmptyString) then "/" else FullPath c) name
  end.

Lemma request_values_spec ρ σ conf c err :
  let '(names, valuers) := middleware_labels ρ σ conf in
  request_values conf names valuers c err = Ok (label_value conf c err <$> names).
Proof.
  pose proof (createLabels_wf ρ σ (baseLabels conf) (LabelFuncs conf) (baseLabels_NoDup conf)) as H1.
  unfold middleware_labels. destruct (createLabels _ _ _ _) as [names valuers].
  destruct H1 as (Hn & _ & _ & Hv & Hl & _ & Hp). unfold request_values. cbv zeta.
  rewrite set_all by done. f_equal. apply list_fmap_ext. intros i name Hi. unfold label_value.
  edestruct (foldl_override (λ cv : Valuer, valueFunc cv c err)) as [Hin Hout]; [exact Hl|].
  destruct (LabelFuncs conf !! name) as [f|] eqn:E.
  - apply Hv in E. apply list_elem_of_fmap in E as ([j l g] & [= -> ->] & Hcv).
    by rewrite (Hin _ Hcv).
  - rewrite Hout; [done|]. intros Hin'. apply list_elem_of_fmap in Hin' as (cv & -> & Hcv).
    assert (LabelFuncs conf !! label cv = Some (valueFunc cv)) as E'; [|congruence].
    apply Hv. apply list_elem_of_fmap. by exists cv.
Qed.

(** The labels that come from outside: all other values are UTF-8 by
    construction. *)
Definition valid_labels conf c (err : option error) : Prop :=
  LabelFuncs conf !! "le" = None ∧ ValidString (Request_Method c) = true ∧ ValidString (Request_Host c) = true ∧
  map_Forall (λ _ f, ValidString (f c err) = true) (LabelFuncs conf).

Lemma label_value_valid conf c err name :
  valid_labels conf c err → ValidString (label_value conf c err name) = true.
Proof.
  intros (_ & Hm & Hh & Hf). unfold label_value. destruct (LabelFuncs conf !! name) as [f|] eqn:E.
  { by apply (Hf _ _ E). }
  unfold base_value. repeat case_bool_decide; try done; [apply Itoa_valid | apply ToValidUTF8_valid..].
Qed.

Lemma names_without_le ρ σ conf c err :
  valid_labels conf c err → "le" ∉ (middleware_labels ρ σ conf).1.
Proof.
  intros (Hle & _). unfold middleware_labels.
  pose proof (createLabels_wf ρ σ (baseLabels conf) (LabelFuncs conf) (baseLabels_NoDup conf)) as H1.
  destruct (createLabels _ _ _ _) as [names valuers]. destruct H1 as (_ & _ & Hin & _).
  simpl. rewrite Hin. intros [Hb|Hs]; [|rewrite Hle in Hs; by destruct Hs].
  revert Hb. apply (bool_decide_unpack _). unfold baseLabels. by destruct (IncludeHost conf).
Qed.
End facts.

(** The seconds a request took, by the configured clock before and after it. *)
Definition request_seconds `{GinContext C, !Prometheus C W} (conf : MiddlewareConfig C W) (before after : C) :
    spec_float :=
  let now := default time_Now (timeNow conf) in
  SFdiv 53 1024 (float64 (Sub (now after) (now before))) (float64 Second).

(** ** Properties *)

Section properties.
Context {C W : Type} `{PrometheusLaws C W}.
Implicit Types (c : C) (conf : MiddlewareConfig C W).

Lemma serve_request_records ρ σ conf next c c1 err :
  let '(names, valuers) := middleware_labels ρ σ conf in
  next c = Ok (c1, err) → valid_labels conf c1 err →
  let values := label_value conf c1 err <$> names in
  serve_request conf names valuers next c =
    Ok (Inc W (requestCount conf names) values
          (Observe W (requestDuration conf names) values (request_seconds conf c c1) c1), err).
Proof.
  pose proof (request_values_spec ρ σ conf c1 err) as Hv. pose proof (names_without_le ρ σ conf c1 err) as Hle.
  destruct (middleware_labels ρ σ conf) as [names valuers]. intros E Hval. specialize (Hle Hval). simpl in Hle.
  unfold serve_request. rewrite E. cbn [rbind]. rewrite Hv. cbn [rbind]. unfold record_request.
  assert (forallb ValidString (label_value conf c1 err <$> names) = true) as Hall.
  { apply Is_true_true_1, forallb_True, Forall_fmap, Forall_true. intros name.
    by apply Is_true_true_2, label_value_valid. }
  rewrite !get_metric; [reflexivity | by rewrite length_fmap | done | done | by rewrite length_fmap | done | done].
Qed.

Lemma ToMiddleware_ok ρ σ conf w w' mw :
  ToMiddleware ρ σ conf w = (w', Ok mw) →
  mw = let '(names, valuers) := middleware_labels ρ σ (with_defaults conf) in
       serve_request (with_defaults conf) names valuers.
Proof.
  unfold ToMiddleware. destruct (middleware_labels _ _ _) as [names valuers].
  by repeat (case_match; try done); intros [= _ <-].
Qed.

(** C30: what the middleware records.  Once both vectors are registered, it
    calls the handler it wraps and then, exactly once each, observes the
    duration and counts the request, in that order and under the same label
    values: for each label the value of its configured function, or the
    status, method, host or route.  The duration is the time the handler took by
    the configured clock ([time.Now] if there is none), read before and after
    it, in seconds, as a float64.  The middleware never indexes out of range,
    and returns the handler's own result, its error included (a panic passes
    through).  This asks that the request's method and host and the configured
    values are UTF-8, which the route is made to be, and that no configured
    label is called "le": otherwise the library refuses the values. *)
Theorem middleware_records ρ σ conf w w' mw next c :
  ToMiddleware ρ σ conf w = (w', Ok mw) →
  (∀ p, next c = Err p → mw next c = Err p) ∧
  ∀ c1 err, next c = Ok (c1, err) →
    let conf' := with_defaults conf in
    valid_labels conf' c1 err →
    let names := (middleware_labels ρ σ conf').1 in
    let values := label_value conf' c1 err <$> names in
    let now := default time_Now (timeNow conf) in
    let seconds := SFdiv 53 1024 (float64 (Sub (now c1) (now c))) (float64 Second) in
    mw next c =
      Ok (Inc W (requestCount conf' names) values
            (Observe W (requestDuration conf' names) values seconds c1), err).
Proof.
  intros ->%ToMiddleware_ok. cbv zeta.
  pose proof (serve_request_records ρ σ (with_defaults conf) next c) as Hs.
  destruct (middleware_labels ρ σ (with_defaults conf)) as [names valuers]. split.
  - intros p E. unfold serve_request. by rewrite E.
  - intros c1 err E Hv. by apply (Hs c1 err).
Qed.

(** Gin's error list through the middleware.  When the handlers behind it
    recorded no error it adds none; when they did, it adds the first of them
    once more, so that what reads the list (a logger) sees it twice. *)
Theorem gin_error_recorded_twice ρ σ conf w w' mw c c1 :
  ToMiddleware ρ σ conf w = (w', Ok mw) → c_Next c = Ok c1 →
  valid_labels (with_defaults conf) c1 (head (c_Errors c1)) →
  ∃ c2, GinMiddleware mw c = Ok c2 ∧
    c_Errors c2 = c_Errors c1 ++ option_list (head (c_Errors c1)).
Proof.
  intros ->%ToMiddleware_ok En Hv. unfold GinMiddleware.
  pose proof (serve_request_records ρ σ (with_defaults conf)
    (λ ctx, ctx <-? c_Next ctx ;; Ok (ctx, head (c_Errors ctx))) c c1 (head (c_Errors c1))) as Hs.
  destruct (middleware_labels ρ σ (with_defaults conf)) as [names valuers].
  cbv zeta in Hs. rewrite Hs; [|by rewrite En | done]. cbn [rbind].
  destruct (c_Errors c1) as [|e l] eqn:El; (eexists; split; [done|]); cbn [head option_list].
  - by rewrite errors_Inc, errors_Observe, El.
  - by rewrite errors_Error, errors_Inc, errors_Observe, El.
Qed.
End properties.

(** ** Witnesses: one request to a route, whose handler reports an error *)

Record TestContext : Type := mkTest {
  t_path : string;
  t_status : Z;
  t_errors : list error;
  t_metrics : list (string * list string * option spec_float);
  t_clock : Z;
}.

#[local] Instance test_gin : GinContext TestContext := {|
  FullPath := t_path;
  Request_Method _ := "GET";
  Request_Host _ := "example.org";
  Writer_Status := t_status;
  c_Errors := t_errors;
  c_Next c := Ok (mkTest (t_path c) 404 (t_errors c ++ [ErrorString "no such cluster"]) (t_metrics c) (t_clock c));
  c_Error e c := mkTest (t_path c) (t_status c) (t_errors c ++ [e]) (t_metrics c) (t_clock c);
  time_Now c := mkTime (t_clock c) (Some (t_clock c));
|}.

Definition test_record (name : string) (vs : list string) (x : option spec_float) (c : TestContext) : TestContext :=
  mkTest (t_path c) (t_status c) (t_errors c) (t_metrics c ++ [(name, vs, x)]) (t_clock c).

#[local] Instance test_prometheus : Prometheus TestContext (list Collector) := {|
  Registerer := ();
  DefaultRegisterer := ();
  Register _ v w := (w ++ [v], None);
  GetMetricWithLabelValues v vs :=
    if bool_decide (length vs = length (collector_labels v)) && forallb ValidString vs then None
    else Some (ErrorString "inconsistent label cardinality");
  Observe v vs x c := test_record "duration" vs (Some x) c;
  Inc v vs c := test_record "count" vs None c;
|}.

#[local] Instance test_prometheus_laws : PrometheusLaws TestContext (list Collector).
Proof.
  split; try done. intros v vs Hl Hv _. simpl. by rewrite bool_decide_true, Hv.
Qed.

Definition test_conf : MiddlewareConfig TestContext (list Collector) :=
  mkMiddlewareConfig "" "" true {["app" := (λ _ _, "discovery")]} None None None None None.

Definition test_request : TestContext := mkTest "/api/clusters/:id/affiliates" 0 [] [] 0.

Definition test_mw : MiddlewareFunc (C := TestContext) :=
  let '(names, valuers) := middleware_labels (order_fwd string) sort_stable (with_defaults test_conf) in
  serve_request (with_defaults test_conf) names valuers.

Lemma test_mw_ok : ∃ w', ToMiddleware (order_fwd string) sort_stable test_conf [] = (w', Ok test_mw).
Proof. eexists. reflexivity. Qed.

Lemma test_valid (c : TestContext) err : valid_labels (with_defaults test_conf) c err.
Proof. split_and!; [done..|]. by apply map_Forall_singleton. Qed.

(** The handler takes a second and a half. *)
Definition test_handler : HandlerFunc (C := TestContext) := λ c,
  Ok (mkTest (t_path c) 0 [] [] (t_clock c + 1500 * Millisecond), Some (ErrorString "refused")).

Lemma middleware_records_witness :
  ∃ c err, test_mw test_handler test_request = Ok (c, err) ∧
    err = Some (ErrorString "refused") ∧
    let values := ["500"; "GET"; "/api/clusters/:id/affiliates"; "example.org"; "discovery"] in
    t_metrics c = [("duration", values, Some (S754_finite false 6755399441055744 (-52))); ("count", values, None)].
Proof.
  destruct test_mw_ok as [w' E].
  destruct (middleware_records _ _ _ _ _ _ test_handler test_request E) as [_ Hm].
  pose proof (Hm _ _ eq_refl (test_valid _ _)) as Hx. cbv zeta in Hx. rewrite Hx.
  eexists _, _. split; [reflexivity|]. split; [done|]. vm_compute. reflexivity.
Defined.

Lemma gin_error_recorded_twice_witness :
  ∃ c, GinMiddleware test_mw test_request = Ok c ∧
    c_Errors c = [ErrorString "no such cluster"; ErrorString "no such cluster"].
Proof.
  destruct test_mw_ok as [w' E].
  destruct (gin_error_recorded_twice _ _ _ _ _ _ test_request _ E eq_refl (test_valid _ _)) as (c & Hc & He).
  exists c. split; [exact Hc|]. rewrite He. reflexivity.
Defined.
