(* ===== verification/RunGroup.v ===== *)
(** * The interface of [oklog/run]

    A group of actors, of a library the code only calls, through its documented
    behaviour: all actors run concurrently; when the first of them returns, all
    are interrupted; [Run] returns when all have returned, with the result of
    the first.  Nothing is said here of the order of the interrupts. *)

From S2P Require Import Prelude.

(** What a group sees and does, by the index of the actor. *)
Inductive GroupEvent : Type :=
| ActorReturned (i : nat)
| ActorInterrupted (i : nat)
| RunReturned (i : nat).

Class RunGroup : Type := {
  g_state : Type;
  g_new : nat → g_state;
  g_step : g_state → GroupEvent → g_state → Prop;
  g_size : g_state → nat;
  returned : g_state → list nat;        (** in the order of their return *)
  interrupted : g_state → list nat;
  finished : g_state → option nat;      (** whose result [Run] returned *)
}.

Record group_same `{RunGroup} (g g' : g_state) : Prop := {
  same_size : g_size g' = g_size g;
  same_returned : returned g' = returned g;
  same_interrupted : interrupted g' = interrupted g;
  same_finished : finished g' = finished g;
}.

Class RunGroupLaws `{RunGroup} : Prop := {
  rg_new n : g_size (g_new n) = n ∧ returned (g_new n) = [] ∧ interrupted (g_new n) = [] ∧
    finished (g_new n) = None;
  rg_returned g i g' : g_step g (ActorReturned i) g' →
    g_size g' = g_size g ∧ returned g' = returned g ++ [i] ∧ interrupted g' = interrupted g ∧
    finished g' = finished g;
  rg_interrupted g i g' : g_step g (ActorInterrupted i) g' →
    returned g ≠ [] ∧ (i < g_size g)%nat ∧ i ∉ interrupted g ∧
    g_size g' = g_size g ∧ returned g' = returned g ∧ interrupted g' = interrupted g ++ [i] ∧
    finished g' = finished g;
  rg_finished g i g' : g_step g (RunReturned i) g' →
    head (returned g) = Some i ∧ (∀ j, (j < g_size g)%nat → j ∈ returned g) ∧ finished g = None ∧
    g_size g' = g_size g ∧ returned g' = returned g ∧ interrupted g' = interrupted g ∧
    finished g' = Some i;
  rg_can_return g i : i ∉ returned g → finished g = None → ∃ g', g_step g (ActorReturned i) g';
  rg_interrupts_all g j : returned g ≠ [] → (j < g_size g)%nat → j ∉ interrupted g →
    ∃ i g', g_step g (ActorInterrupted i) g';
  rg_can_finish g :
    returned g ≠ [] → (∀ j, (j < g_size g)%nat → j ∈ returned g ∧ j ∈ interrupted g) → finished g = None →
    ∃ i g', g_step g (RunReturned i) g';
}.

(** ** An instance, which interrupts in any order *)

Record GroupState : Type := mkGroup {
  gs_size : nat;
  gs_returned : list nat;
  gs_interrupted : list nat;
  gs_finished : option nat;
}.

Inductive group_step : GroupState → GroupEvent → GroupState → Prop :=
| gs_return n r t i :
    i ∉ r → group_step (mkGroup n r t None) (ActorReturned i) (mkGroup n (r ++ [i]) t None)
| gs_interrupt n r t f i :
    r ≠ [] → (i < n)%nat → i ∉ t →
    group_step (mkGroup n r t f) (ActorInterrupted i) (mkGroup n r (t ++ [i]) f)
| gs_finish n r t i :
    head r = Some i → (∀ j, (j < n)%nat → j ∈ r ∧ j ∈ t) →
    group_step (mkGroup n r t None) (RunReturned i) (mkGroup n r t (Some i)).

#[export] Instance any_order_group : RunGroup := {|
  g_state := GroupState;
  g_new n := mkGroup n [] [] None;
  g_step := group_step;
  g_size := gs_size;
  returned := gs_returned;
  interrupted := gs_interrupted;
  finished := gs_finished;
|}.

#[export] Instance any_order_group_laws : RunGroupLaws.
Proof.
  split.
  - done.
  - intros g i g' Hs. by inversion Hs; subst.
  - intros g i g' Hs. inversion Hs; subst. by split_and!.
  - intros g i g' Hs. inversion Hs as [| |? ? ? ? Hh Ha]; subst. split_and!; try done.
    intros j Hj. by apply Ha.
  - intros [n r t f] i Hi Hf. simpl in *. subst. eexists. by constructor.
  - intros [n r t f] j Hr Hj Ht. simpl in *. eexists j, _. by constructor.
  - intros [n r t f] Hr Ha Hf. simpl in *. subst. destruct r as [|i r]; [done|].
    eexists i, _. by constructor.
Qed.
