(* ===== verification/Actors.v ===== *)
(** * The actors of the process ([internal/runutil/server_actors.go], the
    assembly of [internal/server/server.go] and [internal/web/server.go])

    What [StartDiscoveryServer] and [StartDiscoveryWeb] give to [oklog/run]:
    servers on listeners, the loops, the hooks that shut the web server down,
    and the actor that waits for a signal.  The process is a step relation, one
    rule per statement that another goroutine can observe, over the interface
    of [RunGroup.v]. *)

From S2P Require Import Prelude GoErrors GoStrings ConfigTypes RunGroup.

(** ** Listeners: pointers into a store of their open flags *)

Abbreviation ListenerPtr := nat.
Abbreviation Listeners := (list bool).

Definition listen (lns : Listeners) : Listeners * ListenerPtr := (lns ++ [true], length lns).
Definition close_listener (l : ListenerPtr) (lns : Listeners) : Listeners := <[l := false]> lns.
Definition is_open (lns : Listeners) (l : ListenerPtr) : bool := default false (lns !! l).

(** [net_err] is the error of [net.Listen], [tls_err] that of
    [GetServerTLSConfig], if they fail. *)
Definition buildListener (cfg : ServerConfig) (net_err tls_err : option error) (lns : Listeners) :
    Listeners * result error ListenerPtr :=
  match net_err with
  | Some err => (lns, Err (Errorf ("error listening on " +:+ Addr cfg +:+ ": ") err))
  | None =>
      let '(lns, ln) := listen lns in
      if negb (s_Enable (server_TLS cfg)) then (lns, Ok ln) else
      match tls_err with
      | Some err => (close_listener ln lns, Err (Errorf "error creating TLS server config: " err))
      | None => (lns, Ok ln)
      end
  end.

(** ** Actors *)

(** What serves on a listener: [DiscoveryServer.RunListener] is gRPC's
    [Serve], [WebServer.RunListener] is [net/http]'s. *)
Inductive ServerKind : Type := Discovery | Web.

#[export] Instance ServerKind_eq_dec : EqDecision ServerKind.
Proof. solve_decision. Defined.

Inductive Actor : Type :=
| ContextCancelActor                                   (** [AddContextCancelActor] *)
| ListenerServer (name : string) (s : ServerKind) (cfg : ServerConfig)  (** [AddListenerServer] *)
| BufconnListener (ln : ListenerPtr)                   (** [addBufconnDiscoveryListener] *)
| GracefulShutdownActor (component : string)           (** [AddGracefulShutdownActor] *)
| CleanupActor                                         (** [addCleanupActor] *)
| SnapshotActor.                                       (** [addSnapshotActor] *)

(** Where an actor's execute function is.  [Built]: the listener is made and
    the shared variable [ln] not yet set; [Assigned]: [ln] is set. *)
Inductive PC : Type :=
| Waiting                       (** for [ctx.Done()] *)
| Starting
| Built (listener : ListenerPtr)
| Assigned (listener : ListenerPtr)
| Serving (listener : ListenerPtr)
| ShuttingDown
| Done (err : option error).

Definition actor_start (a : Actor) : PC :=
  match a with
  | ListenerServer _ _ _ => Starting
  | BufconnListener ln => Assigned ln
  | _ => Waiting
  end.

(** [ln] of each actor, [None] for nil. *)
Record ActorState : Type := mkActor {
  actor : Actor;
  pc : PC;
  ln : option ListenerPtr;
}.

Definition new_actor (a : Actor) : ActorState := mkActor a (actor_start a) None.

(** [web_down]: [httpServer.Shutdown] was called; [client_closed]:
    [discoveryClient.Close()] was. *)
Record Process `{RunGroup} : Type := mkProcess {
  ctx_done : bool;
  listeners : Listeners;
  web_down : bool;
  client_closed : bool;
  actors : list ActorState;
  group : g_state;
}.

Section process.
Context `{RunGroup}.
Implicit Types p : Process.

Definition set_ctx_done p : Process :=
  mkProcess _ true (listeners p) (web_down p) (client_closed p) (actors p) (group p).
Definition set_listeners (lns : Listeners) p : Process :=
  mkProcess _ (ctx_done p) lns (web_down p) (client_closed p) (actors p) (group p).
Definition set_group (g : g_state) p : Process :=
  mkProcess _ (ctx_done p) (listeners p) (web_down p) (client_closed p) (actors p) g.
Definition set_actor (i : nat) (a : ActorState) p : Process :=
  mkProcess _ (ctx_done p) (listeners p) (web_down p) (client_closed p) (<[i := a]> (actors p)) (group p).
Definition set_pc (i : nat) (a : ActorState) (c : PC) p : Process :=
  set_actor i (mkActor (actor a) c (ln a)) p.

(** ** The interrupt functions *)

Definition interrupt (a : ActorState) p : Process :=
  match actor a with
  | ContextCancelActor => set_ctx_done p                                  (* stop() *)
  | ListenerServer _ _ _ =>
      match ln a with
      | Some l => set_listeners (close_listener l (listeners p)) p
      | None => p
      end
  | BufconnListener l => set_listeners (close_listener l (listeners p)) p
  | GracefulShutdownActor _ | CleanupActor | SnapshotActor => p
  end.

(** ** The web server *)

(** [httpServer.Shutdown], up to where it waits: it refuses what is served from
    now on, and closes the listeners that are served. *)
Definition served_by_web (a : ActorState) : option ListenerPtr :=
  match actor a, pc a with
  | ListenerServer _ Web _, Serving l => Some l
  | _, _ => None
  end.

Definition begin_shutdown p : Process :=
  mkProcess _ (ctx_done p) (foldr close_listener (listeners p) (omap served_by_web (actors p)))
    true (client_closed p) (actors p) (group p).

(** [WebServer.Shutdown], once [httpServer.Shutdown] has returned [err]. *)
Definition web_shutdown_result (err : option error) : option error :=
  match err with
  | Some e => if errors_Is e ErrServerClosed then None else Some e
  | None => None
  end.

(** [WebServer.RunListener], once [Serve] has returned [err]. *)
Definition web_serve_result (err : option error) : option error :=
  match err with
  | Some e => if negb (errors_Is e ErrServerClosed) then Some e else None
  | None => None
  end.

(** What an actor that serves returns when its server does; gRPC's result is
    passed on. *)
Definition serve_result (a : Actor) (err : option error) : option error :=
  match a with
  | ListenerServer _ Web _ => web_serve_result err
  | _ => err
  end.

Definition close_client p : Process :=
  mkProcess _ (ctx_done p) (listeners p) (web_down p) true (actors p) (group p).

(** ** Steps *)

(** Those that the program takes on its own, and those that depend on the
    world: a signal, a tick, a server that fails on an open listener. *)
Inductive Kind : Type := Progress | World.

Inductive proc_step : Kind → Process → Process → Prop :=
| ps_signal p : proc_step World p (set_ctx_done p)
| ps_tick p i a :
    actors p !! i = Some a → (actor a = CleanupActor ∨ actor a = SnapshotActor) → pc a = Waiting →
    proc_step World p p
| ps_context p i a g :
    actors p !! i = Some a → pc a = Waiting → ctx_done p = true →
    (actor a = ContextCancelActor ∨ actor a = CleanupActor ∨ actor a = SnapshotActor) →
    g_step (group p) (ActorReturned i) g →
    proc_step Progress p (set_group g (set_pc i a (Done None) p))
| ps_build_failed p i a name s cfg net_err tls_err lns err g :
    actors p !! i = Some a → actor a = ListenerServer name s cfg → pc a = Starting →
    buildListener cfg net_err tls_err (listeners p) = (lns, Err err) →
    g_step (group p) (ActorReturned i) g →
    proc_step Progress p
      (set_group g (set_pc i a (Done (Some (Errorf "error building listener: " err))) (set_listeners lns p)))
| ps_build p i a name s cfg net_err tls_err lns l :
    actors p !! i = Some a → actor a = ListenerServer name s cfg → pc a = Starting →
    buildListener cfg net_err tls_err (listeners p) = (lns, Ok l) →
    proc_step Progress p (set_pc i a (Built l) (set_listeners lns p))
| ps_assign p i a l :
    actors p !! i = Some a → pc a = Built l →
    proc_step Progress p (set_actor i (mkActor (actor a) (Assigned l) (Some l)) p)
(* [Serve] of a web server that was shut down closes its listener and returns *)
| ps_refused p i a name cfg l g :
    actors p !! i = Some a → actor a = ListenerServer name Web cfg → pc a = Assigned l →
    web_down p = true → g_step (group p) (ActorReturned i) g →
    proc_step Progress p
      (set_group g (set_pc i a (Done (web_serve_result (Some ErrServerClosed)))
        (set_listeners (close_listener l (listeners p)) p)))
| ps_serve p i a l :
    actors p !! i = Some a → pc a = Assigned l →
    (∀ name cfg, actor a = ListenerServer name Web cfg → web_down p = false) →
    proc_step Progress p (set_pc i a (Serving l) p)
(* a listener that was closed ends [Serve] *)
| ps_serve_end p i a l err g :
    actors p !! i = Some a → pc a = Serving l → is_open (listeners p) l = false →
    (∀ name cfg, actor a = ListenerServer name Web cfg → web_down p = true → err = ErrServerClosed) →
    g_step (group p) (ActorReturned i) g →
    proc_step Progress p (set_group g (set_pc i a (Done (serve_result (actor a) (Some err))) p))
| ps_serve_failed p i a l err g :
    actors p !! i = Some a → pc a = Serving l →
    g_step (group p) (ActorReturned i) g →
    proc_step World p
      (set_group g (set_pc i a (Done (serve_result (actor a) (Some err)))
        (set_listeners (close_listener l (listeners p)) p)))
| ps_shutdown p i a component :
    actors p !! i = Some a → actor a = GracefulShutdownActor component → pc a = Waiting →
    ctx_done p = true →
    proc_step Progress p (set_pc i a ShuttingDown (begin_shutdown p))
(* the deadline bounds the wait *)
| ps_shutdown_end p i a component err g :
    actors p !! i = Some a → actor a = GracefulShutdownActor component → pc a = ShuttingDown →
    g_step (group p) (ActorReturned i) g →
    proc_step Progress p
      (set_group g (set_pc i a
        (Done (Errorf ("shutdown " +:+ component +:+ ": ") <$> web_shutdown_result err)) (close_client p)))
| ps_interrupt p i a g :
    actors p !! i = Some a → g_step (group p) (ActorInterrupted i) g →
    proc_step Progress p (set_group g (interrupt a p))
| ps_run_returned p i g :
    g_step (group p) (RunReturned i) g →
    proc_step Progress p (set_group g p).

(** What [group.Run()] returned, once it has. *)
Definition run_result p : option (option error) :=
  i ← finished (group p); a ← actors p !! i;
  match pc a with Done err => Some err | _ => None end.

(** ** The two commands *)

Definition start_process (acts : list Actor) (lns : Listeners) : Process :=
  mkProcess _ false lns false false (new_actor <$> acts) (g_new (length acts)).

End process.

(** [strings.EqualFold(s, t)] where [t] is ASCII without the letters K and S,
    which alone fold to letters that are not ASCII. *)
Definition lower (c : Ascii.ascii) : Ascii.ascii :=
  let n := Ascii.nat_of_ascii c in
  if ((65 <=? n) && (n <=? 90))%nat then Ascii.ascii_of_nat (n + 32) else c.

Fixpoint EqualFold (s t : string) : bool :=
  match s, t with
  | EmptyString, EmptyString => true
  | String a s, String b t => bool_decide (lower a = lower b) && EqualFold s t
  | _, _ => false
  end.

(** [newEmbeddedWebServer]: whether the transport is in memory. *)
Definition in_memory (cfg : ServiceCommandConfig) : bool :=
  let target := TrimSpace (Target (svc_WebDiscoveryClient cfg)) in
  bool_decide (target = EmptyString) || EqualFold target InMemoryTransport.

Definition addBufconnDiscoveryListener (lns : Listeners) : Listeners * list Actor :=
  let '(lns, ln) := listen lns in (lns, [BufconnListener ln]).

(** [StartDiscoveryServer]: the actors, in the order in which they are added,
    and the listeners made before the group runs. *)
Definition service_actors (cfg : ServiceCommandConfig) : list Actor * Listeners :=
  let '(lns, bufconn) :=
    if svc_WebEnable cfg && in_memory cfg then addBufconnDiscoveryListener [] else ([], []) in
  ([ListenerServer "discovery" Discovery (svc_Server cfg)]
   ++ (if svc_WebEnable cfg then
         bufconn ++ [ListenerServer "web" Web (svc_WebServer cfg); GracefulShutdownActor "embedded web server"]
       else [])
   ++ (if bool_decide (addCleanupActor (svc_DiscoveryConfig cfg) = Looping) then [CleanupActor] else [])
   ++ (if bool_decide (addSnapshotActor (svc_DiscoveryConfig cfg) = Looping) then [SnapshotActor] else [])
   ++ [ContextCancelActor], lns).

(** [StartDiscoveryWeb] *)
Definition web_actors (cfg : WebCommandConfig) : list Actor * Listeners :=
  ([ContextCancelActor; ListenerServer "web" Web (web_WebServer cfg); GracefulShutdownActor "web server"], []).
