(* ===== verification/ActorsFacts.v ===== *)
(** * Facts about the actors of the process

    The invariant of [Actors.v]'s step relation, in three parts: the group's
    book-keeping, who holds which listener, and what has been told to stop. *)

From S2P Require Import Prelude GoErrors ConfigTypes RunGroup Actors.

(** ** Listeners *)

Implicit Types (lns : Listeners) (l : ListenerPtr).

(** What closes stays closed, and pointers stay valid. *)
Definition closes lns lns' : Prop :=
  (length lns ≤ length lns')%nat ∧
  ∀ l, (l < length lns)%nat → is_open lns l = false → is_open lns' l = false.

#[export] Instance closes_preorder : PreOrder closes.
Proof.
  split; [by intros lns|]. intros x y z [Hxy Cxy] [Hyz Cyz]. split; [lia|].
  intros l Hl Ho. apply Cyz; [lia | by apply Cxy].
Qed.

Lemma is_open_close lns l l' : is_open (close_listener l lns) l' = if decide (l = l') then false else is_open lns l'.
Proof.
  unfold is_open, close_listener. case_decide as E; [subst|by rewrite list_lookup_insert_ne].
  destruct (decide (l' < length lns)%nat); [by rewrite list_lookup_insert_eq|].
  rewrite lookup_ge_None_2; [done|]. rewrite length_insert. lia.
Qed.

Lemma length_close lns l : length (close_listener l lns) = length lns.
Proof. apply length_insert. Qed.

Lemma closes_close l lns : closes lns (close_listener l lns).
Proof.
  split; [by rewrite length_close|]. intros l' _ Ho. rewrite is_open_close. by case_decide.
Qed.

Lemma is_open_listen lns l : is_open (lns ++ [true]) l = if decide (l = length lns) then true else is_open lns l.
Proof.
  unfold is_open. case_decide as E; [subst; by rewrite list_lookup_middle|].
  destruct (decide (l < length lns)%nat); [by rewrite lookup_app_l|].
  rewrite !lookup_ge_None_2; [done|lia|rewrite length_app; simpl; lia].
Qed.

Lemma closes_listen lns : closes lns (lns ++ [true]).
Proof.
  split; [rewrite length_app; lia|]. intros l Hl Ho. rewrite is_open_listen. case_decide; [lia | done].
Qed.

Lemma closes_foldr ls lns : closes lns (foldr close_listener lns ls).
Proof. induction ls as [|l ls IH]; [done|]. etransitivity; [exact IH | apply closes_close]. Qed.

Lemma is_open_foldr ls lns l :
  is_open (foldr close_listener lns ls) l = true ↔ is_open lns l = true ∧ l ∉ ls.
Proof.
  induction ls as [|l' ls IH]; simpl; [set_solver|].
  rewrite is_open_close. case_decide; [set_solver|]. rewrite IH. set_solver.
Qed.

(** [buildListener] opens one listener or leaves none open. *)
Lemma buildListener_spec cfg net_err tls_err lns lns' r :
  buildListener cfg net_err tls_err lns = (lns', r) →
  closes lns lns' ∧
  match r with
  | Ok l => l = length lns ∧ (l < length lns')%nat ∧
      ∀ l', is_open lns' l' = true → l' = l ∨ is_open lns l' = true
  | Err _ => ∀ l', is_open lns' l' = true → is_open lns l' = true
  end.
Proof.
  unfold buildListener, listen. destruct net_err as [e|]; [intros [= <- <-]; done|].
  assert (∀ l', is_open (lns ++ [true]) l' = true → l' = length lns ∨ is_open lns l' = true) as Ho.
  { intros l' Hl'. rewrite is_open_listen in Hl'. case_decide; auto. }
  destruct (negb (s_Enable (server_TLS cfg))); [|destruct tls_err as [e|]]; intros [= <- <-].
  - split; [apply closes_listen|]. rewrite length_app. simpl. split_and!; [done | lia | done].
  - split; [etransitivity; [apply closes_listen | apply closes_close]|].
    intros l'. rewrite is_open_close. case_decide as E; [done|]. intros [->|?]%Ho; done.
  - split; [apply closes_listen|]. rewrite length_app. simpl. split_and!; [done | lia | done].
Qed.

(** The listener an execute function holds. *)
Definition holds (a : ActorState) l : Prop :=
  pc a = Built l ∨ pc a = Assigned l ∨ pc a = Serving l.

Definition is_done (a : ActorState) : Prop := ∃ err, pc a = Done err.

Lemma served_by_web_holds a l : served_by_web a = Some l → pc a = Serving l ∧ ∃ name cfg, actor a = ListenerServer name Web cfg.
Proof.
  unfold served_by_web. destruct (actor a) as [|name [] cfg| | | |] eqn:E; try done.
  destruct (pc a) eqn:Ep; try done. intros [= ->]. eauto.
Qed.

(** ** Steps, as seen from the actors *)

(** Lookups in the actors after one moved. *)
Ltac moved H1 := apply list_lookup_insert_Some in H1 as [(<- & <- & _)|[? H1]].

Section facts.
Context `{RunGroupLaws} (acts : list Actor).
Implicit Types (p : Process) (a : ActorState).

Record group_inv p : Prop := {
  gi_actors : actor <$> actors p = acts;
  gi_size : g_size (group p) = length acts;
  gi_returned i a : actors p !! i = Some a → i ∈ returned (group p) ↔ is_done a;
  gi_range i : i ∈ returned (group p) ∨ i ∈ interrupted (group p) → (i < length acts)%nat;
  gi_interrupted : NoDup (interrupted (group p));
  gi_finished i : finished (group p) = Some i →
    head (returned (group p)) = Some i ∧ ∀ j, (j < length acts)%nat → j ∈ returned (group p);
}.

Lemma gi_length p : group_inv p → length (actors p) = length acts.
Proof. intros Hi. by rewrite <- (gi_actors p Hi), length_fmap. Qed.

(** The three ways in which a step preserves the book-keeping. *)
Lemma group_inv_move p p' i a c o :
  group_inv p → actors p !! i = Some a → ¬ is_done a →
  actors p' = <[i := mkActor (actor a) c o]> (actors p) → (∀ e, c ≠ Done e) → group p' = group p → group_inv p'.
Proof.
  intros [Ha Hsz Hr Hrg Hin Hf] Hi Hd Ea Hc Eg. split; rewrite ?Eg; try done.
  - rewrite Ea, list_fmap_insert, list_insert_id; [done|]. by rewrite list_lookup_fmap, Hi.
  - intros j b. rewrite Ea. intros [(<- & <- & _)|[Hne Hj]]%list_lookup_insert_Some; [|by apply Hr].
    rewrite (Hr i a Hi). split; [done|]. intros [e He]. simpl in He. by destruct (Hc e).
Qed.

Lemma group_inv_return p p' i a e o g :
  group_inv p → actors p !! i = Some a → ¬ is_done a →
  actors p' = <[i := mkActor (actor a) (Done e) o]> (actors p) →
  g_step (group p) (ActorReturned i) g → group p' = g → group_inv p'.
Proof.
  intros Hp Hi Hd Ea Hg Eg. pose proof (gi_length p Hp) as Hlen. destruct Hp as [Ha Hsz Hr Hrg Hin Hf].
  apply rg_returned in Hg as (Es & Er & Et & Ef).
  assert (i < length acts)%nat as Hlt by (rewrite <- Hlen; by eapply lookup_lt_Some).
  assert (i ∉ returned (group p)) as Hni by (by rewrite (Hr i a Hi)).
  split; rewrite ?Eg, ?Es, ?Er, ?Et, ?Ef; try done.
  - rewrite Ea, list_fmap_insert, list_insert_id; [done|]. by rewrite list_lookup_fmap, Hi.
  - intros j b. rewrite Ea, elem_of_app, list_elem_of_singleton.
    intros [(<- & <- & _)|[Hne Hj]]%list_lookup_insert_Some.
    + split; [|by right]. intros _. by exists e.
    + rewrite <- (Hr j b Hj). naive_solver.
  - intros j. rewrite elem_of_app, list_elem_of_singleton. intros [[?| ->]|?]; auto.
  - intros j Hj. destruct (Hf j Hj) as [_ Hall]. destruct Hni. by apply Hall.
Qed.

Lemma group_inv_same p p' :
  group_inv p → actors p' = actors p → group_same (group p) (group p') → group_inv p'.
Proof.
  intros [Ha Hsz Hr Hrg Hin Hf] Ea [E1 E2 E3 E4].
  split; rewrite ?Ea, ?E1, ?E2, ?E3, ?E4; done.
Qed.

Lemma interrupt_same a p : actors (interrupt a p) = actors p ∧ group (interrupt a p) = group p.
Proof. unfold interrupt. by repeat case_match. Qed.

Lemma group_same_refl (g : g_state) : group_same g g.
Proof. done. Qed.

Lemma group_inv_step k p p' : group_inv p → proc_step k p p' → group_inv p'.
Proof.
  intros Hi Hs. destruct Hs;
    try (eapply group_inv_same; [exact Hi | done | done]);
    try (eapply group_inv_return; [exact Hi | eassumption | intros [? ?]; congruence | reflexivity | eassumption | done]);
    try (eapply group_inv_move; [exact Hi | eassumption | intros [? ?]; congruence | reflexivity | by intros ? | done]).
  - destruct (interrupt_same a p) as [Ea Eg]. pose proof (gi_size p Hi) as Hsz. apply rg_interrupted in H2 as (_ & Hlt & Hni & Es & Er & Et & Ef).
    destruct Hi as [Ha _ Hr Hrg Hin Hf]. split; simpl; rewrite ?Ea, ?Es, ?Er, ?Et, ?Ef; try done.
    + intros j. rewrite elem_of_app, list_elem_of_singleton. intros [?|[?| ->]]; [auto..|]. by rewrite <- Hsz.
    + apply NoDup_app. split_and!; [done| |apply NoDup_singleton]. by intros j Hj ->%list_elem_of_singleton.
  - pose proof (gi_size p Hi) as Hsz. apply rg_finished in H1 as (Hh & Hall & _ & Es & Er & Et & Ef).
    destruct Hi as [Ha _ Hr Hrg Hin Hf]. split; simpl; rewrite ?Es, ?Er, ?Et, ?Ef; try done.
    intros j [= <-]. split; [done|]. rewrite <- Hsz. done.
Qed.

(** ** Who holds which listener *)

Record listener_inv p : Prop := {
  li_valid i a l : actors p !! i = Some a →
    holds a l ∨ ln a = Some l ∨ actor a = BufconnListener l → (l < length (listeners p))%nat;
  li_owned l : is_open (listeners p) l = true → ∃ i a, actors p !! i = Some a ∧ holds a l;
  li_set i a l name s cfg : actors p !! i = Some a → actor a = ListenerServer name s cfg →
    pc a = Assigned l ∨ pc a = Serving l → ln a = Some l;
  li_bufconn i a l l' : actors p !! i = Some a → actor a = BufconnListener l → holds a l' → l' = l;
}.

Lemma holds_pc a c o l : holds (mkActor (actor a) c o) l ↔ c = Built l ∨ c = Assigned l ∨ c = Serving l.
Proof. done. Qed.

(** An actor moves, and what is open afterwards is its own, or was open and not
    its own. *)
Lemma listener_inv_move p p' i a c o :
  listener_inv p → actors p !! i = Some a → closes (listeners p) (listeners p') →
  actors p' = <[i := mkActor (actor a) c o]> (actors p) →
  (∀ l, holds (mkActor (actor a) c o) l ∨ o = Some l → (l < length (listeners p'))%nat) →
  (∀ l, is_open (listeners p') l = true →
     holds (mkActor (actor a) c o) l ∨ (is_open (listeners p) l = true ∧ ¬ holds a l)) →
  (∀ l name s cfg, actor a = ListenerServer name s cfg → c = Assigned l ∨ c = Serving l → o = Some l) →
  (∀ l l', actor a = BufconnListener l → holds (mkActor (actor a) c o) l' → l' = l) →
  listener_inv p'.
Proof.
  intros [Hv Ho Hs Hb] Hi [Hlen Hcl] Ea Hv' Ho' Hs' Hb'.
  pose proof (lookup_lt_Some _ _ _ Hi) as Hlt. split.
  - intros j b l. rewrite Ea. intros [(<- & <- & _)|[Hne Hj]]%list_lookup_insert_Some H1; simpl in H1.
    + destruct H1 as [?|[?|?]]; [apply Hv'; auto..|]. specialize (Hv i a l Hi). naive_solver lia.
    + specialize (Hv j b l Hj H1). lia.
  - intros l Hl. destruct (Ho' l Hl) as [Hh|[Hl0 Hn]].
    + exists i. eexists. rewrite Ea, list_lookup_insert_eq by done. by split.
    + destruct (Ho l Hl0) as (j & b & Hj & Hb0). exists j, b. split; [|done].
      rewrite Ea. rewrite list_lookup_insert_ne; [done|]. intros ->. by simplify_eq.
  - intros j b l name s cfg. rewrite Ea.
    intros [(<- & <- & _)|[Hne Hj]]%list_lookup_insert_Some; simpl; eauto.
  - intros j b l l'. rewrite Ea.
    intros [(<- & <- & _)|[Hne Hj]]%list_lookup_insert_Some; simpl; eauto.
Qed.

(** Only listeners change, and only by closing. *)
Lemma listener_inv_closed p p' :
  listener_inv p → actors p' = actors p → closes (listeners p) (listeners p') →
  (∀ l, is_open (listeners p') l = true → is_open (listeners p) l = true) → listener_inv p'.
Proof.
  intros [Hv Ho Hs Hb] Ea [Hlen Hcl] Hl. split; rewrite Ea; try done.
  - intros i a l Hi H1. specialize (Hv i a l Hi H1). lia.
  - intros l Hl'. apply Ho. auto.
Qed.

Lemma is_open_close_true l l' lns :
  is_open (close_listener l lns) l' = true → l' ≠ l ∧ is_open lns l' = true.
Proof. rewrite is_open_close. case_decide; [done|]. auto. Qed.

Lemma interrupt_closes a p :
  closes (listeners p) (listeners (interrupt a p)) ∧
  ∀ l, is_open (listeners (interrupt a p)) l = true → is_open (listeners p) l = true.
Proof.
  unfold interrupt.
  repeat case_match; simpl; (split; [first [done | apply closes_close]|]); try done;
    intros l' [_ ?]%is_open_close_true; done.
Qed.

(** An actor lets go of its listener, which is closed. *)
Lemma listener_inv_release p p' i a c :
  listener_inv p → actors p !! i = Some a → closes (listeners p) (listeners p') →
  actors p' = <[i := mkActor (actor a) c (ln a)]> (actors p) →
  (∀ l, ¬ holds (mkActor (actor a) c (ln a)) l) →
  (∀ l, is_open (listeners p') l = true → is_open (listeners p) l = true ∧ ¬ holds a l) →
  listener_inv p'.
Proof.
  intros Hi Ha Hc Ea Hn Ho. eapply listener_inv_move; [exact Hi | exact Ha | done | exact Ea | ..].
  - intros l [Hl|Hl]; [by destruct (Hn l)|]. destruct Hc as [Hc _].
    assert (l < length (listeners p))%nat; [|lia]. eapply (li_valid p Hi); eauto.
  - intros l Hl. right. auto.
  - intros l name s cfg _ [->| ->]; destruct (Hn l); [right; by left | right; by right].
  - intros l l' _ Hl. by destruct (Hn l').
Qed.

(** The program points of an actor that holds nothing, or one listener. *)
Lemma holds_nothing a l : (pc a = Waiting ∨ pc a = Starting ∨ pc a = ShuttingDown ∨ is_done a) → ¬ holds a l.
Proof. intros [?|[?|[?|[??]]]] [|[]]; congruence. Qed.

Lemma holds_one a l l' : pc a = Built l ∨ pc a = Assigned l ∨ pc a = Serving l → holds a l' → l' = l.
Proof. intros [|[]] [|[]]; congruence. Qed.

Ltac holds_none := intros ?; apply holds_nothing; unfold is_done; simpl; eauto.

Lemma listener_inv_step k p p' : listener_inv p → proc_step k p p' → listener_inv p'.
Proof.
  intros Hi Hs. destruct Hs as
    [p|p i a Ha|p i a g Ha Hp|p i a name s cfg ne te lns err g Ha Hk Hp Hb|p i a name s cfg ne te lns l Ha Hk Hp Hb
    |p i a l Ha Hp|p i a name cfg l g Ha Hk Hp|p i a l Ha Hp Hw|p i a l err g Ha Hp Hcl He|p i a l err g Ha Hp
    |p i a comp Ha Hk Hp|p i a comp err g Ha Hk Hp|p i a g Ha|p i g Hg]; try exact Hi.
  - by eapply listener_inv_closed.
  - eapply listener_inv_release; [exact Hi | exact Ha | done | reflexivity | holds_none|].
    intros l Hl. split; [done|]. apply holds_nothing. auto.
  - apply buildListener_spec in Hb as [Hcl Ho].
    eapply listener_inv_release; [exact Hi | exact Ha | done | reflexivity | holds_none|].
    intros l Hl. split; [auto|]. apply holds_nothing. auto.
  - apply buildListener_spec in Hb as [Hcl (-> & Hlt & Ho)].
    eapply listener_inv_move; [exact Hi | exact Ha | done | reflexivity | ..]; simpl.
    + intros l [Hl|Hl].
      * apply (holds_one _ (length (listeners p))) in Hl as ->; [done | by left].
      * destruct Hcl as [Hcl _]. assert (l < length (listeners p))%nat; [|lia]. eapply (li_valid p Hi); eauto.
    + intros l [->|Hl]%Ho; [left; by left|]. right. split; [done|]. apply holds_nothing. auto.
    + by intros ? ? ? ? ? [].
    + congruence.
  - eapply listener_inv_move; [exact Hi | exact Ha | done | reflexivity | ..]; simpl.
    + intros l' [Hl|[= <-]]; [apply (holds_one _ l) in Hl as ->; [|by auto]|];
        (eapply (li_valid p Hi); [exact Ha|]; left; by left).
    + intros l' Hl. destruct (decide (l' = l)) as [->|Hne]; [left; right; by left|].
      right. split; [done|]. intros H1. apply (holds_one _ l) in H1; auto.
    + intros l' ? ? ? _ [|]; congruence.
    + intros l1 l2 Hk H1. apply (holds_one _ l) in H1 as ->; [|by auto].
      eapply (li_bufconn p Hi); [exact Ha | done | by left].
  - eapply listener_inv_release; [exact Hi | exact Ha | apply closes_close | reflexivity | holds_none|].
    intros l' [Hne Hl]%is_open_close_true. split; [done|]. intros H5. by apply (holds_one _ l) in H5; auto.
  - eapply listener_inv_move; [exact Hi | exact Ha | done | reflexivity | ..]; simpl.
    + intros l' [Hl|Hl]; (eapply (li_valid p Hi); [exact Ha|]); [|by auto].
      apply (holds_one _ l) in Hl as ->; [|by auto]. left. right. by left.
    + intros l' Hl. destruct (decide (l' = l)) as [->|Hne]; [left; right; by right|].
      right. split; [done|]. intros H1. apply (holds_one _ l) in H1; auto.
    + intros l' name s cfg Hk [|[= <-]]; [done|]. eapply (li_set p Hi); eauto.
    + intros l1 l2 Hk H1. apply (holds_one _ l) in H1 as ->; [|by auto].
      eapply (li_bufconn p Hi); [exact Ha | done | right; by left].
  - eapply listener_inv_release; [exact Hi | exact Ha | done | reflexivity | holds_none|].
    intros l' Hl. simpl in Hl. split; [done|]. intros H5. apply (holds_one _ l) in H5; [congruence | by auto].
  - eapply listener_inv_release; [exact Hi | exact Ha | apply closes_close | reflexivity | holds_none|].
    intros l' [Hne Hl]%is_open_close_true. split; [done|]. intros H5. by apply (holds_one _ l) in H5; auto.
  - eapply listener_inv_release; [exact Hi | exact Ha | apply closes_foldr | reflexivity | holds_none|].
    intros l [Hl _]%is_open_foldr. split; [done|]. apply holds_nothing. auto.
  - eapply listener_inv_release; [exact Hi | exact Ha | done | reflexivity | holds_none|].
    intros l Hl. split; [done|]. apply holds_nothing. auto.
  - destruct (interrupt_same a p) as [Ea _]. destruct (interrupt_closes a p) as [Hc Ho].
    by eapply listener_inv_closed.
  - by eapply listener_inv_closed.
Qed.

(** ** The program points of each kind of actor *)

Definition pc_ok a : bool :=
  match actor a, pc a with
  | ListenerServer _ _ _, (Starting | Built _ | Assigned _ | Serving _ | Done _) => true
  | BufconnListener _, (Assigned _ | Serving _ | Done _) => true
  | GracefulShutdownActor _, (Waiting | ShuttingDown | Done _) => true
  | (ContextCancelActor | CleanupActor | SnapshotActor), (Waiting | Done _) => true
  | _, _ => false
  end.

Definition pc_inv p : Prop := ∀ i a, actors p !! i = Some a → pc_ok a = true.

Lemma pc_inv_step k p p' : pc_inv p → proc_step k p p' → pc_inv p'.
Proof.
  intros Hi Hs j b Hj. destruct Hs; simpl in Hj; rewrite ?(proj1 (interrupt_same _ _)) in Hj;
    try (by eapply Hi); moved Hj; try (by eapply Hi);
    match goal with Ha : actors p !! _ = Some _ |- _ => apply Hi in Ha end;
    unfold pc_ok in *; simpl;
    repeat match goal with
      | Hk : actor ?x = _ |- _ => rewrite Hk in *
      | Hk : _ ∨ _ |- _ => destruct Hk
      | Hp : pc ?x = _ |- _ => rewrite Hp in *; clear Hp
      end; by repeat case_match.
Qed.

(** ** What has been told to stop *)

Record stop_inv p : Prop := {
  si_cancel i a : actors p !! i = Some a → actor a = ContextCancelActor →
    i ∈ interrupted (group p) → ctx_done p = true;
  si_down i a component : actors p !! i = Some a → actor a = GracefulShutdownActor component →
    pc a ≠ Waiting → web_down p = true;
  si_web i a l : actors p !! i = Some a → served_by_web a = Some l → web_down p = true →
    is_open (listeners p) l = false;
  si_bufconn i a l : actors p !! i = Some a → actor a = BufconnListener l →
    i ∈ interrupted (group p) → is_open (listeners p) l = false;
  si_client i a component : actors p !! i = Some a → actor a = GracefulShutdownActor component →
    is_done a → client_closed p = true;
}.

(** An actor that serves discovery requests was interrupted before [ln] was
    set, so that the interrupt closed nothing. *)
Definition missed p (i : nat) : Prop :=
  ∃ a name cfg, actors p !! i = Some a ∧ actor a = ListenerServer name Discovery cfg ∧
    i ∈ interrupted (group p) ∧ (pc a = Starting ∨ ∃ l, pc a = Built l).

(** Otherwise its listener is closed. *)
Definition timely p : Prop :=
  ∀ i a name cfg l, actors p !! i = Some a → actor a = ListenerServer name Discovery cfg →
    i ∈ interrupted (group p) → ln a = Some l → is_open (listeners p) l = false.

Lemma step_mono k p p' :
  proc_step k p p' →
  closes (listeners p) (listeners p') ∧ (ctx_done p = true → ctx_done p' = true) ∧
  (web_down p = true → web_down p' = true) ∧ (client_closed p = true → client_closed p' = true).
Proof.
  intros Hs. destruct Hs; try done; try (split_and!; [apply closes_close | done..]).
  - by apply buildListener_spec in H4 as [? _].
  - by apply buildListener_spec in H4 as [? _].
  - split_and!; [apply closes_foldr | done..].
  - split; [apply interrupt_closes|]. simpl. unfold interrupt. by repeat case_match.
Qed.

Lemma step_kind k p p' j b :
  proc_step k p p' → actors p' !! j = Some b → ∃ a, actors p !! j = Some a ∧ actor b = actor a.
Proof.
  intros Hs Hj. destruct Hs; simpl in Hj; rewrite ?(proj1 (interrupt_same _ _)) in Hj;
    try (by exists b); moved Hj; eauto.
Qed.

Lemma step_interrupted k p p' :
  proc_step k p p' →
  interrupted (group p') = interrupted (group p) ∨
  ∃ i a, actors p !! i = Some a ∧ interrupted (group p') = interrupted (group p) ++ [i] ∧
    listeners p' = listeners (interrupt a p) ∧ ctx_done p' = ctx_done (interrupt a p).
Proof.
  intros Hs. destruct Hs; try (by left); simpl;
    try match goal with Hg : g_step _ (ActorReturned _) _ |- _ => apply rg_returned in Hg as (_ & _ & -> & _); by left end.
  - right. apply rg_interrupted in H2 as (_ & _ & _ & _ & _ & -> & _). by exists i, a.
  - left. by apply rg_finished in H1 as (_ & _ & _ & _ & _ & -> & _).
Qed.

Lemma is_done_step k p p' j a :
  proc_step k p p' → actors p !! j = Some a → is_done a → actors p' !! j = Some a.
Proof.
  intros Hs Hj [e He]. destruct Hs; simpl; rewrite ?(proj1 (interrupt_same _ _)); try done;
    (rewrite list_lookup_insert_ne; [done|]); intros ->; simplify_eq; congruence.
Qed.

Lemma graceful_step k p p' j b component :
  proc_step k p p' → actors p' !! j = Some b → actor b = GracefulShutdownActor component →
  pc b ≠ Waiting →
  web_down p' = true ∨ ∃ a, actors p !! j = Some a ∧ actor a = actor b ∧ pc a ≠ Waiting.
Proof.
  intros Hs Hj Hk Hpc. destruct Hs; simpl in *; rewrite ?(proj1 (interrupt_same _ _)) in Hj;
    try (right; by exists b); try (by left); moved Hj; simpl in *;
    try (right; by exists b); try (by left);
    try match goal with Hd : _ ∨ _ |- _ => destruct Hd as [?|[?|?]]; congruence end; try congruence;
    (right; exists a; split_and!; [done..|congruence]).
Qed.

Lemma graceful_done_step k p p' j b component :
  pc_inv p → proc_step k p p' →
  actors p' !! j = Some b → actor b = GracefulShutdownActor component → is_done b →
  client_closed p' = true ∨ actors p !! j = Some b.
Proof.
  intros Hi Hs Hj Hk [e Hd]. destruct Hs; simpl in *; rewrite ?(proj1 (interrupt_same _ _)) in Hj;
    try (by left); try (by right); moved Hj; simpl in *; try (by right); try congruence;
    match goal with Ha : actors p !! _ = Some _ |- _ => apply Hi in Ha end;
    unfold pc_ok in *; rewrite Hk in *;
    match goal with Hp : pc ?x = _ |- _ => rewrite Hp in * end; try done.
  by match goal with Hd : _ ∨ _ |- _ => destruct Hd as [?|[?|?]] end.
Qed.

(** Only [Serve], before the shutdown, makes a web server serve. *)
Lemma served_step k p p' j b l :
  proc_step k p p' → actors p' !! j = Some b → served_by_web b = Some l →
  actors p !! j = Some b ∨ web_down p = false.
Proof.
  intros Hs Hj Hsv. destruct (served_by_web_holds b l Hsv) as [Hpc (name & cfg & Hk)].
  destruct Hs; simpl in *; rewrite ?(proj1 (interrupt_same _ _)) in Hj; try (by left);
    moved Hj; simpl in *; try (by left); try congruence. right. by eapply H3.
Qed.

(** The step that shuts the web server down closes what it serves. *)
Lemma shutdown_step k p p' j b l :
  proc_step k p p' → web_down p = false → web_down p' = true →
  actors p' !! j = Some b → served_by_web b = Some l → is_open (listeners p') l = false.
Proof.
  intros Hs Hd Hd' Hj Hsv. destruct (served_by_web_holds b l Hsv) as [Hpc _].
  destruct Hs; simpl in *; try congruence.
  - moved Hj; [done|]. apply not_true_is_false. intros [_ Hn]%is_open_foldr. apply Hn.
    apply list_elem_of_omap. exists b. split; [by eapply list_elem_of_lookup_2 | done].
  - unfold interrupt in Hd'. repeat case_match; simpl in *; congruence.
Qed.

Lemma stop_inv_step k p p' :
  pc_inv p → listener_inv p → stop_inv p → proc_step k p p' → stop_inv p'.
Proof.
  intros Hpc Hl Hi Hs. destruct (step_mono k p p' Hs) as ([_ Hcl] & Hctx & Hweb & Hcc). split.
  - intros j b Hj Hb Hint. destruct (step_kind k p p' j b Hs Hj) as (a & Ha & Ek). rewrite Ek in Hb.
    destruct (step_interrupted k p p' Hs) as [E|(i & a' & Hi' & E & _ & Ec)]; rewrite E in Hint.
    { by apply Hctx, (si_cancel p Hi j a). }
    apply elem_of_app in Hint as [Hint| ->%list_elem_of_singleton]; [by apply Hctx, (si_cancel p Hi j a)|].
    simplify_eq. rewrite Ec. unfold interrupt. by rewrite Hb.
  - intros j b component Hj Hb Hw.
    destruct (graceful_step k p p' j b component Hs Hj Hb Hw) as [?|(a & Ha & Ek & Hp)]; [done|].
    rewrite Hb in Ek. by eapply Hweb, (si_down p Hi).
  - intros j b l Hj Hb Hd. destruct (web_down p) eqn:Ed; [|by eapply shutdown_step].
    destruct (served_step k p p' j b l Hs Hj Hb) as [Ha|]; [|congruence].
    apply Hcl; [|by eapply (si_web p Hi)]. eapply (li_valid p Hl); [exact Ha|]. left.
    destruct (served_by_web_holds b l Hb) as [Hw _]. right. by right.
  - intros j b l Hj Hb Hint. destruct (step_kind k p p' j b Hs Hj) as (a & Ha & Ek). rewrite Ek in Hb.
    assert (l < length (listeners p))%nat as Hlt by (eapply (li_valid p Hl); eauto).
    destruct (step_interrupted k p p' Hs) as [E|(i & a' & Hi' & E & El & _)]; rewrite E in Hint.
    { by apply Hcl, (si_bufconn p Hi j a). }
    apply elem_of_app in Hint as [Hint| ->%list_elem_of_singleton].
    { by apply Hcl, (si_bufconn p Hi j a). }
    simplify_eq. rewrite El. unfold interrupt. rewrite Hb. simpl. rewrite is_open_close. by case_decide.
  - intros j b component Hj Hb Hd.
    destruct (graceful_done_step k p p' j b component Hpc Hs Hj Hb Hd) as [?|Ha]; [done|].
    by eapply Hcc, (si_client p Hi).
Qed.

Lemma ln_step k p p' j b l :
  proc_step k p p' → actors p' !! j = Some b → ln b = Some l →
  ∃ a, actors p !! j = Some a ∧ (ln a = Some l ∨ ∃ l, pc a = Built l ∧ interrupted (group p') = interrupted (group p)).
Proof.
  intros Hs Hj Hb. destruct Hs; simpl in *; rewrite ?(proj1 (interrupt_same _ _)) in Hj;
    try (by eauto); moved Hj; simpl in *; eauto 6.
Qed.

Lemma timely_step k p p' :
  listener_inv p → timely p → (∀ i, ¬ missed p i) → proc_step k p p' → timely p'.
Proof.
  intros Hl Ht Hm Hs j b name cfg l Hj Hb Hint Hln. destruct (step_mono k p p' Hs) as ([_ Hcl] & _).
  destruct (step_kind k p p' j b Hs Hj) as (a & Ha & Ek). rewrite Hb in Ek. symmetry in Ek.
  destruct (ln_step k p p' j b l Hs Hj Hln) as (a' & Ha' & [Hla|(l' & Hpa & E)]); simplify_eq.
  - assert (l < length (listeners p))%nat as Hlt by (eapply (li_valid p Hl); eauto).
    destruct (step_interrupted k p p' Hs) as [E|(i & a' & Hi' & E & El & _)]; rewrite E in Hint.
    { apply Hcl; [done|]. by apply (Ht j a name cfg l). }
    apply elem_of_app in Hint as [Hint| ->%list_elem_of_singleton].
    { apply Hcl; [done|]. by apply (Ht j a name cfg l). }
    simplify_eq. rewrite El. unfold interrupt. rewrite Ek, Hla. simpl. rewrite is_open_close. by case_decide.
  - rewrite E in Hint. destruct (Hm j). exists a, name, cfg. eauto 6.
Qed.
End facts.
