(* ===== verification/ActorsProps.v ===== *)
(** * Properties of the actors: the process stops, and when it does not

    Every run winds down once an actor has returned or the context has ended;
    the web command always, the service unless the gRPC listener's actor was
    interrupted before its listener was recorded. *)

From S2P Require Import Prelude GoErrors GoStrings ConfigTypes RunGroup Actors ActorsFacts.

(** ** How many steps are left *)

Definition weight (c : PC) : nat :=
  match c with
  | Starting => 4
  | Built _ => 3
  | Waiting | Assigned _ => 2
  | Serving _ | ShuttingDown => 1
  | Done _ => 0
  end.

Definition steps_left `{RunGroup} (p : Process) : nat :=
  (sum_list_with (λ a, weight (pc a)) (actors p) + (g_size (group p) - length (interrupted (group p)))
   + match finished (group p) with None => 1 | Some _ => 0 end)%nat.

Lemma sum_insert {A : Type} (f : A → nat) (l : list A) i x y :
  l !! i = Some x → (sum_list_with f (<[i:=y]> l) + f x = sum_list_with f l + f y)%nat.
Proof.
  revert i. induction l as [|z l IH]; intros [|i]; simpl; try done.
  - intros [= ->]. lia.
  - intros Hi. specialize (IH i Hi). lia.
Qed.

Lemma NoDup_bounded (l : list nat) n : NoDup l → (∀ i, i ∈ l → (i < n)%nat) → (length l ≤ n)%nat.
Proof.
  intros Hnd Hlt. rewrite <- (length_seq n 0). apply submseteq_length, NoDup_submseteq; [done|].
  intros i Hi. apply elem_of_seq. specialize (Hlt i Hi). lia.
Qed.

Section props.
Context `{RunGroupLaws}.
Implicit Types (p : Process) (acts : list Actor).

Lemma interrupted_bounded acts p : group_inv acts p → (length (interrupted (group p)) ≤ g_size (group p))%nat.
Proof.
  intros Hi. rewrite (gi_size _ p Hi). apply NoDup_bounded; [apply Hi|].
  intros i Hin. apply (gi_range _ p Hi). by right.
Qed.

(** The weights, as one actor moves. *)
Lemma sum_moved p i a c o :
  actors p !! i = Some a →
  (sum_list_with (λ a, weight (pc a)) (<[i := mkActor (actor a) c o]> (actors p)) + weight (pc a)
   = sum_list_with (λ a, weight (pc a)) (actors p) + weight c)%nat.
Proof. exact (sum_insert (λ a, weight (pc a)) (actors p) i a (mkActor (actor a) c o)). Qed.

Lemma steps_left_step acts k p p' :
  group_inv acts p → proc_step k p p' →
  match k with
  | Progress => (steps_left p' < steps_left p)%nat
  | World => (steps_left p' ≤ steps_left p)%nat
  end.
Proof.
  intros Hi Hs. pose proof (group_inv_step acts k p p' Hi Hs) as Hi'. apply interrupted_bounded in Hi'.
  unfold steps_left. destruct Hs; simpl in *; try done;
    repeat match goal with
    | Hg : g_step _ (ActorReturned _) _ |- _ => apply rg_returned in Hg as (-> & _ & -> & ->)
    | Ha : actors p !! ?i = Some ?a |- context [mkActor _ ?c ?o] =>
        pose proof (sum_moved p i a c o Ha); clear Ha
    | Hp : pc ?a = _ |- _ => rewrite Hp in *; clear Hp
    end; simpl in *; try lia.
  - destruct (interrupt_same a p) as [-> _]. apply rg_interrupted in H2 as (_ & _ & _ & E1 & _ & E2 & ->).
    rewrite E1, E2, length_app in *. simpl in *. lia.
  - apply rg_finished in H1 as (_ & _ & -> & -> & _ & -> & ->). lia.
Qed.

(** ** The start *)

Lemma start_actors acts i a :
  (new_actor <$> acts) !! i = Some a → ∃ b, acts !! i = Some b ∧ a = new_actor b.
Proof. rewrite list_lookup_fmap. intros (b & ? & ->)%fmap_Some. eauto. Qed.

Lemma start_group acts lns : group_inv acts (start_process acts lns).
Proof.
  destruct (rg_new (length acts)) as (E1 & E2 & E3 & E4).
  split; simpl; rewrite ?E1, ?E2, ?E3, ?E4; try done.
  - rewrite <- list_fmap_compose. by rewrite list_fmap_id.
  - intros i a (b & _ & ->)%start_actors. split; [by intros ?%elem_of_nil|].
    intros [e He]. by destruct b.
  - intros i [?%elem_of_nil|?%elem_of_nil]; done.
  - apply NoDup_nil_2.
Qed.

(** Every listener open at the start is the one of a bufconn actor. *)
Definition listeners_owned acts (lns : Listeners) : Prop :=
  (∀ l, BufconnListener l ∈ acts → (l < length lns)%nat) ∧
  ∀ l, is_open lns l = true → BufconnListener l ∈ acts.

Lemma new_actor_holds b l : holds (new_actor b) l → b = BufconnListener l.
Proof. destruct b; intros [|[]]; simpl in *; congruence. Qed.

Lemma start_listeners acts lns : listeners_owned acts lns → listener_inv (start_process acts lns).
Proof.
  intros [Hv Ho]. split.
  - intros i a l (b & Hb & ->)%start_actors Hl. apply Hv.
    destruct Hl as [->%new_actor_holds|[?| <-]]; [by eapply list_elem_of_lookup_2|done|by eapply list_elem_of_lookup_2].
  - intros l [i Hi]%Ho%list_elem_of_lookup. exists i, (new_actor (BufconnListener l)).
    split; [simpl; by rewrite list_lookup_fmap, Hi | right; by left].
  - intros i a l name s cfg (b & _ & ->)%start_actors. simpl. intros -> [|]; done.
  - intros i a l l' (b & _ & ->)%start_actors. simpl. intros -> [|[]]; simpl in *; congruence.
Qed.

Lemma start_pc acts lns : pc_inv (start_process acts lns).
Proof. intros i a (b & _ & ->)%start_actors. by destruct b. Qed.

Lemma start_stop acts lns : stop_inv (start_process acts lns).
Proof.
  destruct (rg_new (length acts)) as (_ & _ & E3 & _).
  split; simpl; rewrite ?E3; try done; try (by intros ? ? ? ? ?%elem_of_nil);
    try (by intros ? ? ? ? ? ?%elem_of_nil).
  - intros i a component (b & _ & ->)%start_actors. simpl. by intros ->.
  - intros i a component (b & _ & ->)%start_actors. simpl. by intros -> [? ?].
Qed.

Lemma start_timely acts lns : timely (start_process acts lns).
Proof.
  intros i a name cfg l _ _ Hin. destruct (rg_new (length acts)) as (_ & _ & E3 & _). simpl in Hin.
  rewrite E3 in Hin. by apply elem_of_nil in Hin.
Qed.

(** ** Every actor can move, once told to stop *)

Lemma can_return acts p i a :
  group_inv acts p → finished (group p) = None → actors p !! i = Some a → ¬ is_done a →
  ∃ g, g_step (group p) (ActorReturned i) g.
Proof. intros Hi Hf Ha Hd. apply rg_can_return; [|done]. by rewrite (gi_returned _ p Hi i a Ha). Qed.

Lemma actor_can_move acts p i a :
  group_inv acts p → pc_inv p → finished (group p) = None → actors p !! i = Some a → ¬ is_done a →
  ctx_done p = true → (∀ l, pc a = Serving l → is_open (listeners p) l = false) →
  ∃ q, proc_step Progress p q.
Proof.
  intros Hi Hpc Hf Ha Hd Hc Hl. destruct (can_return acts p i a Hi Hf Ha Hd) as [g Hg].
  pose proof (Hpc i a Ha) as Hok. unfold pc_ok in Hok. destruct (pc a) as [| |l|l|l| |e] eqn:Ep.
  - destruct (actor a) eqn:Ek; try done; [..|eexists; by eapply ps_shutdown| |];
      eexists; eapply (ps_context p i a g); eauto.
  - destruct (actor a) as [|name s cfg| | | |] eqn:Ek; try done.
    destruct (buildListener cfg None None (listeners p)) as [lns [l|e]] eqn:Eb.
    + eexists. by eapply ps_build.
    + eexists. by eapply ps_build_failed.
  - eexists. by eapply ps_assign.
  - destruct (web_down p) eqn:Ew.
    + destruct (actor a) as [|name [] cfg| | | |] eqn:Ek; try done;
        try (eexists; eapply (ps_serve p i a l); [done..|intros; congruence]).
      eexists. by eapply ps_refused.
    + eexists. by eapply (ps_serve p i a l).
  - eexists. eapply (ps_serve_end p i a l ErrServerClosed); eauto.
  - destruct (actor a) eqn:Ek; try done. eexists. eapply (ps_shutdown_end p i a _ None); eauto.
  - destruct Hd. by exists e.
Qed.

Definition stuck p : Prop := ∀ q, ¬ proc_step Progress p q.

(** Once one has returned and nothing can move, all are interrupted. *)
Lemma stuck_interrupted acts p i :
  group_inv acts p → stuck p → returned (group p) ≠ [] → (i < length acts)%nat →
  i ∈ interrupted (group p).
Proof.
  intros Hi Hst Hr Hlt. destruct (decide (i ∈ interrupted (group p))) as [?|Hni]; [done|].
  rewrite <- (gi_size _ p Hi) in Hlt. destruct (rg_interrupts_all (group p) i Hr Hlt Hni) as (j & g & Hg).
  pose proof (rg_interrupted _ _ _ Hg) as (_ & Hj & _). rewrite (gi_size _ p Hi), <- (gi_length _ p Hi) in Hj.
  apply lookup_lt_is_Some in Hj as [a Ha]. by destruct (Hst _ (ps_interrupt p j a g Ha Hg)).
Qed.

Lemma acts_lookup acts p b :
  group_inv acts p → b ∈ acts → ∃ i a, actors p !! i = Some a ∧ actor a = b ∧ (i < length acts)%nat.
Proof.
  intros Hi [i Hb]%list_elem_of_lookup. pose proof (lookup_lt_Some _ _ _ Hb).
  rewrite <- (gi_actors _ p Hi), list_lookup_fmap in Hb. apply fmap_Some in Hb as (a & ? & ->). eauto.
Qed.

Section stops.
Context (acts : list Actor) (p : Process).
Context (Hgroup : group_inv acts p) (Hlisteners : listener_inv p) (Hpcs : pc_inv p).
Context (Hstop : stop_inv p) (Htimely : timely p).
Context (Hcancel : ContextCancelActor ∈ acts).
Context (Hweb : ∀ name cfg, ListenerServer name Web cfg ∈ acts → ∃ c, GracefulShutdownActor c ∈ acts).
Context (Hstuck : stuck p).

Lemma stuck_done i a :
  finished (group p) = None → actors p !! i = Some a → ctx_done p = true →
  (∀ l, pc a = Serving l → is_open (listeners p) l = false) → is_done a.
Proof.
  intros Hf Ha Hc Hl. destruct (pc a) eqn:E; try (by eexists);
    (destruct (actor_can_move acts p i a Hgroup Hpcs Hf Ha) as [q Hq];
      [intros [??]; congruence | done | intros l ?; apply Hl; congruence | by destruct (Hstuck q)]).
Qed.

Lemma stuck_returned :
  finished (group p) = None → ctx_done p = true ∨ returned (group p) ≠ [] →
  ctx_done p = true ∧ returned (group p) ≠ [].
Proof.
  intros Hf Hor. destruct (acts_lookup acts p _ Hgroup Hcancel) as (i & a & Ha & Hk & Hlt).
  assert (returned (group p) ≠ [] → ctx_done p = true) as Hctx.
  { intros Hr. apply (si_cancel p Hstop i a Ha Hk). by apply (stuck_interrupted acts). }
  destruct Hor as [Hc|Hr]; [|by auto]. split; [done|].
  assert (is_done a) as Hd.
  { apply (stuck_done i a Hf Ha Hc). intros l Hl. specialize (Hpcs i a Ha). unfold pc_ok in Hpcs.
    by rewrite Hk, Hl in Hpcs. }
  apply (gi_returned _ p Hgroup i a Ha) in Hd. by intros E; rewrite E, elem_of_nil in Hd.
Qed.

(** What is served is closed. *)
Lemma stuck_closed i a l :
  finished (group p) = None → ctx_done p = true → returned (group p) ≠ [] →
  actors p !! i = Some a → pc a = Serving l → is_open (listeners p) l = false.
Proof.
  intros Hf Hc Hr Ha Hl. pose proof (lookup_lt_Some _ _ _ Ha) as Hlt. rewrite (gi_length _ p Hgroup) in Hlt.
  pose proof (stuck_interrupted acts p i Hgroup Hstuck Hr Hlt) as Hint.
  pose proof (Hpcs i a Ha) as Hok. unfold pc_ok in Hok. rewrite Hl in Hok.
  destruct (actor a) as [|name [] cfg|l'| | |] eqn:Hk; try done.
  - apply (Htimely i a name cfg l Ha Hk Hint). apply (li_set p Hlisteners i a l name _ cfg Ha Hk). by right.
  - destruct (Hweb name cfg) as [c Hg].
    { rewrite <- (gi_actors _ p Hgroup), <- Hk. apply list_elem_of_fmap_2. by eapply list_elem_of_lookup_2. }
    destruct (acts_lookup acts p _ Hgroup Hg) as (j & b & Hb & Hkb & _).
    assert (web_down p = true) as Hd.
    { apply (si_down p Hstop j b c Hb Hkb). intros Hw.
      destruct (stuck_done j b Hf Hb Hc) as [e He]; [|congruence]. intros; congruence. }
    apply (si_web p Hstop i a l Ha); [|done]. unfold served_by_web. by rewrite Hk, Hl.
  - rewrite (li_bufconn p Hlisteners i a l' l Ha Hk) by (right; by right).
    by apply (si_bufconn p Hstop i a l' Ha Hk).
Qed.

Lemma stuck_finished :
  ctx_done p = true ∨ returned (group p) ≠ [] →
  ∃ i rest a err, returned (group p) = i :: rest ∧ actors p !! i = Some a ∧ pc a = Done err ∧
    run_result p = Some err ∧ (∀ j b, actors p !! j = Some b → is_done b) ∧
    ∀ l, is_open (listeners p) l = false.
Proof.
  intros Hor. destruct (finished (group p)) as [i|] eqn:Hf; last first.
  { exfalso. destruct (stuck_returned Hf Hor) as [Hc Hr].
    assert (∀ i, (i < g_size (group p))%nat → i ∈ returned (group p) ∧ i ∈ interrupted (group p)) as Hall.
    { intros i Hlt. rewrite (gi_size _ p Hgroup) in Hlt. split; [|by apply (stuck_interrupted acts)].
      assert (is_Some (actors p !! i)) as [a Ha] by (apply lookup_lt_is_Some; by rewrite (gi_length _ p Hgroup)).
      apply (gi_returned _ p Hgroup i a Ha), (stuck_done i a Hf Ha Hc). intros l Hl. by apply (stuck_closed i a l). }
    destruct (rg_can_finish (group p) Hr Hall Hf) as (i & g & Hg). by destruct (Hstuck _ (ps_run_returned p i g Hg)). }
  destruct (gi_finished _ p Hgroup i Hf) as [Hh Hall]. destruct (returned (group p)) as [|i' rest] eqn:Er; [done|].
  simplify_eq/=. assert (∀ j b, actors p !! j = Some b → is_done b) as Hdone.
  { intros j b Hb. apply (gi_returned _ p Hgroup j b Hb). rewrite Er. apply Hall.
    rewrite <- (gi_length _ p Hgroup). by eapply lookup_lt_Some. }
  assert (i < length acts)%nat as Hlt by (apply (gi_range _ p Hgroup); left; rewrite Er; by left).
  rewrite <- (gi_length _ p Hgroup) in Hlt. apply lookup_lt_is_Some in Hlt as [a Ha].
  destruct (Hdone i a Ha) as [err He]. exists i, rest, a, err. split_and!; try done.
  - unfold run_result. rewrite Hf. simpl. rewrite Ha. simpl. by rewrite He.
  - intros l. apply not_true_is_false. intros (j & b & Hb & Hh')%(li_owned p Hlisteners).
    revert Hh'. apply holds_nothing. right. right. right. by eapply Hdone.
Qed.
End stops.

(** ** Runs *)

(** The runs in which no actor of the discovery server is interrupted before
    its listener is recorded; and all runs. *)
Definition timely_runs acts lns : Process → Prop :=
  rtc (λ p q, (∀ i, ¬ missed p i) ∧ ∃ k, proc_step k p q) (start_process acts lns).
Definition all_runs acts lns : Process → Prop :=
  rtc (λ p q, ∃ k, proc_step k p q) (start_process acts lns).

(** The only errors are those of servers that end because their listener was
    closed ([proc_step]'s [Progress] from [Serving]). *)
Definition calm_step p q : Prop :=
  ∃ k, proc_step k p q ∧
    ∀ i a b e, actors p !! i = Some a → ¬ is_done a → actors q !! i = Some b → pc b = Done (Some e) →
      k = Progress ∧ ∃ l, pc a = Serving l.

Lemma timely_runs_inv acts lns p :
  listeners_owned acts lns → timely_runs acts lns p →
  group_inv acts p ∧ listener_inv p ∧ pc_inv p ∧ stop_inv p ∧ timely p.
Proof.
  intros Hl. apply (rtc_ind_r (λ p, group_inv acts p ∧ listener_inv p ∧ pc_inv p ∧ stop_inv p ∧ timely p)).
  - split_and!; [apply start_group | by apply start_listeners | apply start_pc | apply start_stop | apply start_timely].
  - intros q r _ (Hm & k & Hs) (Hg & Hli & Hp & Hst & Ht).
    split_and!; [by eapply group_inv_step | by eapply listener_inv_step | by eapply pc_inv_step
      | by eapply stop_inv_step | by eapply timely_step].
Qed.

(** Without discovery listeners every run is timely. *)
Lemma runs_timely acts lns p :
  (∀ name cfg, ListenerServer name Discovery cfg ∉ acts) → all_runs acts lns p → timely_runs acts lns p.
Proof.
  intros Hn Hr. assert (group_inv acts p ∧ timely_runs acts lns p) as [_ ?]; [|done]. revert p Hr.
  apply (rtc_ind_r (λ p, group_inv acts p ∧ timely_runs acts lns p)).
  - split; [apply start_group | apply rtc_refl].
  - intros q r _ [k Hs] [Hg Ht]. split; [by eapply group_inv_step|]. eapply rtc_r; [exact Ht|].
    split; [|by exists k]. intros i (a & name & cfg & Ha & Hk & _). destruct (Hn name cfg).
    rewrite <- (gi_actors _ q Hg), <- Hk. apply list_elem_of_fmap_2. by eapply list_elem_of_lookup_2.
Qed.

Lemma steps_left_bound acts p : group_inv acts p → (steps_left p ≤ 5 * length acts + 1)%nat.
Proof.
  intros Hi. pose proof (gi_length _ p Hi) as Hl. pose proof (gi_size _ p Hi) as Hs. unfold steps_left.
  assert (sum_list_with (λ a, weight (pc a)) (actors p) ≤ 4 * length (actors p))%nat.
  { clear. induction (actors p) as [|a l IH]; simpl; [lia|]. destruct (pc a); simpl; lia. }
  destruct (finished (group p)); lia.
Qed.

(** What it means to wind down: the program's own steps run out, and when they
    have, [Run] has returned the result of the first actor that returned, every
    actor has, and every listener is closed. *)
Definition winds_down acts p : Prop :=
  (steps_left p ≤ 5 * length acts + 1)%nat ∧
  (∀ k q, proc_step k p q →
     match k with Progress => (steps_left q < steps_left p)%nat | World => (steps_left q ≤ steps_left p)%nat end) ∧
  (ctx_done p = true ∨ returned (group p) ≠ [] → stuck p →
     ∃ i rest a err, returned (group p) = i :: rest ∧ actors p !! i = Some a ∧ pc a = Done err ∧
       run_result p = Some err ∧ (∀ j b, actors p !! j = Some b → is_done b) ∧
       ∀ l, is_open (listeners p) l = false).

Lemma timely_winds_down acts lns p :
  listeners_owned acts lns → ContextCancelActor ∈ acts →
  (∀ name cfg, ListenerServer name Web cfg ∈ acts → ∃ c, GracefulShutdownActor c ∈ acts) →
  timely_runs acts lns p → winds_down acts p.
Proof.
  intros Hl Hc Hw Hr. destruct (timely_runs_inv acts lns p Hl Hr) as (Hg & Hli & Hp & Hst & Ht).
  split_and!; [by apply steps_left_bound | intros k q; by apply (steps_left_step acts)|].
  intros Hor Hstuck. by apply (stuck_finished acts).
Qed.

Lemma service_actors_ok cfg :
  let '(acts, lns) := service_actors cfg in
  listeners_owned acts lns ∧ ContextCancelActor ∈ acts ∧
  ∀ name cfg, ListenerServer name Web cfg ∈ acts → ∃ c, GracefulShutdownActor c ∈ acts.
Proof.
  unfold service_actors, addBufconnDiscoveryListener, listen.
  destruct (svc_WebEnable cfg), (in_memory cfg), (bool_decide (addCleanupActor _ = _)),
    (bool_decide (addSnapshotActor _ = _)); simpl; (split; [split|split]).
  all: try (set_solver; fail).
  all: try (intros l Hl; assert (l = 0%nat) as -> by set_solver; simpl; lia).
  all: try (intros [|[|l]] Hl; [set_solver|done..]).
  all: try (intros name cfg Hin; exists "embedded web server"; set_solver).
Qed.

(** C11: the service stops.  Whatever the configuration, the failures of its
    listeners and servers, the order of steps and the moment of a signal: as
    long as no interrupt finds the discovery actor before it has recorded its
    listener, every run has only boundedly many steps of its own before it, and
    when none is left after an actor has returned or the context has ended,
    [Run] has returned what the first actor returned, every actor has returned
    and every listener is closed. *)
Theorem service_stops cfg p :
  timely_runs (service_actors cfg).1 (service_actors cfg).2 p → winds_down (service_actors cfg).1 p.
Proof.
  intros Hr. pose proof (service_actors_ok cfg) as Hok. destruct (service_actors cfg) as [acts lns].
  destruct Hok as (Hl & Hc & Hw). by eapply timely_winds_down.
Qed.

(** C18: the web command stops, however its steps are ordered: an interrupt that
    comes before [ln] is set does no harm, because the shutdown hook makes the
    server refuse what it is given afterwards. *)
Theorem web_command_stops cfg p :
  all_runs (web_actors cfg).1 (web_actors cfg).2 p → winds_down (web_actors cfg).1 p.
Proof.
  intros Hr%runs_timely; [|set_solver]. eapply timely_winds_down; [| | |exact Hr]; simpl.
  - split; [set_solver|]. by intros [|l].
  - set_solver.
  - intros _ _ _. exists "web server". set_solver.
Qed.
End props.

(** ** The smallest service: the discovery server and the signal *)

Definition small_service (addr : string) : ServiceCommandConfig :=
  mkServiceCommandConfig (mkServerConfig addr no_server_tls) (mkDiscoveryConfig "" 0 "" 0)
    (mkServerConfig "" no_server_tls) false (mkClientConfig "" no_client_tls).

Definition small_start (addr : string) : Process :=
  start_process (service_actors (small_service addr)).1 (service_actors (small_service addr)).2.

(** A state of the small service, over the group that interrupts in any order. *)
Definition small (addr : string) (ctx : bool) (lns : Listeners) (c1 : PC) (l1 : option ListenerPtr) (c2 : PC)
    (r t : list nat) (f : option nat) : Process :=
  mkProcess _ ctx lns false false
    [mkActor (ListenerServer "discovery" Discovery (mkServerConfig addr no_server_tls)) c1 l1;
     mkActor ContextCancelActor c2 None]
    (mkGroup 2 r t f).

Section small.
Context (addr : string).
Local Abbreviation Small := (small addr).
Local Abbreviation Listener := (ListenerServer "discovery" Discovery (mkServerConfig addr no_server_tls)).

Lemma proc_step_eq k (p q q' : Process) : proc_step k p q → q = q' → proc_step k p q'.
Proof. by intros ? <-. Qed.

Lemma small_signal lns c1 l1 c2 r t f :
  proc_step World (Small false lns c1 l1 c2 r t f) (Small true lns c1 l1 c2 r t f).
Proof. apply (ps_signal (Small false lns c1 l1 c2 r t f)). Qed.

Lemma small_context lns c1 l1 t :
  proc_step Progress (Small true lns c1 l1 Waiting [] t None) (Small true lns c1 l1 (Done None) [1%nat] t None).
Proof.
  eapply proc_step_eq.
  - eapply (@ps_context any_order_group _ 1 (mkActor ContextCancelActor Waiting None) (mkGroup 2 [1%nat] t None));
      [done..|by left|apply (gs_return 2 [] t 1), not_elem_of_nil].
  - done.
Qed.

Lemma small_build ctx c2 r t f :
  proc_step Progress (Small ctx [] Starting None c2 r t f) (Small ctx [true] (Built 0) None c2 r t f).
Proof.
  eapply proc_step_eq.
  - by eapply (@ps_build any_order_group _ 0 (mkActor Listener Starting None) _ _ _ None None [true] 0).
  - done.
Qed.

Lemma small_assign ctx c2 r t f :
  proc_step Progress (Small ctx [true] (Built 0) None c2 r t f) (Small ctx [true] (Assigned 0) (Some 0%nat) c2 r t f).
Proof.
  eapply proc_step_eq.
  - by eapply (@ps_assign any_order_group _ 0 (mkActor Listener (Built 0) None) 0).
  - done.
Qed.

Lemma small_serve ctx c2 r t f :
  proc_step Progress (Small ctx [true] (Assigned 0) (Some 0%nat) c2 r t f)
    (Small ctx [true] (Serving 0) (Some 0%nat) c2 r t f).
Proof.
  eapply proc_step_eq.
  - by eapply (@ps_serve any_order_group _ 0 (mkActor Listener (Assigned 0) (Some 0%nat)) 0).
  - done.
Qed.

Lemma small_interrupt_cancel lns c1 l1 t :
  1%nat ∉ t →
  proc_step Progress (Small true lns c1 l1 (Done None) [1%nat] t None)
    (Small true lns c1 l1 (Done None) [1%nat] (t ++ [1%nat]) None).
Proof.
  intros Ht. eapply proc_step_eq.
  - eapply (@ps_interrupt any_order_group _ 1 (mkActor ContextCancelActor (Done None) None)
      (mkGroup 2 [1%nat] (t ++ [1%nat]) None)); [done|]. constructor; [done | lia | done].
  - done.
Qed.

Lemma small_interrupt_listener lns c1 l1 t :
  0%nat ∉ t →
  proc_step Progress (Small true lns c1 l1 (Done None) [1%nat] t None)
    (Small true (match l1 with Some l => close_listener l lns | None => lns end) c1 l1 (Done None)
       [1%nat] (t ++ [0%nat]) None).
Proof.
  intros Ht. eapply proc_step_eq.
  - eapply (@ps_interrupt any_order_group _ 0 (mkActor Listener c1 l1) (mkGroup 2 [1%nat] (t ++ [0%nat]) None)); [done|].
    constructor; [done | lia | done].
  - by destruct l1.
Qed.

(** C38: an early interrupt is lost.  If the service is told to stop (here by a
    signal) after the discovery actor has started and before it has recorded
    its listener, the interrupt closes nothing; the listener is opened
    afterwards and served for good: no step of the program is left, and [Run]
    never returns. *)
Theorem early_interrupt_is_lost :
  ∃ p, all_runs (service_actors (small_service addr)).1 (service_actors (small_service addr)).2 p ∧
    ctx_done p = true ∧ returned (group p) ≠ [] ∧ (∀ i, (i < 2)%nat → i ∈ interrupted (group p)) ∧
    is_open (listeners p) 0 = true ∧ stuck p ∧ run_result p = None.
Proof.
  exists (Small true [true] (Serving 0) (Some 0%nat) (Done None) [1%nat] [0%nat; 1%nat] None). split_and!.
  - change (rtc (λ p q, ∃ k, proc_step k p q) (Small false [] Starting None Waiting [] [] None)
      (Small true [true] (Serving 0) (Some 0%nat) (Done None) [1%nat] [0%nat; 1%nat] None)).
    eapply rtc_l; [eexists; apply small_signal|].
    eapply rtc_l; [eexists; apply small_context|].
    eapply rtc_l; [eexists; apply small_interrupt_listener, not_elem_of_nil|].
    eapply rtc_l; [eexists; apply small_interrupt_cancel; set_solver|].
    eapply rtc_l; [eexists; apply small_build|].
    eapply rtc_l; [eexists; apply small_assign|].
    eapply rtc_l; [eexists; apply small_serve|]. apply rtc_refl.
  - done.
  - done.
  - intros [|[|i]] Hi; simpl; [by left | right; by left | lia].
  - done.
  - intros q Hq. inversion Hq; subst; try done;
      repeat match goal with
      | Hi : actors _ !! ?i = Some _ |- _ => destruct i as [|[|?]]; simplify_eq/=
      | Hg : group_step _ _ _ |- _ => inversion Hg; subst; clear Hg
      end; try done; try set_solver.
    match goal with Hg : g_step _ (RunReturned _) _ |- _ => apply rg_finished in Hg as (_ & Hall & _) end.
    specialize (Hall 0%nat). simpl in Hall. assert (0%nat ∈ [1%nat]) as Hin by (apply Hall; lia). set_solver.
  - done.
Qed.

(** ** Witnesses *)

Lemma small_not_missed ctx lns c1 l1 c2 r t f :
  0%nat ∉ t ∨ (c1 ≠ Starting ∧ ∀ l, c1 ≠ Built l) → ∀ i, ¬ missed (Small ctx lns c1 l1 c2 r t f) i.
Proof.
  intros Hor i (a & name & cfg & Ha & Hk & Hin & Hp). destruct i as [|[|i]]; simplify_eq/=.
  destruct Hor as [?|[? Hb]]; [done|]. destruct Hp as [?|[l ?]]; [done | by destruct (Hb l)].
Qed.
End small.

(** A run of the small service to the end of its own steps: it serves, a signal
    comes, and [Run] returns without an error. *)
Definition small_end : Process :=
  small ":3000" true [false] (Done (Some (ErrorString "closed"))) (Some 0%nat) (Done None)
    [1%nat; 0%nat] [0%nat; 1%nat] (Some 1%nat).

Ltac calm :=
  intros [|[|?]] ? ? ? ? Hn ? ?; simplify_eq/=; first [done | by destruct Hn; eexists | by eauto].

Lemma small_end_steps :
  rtc (λ p q, (∀ i, ¬ missed p i) ∧ calm_step p q) (small_start ":3000") small_end.
Proof.
  change (small_start ":3000") with (small ":3000" false [] Starting None Waiting [] [] None).
  eapply rtc_l; [split; [|eexists; split; [apply small_build | calm]]; apply small_not_missed; left; apply not_elem_of_nil|].
  eapply rtc_l; [split; [|eexists; split; [apply small_assign | calm]]; apply small_not_missed; left; apply not_elem_of_nil|].
  eapply rtc_l; [split; [|eexists; split; [apply small_serve | calm]]; apply small_not_missed; left; apply not_elem_of_nil|].
  eapply rtc_l; [split; [|eexists; split; [apply small_signal | calm]]; apply small_not_missed; left; apply not_elem_of_nil|].
  eapply rtc_l; [split; [|eexists; split; [apply small_context | calm]]; apply small_not_missed; left; apply not_elem_of_nil|].
  eapply rtc_l; [split; [|eexists; split; [apply small_interrupt_listener, not_elem_of_nil | calm]];
    apply small_not_missed; left; apply not_elem_of_nil|].
  eapply rtc_l; [split; [|eexists; split; [apply small_interrupt_cancel; set_solver | calm]]; by apply small_not_missed; right|].
  eapply rtc_l; [split; [by apply small_not_missed; right|]; eexists; split; [eapply proc_step_eq|]|].
  { eapply (@ps_serve_end any_order_group _ 0
      (mkActor (ListenerServer "discovery" Discovery (mkServerConfig ":3000" no_server_tls)) (Serving 0) (Some 0%nat))
      0 (ErrorString "closed") (mkGroup 2 [1%nat; 0%nat] [0%nat; 1%nat] None)); try done.
    apply (gs_return 2 [1%nat] [0%nat; 1%nat] 0). set_solver. }
  { reflexivity. }
  { calm. }
  apply rtc_once. split; [by apply small_not_missed; right|]. eexists. split; [eapply proc_step_eq|].
  - eapply (@ps_run_returned any_order_group _ 1 (mkGroup 2 [1%nat; 0%nat] [0%nat; 1%nat] (Some 1%nat))).
    apply gs_finish; [done|]. intros [|[|j]] Hj; [set_solver | set_solver | lia].
  - done.
  - calm.
Qed.

Lemma small_end_run :
  timely_runs (service_actors (small_service ":3000")).1 (service_actors (small_service ":3000")).2 small_end.
Proof. eapply rtc_subrel; [|exact small_end_steps]. intros p q [Hm (k & Hk & _)]. eauto. Qed.

Lemma service_stops_witness :
  run_result small_end = Some None ∧ (steps_left small_end ≤ 11)%nat ∧
  ∀ q, proc_step World small_end q → (steps_left q ≤ steps_left small_end)%nat.
Proof.
  destruct (service_stops (small_service ":3000") small_end small_end_run) as (Hb & Hs & _).
  split; [reflexivity|]. split; [exact Hb | intros q; exact (Hs World q)].
Defined.

(** The web command, told to stop before it has done anything. *)
Definition web_config : WebCommandConfig :=
  mkWebCommandConfig (mkServerConfig ":8080" no_server_tls) (mkClientConfig "localhost:3000" no_client_tls).

Definition web_start : Process := start_process (web_actors web_config).1 [].

Lemma web_command_stops_witness :
  (steps_left (set_ctx_done web_start) ≤ 16)%nat ∧
  (stuck (set_ctx_done web_start) → ∃ err, run_result (set_ctx_done web_start) = Some err).
Proof.
  destruct (web_command_stops web_config (set_ctx_done web_start)) as (Hb & _ & Hst).
  - apply rtc_once. exists World. apply ps_signal.
  - split; [exact Hb|]. intros Hstuck. destruct (Hst (or_introl eq_refl) Hstuck) as (i & rest & a & err & _ & _ & _ & Hr & _).
    exists err. exact Hr.
Defined.
