(* ===== verification/Exit.v ===== *)
(** * How the process ends ([cmd/discovery-service/main.go], the errors of
    [StartDiscoveryServer] and [StartDiscoveryWeb])

    The error of a command, the exit status of the process, and that a process
    in which nothing fails exits with success. *)

From S2P Require Import Prelude GoErrors ConfigTypes RunGroup Actors ActorsFacts ActorsProps.

(** ** The commands *)

(** What [StartDiscoveryServer] returns: [state] and [web] are the errors of
    [NewState] and [newEmbeddedWebServer], [group_Run] is what the group
    returned. *)
Definition service_result (cfg : ServiceCommandConfig) (state web group_Run : option error) : option error :=
  match state with
  | Some err => Some (Errorf "failed to create state: " err)
  | None =>
      match (if svc_WebEnable cfg then web else None) with
      | Some err => Some (Errorf "failed to initialize embedded web: " err)
      | None => group_Run
      end
  end.

(** What [StartDiscoveryWeb] returns: [web] is the error of [NewWebServer]. *)
Definition web_result (web group_Run : option error) : option error :=
  match web with
  | Some err => Some (Errorf "start discovery web server: " err)
  | None => group_Run
  end.

Definition runService (StartDiscoveryServer : option error) : option error :=
  match StartDiscoveryServer with Some err => Some err | None => None end.

Definition runWeb (StartDiscoveryWeb : option error) : option error :=
  match StartDiscoveryWeb with Some err => Some err | None => None end.

(** [main]: [zlog.Fatalw] exits with status 1. *)
Definition exit_status (err : option error) : Z :=
  match err with Some _ => 1 | None => 0 end.

(** ** Runs in which nothing fails *)

Section exit.
Context `{RunGroupLaws}.
Implicit Types p : Process.

Definition calm_runs acts lns : Process → Prop := rtc calm_step (start_process acts lns).

Record calm_inv p : Prop := {
  ci_distinct i j a b l : actors p !! i = Some a → actors p !! j = Some b → holds a l → holds b l → i = j;
  ci_open i a l : returned (group p) = [] → actors p !! i = Some a → holds a l →
    is_open (listeners p) l = true ∨ (served_by_web a = Some l ∧ web_down p = true);
  ci_first i rest : returned (group p) = i :: rest → ∃ a, actors p !! i = Some a ∧ pc a = Done None;
}.

Lemma buildListener_ok cfg net_err tls_err lns lns' l :
  buildListener cfg net_err tls_err lns = (lns', Ok l) → lns' = lns ++ [true] ∧ l = length lns.
Proof.
  unfold buildListener, listen. destruct net_err; [done|]. destruct (negb _); [by intros [= <- <-]|].
  destruct tls_err; [done|]. by intros [= <- <-].
Qed.

(** What is held after a step was held by the same actor, or is a new listener,
    and then no other actor moved. *)
Lemma step_holds k p q j b l :
  proc_step k p q → actors q !! j = Some b → holds b l →
  (∃ a, actors p !! j = Some a ∧ holds a l) ∨
  (l = length (listeners p) ∧ ∀ i, i ≠ j → actors q !! i = actors p !! i).
Proof.
  intros Hs Hj Hh. destruct Hs; simpl in *; rewrite ?(proj1 (interrupt_same _ _)) in Hj;
    try (left; by exists b); moved Hj; try (left; by exists b);
    try (by destruct Hh as [|[]]).
  - right. apply buildListener_ok in H4 as [_ ->]. destruct Hh as [[= <-]|[|]]; [|done..].
    split; [done|]. intros k Hk. by rewrite list_lookup_insert_ne.
  - left. exists a. split; [done|]. left. destruct Hh as [|[[= <-]|]]; done.
  - left. exists a. split; [done|]. right. left. destruct Hh as [|[|[= <-]]]; done.
Qed.

Lemma distinct_step k p q :
  listener_inv p → calm_inv p → proc_step k p q →
  ∀ i j a b l, actors q !! i = Some a → actors q !! j = Some b → holds a l → holds b l → i = j.
Proof.
  intros Hl Hc Hs i j a b l Hi Hj Ha Hb. destruct (decide (i = j)) as [|Hne]; [done|]. exfalso.
  assert (∀ i a, actors p !! i = Some a → holds a l → (l < length (listeners p))%nat) as Hv.
  { intros i' a' Hi' Ha'. eapply (li_valid p Hl); eauto. }
  destruct (step_holds k p q i a l Hs Hi Ha) as [(a0 & Ha0 & Hh0)|[E0 Ho]];
    destruct (step_holds k p q j b l Hs Hj Hb) as [(b0 & Hb0 & Hh1)|[E Ho']].
  - by apply Hne, (ci_distinct p Hc i j a0 b0 l).
  - specialize (Hv i a0 Ha0 Hh0). lia.
  - specialize (Hv j b0 Hb0 Hh1). lia.
  - rewrite Ho in Hj by done. specialize (Hv j b Hj Hb). lia.
Qed.
(** A step after which nobody has returned is none of those that return. *)
Lemma not_returned (g g' : g_state) i : g_step g (ActorReturned i) g' → returned g' ≠ [].
Proof. intros (_ & -> & _)%rg_returned. by destruct (returned g). Qed.

Lemma open_step k p q :
  listener_inv p → calm_inv p → proc_step k p q → returned (group q) = [] →
  ∀ j b l, actors q !! j = Some b → holds b l →
    is_open (listeners q) l = true ∨ (served_by_web b = Some l ∧ web_down q = true).
Proof.
  intros Hl Hc Hs. pose proof (ci_open p Hc) as Ho. destruct Hs as
    [p|p i a Ha|p i a g Ha Hp ? ? Hg|p i a name s cfg ne te lns err g Ha Hk Hp Hb Hg|p i a name s cfg ne te lns l Ha Hk Hp Hb
    |p i a l Ha Hp|p i a name cfg l g Ha Hk Hp ? Hg|p i a l Ha Hp Hw|p i a l err g Ha Hp Hcl He Hg|p i a l err g Ha Hp Hg
    |p i a comp Ha Hk Hp|p i a comp err g Ha Hk Hp Hg|p i a g Ha Hg|p i g Hg]; intros Hr j b l' Hj Hh; simpl in *;
    try (by destruct (not_returned _ _ _ Hg)); try (by apply (Ho j b l')).
  - apply buildListener_ok in Hb as [-> ->]. moved Hj.
    + destruct Hh as [[= <-]|[|]]; [|done..]. left. rewrite is_open_listen. by case_decide.
    + rewrite is_open_listen. case_decide; [by left | by apply (Ho j b l')].
  - moved Hj; [|by apply (Ho j b l')]. left. apply (holds_one _ l) in Hh as ->; [|by auto].
    destruct (Ho i a l Hr Ha) as [?|[E _]]; [by left | done|]. apply served_by_web_holds in E as [E _]. congruence.
  - moved Hj; [|by apply (Ho j b l')]. left. apply (holds_one _ l) in Hh as ->; [|by auto].
    destruct (Ho i a l Hr Ha) as [?|[E _]]; [by right; left | done|]. apply served_by_web_holds in E as [E _]. congruence.
  - moved Hj; [by destruct Hh as [|[]]|]. destruct (decide (l' ∈ omap served_by_web (actors p))) as [Hin|Hn].
    + apply list_elem_of_omap in Hin as (c & [m Hm]%list_elem_of_lookup & E). right. split; [|done].
      destruct (served_by_web_holds c l' E) as [Hs _].
      assert (j = m) as <- by (eapply (ci_distinct p Hc); [done | done | done | right; by right]). by simplify_eq.
    + destruct (Ho j b l' Hr Hj Hh) as [Hop|[E _]]; [left; by apply is_open_foldr|].
      destruct Hn. apply list_elem_of_omap. exists b. split; [by eapply list_elem_of_lookup_2 | done].
  - apply rg_interrupted in Hg as (Hne & _ & _ & _ & E & _). by rewrite E in Hr.
  - apply rg_finished in Hg as (Hh' & _ & _ & _ & E & _). rewrite E in Hr. by rewrite Hr in Hh'.
Qed.

Lemma step_returned k p q :
  proc_step k p q →
  returned (group q) = returned (group p) ∨ ∃ i, returned (group q) = returned (group p) ++ [i].
Proof.
  intros Hs. destruct Hs; try (by left); simpl;
    try match goal with Hg : g_step _ (ActorReturned _) _ |- _ => apply rg_returned in Hg as (_ & -> & _); right; by eexists end.
  - left. by apply rg_interrupted in H2 as (_ & _ & _ & _ & ? & _).
  - left. by apply rg_finished in H1 as (_ & _ & _ & _ & ? & _).
Qed.

(** What the first actor returns. *)
Lemma first_step k p q :
  pc_inv p → calm_inv p → proc_step k p q →
  (∀ i a b e, actors p !! i = Some a → ¬ is_done a → actors q !! i = Some b → pc b = Done (Some e) →
     k = Progress ∧ ∃ l, pc a = Serving l) →
  returned (group p) = [] → ∀ i, returned (group q) = [i] → ∃ a, actors q !! i = Some a ∧ pc a = Done None.
Proof.
  intros Hpc Hc Hs Hcalm Hr. destruct Hs as
    [p|p i a Ha|p i a g Ha Hp ? ? Hg|p i a name s cfg ne te lns err g Ha Hk Hp Hb Hg|p i a name s cfg ne te lns l Ha Hk Hp Hb
    |p i a l Ha Hp|p i a name cfg l g Ha Hk Hp ? Hg|p i a l Ha Hp Hw|p i a l err g Ha Hp Hcl He Hg|p i a l err g Ha Hp Hg
    |p i a comp Ha Hk Hp|p i a comp err g Ha Hk Hp Hg|p i a g Ha Hg|p i g Hg]; intros j Hj; simpl in *;
    try (rewrite Hr in Hj; done);
    try (apply rg_returned in Hg as (_ & Er & _); rewrite Er, Hr in Hj; simpl in Hj; injection Hj as <-;
      pose proof (lookup_lt_Some _ _ _ Ha) as Hlt;
      assert (¬ is_done a) as Hnd by (intros [? ?]; congruence); eexists; (split; [by apply list_lookup_insert_eq|]); simpl).
  - done.
  - destruct (Hcalm i a _ _ Ha Hnd (list_lookup_insert_eq _ _ _ Hlt) eq_refl)
      as [_ [l' Hl']]. congruence.
  - done.
  - destruct (ci_open p Hc i a l Hr Ha) as [E|[E Hd]]; [right; by right | congruence|].
    destruct (served_by_web_holds a l E) as [_ (name & cfg & Hk)]. rewrite (He name cfg Hk Hd), Hk. done.
  - destruct (serve_result (actor a) (Some err)) as [e|] eqn:E; [|done].
    by destruct (Hcalm i a _ e Ha Hnd (list_lookup_insert_eq _ _ _ Hlt) eq_refl) as [? _].
  - destruct (web_shutdown_result err) as [e|] eqn:E; [|done].
    destruct (Hcalm i a _ _ Ha Hnd (list_lookup_insert_eq _ _ _ Hlt) eq_refl)
      as [_ [l' Hl']]. congruence.
  - apply rg_interrupted in Hg as (Hne & _). by destruct Hne.
  - apply rg_finished in Hg as (Hh & _). by rewrite Hr in Hh.
Qed.
Lemma calm_inv_step p q :
  pc_inv p → listener_inv p → calm_inv p → calm_step p q → calm_inv q.
Proof.
  intros Hpc Hl Hc (k & Hs & Hcalm). split.
  - by eapply distinct_step.
  - intros i a l Hr. by apply (open_step k p q Hl Hc Hs Hr).
  - intros i rest Hr. destruct (step_returned k p q Hs) as [E|[j E]]; rewrite E in Hr.
    + destruct (ci_first p Hc i rest Hr) as (a & Ha & Hd). exists a. split; [|done].
      apply (is_done_step k p q i a Hs Ha). by eexists.
    + destruct (returned (group p)) as [|i' rest'] eqn:Er.
      * simpl in *. simplify_eq. by apply (first_step k p q).
      * simplify_eq/=. destruct (ci_first p Hc i rest' Er) as (a & Ha & Hd). exists a. split; [|done].
        apply (is_done_step k p q i a Hs Ha). by eexists.
Qed.

(** Every listener open at the start is that of one actor. *)
Definition start_ok acts lns : Prop :=
  listeners_owned acts lns ∧
  (∀ i j l, acts !! i = Some (BufconnListener l) → acts !! j = Some (BufconnListener l) → i = j) ∧
  ∀ l, BufconnListener l ∈ acts → is_open lns l = true.

Lemma calm_inv_start acts lns : start_ok acts lns → calm_inv (start_process acts lns).
Proof.
  intros (_ & Hd & Ho). destruct (rg_new (length acts)) as (_ & E & _). split; simpl.
  - intros i j a b l (a' & Ha & ->)%start_actors (b' & Hb & ->)%start_actors
      ->%new_actor_holds ->%new_actor_holds. by eapply Hd.
  - intros i a l _ (a' & Ha & ->)%start_actors ->%new_actor_holds. left. apply Ho. by eapply list_elem_of_lookup_2.
  - intros i rest Hr. by rewrite E in Hr.
Qed.

Lemma calm_result acts lns p err :
  start_ok acts lns → calm_runs acts lns p → run_result p = Some err → err = None.
Proof.
  intros Hok Hr Hres.
  assert (group_inv acts p ∧ listener_inv p ∧ pc_inv p ∧ calm_inv p) as (Hg & _ & _ & Hc).
  { clear Hres. revert p Hr. apply (rtc_ind_r (λ p, group_inv acts p ∧ listener_inv p ∧ pc_inv p ∧ calm_inv p)).
    - split_and!; [apply start_group | by apply start_listeners, Hok | apply start_pc | by apply calm_inv_start].
    - intros q r _ Hs (Hg & Hl & Hp & Hc). pose proof Hs as (k & Hk & _).
      split_and!; [by eapply group_inv_step | by eapply listener_inv_step | by eapply pc_inv_step | by eapply calm_inv_step]. }
  unfold run_result in Hres. destruct (finished (group p)) as [i|] eqn:Hf; [|done]. simpl in Hres.
  destruct (gi_finished _ p Hg i Hf) as [Hh _]. destruct (returned (group p)) as [|i' rest] eqn:Er; [done|].
  injection Hh as ->. destruct (ci_first p Hc i rest Er) as (a & Ha & Hd). rewrite Ha in Hres. simpl in Hres.
  rewrite Hd in Hres. congruence.
Qed.

Lemma web_start_ok cfg : start_ok (web_actors cfg).1 (web_actors cfg).2.
Proof.
  split; [|split]; simpl; [|by intros [|[|[|i]]] [|[|[|j]]] l; intros; simplify_eq/= | intros; set_solver].
  split; [set_solver | by intros [|l]].
Qed.

Lemma service_start_ok cfg : start_ok (service_actors cfg).1 (service_actors cfg).2.
Proof.
  pose proof (service_actors_ok cfg) as Hok. destruct (service_actors cfg) as [acts lns] eqn:E. destruct Hok as [Hl _].
  split; [done|]. unfold service_actors, addBufconnDiscoveryListener, listen in E. clear Hl.
  destruct (svc_WebEnable cfg), (in_memory cfg), (bool_decide (addCleanupActor _ = _)),
    (bool_decide (addSnapshotActor _ = _)); simpl in E; injection E as <- <-; (split; [|intros l Hl]).
  all: try (assert (l = 0%nat) as -> by set_solver; done).
  all: try (exfalso; set_solver).
  all: intros [|[|[|[|[|[|[|i]]]]]]] [|[|[|[|[|[|[|j]]]]]]] l; by intros; simplify_eq/=.
Qed.

(** A calm run of either command, out of steps after it was told to stop. *)
Lemma calm_end acts lns p :
  start_ok acts lns → calm_runs acts lns p → winds_down acts p →
  ctx_done p = true ∨ returned (group p) ≠ [] → stuck p → run_result p = Some None.
Proof.
  intros Hok Hr (_ & _ & Hend) Hor Hst. destruct (Hend Hor Hst) as (i & rest & a & err & _ & _ & _ & E & _).
  by rewrite <- (calm_result acts lns p err Hok Hr E).
Qed.

(** The calm runs in which no interrupt is lost. *)
Definition quiet_runs acts lns : Process → Prop :=
  rtc (λ p q, (∀ i, ¬ missed p i) ∧ calm_step p q) (start_process acts lns).

Lemma quiet_calm acts lns p : quiet_runs acts lns p → calm_runs acts lns p.
Proof. apply rtc_subrel. by intros q r [_ ?]. Qed.

Lemma quiet_timely acts lns p : quiet_runs acts lns p → timely_runs acts lns p.
Proof. apply rtc_subrel. intros q r [? (k & ? & _)]. eauto. Qed.

Lemma calm_all acts lns p : calm_runs acts lns p → all_runs acts lns p.
Proof. apply rtc_subrel. intros q r (k & ? & _). eauto. Qed.

Lemma quiet_service_stops cfg p :
  quiet_runs (service_actors cfg).1 (service_actors cfg).2 p → winds_down (service_actors cfg).1 p.
Proof.
  intros Hr%quiet_timely. pose proof (service_actors_ok cfg) as Hok. destruct (service_actors cfg) as [acts lns].
  destruct Hok as (Hl & Hc & Hw). by eapply timely_winds_down.
Qed.

Lemma calm_web_stops cfg p :
  calm_runs (web_actors cfg).1 (web_actors cfg).2 p → winds_down (web_actors cfg).1 p.
Proof.
  intros Hr%calm_all%runs_timely; [|set_solver]. destruct (web_start_ok cfg) as [Hl _].
  eapply timely_winds_down; [exact Hl | | | exact Hr]; simpl; [set_solver|].
  intros _ _ _. exists "web server". set_solver.
Qed.

(** C19: the exit status.  Take a run in which nothing fails: every listener is
    made, servers end only because their listener was closed, the shutdown is
    in time.  When it has been told to stop, or an actor has returned, and the
    program has no step left, then however the steps were ordered [Run] has
    returned nil and both commands exit with status 0; the service only if no
    interrupt came before its gRPC listener was recorded (if one did, [Run] may
    never return, but if it does the status is 0 too).  Status 0 means exactly
    that the state was loaded, that the embedded web server, if there is one,
    was made, and that the actor that returned first returned nil; it does not
    mean that nothing failed, since the errors of the other actors, and that of
    the last snapshot, which is logged, are dropped. *)
Theorem clean_exit :
  (∀ cfg p, quiet_runs (service_actors cfg).1 (service_actors cfg).2 p →
     ctx_done p = true ∨ returned (group p) ≠ [] → stuck p →
     ∃ err, run_result p = Some err ∧ exit_status (runService (service_result cfg None None err)) = 0) ∧
  (∀ cfg p err, calm_runs (service_actors cfg).1 (service_actors cfg).2 p → run_result p = Some err →
     exit_status (runService (service_result cfg None None err)) = 0) ∧
  (∀ cfg p, calm_runs (web_actors cfg).1 (web_actors cfg).2 p →
     (∀ err, run_result p = Some err → exit_status (runWeb (web_result None err)) = 0) ∧
     (ctx_done p = true ∨ returned (group p) ≠ [] → stuck p → ∃ err, run_result p = Some err)) ∧
  (∀ cfg state web err, exit_status (runService (service_result cfg state web err)) = 0 ↔
     state = None ∧ (svc_WebEnable cfg = true → web = None) ∧ err = None) ∧
  ∀ web err, exit_status (runWeb (web_result web err)) = 0 ↔ web = None ∧ err = None.
Proof.
  assert (∀ cfg, exit_status (runService (service_result cfg None None None)) = 0) as Hexit.
  { intros cfg. unfold service_result. by destruct (svc_WebEnable cfg). }
  split_and!.
  - intros cfg p Hr Hor Hst. exists None. split; [|apply Hexit].
    by apply (calm_end _ _ p (service_start_ok cfg) (quiet_calm _ _ p Hr) (quiet_service_stops cfg p Hr)).
  - intros cfg p err Hr E. by apply (calm_result _ _ _ _ (service_start_ok cfg) Hr) in E as ->.
  - intros cfg p Hr. split.
    + intros err E. by apply (calm_result _ _ _ _ (web_start_ok cfg) Hr) in E as ->.
    + intros Hor Hst. exists None. by apply (calm_end _ _ p (web_start_ok cfg) Hr (calm_web_stops cfg p Hr)).
  - intros cfg [|] [|] [|]; unfold service_result; destruct (svc_WebEnable cfg); naive_solver.
  - intros [|] [|]; naive_solver.
Qed.
End exit.

(** ** Witness: the small service, told to stop *)

Lemma small_end_stuck : stuck small_end.
Proof.
  intros q Hq. inversion Hq; subst; try done;
    repeat match goal with
    | Hi : actors _ !! ?i = Some _ |- _ => destruct i as [|[|?]]; simplify_eq/=
    | Hg : group_step _ _ _ |- _ => inversion Hg; subst; clear Hg
    end; try done.
  1,2: match goal with Hn : _ ∉ _ |- _ => apply Hn; first [by left | right; by left] end.
  match goal with Hg : g_step _ _ _ |- _ => by apply rg_finished in Hg as (_ & _ & ? & _) end.
Qed.

(** It exits with status 0 although one of its actors returned an error. *)
Lemma clean_exit_witness :
  (∃ err, run_result small_end = Some err ∧
     exit_status (runService (service_result (small_service ":3000") None None err)) = 0) ∧
  ∃ a, actors small_end !! 0%nat = Some a ∧ pc a = Done (Some (ErrorString "closed")).
Proof.
  split; [|eexists; split; reflexivity].
  destruct clean_exit as (Hs & _). apply (Hs (small_service ":3000") small_end).
  - exact small_end_steps.
  - by left.
  - exact small_end_stuck.
Defined.
