(* ===== verification/Config.v ===== *)
(** * Flags, environment and configuration file ([internal/config/viper.go],
    the flags of [cmd/discovery-service/main.go])

    How the values of flags are found: [BindFlagsToViper] copies what viper has
    (environment, configuration file) into the flags that the command line did
    not set, once for the whole tree of commands before the configuration file
    is read, and once more for the command that runs.  Flags are shared by the
    commands of the tree, so they live in a store; pflag and viper are classes
    with the behaviour their documentation gives. *)

From S2P Require Import Prelude GoTime ConfigTypes.

(** ** Libraries *)

(** [pflag.Flag] and [FlagSet.Set]. *)
Class PFlag (Flag : Type) : Type := {
  Name : Flag → string;
  Changed : Flag → bool;
  Set_ : Flag → string → result string Flag;
}.
Class PFlagLaws (Flag : Type) `{PFlag Flag} : Prop := {
  Set_spec f x f' : Set_ f x = Ok f' → Name f' = Name f ∧ Changed f' = true;
}.

(** [strings.NewReplacer("-", "_")], and the upper case that viper applies. *)
Definition env_char (c : Ascii.ascii) : Ascii.ascii :=
  let n := Ascii.nat_of_ascii c in
  if ((97 <=? n) && (n <=? 122))%nat then Ascii.ascii_of_nat (n - 32)
  else if (n =? 45)%nat then Ascii.ascii_of_nat 95 else c.

Fixpoint env_name (s : string) : string :=
  match s with
  | EmptyString => EmptyString
  | String c s => String (env_char c) (env_name s)
  end.

(** Viper with [AutomaticEnv]: [getenv] is the environment, [in_file] what was
    read from the configuration file; [Get] is already printed. *)
Class Viper (V : Type) : Type := {
  getenv : V → string → option string;
  in_file : V → string → option string;
  IsSet : V → string → bool;
  Get : V → string → string;
  ReadInConfig : string → V → result string V;
}.

(** An empty variable counts as unset. *)
Definition env_value {V : Type} `{Viper V} (v : V) (key : string) : option string :=
  x ← getenv v (env_name key);
  if bool_decide (x = EmptyString) then None else Some x.

(** The environment comes before the file. *)
Definition viper_value {V : Type} `{Viper V} (v : V) (key : string) : option string :=
  match env_value v key with Some x => Some x | None => in_file v key end.

Class ViperLaws (V : Type) `{Viper V} : Prop := {
  IsSet_spec v key : IsSet v key = bool_decide (is_Some (viper_value v key));
  Get_spec v key x : viper_value v key = Some x → Get v key = x;
  ReadInConfig_env path v v' : ReadInConfig path v = Ok v' → ∀ name, getenv v' name = getenv v name;
}.

(** ** Commands *)

Abbreviation FlagPtr := nat.

(** The flags a command inherits, all its flags (those too), and its
    subcommands. *)
#[warnings="-register-all"]
Inductive Command : Type :=
| mkCommand (inherited flags : list FlagPtr) (subs : list Command).

Definition InheritedFlags (c : Command) : list FlagPtr := let '(mkCommand i _ _) := c in i.
Definition Flags (c : Command) : list FlagPtr := let '(mkCommand _ f _) := c in f.
Definition Commands (c : Command) : list Command := let '(mkCommand _ _ s) := c in s.

Section viper.
Context {Flag V : Type} `{PFlag Flag, Viper V}.
Local Abbreviation Store := (list Flag).

(** The function that [VisitAll] calls; an error is fatal. *)
Definition visit (v : V) (f : Flag) : result string Flag :=
  if Changed f || negb (IsSet v (Name f)) then Ok f else Set_ f (Get v (Name f)).

Definition visit_at (v : V) (st : Store) (p : FlagPtr) : result string Store :=
  match st !! p with
  | Some f => f' <-? visit v f ;; Ok (<[p := f']> st)
  | None => Ok st
  end.

Definition applyViperToFlagSet (v : V) (fs : option (list FlagPtr)) (st : Store) : result string Store :=
  match fs with
  | None => Ok st
  | Some ptrs => rfold (visit_at v) st ptrs
  end.

Definition applyViperToCommand (v : V) (cmd : Command) (st : Store) : result string Store :=
  st <-? applyViperToFlagSet v (Some (InheritedFlags cmd)) st ;;
  applyViperToFlagSet v (Some (Flags cmd)) st.

Fixpoint bindCommandTreeFlags (v : V) (cmd : Command) (st : Store) : result string Store :=
  st <-? applyViperToCommand v cmd st ;;
  let fix loop (subs : list Command) (st : Store) : result string Store :=
    match subs with
    | [] => Ok st
    | sub :: subs => st <-? bindCommandTreeFlags v sub st ;; loop subs st
    end in
  match cmd with mkCommand _ _ subs => loop subs st end.

(** The function given to [cobra.OnInitialize]. *)
Definition on_initialize (root : Command) (v : V) (st : Store) : result string (V * Store) :=
  st <-? bindCommandTreeFlags v root st ;;
  if IsSet v "config" then
    v' <-? ReadInConfig (Get v "config") v ;; Ok (v', st)
  else Ok (v, st).

(** [root.PersistentPreRunE], around the one there was. *)
Definition persistent_pre_run (original : option (Store → result string Store)) (cmd : Command) (v : V)
    (st : Store) : result string Store :=
  st <-? applyViperToCommand v cmd st ;;
  match original with
  | Some f => f st
  | None => Ok st
  end.

(** What cobra does with a command between parsing its arguments, which leaves
    [st], and running it: the functions of [OnInitialize], then the persistent
    hook of the root. *)
Definition BindFlagsToViper (root cmd : Command) (v : V) (st : Store) : result string (V * Store) :=
  r <-? on_initialize root v st ;;
  st <-? persistent_pre_run None cmd r.1 r.2 ;;
  Ok (r.1, st).

End viper.

(** ** The flags of the program *)

Inductive FlagValue : Type :=
| VString (s : string)
| VBool (b : bool)
| VDuration (d : Duration).

(** A flag: its name, the field it is bound to, and its default. *)
Record FlagDef : Type := mkFlagDef {
  fd_name : string;
  fd_field : string;
  fd_default : FlagValue;
}.

Definition defaultServicePort : string := "3000".

Definition registerRootFlags : list FlagDef := [mkFlagDef "config" "" (VString "")].

(** [webServer] and [cfg] name the configuration whose fields are bound. *)
Definition registerWebServerFlags (webServer : string) : list FlagDef :=
  [mkFlagDef "web-addr" (webServer +:+ ".Addr") (VString ":8080");
   mkFlagDef "web-tls-enable" (webServer +:+ ".TLS.Enable") (VBool false);
   mkFlagDef "web-tls-refresh" (webServer +:+ ".TLS.Refresh") (VDuration 0);
   mkFlagDef "web-tls-key-password" (webServer +:+ ".TLS.KeyPassword") (VString "");
   mkFlagDef "web-tls-file-key" (webServer +:+ ".TLS.File.Key") (VString "");
   mkFlagDef "web-tls-file-cert" (webServer +:+ ".TLS.File.Cert") (VString "");
   mkFlagDef "web-tls-file-client-ca" (webServer +:+ ".TLS.File.ClientCAs") (VString "");
   mkFlagDef "web-tls-file-client-crl" (webServer +:+ ".TLS.File.ClientCRL") (VString "")].

Definition registerDiscoveryClientTLSFlags (cfg : string) : list FlagDef :=
  [mkFlagDef "web-discovery-client-tls-enable" (cfg +:+ ".TLS.Enable") (VBool false);
   mkFlagDef "web-discovery-client-tls-refresh" (cfg +:+ ".TLS.Refresh") (VDuration 0);
   mkFlagDef "web-discovery-client-tls-insecure-skip-verify" (cfg +:+ ".TLS.InsecureSkipVerify") (VBool false);
   mkFlagDef "web-discovery-client-tls-use-system-pool" (cfg +:+ ".TLS.UseSystemPool") (VBool true);
   mkFlagDef "web-discovery-client-tls-key-password" (cfg +:+ ".TLS.KeyPassword") (VString "");
   mkFlagDef "web-discovery-client-tls-file-root-ca" (cfg +:+ ".TLS.File.RootCAs") (VString "");
   mkFlagDef "web-discovery-client-tls-file-key" (cfg +:+ ".TLS.File.Key") (VString "");
   mkFlagDef "web-discovery-client-tls-file-cert" (cfg +:+ ".TLS.File.Cert") (VString "")].

Definition registerServiceFlags : list FlagDef :=
  [mkFlagDef "server-addr" "Server.Addr" (VString (":" +:+ defaultServicePort));
   mkFlagDef "server-tls-enable" "Server.TLS.Enable" (VBool false);
   mkFlagDef "server-tls-refresh" "Server.TLS.Refresh" (VDuration 0);
   mkFlagDef "server-tls-key-password" "Server.TLS.KeyPassword" (VString "");
   mkFlagDef "server-tls-file-key" "Server.TLS.File.Key" (VString "");
   mkFlagDef "server-tls-file-cert" "Server.TLS.File.Cert" (VString "");
   mkFlagDef "server-tls-file-client-ca" "Server.TLS.File.ClientCAs" (VString "");
   mkFlagDef "server-tls-file-client-crl" "Server.TLS.File.ClientCRL" (VString "");
   mkFlagDef "discovery-redirect-endpoint" "DiscoveryConfig.RedirectEndpoint" (VString "");
   mkFlagDef "discovery-cleanup-interval" "DiscoveryConfig.CleanupInterval" (VDuration (5 * Minute));
   mkFlagDef "discovery-snapshot-path" "DiscoveryConfig.SnapshotPath" (VString "");
   mkFlagDef "discovery-snapshot-interval" "DiscoveryConfig.SnapshotInterval" (VDuration (1 * Minute))]
  ++ registerWebServerFlags "WebServer"
  ++ [mkFlagDef "web-enable" "WebEnable" (VBool false);
      mkFlagDef "web-discovery-client-target" "WebDiscoveryClient.Target" (VString InMemoryTransport)]
  ++ registerDiscoveryClientTLSFlags "WebDiscoveryClient".

Definition registerWebFlags : list FlagDef :=
  registerWebServerFlags "WebServer"
  ++ [mkFlagDef "web-discovery-client-target" "WebDiscoveryClient.Target"
        (VString ("localhost:" +:+ defaultServicePort))]
  ++ registerDiscoveryClientTLSFlags "WebDiscoveryClient".

(** The store of all flags, and the tree: the root's flag is persistent, and
    so inherited by both commands. *)
Definition all_flags : list FlagDef := registerRootFlags ++ registerServiceFlags ++ registerWebFlags.

Definition newServiceCommand : Command :=
  mkCommand [0%nat] (0%nat :: seq 1 (length registerServiceFlags)) [].
Definition newWebCommand : Command :=
  mkCommand [0%nat] (0%nat :: seq (1 + length registerServiceFlags) (length registerWebFlags)) [].
Definition newRootCommand : Command := mkCommand [] [0%nat] [newServiceCommand; newWebCommand].

(** ** Facts *)

Section facts.
Context {Flag V : Type} `{PFlagLaws Flag, ViperLaws V}.
Implicit Types (f : Flag) (v : V) (st : list Flag) (ptrs : list FlagPtr).

Lemma visit_idem v f f' : visit v f = Ok f' → visit v f' = Ok f'.
Proof.
  unfold visit. destruct (Changed f || negb (IsSet v (Name f))) eqn:E.
  - intros [= <-]. by rewrite E.
  - intros [_ Hc]%Set_spec. by rewrite Hc.
Qed.

(** Visiting a list of flags, some of them more than once. *)
Lemma visit_all v st ptrs st' :
  rfold (visit_at v) st ptrs = Ok st' →
  ∀ p f, st !! p = Some f →
    ∃ f', st' !! p = Some f' ∧ if bool_decide (p ∈ ptrs) then visit v f = Ok f' else f' = f.
Proof.
  revert st. induction ptrs as [|q ptrs IH]; intros st E p f Hp; simpl in E.
  { injection E as <-. exists f. split; [done|]. rewrite bool_decide_false; [done | apply not_elem_of_nil]. }
  unfold visit_at at 1 in E. destruct (st !! q) as [g|] eqn:Hq; simpl in E; last first.
  { destruct (IH st E p f Hp) as (f' & Hf' & Hv). exists f'. split; [done|].
    erewrite bool_decide_ext; [exact Hv|]. rewrite elem_of_cons. naive_solver. }
  destruct (visit v g) as [g'|] eqn:Eg; [|done]. simpl in E. destruct (decide (p = q)) as [->|Hne].
  - simplify_eq. destruct (IH (<[q := g']> st) E q g') as (f' & Hf' & Hv).
    { apply list_lookup_insert_eq. by eapply lookup_lt_Some. }
    exists f'. split; [done|]. rewrite bool_decide_true by left.
    destruct (bool_decide _); [|by subst]. pose proof (visit_idem _ _ _ Eg). congruence.
  - destruct (IH (<[q := g']> st) E p f) as (f' & Hf' & Hv); [by rewrite list_lookup_insert_ne|].
    exists f'. split; [done|]. erewrite bool_decide_ext; [exact Hv|]. rewrite elem_of_cons. naive_solver.
Qed.

(** All flags of a tree of commands, in the order in which they are visited. *)
Definition own_flags (c : Command) : list FlagPtr := InheritedFlags c ++ Flags c.

Fixpoint tree_flags (c : Command) : list FlagPtr :=
  own_flags c ++
  (fix loop (subs : list Command) : list FlagPtr :=
     match subs with [] => [] | sub :: subs => tree_flags sub ++ loop subs end)
    (match c with mkCommand _ _ subs => subs end).

Lemma applyViperToCommand_eq v c st : applyViperToCommand v c st = rfold (visit_at v) st (own_flags c).
Proof. unfold applyViperToCommand, own_flags. simpl. by rewrite rfold_app. Qed.

Lemma Command_ind_subs (P : Command → Prop) :
  (∀ i fl subs, Forall P subs → P (mkCommand i fl subs)) → ∀ c, P c.
Proof.
  intros Hstep. fix IH 1. intros [i fl subs]. apply Hstep.
  induction subs as [|sub subs IHs]; constructor; [apply IH | apply IHs].
Qed.

Lemma bindCommandTreeFlags_eq v c st : bindCommandTreeFlags v c st = rfold (visit_at v) st (tree_flags c).
Proof.
  revert st. induction c as [i fl subs IH] using Command_ind_subs. intros st.
  cbn [bindCommandTreeFlags tree_flags]. rewrite rfold_app, <- applyViperToCommand_eq.
  destruct (applyViperToCommand v _ st) as [st1|]; [|done]. cbn [rbind]. revert st1.
  induction IH as [|sub subs Hsub _ IHs]; intros st1; [done|]. rewrite rfold_app, <- Hsub.
  destruct (bindCommandTreeFlags v sub st1) as [st2|]; [apply IHs | done].
Qed.

(** A command of the tree. *)
Inductive in_tree (c : Command) : Command → Prop :=
| it_here : in_tree c c
| it_sub i fl subs sub : sub ∈ subs → in_tree c sub → in_tree c (mkCommand i fl subs).

Lemma in_tree_flags c root p : in_tree c root → p ∈ own_flags c → p ∈ tree_flags root.
Proof.
  intros Ht Hp. induction Ht as [|i fl subs sub Hin _ IH].
  - destruct c. cbn [tree_flags]. apply elem_of_app. by left.
  - cbn [tree_flags]. apply elem_of_app. right. induction Hin as [sub subs|sub x subs Hin IHs]; apply elem_of_app; auto.
Qed.

(** What one visit does to a flag, in terms of the environment and the file. *)
Lemma visit_spec v f f' :
  visit v f = Ok f' →
  if Changed f then f' = f
  else match viper_value v (Name f) with
       | Some x => Set_ f x = Ok f'
       | None => f' = f
       end.
Proof.
  unfold visit. destruct (Changed f); [by intros [= ->]|]. simpl. rewrite IsSet_spec.
  destruct (viper_value v (Name f)) as [x|] eqn:E.
  - rewrite bool_decide_true by done. simpl. by rewrite (Get_spec v _ x E).
  - rewrite bool_decide_false by (by intros []). by intros [= ->].
Qed.

Lemma env_value_same v v' key :
  (∀ name, getenv v' name = getenv v name) → env_value v' key = env_value v key.
Proof. intros E. unfold env_value. by rewrite E. Qed.

(** C20: where the value of a flag comes from.  When a command is about to run,
    each of its flags has the value of the command line, or else of its
    environment variable, or else of the configuration file, or else its
    default; and nothing else about the flag was changed.  The configuration
    file is the one that the variable [CONFIG] names: the flag [--config], which
    viper is not told of, plays no part. *)
Theorem flag_precedence root cmd v v' st st' :
  in_tree cmd root → (∀ key, in_file v key = None) →
  BindFlagsToViper root cmd v st = Ok (v', st') →
  match env_value v "config" with
  | Some path => ReadInConfig path v = Ok v'
  | None => v' = v
  end ∧
  ∀ p f, p ∈ own_flags cmd → st !! p = Some f →
    ∃ f', st' !! p = Some f' ∧
      if Changed f then f' = f
      else match env_value v (Name f), in_file v' (Name f) with
           | Some x, _ => Set_ f x = Ok f'
           | None, Some x => Set_ f x = Ok f'
           | None, None => f' = f
           end.
Proof.
  intros Ht Hno E. unfold BindFlagsToViper, on_initialize, persistent_pre_run in E.
  rewrite bindCommandTreeFlags_eq in E. destruct (rfold _ st _) as [st1|] eqn:E1; [|done]. cbn [rbind] in E.
  assert (viper_value v "config" = env_value v "config") as Hcfg.
  { unfold viper_value. rewrite Hno. by destruct (env_value v "config"). }
  assert (∃ v1, (if IsSet v "config" then v' <-? ReadInConfig (Get v "config") v ;; Ok (v', st1) else Ok (v, st1))
      = Ok (v1, st1) ∧
    match env_value v "config" with Some path => ReadInConfig path v = Ok v1 | None => v1 = v end) as (v1 & Ev & Hv1).
  { rewrite IsSet_spec in *. rewrite Hcfg in *. destruct (env_value v "config") as [path|] eqn:Ep.
    - rewrite bool_decide_true in * by done. rewrite (Get_spec v _ path Hcfg) in *.
      destruct (ReadInConfig path v) as [v1|]; [|done]. by exists v1.
    - rewrite bool_decide_false in * by (by intros []). by exists v. }
  rewrite Ev in E. cbn [rbind fst snd] in E. rewrite applyViperToCommand_eq in E.
  destruct (rfold _ st1 _) as [st2|] eqn:E2; [|done]. injection E as <- <-. split; [done|].
  assert (∀ name, getenv v1 name = getenv v name) as Henv.
  { destruct (env_value v "config"); [by eapply ReadInConfig_env | by subst]. }
  intros p f Hp Hf. destruct (visit_all _ _ _ _ E1 p f Hf) as (f1 & Hf1 & Hone).
  rewrite bool_decide_true in Hone by (by eapply in_tree_flags). apply visit_spec in Hone.
  destruct (visit_all _ _ _ _ E2 p f1 Hf1) as (f2 & Hf2 & Htwo). rewrite bool_decide_true in Htwo by done.
  apply visit_spec in Htwo. exists f2. split; [done|].
  destruct (Changed f) eqn:Hc; [subst; by rewrite Hc in Htwo|]. unfold viper_value in Hone. rewrite Hno in Hone.
  destruct (env_value v (Name f)) as [x|] eqn:Ex.
  - pose proof (Set_spec _ _ _ Hone) as [_ Hc1]. rewrite Hc1 in Htwo. by subst.
  - subst f1. rewrite Hc in Htwo. unfold viper_value in Htwo.
    by rewrite (env_value_same v v1 _ Henv), Ex in Htwo.
Qed.
End facts.

(** What [defs], registered for [cmd], have to be. *)
Definition flags_ok (cmd : Command) (defs : list FlagDef) : Prop :=
  in_tree cmd newRootCommand ∧
  Flags cmd ≫= (λ p, option_list (all_flags !! p)) = registerRootFlags ++ defs ∧
  NoDup (fd_name <$> registerRootFlags ++ defs) ∧
  NoDup (env_name ∘ fd_name <$> registerRootFlags ++ defs) ∧
  NoDup (fd_field <$> defs).

(** The flags of the two commands are well formed.  No name is registered
    twice for one command (pflag would panic), no two share an environment
    variable, each is bound to a field of its own, and every flag of the tree
    is in the store under the pointer its command has. *)
Theorem program_flags_ok :
  flags_ok newServiceCommand registerServiceFlags ∧ flags_ok newWebCommand registerWebFlags.
Proof.
  split; (split; [eapply it_sub; [|apply it_here]; set_solver|]); split_and!; try (by vm_compute);
    apply (bool_decide_unpack _); by vm_compute.
Qed.

(** ** Witness: the service command, with all four sources *)

Record TestFlag : Type := mkTestFlag { tf_name : string; tf_value : string; tf_changed : bool }.

#[local] Instance test_flag : PFlag TestFlag := {|
  Name := tf_name;
  Changed := tf_changed;
  Set_ f x := Ok (mkTestFlag (tf_name f) x true);
|}.

#[local] Instance test_flag_laws : PFlagLaws TestFlag.
Proof. split. by intros f x f' [= <-]. Qed.

Record TestViper : Type := mkTestViper {
  tv_env : gmap string string;
  tv_file : gmap string string;
  tv_files : gmap string (gmap string string);
}.

Definition tv_value (v : TestViper) (key : string) : option string :=
  match tv_env v !! env_name key with
  | Some x => if bool_decide (x = EmptyString) then tv_file v !! key else Some x
  | None => tv_file v !! key
  end.

#[local] Instance test_viper : Viper TestViper := {|
  getenv v name := tv_env v !! name;
  in_file v key := tv_file v !! key;
  IsSet v key := bool_decide (is_Some (tv_value v key));
  Get v key := default EmptyString (tv_value v key);
  ReadInConfig path v :=
    match tv_files v !! path with
    | Some file => Ok (mkTestViper (tv_env v) file (tv_files v))
    | None => Err "no such file"
    end;
|}.

Lemma tv_value_eq (v : TestViper) key : viper_value v key = tv_value v key.
Proof.
  unfold viper_value, env_value, tv_value. simpl. destruct (tv_env v !! env_name key) as [x|]; [|done]. simpl.
  by case_bool_decide.
Qed.

#[local] Instance test_viper_laws : ViperLaws TestViper.
Proof.
  split.
  - intros v key. by rewrite tv_value_eq.
  - intros v key x. rewrite tv_value_eq. simpl. by intros ->.
  - intros path v v'. simpl. destruct (tv_files v !! path); [|done]. by intros [= <-].
Qed.

Definition fl_env : TestViper :=
  mkTestViper {["CONFIG" := "a.yaml"; "DISCOVERY_SNAPSHOT_PATH" := "/env.db"; "SERVER_ADDR" := ":1"]} ∅
    {["a.yaml" := {["web-enable" := "true"; "discovery-snapshot-path" := "/file.db"]}]}.

(** [--server-addr=:4000 --config=b.yaml] *)
Definition fl_store : list TestFlag :=
  (λ d, if bool_decide (fd_name d = "server-addr") then mkTestFlag "server-addr" ":4000" true
        else if bool_decide (fd_name d = "config") then mkTestFlag "config" "b.yaml" true
        else mkTestFlag (fd_name d) "default" false) <$> all_flags.

Lemma flag_precedence_witness :
  ∃ v st, BindFlagsToViper newRootCommand newServiceCommand fl_env fl_store = Ok (v, st) ∧
    ReadInConfig "a.yaml" fl_env = Ok v ∧
    tf_value <$> st !! 1%nat = Some ":4000" ∧ tf_value <$> st !! 11%nat = Some "/env.db" ∧
    tf_value <$> st !! 21%nat = Some "true" ∧ tf_value <$> st !! 9%nat = Some "default".
Proof.
  destruct (BindFlagsToViper newRootCommand newServiceCommand fl_env fl_store) as [[v st]|e] eqn:E;
    [|by vm_compute in E].
  destruct (flag_precedence newRootCommand newServiceCommand fl_env v fl_store st) as [Hv _].
  - eapply it_sub; [left | apply it_here].
  - intros key. apply lookup_empty.
  - exact E.
  - exists v, st. split; [reflexivity|]. split; [exact Hv|].
    vm_compute in E. injection E as <- <-. by split_and!.
Defined.
