(* ===== verification/WebServer.v ===== *)
(** * Starting the web server ([internal/web/web_server.go],
    [discovery_client.go], [server.go], the web part of
    [internal/server/server.go])

    The options, the gRPC client, the metrics it registers, the routes, and
    what is closed when something fails.  TLS, the gRPC client's constructor
    and the Prometheus registry belong to libraries; embedded files are part of
    the language. *)

From S2P Require Import Prelude GoErrors GoStrings ConfigTypes RunGroup Actors ActorsFacts.

(** ** Libraries *)

(** A registry, through what its documentation says: it refuses what is
    already registered. *)
Class Registry (R : Type) : Type := {
  reg_names : R → list string;
  reg_new : R;
  reg_Register : string → R → result error R;
}.
Class RegistryLaws (R : Type) `{Registry R} : Prop := {
  reg_new_names : reg_names reg_new = [];
  reg_register name r : name ∉ reg_names r →
    ∃ r', reg_Register name r = Ok r' ∧ reg_names r' = reg_names r ++ [name];
  reg_refuse name r : name ∈ reg_names r → ∃ err, reg_Register name r = Err err;
}.

(** Whether [GetTLSClientConfigFunc] and [grpc.NewClient] fail. *)
Class GrpcClient : Type := {
  GetTLSClientConfigFunc : TLSClientConfig → option error;
  grpc_NewClient : string → bool → option error;
}.

(** ** State: connections, registries and in-memory listeners, by pointer *)

Abbreviation ConnPtr := nat.
Abbreviation RegPtr := nat.

Record World (R : Type) : Type := mkWorld {
  conns : list bool;
  registries : list R;
  bufconns : Listeners;
}.
Arguments mkWorld {R}.
Arguments conns {R}.
Arguments registries {R}.
Arguments bufconns {R}.

Record DiscoveryClient : Type := mkClient { conn : ConnPtr }.

Inductive Handler : Type :=
| Health
| Embedded (name contentType : string)
| ListAffiliates (client : DiscoveryClient)
| WatchAffiliates
| MetricsOf (registry : RegPtr).

Record WebServer : Type := mkWebServer {
  engine : list (string * Handler);
  discoveryClient : DiscoveryClient;
}.

(** ** Routes and files *)

Definition addHealthEndpoints : list (string * Handler) := [("/healthz", Health); ("/readyz", Health)].

Definition newEngine : list (string * Handler) := addHealthEndpoints.

Definition addDiscoveryEndpoints (engine : list (string * Handler)) (client : DiscoveryClient) :
    list (string * Handler) :=
  engine ++
  [("/", Embedded "index.html" "text/html; charset=utf-8");
   ("/index.html", Embedded "index.html" "text/html; charset=utf-8");
   ("/inspect.html", Embedded "inspect.html" "text/html; charset=utf-8");
   ("/styles.css", Embedded "styles.css" "text/css; charset=utf-8");
   ("/api/clusters/:id/affiliates", ListAffiliates client);
   ("/api/clusters/:id/watch", WatchAffiliates)].

(** [//go:embed *.html *.css], in a directory of these files. *)
Definition asset_files : list string := ["embed.go"; "index.html"; "inspect.html"; "styles.css"].

Definition has_suffix (suffix s : string) : bool :=
  bool_decide (String.substring (String.length s - String.length suffix) (String.length suffix) s = suffix).

Definition embedded_files : list string :=
  filter (λ f, has_suffix ".html" f || has_suffix ".css" f) asset_files.

(** The status and the content type; [None] for no body. *)
Definition serveEmbedded (name contentType : string) : Z * option string :=
  if bool_decide (name ∈ embedded_files) then (200, Some contentType) else (404, None).

Section web_server.
Context {R : Type} `{Registry R, GrpcClient}.
Local Abbreviation World := (World R).
Implicit Types w : World.

Definition set_conns (cs : list bool) w : World := mkWorld cs (registries w) (bufconns w).
Definition set_registry (r : RegPtr) (reg : R) w : World :=
  mkWorld (conns w) (<[r := reg]> (registries w)) (bufconns w).
Definition set_bufconns (lns : Listeners) w : World := mkWorld (conns w) (registries w) lns.

(** [metrics.NewRegistry]: the collectors of the Go runtime and the process. *)
Definition runtime_collectors : list string := ["go"; "process"].

Definition register_all (names : list string) (reg : R) : result error R :=
  rfold (λ r name, reg_Register name r) reg names.

(** [MustRegister] panics if it fails; no theorem gets there. *)
Definition NewRegistry w : option (World * RegPtr) :=
  match register_all runtime_collectors reg_new with
  | Ok reg => Some (mkWorld (conns w) (registries w ++ [reg]) (bufconns w), length (registries w))
  | Err _ => None
  end.

(** ** The client *)

Definition NewDiscoveryClientWithConn (c : ConnPtr) : DiscoveryClient := mkClient c.

(** [grpc.NewClient]: a new connection, open. *)
Definition dial (target : string) (secure : bool) w : World * result error ConnPtr :=
  match grpc_NewClient target secure with
  | Some err => (w, Err err)
  | None => (set_conns (conns w ++ [true]) w, Ok (length (conns w)))
  end.

Definition NewDiscoveryClient (cfg : ClientConfig) w : World * result error DiscoveryClient :=
  match (if c_Enable (client_TLS cfg) then GetTLSClientConfigFunc (client_TLS cfg) else None) with
  | Some err => (w, Err (Errorf "create tls client config: " err))
  | None =>
      match dial (Target cfg) (c_Enable (client_TLS cfg)) w with
      | (w, Err err) => (w, Err err)
      | (w, Ok c) => (w, Ok (NewDiscoveryClientWithConn c))
      end
  end.

Definition DiscoveryClient_Close (client : DiscoveryClient) w : World :=
  set_conns (close_listener (conn client) (conns w)) w.

(** ** The watch manager's metrics ([discovery_metrics.go]) *)

Definition watch_manager_metrics : list string :=
  ["discovery_web_active_discovery_watchers"; "discovery_web_active_subscribers";
   "discovery_web_broadcast_dropped_events_total"; "discovery_web_watch_events_total";
   "discovery_web_watch_stream_errors_total"; "discovery_web_watch_reconnects_total"].

(** Registration, one by one, into the registry [r]: those before a failure
    stay. *)
Fixpoint register_metrics (names : list string) (r : RegPtr) w : World * option error :=
  match names with
  | [] => (w, None)
  | name :: names =>
      match reg_Register name (default reg_new (registries w !! r)) with
      | Err err => (w, Some (Errorf "register web discovery metric: " err))
      | Ok reg => register_metrics names r (set_registry r reg w)
      end
  end.

Definition registerWatchManagerMetrics := register_metrics watch_manager_metrics.

(** ** The options and the server *)

Record webServerOptions : Type := mkOptions {
  opt_discoveryClient : option DiscoveryClient;
  opt_clientConfig : ClientConfig;
  opt_metricsRegistry : option RegPtr;
}.

Definition WebServerOption : Type := webServerOptions → webServerOptions.

Definition WithMetrics (registry : RegPtr) : WebServerOption := λ opts,
  mkOptions (opt_discoveryClient opts) (opt_clientConfig opts) (Some registry).
Definition WithClient (client : DiscoveryClient) : WebServerOption := λ opts,
  mkOptions (Some client) (opt_clientConfig opts) (opt_metricsRegistry opts).
Definition WithClientConfig (cfg : ClientConfig) : WebServerOption := λ opts,
  mkOptions (opt_discoveryClient opts) cfg (opt_metricsRegistry opts).

Definition apply_options (opts : list WebServerOption) : webServerOptions :=
  foldl (λ o opt, opt o) (mkOptions None (mkClientConfig "" no_client_tls) None) opts.

(** The client of the options, or a new one. *)
Definition options_client (o : webServerOptions) w : World * result error DiscoveryClient :=
  match opt_discoveryClient o with
  | Some client => (w, Ok client)
  | None =>
      if bool_decide (Target (opt_clientConfig o) = EmptyString) then
        (w, Err (ErrorString "missing discovery client configuration: provide WithClient or WithClientConfig"))
      else
        match NewDiscoveryClient (opt_clientConfig o) w with
        | (w, Err err) => (w, Err (Errorf "create discovery client: " err))
        | (w, Ok client) => (w, Ok client)
        end
  end.

Definition NewWebServer (registry : RegPtr) (opts : list WebServerOption) w : World * result error WebServer :=
  let serverOpts := apply_options opts in
  match options_client serverOpts w with
  | (w, Err err) => (w, Err err)
  | (w, Ok client) =>
      match registerWatchManagerMetrics registry w with
      | (w, Some err) => (DiscoveryClient_Close client w, Err (Errorf "create discovery watch manager: " err))
      | (w, None) =>
          let engine := addDiscoveryEndpoints newEngine client in
          let engine :=
            match opt_metricsRegistry serverOpts with
            | Some r => engine ++ [("/metrics", MetricsOf r)]
            | None => engine
            end in
          (w, Ok (mkWebServer engine client))
      end
  end.

(** ** The two commands *)

(** [StartDiscoveryWeb], up to the group. *)
Definition StartDiscoveryWeb (cfg : ClientConfig) w : option (World * result error WebServer) :=
  '(w, registry) ← NewRegistry w;
  Some (match NewWebServer registry [WithClientConfig cfg; WithMetrics registry] w with
        | (w, Err err) => (w, Err (Errorf "start discovery web server: " err))
        | (w, Ok s) => (w, Ok s)
        end).

(** [newBufconnDiscoveryClientConn] *)
Definition newBufconnDiscoveryClientConn (ln : ListenerPtr) w : World * result error ConnPtr :=
  match dial "passthrough:///bufconn" false w with
  | (w, Err err) =>
      (set_bufconns (close_listener ln (bufconns w)) w,
       Err (Errorf "failed to create bufconn gRPC client: " err))
  | (w, Ok c) => (w, Ok c)
  end.

(** [newEmbeddedWebServer]: in memory, with a listener for the discovery server
    (whose actor [Actors.v] has), or a client of a target. *)
Definition newEmbeddedWebServer (cfg : ClientConfig) (registry : RegPtr) w :
    World * result error WebServer :=
  let target := TrimSpace (Target cfg) in
  if bool_decide (target = EmptyString) || EqualFold target InMemoryTransport then
    let '(lns, ln) := listen (bufconns w) in
    let w := set_bufconns lns w in
    match newBufconnDiscoveryClientConn ln w with
    | (w, Err err) => (set_bufconns (close_listener ln (bufconns w)) w, Err err)
    | (w, Ok c) =>
        NewWebServer registry [WithMetrics registry; WithClient (NewDiscoveryClientWithConn c)] w
    end
  else NewWebServer registry [WithMetrics registry; WithClientConfig cfg] w.

(** The web part of [StartDiscoveryServer]: [NewDiscoveryServer] registers the
    metrics of the gRPC server first; there is a web server only if it is
    enabled. *)
Definition start_embedded_web (grpc_metrics : list string) (cfg : ServiceCommandConfig) w :
    option (World * result error (option WebServer)) :=
  '(w, registry) ← NewRegistry w;
  match register_all grpc_metrics (default reg_new (registries w !! registry)) with
  | Err _ => None
  | Ok reg =>
      let w := set_registry registry reg w in
      Some (if svc_WebEnable cfg then
              match newEmbeddedWebServer (svc_WebDiscoveryClient cfg) registry w with
              | (w, Err err) => (w, Err (Errorf "failed to initialize embedded web: " err))
              | (w, Ok s) => (w, Ok (Some s))
              end
            else (w, Ok None))
  end.

End web_server.

(** ** Facts *)

Section facts.
Context {R : Type} `{RegistryLaws R, GrpcClient}.
Local Abbreviation World := (World R).
Implicit Types w : World.

Lemma register_all_ok names (reg : R) :
  NoDup names → (∀ name, name ∈ names → name ∉ reg_names reg) →
  ∃ reg', register_all names reg = Ok reg' ∧ reg_names reg' = reg_names reg ++ names.
Proof.
  unfold register_all. revert reg. induction names as [|name names IH]; intros reg Hnd Hni; simpl.
  { exists reg. split; [done | by rewrite app_nil_r]. }
  apply NoDup_cons in Hnd as [Hn Hnd].
  destruct (reg_register name reg) as (r1 & -> & E); [apply Hni; by left|]. simpl.
  destruct (IH r1 Hnd) as (r2 & -> & E2).
  - intros x Hx. rewrite E, elem_of_app, list_elem_of_singleton. intros [Hin| ->]; [|done].
    revert Hin. apply Hni. by right.
  - exists r2. split; [done|]. by rewrite E2, E, <- app_assoc.
Qed.

(** The names registered with [r]. *)
Definition names_of w (r : RegPtr) : list string := reg_names (default reg_new (registries w !! r)).

(** What registering changes: one registry, and only by adding names. *)
Lemma register_metrics_spec names r w :
  NoDup names → (r < length (registries w))%nat →
  let '(w', err) := register_metrics names r w in
  conns w' = conns w ∧ bufconns w' = bufconns w ∧
  match err with
  | None => (∀ name, name ∈ names → name ∉ names_of w r) ∧ names_of w' r = names_of w r ++ names
  | Some _ => ∃ name, name ∈ names ∧ name ∈ names_of w r
  end.
Proof.
  revert w. induction names as [|name names IH]; intros w Hnd Hlt; cbn [register_metrics].
  { split_and!; [done..|intros ? []%elem_of_nil|by rewrite app_nil_r]. }
  apply NoDup_cons in Hnd as [Hn Hnd]. destruct (decide (name ∈ names_of w r)) as [Hin|Hni].
  { destruct (reg_refuse name _ Hin) as [err ->]. split_and!; [done..|]. exists name. split; [left|done]. }
  destruct (reg_register name _ Hni) as (reg & -> & E).
  specialize (IH (set_registry r reg w) Hnd). simpl in IH. rewrite length_insert in IH. specialize (IH Hlt).
  assert (names_of (set_registry r reg w) r = names_of w r ++ [name]) as E1.
  { unfold names_of at 1. simpl. by rewrite list_lookup_insert_eq. }
  destruct (register_metrics names r _) as [w' [err|]]; destruct IH as (Hc & Hb & He); split_and!; try done.
  - destruct He as (x & Hx & Hin). exists x. split; [by right|].
    rewrite E1, elem_of_app, list_elem_of_singleton in Hin. by destruct Hin as [?| ->].
  - destruct He as [Hni' E2]. rewrite E1 in *. intros x [->|Hx]%elem_of_cons; [done|]. specialize (Hni' x Hx). by intros ?; apply Hni', elem_of_app; left.
  - destruct He as [_ E2]. by rewrite E2, E1, <- app_assoc.
Qed.

(** Why no client can be had. *)
Definition dial_error (cfg : ClientConfig) : option error :=
  match (if c_Enable (client_TLS cfg) then GetTLSClientConfigFunc (client_TLS cfg) else None) with
  | Some err => Some (Errorf "create tls client config: " err)
  | None => grpc_NewClient (Target cfg) (c_Enable (client_TLS cfg))
  end.

Definition client_error (o : webServerOptions) : option error :=
  match opt_discoveryClient o with
  | Some _ => None
  | None =>
      if bool_decide (Target (opt_clientConfig o) = EmptyString) then
        Some (ErrorString "missing discovery client configuration: provide WithClient or WithClientConfig")
      else Errorf "create discovery client: " <$> dial_error (opt_clientConfig o)
  end.

Lemma options_client_spec (o : webServerOptions) w :
  options_client o w =
    match client_error o, opt_discoveryClient o with
    | Some err, _ => (w, Err err)
    | None, Some client => (w, Ok client)
    | None, None => (set_conns (conns w ++ [true]) w, Ok (mkClient (length (conns w))))
    end.
Proof.
  unfold options_client, client_error, NewDiscoveryClient, dial_error, dial.
  destruct (opt_discoveryClient o); [done|]. case_bool_decide; [done|].
  destruct (if c_Enable _ then _ else _); [done|]. by destruct (grpc_NewClient _ _).
Qed.

(** The open connections. *)
Definition open_conn w (c : ConnPtr) : Prop := is_open (conns w) c = true.

Lemma open_append w c : open_conn (set_conns (conns w ++ [true]) w) c ↔ c = length (conns w) ∨ open_conn w c.
Proof. unfold open_conn. simpl. rewrite is_open_listen. case_decide; naive_solver. Qed.

Lemma open_close w client c :
  open_conn (DiscoveryClient_Close client w) c ↔ c ≠ conn client ∧ open_conn w c.
Proof. unfold open_conn. simpl. rewrite is_open_close. case_decide; naive_solver. Qed.

Definition web_routes (o : webServerOptions) (client : DiscoveryClient) : list (string * Handler) :=
  addDiscoveryEndpoints newEngine client ++
  match opt_metricsRegistry o with Some r => [("/metrics", MetricsOf r)] | None => [] end.

(** What [NewWebServer] may return. *)
Definition web_server_outcome (registry : RegPtr) (o : webServerOptions) w w' (r : result error WebServer) : Prop :=
  match r with
  | Err _ =>
      (is_Some (client_error o) ∧ w' = w ∨
       ∃ name, name ∈ watch_manager_metrics ∧ name ∈ names_of w registry) ∧
      ∀ c, open_conn w' c → open_conn w c ∧ (client_error o = None → opt_discoveryClient o ≠ Some (mkClient c))
  | Ok s =>
      client_error o = None ∧ (∀ name, name ∈ watch_manager_metrics → name ∉ names_of w registry) ∧
      names_of w' registry = names_of w registry ++ watch_manager_metrics ∧
      discoveryClient s = default (mkClient (length (conns w))) (opt_discoveryClient o) ∧
      engine s = web_routes o (discoveryClient s) ∧
      ∀ c, open_conn w' c ↔ open_conn w c ∨ (opt_discoveryClient o = None ∧ c = conn (discoveryClient s))
  end.

Lemma watch_manager_metrics_NoDup : NoDup watch_manager_metrics.
Proof. apply (bool_decide_unpack _). by vm_compute. Qed.

Lemma NewWebServer_outcome registry opts w :
  (registry < length (registries w))%nat →
  let '(w', r) := NewWebServer registry opts w in web_server_outcome registry (apply_options opts) w w' r.
Proof.
  intros Hlt. unfold NewWebServer. set (o := apply_options opts). rewrite options_client_spec.
  destruct (client_error o) as [err|] eqn:Ec; [by split; [left; eauto | intros c ?; split; [|congruence]]|].
  assert (∃ w1 client, (match opt_discoveryClient o with
      | Some client => (w, Ok client)
      | None => (set_conns (conns w ++ [true]) w, Ok (mkClient (length (conns w))))
      end) = (w1, Ok client) ∧ registries w1 = registries w ∧
      client = default (mkClient (length (conns w))) (opt_discoveryClient o) ∧
      ∀ c, open_conn w1 c ↔ open_conn w c ∨ (opt_discoveryClient o = None ∧ c = conn client))
    as (w1 & client & -> & Er & Hcl & Ho).
  { destruct (opt_discoveryClient o) as [client|]; (eexists _, _; split_and!; [done..|]).
    - intros c. split; [by left | by intros [?|[??]]].
    - intros c. rewrite open_append. simpl. naive_solver. }
  pose proof (register_metrics_spec watch_manager_metrics registry w1 watch_manager_metrics_NoDup) as Hm.
  rewrite Er in Hm. specialize (Hm Hlt). unfold registerWatchManagerMetrics.
  assert (names_of w1 registry = names_of w registry) as En by (unfold names_of; by rewrite Er).
  destruct (register_metrics _ _ _) as [w2 [err|]]; destruct Hm as (Hc & _ & Hm); rewrite En in Hm.
  - split; [by right|]. intros c [Hne Hc2]%open_close. unfold open_conn in *. rewrite Hc in Hc2.
    apply Ho in Hc2 as [?|[? ->]]; [|done]. split; [done|]. intros _ E. by rewrite Hcl, E in Hne.
  - destruct Hm as [Hni E2]. split_and!; try done.
    + simpl. unfold web_routes. destruct (opt_metricsRegistry o); [done | by rewrite app_nil_r].
    + intros c. unfold open_conn in *. rewrite Hc. apply Ho.
Qed.

(** No path twice (gin would panic), and every page is an embedded file. *)
Definition routes_ok (routes : list (string * Handler)) : Prop :=
  NoDup routes.*1 ∧
  ∀ path name contentType, (path, Embedded name contentType) ∈ routes →
    serveEmbedded name contentType = (200, Some contentType).

Lemma web_routes_ok (o : webServerOptions) client : routes_ok (web_routes o client).
Proof.
  unfold web_routes. destruct (opt_metricsRegistry o); simpl;
    (split; [apply (bool_decide_unpack _); by vm_compute|]); intros path name ct;
    rewrite !elem_of_cons, elem_of_nil; intros Hin; repeat destruct Hin as [Hin|Hin]; simplify_eq; by vm_compute.
Qed.

(** ** Properties *)

(** C29: the web server's constructor, on every path.  It fails exactly when no
    client can be had (none given and no target, or the TLS configuration or
    the dialling fails) or a metric's name is taken; then no connection it
    opened or was given is left open (a client it never looked at apart).
    Otherwise the server uses the given client, or a new one, which is the only
    connection opened; its metrics are registered; and its routes are distinct
    and every page of them is an embedded file. *)
Theorem NewWebServer_spec registry opts w :
  (registry < length (registries w))%nat →
  let '(w', r) := NewWebServer registry opts w in
  web_server_outcome registry (apply_options opts) w w' r ∧
  match r with Ok s => routes_ok (engine s) | Err _ => True end.
Proof.
  intros Hlt. pose proof (NewWebServer_outcome registry opts w Hlt) as Ho.
  destruct (NewWebServer registry opts w) as [w' [s|err]]; (split; [done|]); [|done].
  destruct Ho as (_ & _ & _ & _ & -> & _). apply web_routes_ok.
Qed.

Lemma NewRegistry_ok w :
  ∃ reg, NewRegistry w = Some (mkWorld (conns w) (registries w ++ [reg]) (bufconns w), length (registries w)) ∧
    reg_names reg = runtime_collectors.
Proof.
  destruct (register_all_ok runtime_collectors (reg_new (R := R))) as (reg & E & En).
  - apply (bool_decide_unpack _). by vm_compute.
  - intros name _. rewrite reg_new_names. apply not_elem_of_nil.
  - exists reg. unfold NewRegistry. rewrite E. split; [done|]. by rewrite En, reg_new_names.
Qed.

(** When the constructor succeeds. *)
Lemma NewWebServer_ok registry opts w :
  (registry < length (registries w))%nat →
  (∀ name, name ∈ watch_manager_metrics → name ∉ names_of w registry) →
  is_ok (NewWebServer registry opts w).2 = bool_decide (client_error (apply_options opts) = None).
Proof.
  intros Hlt Hni. pose proof (NewWebServer_outcome registry opts w Hlt) as Ho.
  destruct (NewWebServer registry opts w) as [w' [s|err]]; simpl.
  - destruct Ho as [-> _]. by rewrite bool_decide_true.
  - destruct Ho as [[[[e He] _]|(name & Hin & Hn)] _]; [by rewrite bool_decide_false; [|congruence]|].
    by destruct (Hni name Hin).
Qed.

Lemma client_error_config (cfg : ClientConfig) r :
  bool_decide (client_error (apply_options [WithClientConfig cfg; WithMetrics r]) = None) =
    (negb (bool_decide (Target cfg = EmptyString)) && bool_decide (dial_error cfg = None)).
Proof.
  unfold client_error. cbn [apply_options foldl WithClientConfig WithMetrics opt_discoveryClient opt_clientConfig].
  destruct (bool_decide (Target cfg = EmptyString)); cbn [negb andb].
  - by apply bool_decide_false.
  - apply bool_decide_ext. by destruct (dial_error _).
Qed.

Lemma runtime_collectors_ok name : name ∈ watch_manager_metrics → name ∉ runtime_collectors.
Proof.
  intros Hin. apply (bool_decide_unpack _).
  by repeat (apply elem_of_cons in Hin as [->|Hin]; [by vm_compute|]); apply elem_of_nil in Hin.
Qed.

(** The error of the embedded web server's client. *)
Definition embedded_error (cfg : ClientConfig) : option error :=
  if bool_decide (TrimSpace (Target cfg) = EmptyString) || EqualFold (TrimSpace (Target cfg)) InMemoryTransport
  then grpc_NewClient "passthrough:///bufconn" false
  else dial_error cfg.

Lemma newEmbeddedWebServer_ok cfg registry w :
  (registry < length (registries w))%nat →
  (∀ name, name ∈ watch_manager_metrics → name ∉ names_of w registry) →
  is_ok (newEmbeddedWebServer cfg registry w).2 = bool_decide (embedded_error cfg = None).
Proof.
  intros Hlt Hni. unfold newEmbeddedWebServer, embedded_error. destruct (_ || _) eqn:E.
  - unfold listen, newBufconnDiscoveryClientConn, dial.
    destruct (grpc_NewClient _ _) as [err|]; [by rewrite bool_decide_false|]. cbn [fst snd].
    rewrite NewWebServer_ok by done. by rewrite !bool_decide_true.
  - rewrite NewWebServer_ok by done. apply orb_false_iff in E as [E _]. apply bool_decide_eq_false in E.
    apply bool_decide_ext. unfold client_error. simpl. rewrite bool_decide_false.
    + by destruct (dial_error _).
    + intros Et. rewrite Et in E. by apply E.
Qed.

(** C32: when the commands have a web server.  [StartDiscoveryWeb] makes one
    unless its target is empty or cannot be dialled.  The service makes none
    when its web interface is not enabled, and then nothing can fail; when it is
    enabled, it makes one unless the in-memory connection, or the configured
    target, cannot be dialled, and returns an error then.  Since the registry is
    new, no metric is refused and no [MustRegister] panics, provided the gRPC
    server's metrics have names of their own. *)
Theorem web_servers_start grpc_metrics (cfg : ClientConfig) (svc : ServiceCommandConfig) w :
  NoDup grpc_metrics →
  (∀ name, name ∈ grpc_metrics → (name ∉ runtime_collectors) ∧ name ∉ watch_manager_metrics) →
  (∃ w' r, StartDiscoveryWeb cfg w = Some (w', r) ∧
     is_ok r = (negb (bool_decide (Target cfg = EmptyString))
       && bool_decide (dial_error cfg = None))) ∧
  ∃ w' r, start_embedded_web grpc_metrics svc w = Some (w', r) ∧
    match r with
    | Ok (Some _) => svc_WebEnable svc = true ∧ embedded_error (svc_WebDiscoveryClient svc) = None
    | Ok None => svc_WebEnable svc = false
    | Err _ => svc_WebEnable svc = true ∧ embedded_error (svc_WebDiscoveryClient svc) ≠ None
    end.
Proof.
  intros Hnd Hg. unfold StartDiscoveryWeb, start_embedded_web.
  destruct (NewRegistry_ok w) as (reg & E & En). rewrite E. cbn [mbind option_bind].
  set (w1 := mkWorld _ _ _). assert (length (registries w) < length (registries w1))%nat as Hlt.
  { simpl. rewrite length_app. simpl. lia. }
  assert (registries w1 !! length (registries w) = Some reg) as Hreg by by apply list_lookup_middle.
  assert (names_of w1 (length (registries w)) = runtime_collectors) as En1.
  { unfold names_of. by rewrite Hreg. }
  split.
  - eexists _, _. split; [by apply f_equal, surjective_pairing|].
    pose proof (NewWebServer_ok (length (registries w))
      [WithClientConfig cfg; WithMetrics (length (registries w))] w1 Hlt) as Hok.
    rewrite En1 in Hok. specialize (Hok runtime_collectors_ok).
    destruct (NewWebServer _ _ w1) as [w' [s|err]]; cbn [snd] in *;
      (etransitivity; [exact Hok | apply client_error_config]).
  - rewrite Hreg. cbn [default from_option id].
    destruct (register_all_ok grpc_metrics reg Hnd) as (reg' & E' & En').
    { intros name Hin. rewrite En. by apply Hg. }
    rewrite E'. eexists _, _. split; [by apply f_equal, surjective_pairing|].
    set (w2 := set_registry _ reg' w1).
    assert (names_of w2 (length (registries w)) = runtime_collectors ++ grpc_metrics) as En2.
    { unfold names_of. simpl. rewrite list_lookup_insert_eq by done. simpl. by rewrite En', En. }
    assert (length (registries w) < length (registries w2))%nat as Hlt2 by (simpl; by rewrite length_insert).
    destruct (svc_WebEnable svc); [|done].
    pose proof (newEmbeddedWebServer_ok (svc_WebDiscoveryClient svc) _ w2 Hlt2) as Hok. rewrite En2 in Hok.
    assert (∀ name, name ∈ watch_manager_metrics → name ∉ runtime_collectors ++ grpc_metrics) as Hfree.
    { intros name Hin. rewrite elem_of_app. intros [Hr|Hr]; [by eapply runtime_collectors_ok|].
      by destruct (Hg name Hr). }
    specialize (Hok Hfree). destruct (newEmbeddedWebServer _ _ w2) as [w' [s|err]]; cbn [snd] in *;
      (split; [done|]); [by apply eq_sym, bool_decide_eq_true in Hok | by apply eq_sym, bool_decide_eq_false in Hok].
Qed.
End facts.

(** ** Witnesses *)

#[local] Instance list_registry : Registry (list string) := {|
  reg_names r := r;
  reg_new := [];
  reg_Register name r := if bool_decide (name ∈ r) then Err (ErrorString "duplicate") else Ok (r ++ [name]);
|}.

#[local] Instance list_registry_laws : RegistryLaws (list string).
Proof.
  split; [done|..]; intros name r Hin; simpl.
  - rewrite bool_decide_false by done. eauto.
  - rewrite bool_decide_true by done. eauto.
Qed.

#[local] Instance dials_unless_blank : GrpcClient := {|
  GetTLSClientConfigFunc _ := None;
  grpc_NewClient target _ := if bool_decide (target = "bad") then Some (ErrorString "bad target") else None;
|}.

(** Two servers with one registry: the second fails, and its connection is
    closed. *)
Definition ws_options (r : RegPtr) : list (webServerOptions → webServerOptions) :=
  [WithClientConfig (mkClientConfig "localhost:3000" no_client_tls); WithMetrics r].

Lemma NewWebServer_spec_witness :
  let '(w1, r1) := NewWebServer 0 (ws_options 0) (mkWorld [] [[] : list string] []) in
  let '(w2, r2) := NewWebServer 0 (ws_options 0) w1 in
  is_ok r1 = true ∧ is_ok r2 = false ∧ conns w2 = [true; false] ∧ ∀ c, open_conn w2 c → open_conn w1 c.
Proof.
  destruct (NewWebServer 0 (ws_options 0) (mkWorld [] [[] : list string] [])) as [w1 r1] eqn:E1.
  pose proof (NewWebServer_spec 0 (ws_options 0) w1) as H.
  destruct (NewWebServer 0 (ws_options 0) w1) as [w2 r2] eqn:E2. vm_compute in E1. injection E1 as <- <-.
  vm_compute in E2. injection E2 as <- <-. destruct H as [[_ Ho] _]; [simpl; lia|].
  split_and!; [done..|]. intros c Hc. by apply Ho.
Defined.

Definition ws_service (enabled : bool) : ServiceCommandConfig :=
  mkServiceCommandConfig (mkServerConfig ":3000" no_server_tls) (mkDiscoveryConfig "" 0 "" 0)
    (mkServerConfig ":8080" no_server_tls) enabled (mkClientConfig " :IN-memory " no_client_tls).

Lemma web_servers_start_witness :
  ∃ w s, start_embedded_web ["grpc_server_handled_total"] (ws_service true)
    (mkWorld [] [] [] : World (list string)) = Some (w, Ok (Some s)).
Proof.
  destruct (web_servers_start ["grpc_server_handled_total"] (mkClientConfig "" no_client_tls) (ws_service true)
    (mkWorld [] [] [] : World (list string))) as [_ (w & r & E & Hok)].
  - apply (bool_decide_unpack _). by vm_compute.
  - intros name ->%list_elem_of_singleton. split; apply (bool_decide_unpack _); by vm_compute.
  - destruct r as [[s|]|err]; [by exists w, s | done |]. destruct Hok as [_ Hne]. destruct Hne. by vm_compute.
Defined.
