(* ===== verification/Payload.v ===== *)
(** * The web interface's payload ([internal/web/discovery_payload.go])

    Affiliates as JSON, their bytes in base64; a parser of that JSON, and the
    round trip. *)

From S2P Require Import Prelude GoTime Affiliate Protobuf Messages GoStrings Base64 Json.
From Stdlib Require Import Strings.Byte.

Record affiliateJSON : Type := mkAffiliateJSON {
  json_ID : string;
  json_Data : bytes;
  json_Endpoints : list bytes;
}.

Record affiliatesEnvelope : Type := mkEnvelope {
  env_Affiliates : list affiliateJSON;
  env_Deleted : bool;
}.

#[export] Instance affiliateJSON_eq_dec : EqDecision affiliateJSON.
Proof. solve_decision. Defined.

(** The loop body of [affiliatesToJSON]. *)
Definition toAffiliateJSON (a : Pb.Affiliate) : affiliateJSON :=
  mkAffiliateJSON (Pb.Id a) (encode_b64 (Pb.Data a))
    (if bool_decide (0 < Z.of_nat (length (Pb.Endpoints a))) then encode_b64 <$> Pb.Endpoints a else []).

Definition envelope (affiliates : list Pb.Affiliate) (deleted : bool) : affiliatesEnvelope :=
  mkEnvelope (toAffiliateJSON <$> affiliates) deleted.

(** ** [json.Marshal] of these types *)

Definition comma : Byte.byte := x2c.
Definition json_key (k : string) : bytes := quote :: string_bytes k ++ [quote; x3a].

Fixpoint join (l : list bytes) : bytes :=
  match l with
  | [] => []
  | [x] => x
  | x :: l' => x ++ comma :: join l'
  end.

Definition json_array (l : list bytes) : bytes := x5b :: join l ++ [x5d].

Definition marshal_affiliate (a : affiliateJSON) : bytes :=
  x7b :: json_key "id" ++ json_string (string_bytes (json_ID a))
    ++ comma :: json_key "data" ++ json_string (json_Data a)
    ++ comma :: json_key "endpoints" ++ json_array (json_string <$> json_Endpoints a) ++ [x7d].

Definition marshal_bool (b : bool) : bytes := if b then bs "true" else bs "false".

Definition marshal_envelope (e : affiliatesEnvelope) : bytes :=
  x7b :: json_key "affiliates" ++ json_array (marshal_affiliate <$> env_Affiliates e)
    ++ comma :: json_key "deleted" ++ marshal_bool (env_Deleted e) ++ [x7d].

(** [json.Marshal] of strings, slices and booleans does not fail. *)
Definition affiliatesToJSON (affiliates : list Pb.Affiliate) (deleted : bool) :
    result string bytes :=
  Ok (marshal_envelope (envelope affiliates deleted)).

(** ** Parsing it back *)

(** The rest of [s] after the text [l]. *)
Fixpoint lit (l s : bytes) : option bytes :=
  match l, s with
  | [], _ => Some s
  | x :: l', y :: s' => if bool_decide (x = y) then lit l' s' else None
  | _ :: _, [] => None
  end.

Lemma lit_app l s : lit l (l ++ s) = Some s.
Proof. induction l as [|x l IH]; simpl; [done|]. by rewrite bool_decide_true. Qed.

Section array.
Context {A B : Type} (parse : bytes → option (A * bytes)).

(** Elements up to the closing bracket. *)
Fixpoint parse_items (fuel : nat) (s : bytes) : option (list A * bytes) :=
  match fuel with
  | O => None
  | S fuel' =>
      xr ← parse s;
      match xr.2 with
      | c :: r =>
          if bool_decide (c = comma) then
            yr ← parse_items fuel' r; Some (xr.1 :: yr.1, yr.2)
          else if bool_decide (c = x5d) then Some ([xr.1], r)
          else None
      | [] => None
      end
  end.

Definition parse_array (s : bytes) : option (list A * bytes) :=
  match s with
  | a :: b :: r =>
      if bool_decide (a = x5b) then
        if bool_decide (b = x5d) then Some ([], r) else parse_items (length s) (b :: r)
      else None
  | _ => None
  end.

Lemma parse_items_join (print : B → bytes) (f : B → A) (l : list B) x rest fuel :
  (∀ y s, y ∈ x :: l → parse (print y ++ s) = Some (f y, s)) →
  (length l < fuel)%nat →
  parse_items fuel (join (print <$> x :: l) ++ x5d :: rest) = Some (f <$> x :: l, rest).
Proof.
  revert x fuel. induction l as [|y l IH]; intros x fuel Hp Hf; (destruct fuel as [|fuel]; [simpl in Hf; lia|]).
  - simpl. rewrite Hp by left. done.
  - assert (join (print <$> x :: y :: l) ++ x5d :: rest =
      print x ++ comma :: join (print <$> y :: l) ++ x5d :: rest) as ->.
    { csimpl. by rewrite <- app_assoc. }
    cbn [parse_items]. rewrite Hp by left. cbn [mbind option_bind fst snd].
    rewrite bool_decide_true by done. rewrite IH; [done | | simpl in Hf; lia].
    intros z s Hz. apply Hp. by right.
Qed.

Lemma length_join (print : B → bytes) (l : list B) x :
  (∀ y, print y ≠ []) → (length l < length (join (print <$> x :: l)))%nat.
Proof.
  intros Hne. revert x. induction l as [|y l IH]; intros x; csimpl.
  - specialize (Hne x). destruct (print x); [done | simpl; lia].
  - rewrite length_app. simpl. specialize (IH y). csimpl in IH. lia.
Qed.

(** Each element prints as something that is not a closing bracket. *)
Lemma parse_array_print (print : B → bytes) (f : B → A) (l : list B) rest :
  (∀ y s, y ∈ l → parse (print y ++ s) = Some (f y, s)) →
  (∀ y, ∃ c s, print y = c :: s ∧ c ≠ x5d) →
  parse_array (json_array (print <$> l) ++ rest) = Some (f <$> l, rest).
Proof.
  intros Hp Hne. unfold json_array. cbn [app]. rewrite <- app_assoc. cbn [app].
  destruct l as [|x l]; [done|].
  assert (∀ y, print y ≠ []) as Hne'. { intros y. by destruct (Hne y) as (c & s & -> & _). }
  pose proof (length_join print l x Hne') as Hlen.
  destruct (Hne x) as (c & s & Ex & Hc).
  assert (∃ t, join (print <$> x :: l) = c :: t) as [t Et].
  { csimpl. rewrite Ex. destruct (print <$> l); simpl; eauto. }
  pose proof (parse_items_join print f l x rest (length (x5b :: join (print <$> x :: l) ++ x5d :: rest)) Hp) as Hi.
  rewrite Et in *. cbn [app parse_array]. rewrite bool_decide_true by done.
  rewrite bool_decide_false by done. apply Hi. simpl in *. rewrite length_app. lia.
Qed.
End array.

Definition parse_affiliate (s : bytes) : option (affiliateJSON * bytes) :=
  s ← lit (x7b :: json_key "id") s;
  id ← parse_string s;
  s ← lit (comma :: json_key "data") id.2;
  data ← parse_string s;
  s ← lit (comma :: json_key "endpoints") data.2;
  eps ← parse_array parse_string s;
  s ← lit [x7d] eps.2;
  Some (mkAffiliateJSON (bytes_string id.1) data.1 eps.1, s).

Definition parse_bool (s : bytes) : option (bool * bytes) :=
  match lit (bs "true") s with
  | Some r => Some (true, r)
  | None => r ← lit (bs "false") s; Some (false, r)
  end.

Definition parse_envelope (s : bytes) : option affiliatesEnvelope :=
  s ← lit (x7b :: json_key "affiliates") s;
  affs ← parse_array parse_affiliate s;
  s ← lit (comma :: json_key "deleted") affs.2;
  deleted ← parse_bool s;
  s ← lit [x7d] deleted.2;
  if bool_decide (s = []) then Some (mkEnvelope affs.1 deleted.1) else None.

(** The base64 fields decoded. *)
Definition of_affiliateJSON (a : affiliateJSON) : option Pb.Affiliate :=
  data ← decode_b64 (json_Data a);
  eps ← mapM decode_b64 (json_Endpoints a);
  Some (Pb.mkAffiliate (json_ID a) data eps).

Definition parse_payload (s : bytes) : option (list Pb.Affiliate * bool) :=
  e ← parse_envelope s;
  affs ← mapM of_affiliateJSON (env_Affiliates e);
  Some (affs, env_Deleted e).

(** ** The round trip *)

Lemma enc_char_ascii v : ascii (enc_char v) = true.
Proof.
  unfold enc_char. change 63 with (Z.ones 6). rewrite Z.land_ones by lia.
  pose proof (Z.mod_pos_bound v (2 ^ 6) eq_refl) as Hr. change (2 ^ 6) with 64 in *.
  assert (Z.to_nat (v mod 64) < 64)%nat as Hn by lia.
  revert Hn. generalize (Z.to_nat (v mod 64)). intros n Hn.
  assert (forallb (λ n, ascii (nth n alphabet pad)) (seq 0 64) = true) as Hall by by vm_compute.
  rewrite forallb_forall in Hall. apply Hall, in_seq. lia.
Qed.

Lemma valid_utf8_ascii s : forallb ascii s = true → valid_utf8 s = true.
Proof. induction s as [|x s IH]; simpl; [done|]. intros [-> Hs]%andb_true_iff. auto. Qed.

Lemma encode_b64_ascii b : forallb ascii (encode_b64 b) = true.
Proof.
  induction b as [|x b _ _ IH] using bytes_ind3; [done|].
  destruct b as [|y [|z b]]; cbn [encode_b64 forallb]; rewrite !enc_char_ascii; [done..|]. by eapply IH.
Qed.

Lemma parse_b64_string b s : parse_string (json_string (encode_b64 b) ++ s) = Some (encode_b64 b, s).
Proof. apply parse_json_string, valid_utf8_ascii, encode_b64_ascii. Qed.

Definition valid_affiliate_id (a : Pb.Affiliate) : Prop := valid_utf8 (string_bytes (Pb.Id a)) = true.

Lemma toAffiliateJSON_eq a :
  toAffiliateJSON a = mkAffiliateJSON (Pb.Id a) (encode_b64 (Pb.Data a)) (encode_b64 <$> Pb.Endpoints a).
Proof. unfold toAffiliateJSON. case_bool_decide; [done|]. by destruct (Pb.Endpoints a). Qed.

Lemma parse_marshal_affiliate a s :
  valid_affiliate_id a →
  parse_affiliate (marshal_affiliate (toAffiliateJSON a) ++ s) = Some (toAffiliateJSON a, s).
Proof.
  intros Hid. rewrite toAffiliateJSON_eq. unfold marshal_affiliate. cbn [json_ID json_Data json_Endpoints].
  set (i := json_string _). set (d := json_string _).
  set (es := json_array _).
  assert ((x7b :: json_key "id" ++ i ++ comma :: json_key "data" ++ d ++ comma ::
     json_key "endpoints" ++ es ++ [x7d]) ++ s =
    (x7b :: json_key "id") ++ i ++ (comma :: json_key "data") ++ d ++
      (comma :: json_key "endpoints") ++ es ++ [x7d] ++ s) as ->.
  { repeat (progress (cbn [app]; rewrite <- ?app_assoc)). reflexivity. }
  unfold parse_affiliate. rewrite lit_app. cbn [mbind option_bind].
  unfold i. rewrite parse_json_string by done. cbn [mbind option_bind fst snd]. rewrite lit_app.
  cbn [mbind option_bind]. unfold d. rewrite parse_b64_string. cbn [mbind option_bind fst snd].
  rewrite lit_app. cbn [mbind option_bind]. unfold es. rewrite <- list_fmap_compose.
  rewrite (parse_array_print parse_string (json_string ∘ encode_b64) encode_b64).
  - cbn [mbind option_bind fst snd]. rewrite lit_app. cbn [mbind option_bind].
    unfold bytes_string, string_bytes. by rewrite String.string_of_list_byte_of_string.
  - intros b t _. apply parse_b64_string.
  - intros b. eexists _, _. by split.
Qed.

Lemma parse_marshal_bool b s : parse_bool (marshal_bool b ++ s) = Some (b, s).
Proof. unfold parse_bool. destruct b; cbn [marshal_bool]; by rewrite lit_app. Qed.

Lemma parse_marshal_envelope affs deleted :
  Forall valid_affiliate_id affs →
  parse_envelope (marshal_envelope (envelope affs deleted)) = Some (envelope affs deleted).
Proof.
  intros Hids. unfold marshal_envelope, envelope. cbn [env_Affiliates env_Deleted].
  change (x7b :: json_key "affiliates" ++ ?t) with ((x7b :: json_key "affiliates") ++ t).
  unfold parse_envelope. rewrite lit_app. cbn [mbind option_bind]. rewrite <- list_fmap_compose.
  rewrite (parse_array_print parse_affiliate (marshal_affiliate ∘ toAffiliateJSON) toAffiliateJSON).
  - cbn [mbind option_bind fst snd].
    change (comma :: json_key "deleted" ++ ?t) with ((comma :: json_key "deleted") ++ t).
    rewrite lit_app. cbn [mbind option_bind]. rewrite parse_marshal_bool. cbn [mbind option_bind fst snd].
    done.
  - intros a s Ha. rewrite Forall_forall in Hids. by apply parse_marshal_affiliate, Hids.
  - intros a. eexists _, _. by split.
Qed.

Lemma mapM_fmap_id {A B} (f : B → option A) (g : A → B) l :
  (∀ x, f (g x) = Some x) → mapM f (g <$> l) = Some l.
Proof.
  intros Hfg. apply mapM_Some, Forall2_fmap_l, Forall_Forall2_diag. by apply Forall_true.
Qed.

Lemma of_toAffiliateJSON a : of_affiliateJSON (toAffiliateJSON a) = Some a.
Proof.
  rewrite toAffiliateJSON_eq. unfold of_affiliateJSON. cbn [json_ID json_Data json_Endpoints].
  rewrite decode_encode_b64. cbn [mbind option_bind]. rewrite mapM_fmap_id by apply decode_encode_b64. by destruct a.
Qed.

(** ** One line of text *)

Lemma join_printable l : Forall (λ x, forallb printable x = true) l → forallb printable (join l) = true.
Proof.
  induction l as [|x [|y l] IH]; intros Hl; [done | by apply Forall_cons in Hl as [Hx _]|].
  apply Forall_cons in Hl as [Hx Hl]. cbn [join]. rewrite forallb_app, Hx. simpl. by apply IH.
Qed.

Lemma json_array_printable l :
  Forall (λ x, forallb printable x = true) l → forallb printable (json_array l) = true.
Proof.
  intros Hl. unfold json_array. cbn [forallb]. rewrite forallb_app, join_printable by done. done.
Qed.

Lemma json_string_printable s : forallb printable (json_string s) = true.
Proof. unfold json_string. cbn [forallb]. rewrite forallb_app, json_chars_printable. done. Qed.

Lemma marshal_affiliate_printable a : forallb printable (marshal_affiliate a) = true.
Proof.
  unfold marshal_affiliate. cbn [forallb]. rewrite forallb_app. cbn [forallb].
  rewrite !forallb_app. cbn [forallb]. rewrite !forallb_app. cbn [forallb]. rewrite !forallb_app.
  rewrite !json_string_printable, json_array_printable; [done|].
  apply Forall_fmap, Forall_true. intros s. apply json_string_printable.
Qed.

Lemma marshal_envelope_printable e : forallb printable (marshal_envelope e) = true.
Proof.
  unfold marshal_envelope. cbn [forallb]. rewrite forallb_app, forallb_app. cbn [forallb].
  rewrite !forallb_app, json_array_printable.
  - by destruct (env_Deleted e).
  - apply Forall_fmap, Forall_true. intros a. apply marshal_affiliate_printable.
Qed.

(** ** Property *)

(** C33: [affiliatesToJSON] never fails and loses nothing: parsing the text back
    and decoding its base64 fields gives the affiliates, in order, with their
    exact ids, data and endpoints, and the deletion flag, whatever characters
    the ids hold (they are valid UTF-8, as protobuf strings are); and the text
    holds no control character, so that it is one line of an event stream. *)
Theorem payload_round_trip affs deleted :
  Forall valid_affiliate_id affs →
  ∃ text, affiliatesToJSON affs deleted = Ok text ∧
    parse_payload text = Some (affs, deleted) ∧
    forallb printable text = true.
Proof.
  intros Hids. eexists. split; [done|]. split; [|apply marshal_envelope_printable].
  unfold parse_payload. rewrite parse_marshal_envelope by done. cbn [mbind option_bind env_Affiliates envelope].
  by rewrite mapM_fmap_id by apply of_toAffiliateJSON.
Qed.

Definition payload_sample : list Pb.Affiliate :=
  [Pb.mkAffiliate "n<1>\é" (bs "data") [bs "10.0.0.1"; []]; Pb.mkAffiliate "n2" [] []].

Lemma payload_round_trip_witness :
  ∃ text, affiliatesToJSON payload_sample true = Ok text ∧ parse_payload text = Some (payload_sample, true).
Proof.
  destruct (payload_round_trip payload_sample true) as (text & E & Hp & _).
  - repeat constructor.
  - exists text. split; [exact E | exact Hp].
Defined.
