(* ===== verification/Hub.v ===== *)
(** * The hub of server-sent events ([internal/web/discovery_hub.go])

    A hub forwards events to the channels of its clients.  A channel is shared
    with the HTTP handler that reads it, so channels live in a store and a
    hub's map holds indices; hubs are shared between the watch manager and a
    watcher goroutine, so they live in a store too. *)

From S2P Require Import Prelude GoChan.

Definition subscriberChannelSize : Z := 64.

Record Event : Type := mkEvent { ev_Data : bytes }.

#[export] Instance Event_eq_dec : EqDecision Event.
Proof. solve_decision. Defined.

(** The six collectors, by the number of times they went up less down. *)
Record watchManagerMetrics : Type := mkMetrics {
  activeDiscoveryWatchers : Z;
  activeSubscribers : Z;
  broadcastDroppedEvents : Z;
  watchEvents : Z;
  watchStreamErrors : Z;
  watchReconnects : Z;
}.

Definition newWatchManagerMetrics : watchManagerMetrics := mkMetrics 0 0 0 0 0 0.

Definition add_watchers (d : Z) (m : watchManagerMetrics) : watchManagerMetrics :=
  mkMetrics (activeDiscoveryWatchers m + d) (activeSubscribers m) (broadcastDroppedEvents m)
    (watchEvents m) (watchStreamErrors m) (watchReconnects m).
Definition add_subscribers (d : Z) (m : watchManagerMetrics) : watchManagerMetrics :=
  mkMetrics (activeDiscoveryWatchers m) (activeSubscribers m + d) (broadcastDroppedEvents m)
    (watchEvents m) (watchStreamErrors m) (watchReconnects m).
Definition add_dropped (d : Z) (m : watchManagerMetrics) : watchManagerMetrics :=
  mkMetrics (activeDiscoveryWatchers m) (activeSubscribers m) (broadcastDroppedEvents m + d)
    (watchEvents m) (watchStreamErrors m) (watchReconnects m).
Definition add_events (d : Z) (m : watchManagerMetrics) : watchManagerMetrics :=
  mkMetrics (activeDiscoveryWatchers m) (activeSubscribers m) (broadcastDroppedEvents m)
    (watchEvents m + d) (watchStreamErrors m) (watchReconnects m).
Definition add_stream_errors (d : Z) (m : watchManagerMetrics) : watchManagerMetrics :=
  mkMetrics (activeDiscoveryWatchers m) (activeSubscribers m) (broadcastDroppedEvents m)
    (watchEvents m) (watchStreamErrors m + d) (watchReconnects m).
Definition add_reconnects (d : Z) (m : watchManagerMetrics) : watchManagerMetrics :=
  mkMetrics (activeDiscoveryWatchers m) (activeSubscribers m) (broadcastDroppedEvents m)
    (watchEvents m) (watchStreamErrors m) (watchReconnects m + d).

Abbreviation ChanPtr := nat.
Abbreviation HubPtr := nat.

(** [map[chan Event]struct{}] *)
Record Hub : Type := mkHub { clients : gmap ChanPtr () }.

(** The stores the hubs work on. *)
Record HubStore : Type := mkStore {
  chans : list (Chan Event);
  hubs : list Hub;
  metrics : watchManagerMetrics;
}.

Definition set_chans (l : list (Chan Event)) (w : HubStore) : HubStore := mkStore l (hubs w) (metrics w).
Definition set_hub (h : HubPtr) (hub : Hub) (w : HubStore) : HubStore :=
  mkStore (chans w) (<[h := hub]> (hubs w)) (metrics w).
Definition map_metrics (f : watchManagerMetrics → watchManagerMetrics) (w : HubStore) : HubStore :=
  mkStore (chans w) (hubs w) (f (metrics w)).

Definition NewHub (w : HubStore) : HubStore * HubPtr :=
  (mkStore (chans w) (hubs w ++ [mkHub ∅]) (metrics w), length (hubs w)).

Definition Hub_Subscribe (h : HubPtr) (w : HubStore) : result Panic (HubStore * ChanPtr) :=
  match hubs w !! h with
  | None => Err NilDereference
  | Some hub =>
      let ch := length (chans w) in
      let w1 := set_chans (chans w ++ [make_chan subscriberChannelSize]) w in
      Ok (set_hub h (mkHub (<[ch := ()]> (clients hub))) w1, ch)
  end.

Definition Hub_Unsubscribe (h : HubPtr) (ch : ChanPtr) (w : HubStore) : result Panic HubStore :=
  match hubs w !! h with
  | None => Err NilDereference
  | Some hub => Ok (set_hub h (mkHub (delete ch (clients hub))) w)
  end.

(** One iteration of the second loop of [Broadcast]. *)
Definition broadcast_one (e : Event) (w : HubStore) (ch : ChanPtr) : result Panic HubStore :=
  match chans w !! ch with
  | None => Err NilDereference
  | Some c =>
      r <-? try_send e c ;;
      let '(sent, c') := r in
      let w1 := set_chans (<[ch := c']> (chans w)) w in
      Ok (if sent : bool then w1 else map_metrics (add_dropped 1) w1)
  end.

(** The first loop of [Broadcast], under [h.mu]. *)
Definition broadcast_clients (ρ : MapOrder ChanPtr) (h : HubPtr) (w : HubStore) : result Panic (list ChanPtr) :=
  match hubs w !! h with
  | None => Err NilDereference
  | Some hub => Ok (range ρ (clients hub)).*1
  end.

Definition Broadcast (ρ : MapOrder ChanPtr) (h : HubPtr) (e : Event) (w : HubStore) :
    result Panic HubStore :=
  subs <-? broadcast_clients ρ h w ;;
  rfold (broadcast_one e) w subs.

(** ** Facts *)

(** No channel is ever closed, and clients' channels exist. *)
Record wf_store (w : HubStore) : Prop := {
  ws_open ch c : chans w !! ch = Some c → chan_closed c = false;
  ws_clients h hub ch : hubs w !! h = Some hub → is_Some (clients hub !! ch) → (ch < length (chans w))%nat;
}.

(** What a broadcast makes of one client's channel. *)
Definition offer (e : Event) (c : Chan Event) : Chan Event := if has_room c then push e c else c.

Definition full_at (w : HubStore) (ch : ChanPtr) : bool :=
  match chans w !! ch with Some c => negb (has_room c) | None => false end.

(** How many channels of [l] are full. *)
Definition full_count (w : HubStore) (l : list ChanPtr) : Z :=
  foldr (λ ch n, (if full_at w ch then 1 else 0) + n) 0 l.

Lemma full_count_ext w w' l :
  (∀ ch, ch ∈ l → full_at w ch = full_at w' ch) → full_count w l = full_count w' l.
Proof.
  induction l as [|x l IH]; intros H; simpl; [done|]. rewrite H by left. f_equal.
  apply IH. intros; apply H; by right.
Qed.

Lemma full_count_perm w l l' : l ≡ₚ l' → full_count w l = full_count w l'.
Proof. induction 1; simpl; lia. Qed.

Lemma add_dropped_0 m : add_dropped 0 m = m.
Proof. destruct m. unfold add_dropped. simpl. f_equal. lia. Qed.

Lemma add_dropped_add a b m : add_dropped a (add_dropped b m) = add_dropped (b + a) m.
Proof. unfold add_dropped. simpl. f_equal. lia. Qed.

Lemma broadcast_one_eq e w ch c :
  chans w !! ch = Some c → chan_closed c = false →
  broadcast_one e w ch =
  Ok (mkStore (<[ch := offer e c]> (chans w)) (hubs w)
        (add_dropped (if full_at w ch then 1 else 0) (metrics w))).
Proof.
  intros Hc Ho. unfold broadcast_one, offer, full_at. rewrite Hc, try_send_open by done.
  destruct (has_room c); simpl; [|done]. by rewrite add_dropped_0.
Qed.

Lemma rfold_broadcast e l w :
  NoDup l → (∀ ch, ch ∈ l → ∃ c, chans w !! ch = Some c ∧ chan_closed c = false) →
  ∃ cs, rfold (broadcast_one e) w l =
      Ok (mkStore cs (hubs w) (add_dropped (full_count w l) (metrics w))) ∧
    ∀ i, cs !! i = (λ c, if bool_decide (i ∈ l) then offer e c else c) <$> chans w !! i.
Proof.
  revert w. induction l as [|ch l IH]; intros w Hnd Hl; simpl.
  { exists (chans w). rewrite add_dropped_0. split; [by destruct w|]. intros i. by destruct (chans w !! i). }
  apply NoDup_cons in Hnd as [Hch Hnd]. destruct (Hl ch) as (c & Hc & Ho); [left|].
  rewrite (broadcast_one_eq e w ch c) by done. simpl.
  set (w1 := mkStore _ _ _).
  assert (∀ y, y ≠ ch → chans w1 !! y = chans w !! y) as Hw1.
  { intros y Hy. unfold w1. simpl. by rewrite list_lookup_insert_ne. }
  destruct (IH w1) as (cs & E & Hcs); [done| |].
  { intros y Hy. rewrite Hw1 by congruence. apply Hl. by right. }
  exists cs. split.
  - rewrite E. unfold w1 at 1 3. simpl. rewrite add_dropped_add. do 3 f_equal.
    rewrite (full_count_ext w1 w); [lia|]. intros y Hy. unfold full_at. by rewrite Hw1 by congruence.
  - intros i. rewrite Hcs. destruct (decide (i = ch)) as [->|Hne].
    + unfold w1. simpl. rewrite list_lookup_insert_eq by (by eapply lookup_lt_Some). rewrite Hc. simpl.
      rewrite bool_decide_false by done. by rewrite bool_decide_true by left.
    + rewrite Hw1 by done. destruct (chans w !! i); [|done]. simpl.
      rewrite (bool_decide_ext (i ∈ ch :: l) (i ∈ l)); [done|]. rewrite elem_of_cons. naive_solver.
Qed.

(** The store after a broadcast to [hub]. *)
Lemma Broadcast_eq ρ h e w hub :
  wf_store w → hubs w !! h = Some hub →
  ∃ cs, Broadcast ρ h e w =
      Ok (mkStore cs (hubs w) (add_dropped (full_count w (map_to_list (clients hub)).*1) (metrics w))) ∧
    ∀ i, cs !! i =
      (λ c, if bool_decide (is_Some (clients hub !! i)) then offer e c else c) <$> chans w !! i.
Proof.
  intros [Hopen Hcl] Hh. unfold Broadcast, broadcast_clients. rewrite Hh. cbn [rbind].
  destruct (rfold_broadcast e (range ρ (clients hub)).*1 w) as (cs & E & Hcs).
  - apply NoDup_range_fst.
  - intros ch ([ch' []] & -> & Hin%elem_of_range)%list_elem_of_fmap. simpl.
    assert (ch' < length (chans w))%nat as [c Hc]%lookup_lt_is_Some by (by eapply Hcl).
    eauto.
  - exists cs. rewrite E. split.
    + do 3 f_equal. apply full_count_perm. by rewrite range_perm.
    + intros i. rewrite Hcs. destruct (chans w !! i); [|done]. simpl. do 2 f_equal.
      rewrite (bool_decide_ext (i ∈ (range ρ (clients hub)).*1) (is_Some (clients hub !! i))); [done|].
      rewrite list_elem_of_fmap. split.
      * intros ([j []] & -> & Hin%elem_of_range). eauto.
      * intros [[] Hi]. exists (i, ()). by rewrite elem_of_range.
Qed.

Lemma offer_closed e c : chan_closed (offer e c) = chan_closed c.
Proof. unfold offer. by destruct (has_room c). Qed.

Lemma wf_store_broadcast w cs m (P : nat → bool) e :
  wf_store w → (∀ i, cs !! i = (λ c, if P i then offer e c else c) <$> chans w !! i) →
  wf_store (mkStore cs (hubs w) m).
Proof.
  intros [Hopen Hcl] Hcs. assert (length cs = length (chans w)) as Hlen.
  { apply Nat.le_antisymm; apply Nat.nlt_ge; intros Hlt; apply lookup_lt_is_Some in Hlt as [x Hx].
    - rewrite Hcs in Hx. apply fmap_Some in Hx as (c & Hc & _). apply lookup_lt_Some in Hc. lia.
    - specialize (Hcs (length cs)). rewrite Hx, lookup_ge_None_2 in Hcs by lia. done. }
  split; simpl.
  - intros ch c. rewrite Hcs. intros (d & Hd & ->)%fmap_Some.
    destruct (P ch); [rewrite offer_closed|]; by eapply Hopen.
  - rewrite Hlen. exact Hcl.
Qed.

(** ** Property *)

(** [Broadcast] never blocks and never panics; it queues the event, after
    what is already queued, for every client of the hub whose 64-element
    channel has room, changes no other channel, and counts one dropped event
    for each full one.  The result does not depend on the order in which the
    map of clients is ranged over. *)
Theorem Broadcast_spec ρ h e w hub :
  wf_store w → hubs w !! h = Some hub →
  ∃ w', Broadcast ρ h e w = Ok w' ∧ wf_store w' ∧ hubs w' = hubs w ∧
    (∀ ρ', Broadcast ρ' h e w = Ok w') ∧
    metrics w' = add_dropped (full_count w (map_to_list (clients hub)).*1) (metrics w) ∧
    ∀ ch c, chans w !! ch = Some c → ∃ c', chans w' !! ch = Some c' ∧
      chan_buf c' =
        if bool_decide (is_Some (clients hub !! ch)) && has_room c then chan_buf c ++ [e] else chan_buf c.
Proof.
  intros Hwf Hh. destruct (Broadcast_eq ρ h e w hub Hwf Hh) as (cs & E & Hcs).
  eexists. split; [exact E|]. split.
  { by apply (wf_store_broadcast w cs _ (λ i, bool_decide (is_Some (clients hub !! i))) e). }
  split; [done|]. split.
  { intros ρ'. destruct (Broadcast_eq ρ' h e w hub Hwf Hh) as (cs' & -> & Hcs').
    do 2 f_equal. apply list_eq. intros i. by rewrite Hcs, Hcs'. }
  split; [done|]. intros ch c Hc. simpl. rewrite Hcs, Hc. simpl. eexists. split; [done|].
  unfold offer. by destruct (bool_decide _), (has_room c).
Qed.

(** ** Witness: two clients, one of them full *)

Definition hub_sample : HubStore :=
  mkStore [make_chan 1; mkChan [mkEvent (bs "old")] 1 false; make_chan 1]
    [mkHub {[0%nat := (); 1%nat := ()]}] newWatchManagerMetrics.

Lemma hub_sample_wf : wf_store hub_sample.
Proof.
  split.
  - intros [|[|[|ch]]] c; simpl; intros E; by simplify_eq.
  - intros [|h] hub ch; simpl; intros E; [injection E as <-|done]. simpl.
    intros [x Hx]. apply lookup_insert_Some in Hx as [[<- _]|[_ Hx]]; [lia|].
    apply lookup_singleton_Some in Hx as [<- _]. lia.
Defined.

Lemma Broadcast_spec_witness :
  ∃ w', Broadcast (order_bwd ChanPtr) 0%nat (mkEvent (bs "new")) hub_sample = Ok w' ∧
    broadcastDroppedEvents (metrics w') = 1.
Proof.
  destruct (Broadcast_spec (order_bwd ChanPtr) 0%nat (mkEvent (bs "new")) hub_sample
    (mkHub {[0%nat := (); 1%nat := ()]}) hub_sample_wf eq_refl) as (w' & E & _ & _ & _ & Em & _).
  exists w'. split; [exact E|]. rewrite Em. by vm_compute.
Defined.
