(* ===== verification/WatchManager.v ===== *)
(** * The web interface's watch manager ([internal/web/discovery_watch_manager.go])

    One watcher goroutine per cluster that has subscribers, counted by
    reference; the delays between its attempts; and the goroutine itself as a
    step relation.  The manager's root context, which ends with the process, is
    left out: a goroutine here runs until its own context is cancelled. *)

From S2P Require Import Prelude GoTime GoChan Affiliate Protobuf Messages Grpc Json Payload.
From S2P Require Import Hub.

(** ** The back-off *)

(** [1 << attempt] as a [time.Duration]: the bits that fit in 64. *)
Definition shl64 (x n : Z) : Z := wrap64 (Z.shiftl x n).

Definition backoff_base : Duration := 500 * Millisecond.
Definition backoff_maxDelay : Duration := 15 * Second.

(** The delay before the jitter. *)
Definition backoff_delay (attempt : Z) : Duration :=
  let attempt := if attempt <? 0 then 0 else attempt in
  let d := wrap64 (backoff_base * shl64 1 attempt) in
  if (backoff_maxDelay <? d) || (d <=? 0) then backoff_maxDelay else d.

(** [rand.Int63n(n)], drawing the number [r]; it panics if [n <= 0]. *)
Definition rand_Int63n (r n : Z) : result Panic Z :=
  if n <=? 0 then Err Int63nArgument else Ok (r mod n).

Definition nextBackoff (r attempt : Z) : result Panic Duration :=
  let d := backoff_delay attempt in
  jitter <-? rand_Int63n r (Z.quot d 2) ;;
  Ok (wrap64 (d + jitter)).

(** [waitWithContext], given whether the context ends before the timer fires. *)
Definition waitWithContext (ctx_done done_first : bool) (d : Duration) : bool :=
  if d <=? 0 then negb ctx_done else negb done_first.

(** ** Subscribing *)

(** A watcher goroutine and its context. *)
Record Watcher : Type := mkWatcher {
  w_cluster : string;
  w_hub : HubPtr;
  w_cancelled : bool;
}.

(** [cancel] is the index of the context it cancels. *)
Record watchEntry : Type := mkEntry {
  hub : HubPtr;
  cancel : nat;
  refs : Z;
}.

Record DiscoveryWatchManager : Type := mkManager {
  entries : gmap string watchEntry;
  watchers : list Watcher;
  store : HubStore;
}.

Definition NewDiscoveryWatchManager : DiscoveryWatchManager :=
  mkManager ∅ [] (mkStore [] [] newWatchManagerMetrics).

Definition set_store (w : HubStore) (m : DiscoveryWatchManager) : DiscoveryWatchManager :=
  mkManager (entries m) (watchers m) w.

(** The entry of [clusterID], made and started if there is none. *)
Definition ensure_entry (clusterID : string) (m : DiscoveryWatchManager) :
    DiscoveryWatchManager * watchEntry :=
  match entries m !! clusterID with
  | Some entry => (m, entry)
  | None =>
      let '(w1, h) := NewHub (store m) in
      let entry := mkEntry h (length (watchers m)) 0 in
      (mkManager (<[clusterID := entry]> (entries m)) (watchers m ++ [mkWatcher clusterID h false])
         (map_metrics (add_watchers 1) w1), entry)
  end.

Definition Subscribe (clusterID : string) (m : DiscoveryWatchManager) :
    result Panic (DiscoveryWatchManager * ChanPtr) :=
  let '(m1, entry) := ensure_entry clusterID m in
  let entry' := mkEntry (hub entry) (cancel entry) (refs entry + 1) in
  let m2 := mkManager (<[clusterID := entry']> (entries m1)) (watchers m1)
              (map_metrics (add_subscribers 1) (store m1)) in
  r <-? Hub_Subscribe (hub entry') (store m2) ;;
  Ok (set_store r.1 m2, r.2).

(** [entry.cancel()] *)
Definition cancel_watcher (i : nat) (l : list Watcher) : list Watcher :=
  alter (λ w, mkWatcher (w_cluster w) (w_hub w) true) i l.

Definition Unsubscribe (clusterID : string) (ch : ChanPtr) (m : DiscoveryWatchManager) :
    result Panic DiscoveryWatchManager :=
  match entries m !! clusterID with
  | None => Ok m
  | Some entry =>
      w1 <-? Hub_Unsubscribe (hub entry) ch (store m) ;;
      let entry' := mkEntry (hub entry) (cancel entry) (refs entry - 1) in
      let w2 := map_metrics (add_subscribers (-1)) w1 in
      Ok (if refs entry' <=? 0 then
            mkManager (delete clusterID (entries m)) (cancel_watcher (cancel entry) (watchers m))
              (map_metrics (add_watchers (-1)) w2)
          else mkManager (<[clusterID := entry']> (entries m)) (watchers m) w2)
  end.

(** ** The watcher goroutine *)

Inductive WatcherPC : Type :=
| AtTop (retryAttempt : Z)
| Opening (retryAttempt : Z)
| Receiving (retryAttempt : Z)
| Backoff (retryAttempt : Z) (d : Duration)
| Exited.

(** What the goroutine has done: the responses its streams have delivered and
    the events it has given to its hub, each in order, and the changes of its
    counters. *)
Record WatcherRun : Type := mkRun {
  received : list Pb.WatchResponse;
  broadcasts : list Event;
  run_metrics : watchManagerMetrics;
}.

Definition bump (f : watchManagerMetrics → watchManagerMetrics) (r : WatcherRun) : WatcherRun :=
  mkRun (received r) (broadcasts r) (f (run_metrics r)).

(** [stream.Recv] has returned [resp]. *)
Definition took (resp : Pb.WatchResponse) (r : WatcherRun) : WatcherRun :=
  mkRun (received r ++ [resp]) (broadcasts r) (run_metrics r).

(** [hub.Broadcast(event)] *)
Definition gave (e : Event) (r : WatcherRun) : WatcherRun :=
  mkRun (received r) (broadcasts r ++ [e]) (run_metrics r).

(** One step of [watchDiscovery]; [cancelled] says whether its context has
    ended.  What [client.Watch] and [stream.Recv] return is up to the peer. *)
Inductive watcher_step (cancelled : bool) : WatcherPC * WatcherRun → WatcherPC * WatcherRun → Prop :=
| wd_stop a r :
    cancelled = true → watcher_step cancelled (AtTop a, r) (Exited, r)
| wd_go a r :
    cancelled = false → watcher_step cancelled (AtTop a, r) (Opening a, r)
| wd_open_failed a r x d :
    nextBackoff x a = Ok d →
    watcher_step cancelled (Opening a, r)
      (Backoff a d, bump (add_reconnects 1) (bump (add_stream_errors 1) r))
| wd_opened a r :
    watcher_step cancelled (Opening a, r) (Receiving 0, r)
| wd_eof a r x d :
    nextBackoff x a = Ok d →
    watcher_step cancelled (Receiving a, r) (Backoff a d, bump (add_reconnects 1) r)
| wd_recv_failed a r x d :
    nextBackoff x a = Ok d →
    watcher_step cancelled (Receiving a, r)
      (Backoff a d, bump (add_reconnects 1) (bump (add_stream_errors 1) r))
| wd_received a r resp data :
    affiliatesToJSON (Pb.watch_Affiliates resp) (Pb.Deleted resp) = Ok data →
    watcher_step cancelled (Receiving a, r)
      (Receiving a, gave (mkEvent data) (bump (add_events 1) (took resp r)))
| wd_marshal_failed a r resp err x d :
    affiliatesToJSON (Pb.watch_Affiliates resp) (Pb.Deleted resp) = Err err →
    nextBackoff x a = Ok d →
    watcher_step cancelled (Receiving a, r)
      (Backoff a d, bump (add_reconnects 1) (bump (add_events 1) (took resp r)))
| wd_waited a d r done_first :
    (done_first = true → cancelled = true) →
    waitWithContext cancelled done_first d = true →
    watcher_step cancelled (Backoff a d, r) (AtTop (a + 1), r)
| wd_cancelled a d r done_first :
    (done_first = true → cancelled = true) →
    waitWithContext cancelled done_first d = false →
    watcher_step cancelled (Backoff a d, r) (Exited, r).

(** ** Facts on the back-off *)

(** Without the wrap-around: doubling, capped. *)
Definition backoff_spec (attempt : Z) : Z :=
  Z.min (backoff_base * 2 ^ Z.max 0 attempt) backoff_maxDelay.

Lemma backoff_delay_small n :
  (n < 64)%nat → backoff_delay (Z.of_nat n) = backoff_spec (Z.of_nat n).
Proof.
  assert (forallb (λ n, backoff_delay (Z.of_nat n) =? backoff_spec (Z.of_nat n)) (seq 0 64) = true)
    as Hall by by vm_compute.
  rewrite forallb_forall in Hall. intros Hn. apply Z.eqb_eq, Hall, in_seq. lia.
Qed.

Lemma shl64_large n : 64 ≤ n → shl64 1 n = 0.
Proof.
  intros Hn. unfold shl64, wrap64. rewrite Z.shiftl_mul_pow2 by lia.
  replace (2 ^ n) with (2 ^ (n - 64) * two64).
  - rewrite Z.mul_1_l, Z.add_comm, Z.mod_add by done. by vm_compute.
  - unfold two64. rewrite <- Z.pow_add_r by lia. f_equal. lia.
Qed.

Lemma backoff_delay_eq attempt : backoff_delay attempt = backoff_spec attempt.
Proof.
  assert (∀ a, 0 ≤ a → backoff_delay a = backoff_spec a) as Hpos.
  { intros a Ha. destruct (decide (a < 64)).
    - rewrite <- (Z2Nat.id a) by done. apply backoff_delay_small. lia.
    - unfold backoff_delay, backoff_spec. rewrite (proj2 (Z.ltb_ge a 0)) by done.
      rewrite shl64_large by lia. rewrite Z.max_r by done.
      assert (2 ^ 64 ≤ 2 ^ a) by (apply Z.pow_le_mono_r; lia).
      rewrite Z.min_r; [by vm_compute|]. unfold backoff_base, backoff_maxDelay, Millisecond, Second.
      pose proof (eq_refl : 2 ^ 64 = 18446744073709551616). lia. }
  destruct (decide (0 ≤ attempt)); [by apply Hpos|].
  transitivity (backoff_delay 0); [|rewrite Hpos by done].
  - unfold backoff_delay. by rewrite (proj2 (Z.ltb_lt attempt 0)) by lia.
  - unfold backoff_spec. by rewrite !Z.max_l by lia.
Qed.

Lemma backoff_spec_range attempt : backoff_base ≤ backoff_spec attempt ≤ backoff_maxDelay.
Proof.
  unfold backoff_spec. pose proof (Z.pow_le_mono_r 2 0 (Z.max 0 attempt)).
  unfold backoff_base, backoff_maxDelay, Millisecond, Second. lia.
Qed.

Lemma nextBackoff_eq r attempt :
  nextBackoff r attempt = Ok (backoff_spec attempt + r mod (backoff_spec attempt / 2)).
Proof.
  unfold nextBackoff. rewrite backoff_delay_eq. pose proof (backoff_spec_range attempt) as Hr.
  unfold backoff_base, backoff_maxDelay, Millisecond, Second in Hr.
  rewrite Z.quot_div_nonneg by lia. set (d := backoff_spec attempt) in *.
  assert (0 < d / 2) as Hd by (apply Z.div_str_pos; lia). unfold rand_Int63n.
  rewrite (proj2 (Z.leb_gt _ _)) by done. simpl. f_equal. apply wrap64_id.
  pose proof (Z.mod_pos_bound r (d / 2) Hd). pose proof (Z.div_lt d 2). unfold two63. lia.
Qed.
