(* ===== verification/WatchManagerProps.v ===== *)
(** * Properties of the watch manager *)

From S2P Require Import Prelude GoTime GoChan Affiliate Cluster ClusterSubs ClusterFacts.
From S2P Require Import Replication.
From S2P Require Import Protobuf Messages Grpc Server Watch WatchProps Json Payload Hub.
From S2P Require Import WatchManager.

(** ** Managers and their users *)

(** A channel some handler holds for [clusterID]. *)
Definition subscribed_to (m : DiscoveryWatchManager) (clusterID : string) (ch : ChanPtr) : Prop :=
  ∃ e h, entries m !! clusterID = Some e ∧ hubs (store m) !! hub e = Some h ∧
    is_Some (clients h !! ch).

Inductive mgr_step : DiscoveryWatchManager → DiscoveryWatchManager → Prop :=
| ms_subscribe c m m' ch :
    Subscribe c m = Ok (m', ch) → mgr_step m m'
| ms_unsubscribe c ch m m' :
    subscribed_to m c ch → Unsubscribe c ch m = Ok m' → mgr_step m m'
| ms_broadcast ρ i w e m st :
    watchers m !! i = Some w → Broadcast ρ (w_hub w) e (store m) = Ok st →
    mgr_step m (set_store st m)
| ms_read ch c ev rest m :
    chans (store m) !! ch = Some c → recv c = Got ev rest →
    mgr_step m (set_store (set_chans (<[ch := rest]> (chans (store m))) (store m)) m).

(** ** The invariant *)

Definition client_count (l : list Hub) : Z :=
  foldr (λ h n, Z.of_nat (size (clients h)) + n) 0 l.

(** Channels exist, are open, and belong to one hub at most. *)
Record store_ok (st : HubStore) : Prop := {
  so_wf : wf_store st;
  so_disjoint i j a b ch : hubs st !! i = Some a → hubs st !! j = Some b →
    is_Some (clients a !! ch) → is_Some (clients b !! ch) → i = j;
}.

(** Entries and running goroutines are the same thing; a goroutine, its
    context and its hub have the same index. *)
Record topology (m : DiscoveryWatchManager) : Prop := {
  tp_len : length (hubs (store m)) = length (watchers m);
  tp_hub i w : watchers m !! i = Some w → w_hub w = i;
  tp_entry c e : entries m !! c = Some e →
    hub e = cancel e ∧ watchers m !! cancel e = Some (mkWatcher c (cancel e) false);
  tp_running i w : watchers m !! i = Some w → w_cancelled w = false →
    ∃ e, entries m !! w_cluster w = Some e ∧ cancel e = i;
}.

(** Reference counts and gauges count what they should. *)
Record counts (m : DiscoveryWatchManager) : Prop := {
  ct_refs c e : entries m !! c = Some e →
    ∃ h, hubs (store m) !! hub e = Some h ∧ refs e = Z.of_nat (size (clients h));
  ct_stopped i w h : watchers m !! i = Some w → w_cancelled w = true → hubs (store m) !! i = Some h →
    clients h = ∅;
  ct_watchers : activeDiscoveryWatchers (metrics (store m)) = Z.of_nat (size (entries m));
  ct_subscribers : activeSubscribers (metrics (store m)) = client_count (hubs (store m));
}.

Record mgr_core (m : DiscoveryWatchManager) : Prop := {
  mc_store : store_ok (store m);
  mc_topology : topology m;
  mc_counts : counts m;
}.

(** Between two operations no entry is unused. *)
Record mgr_inv (m : DiscoveryWatchManager) : Prop := {
  mi_core : mgr_core m;
  mi_used c e : entries m !! c = Some e → 0 < refs e;
}.

Lemma client_count_insert l i a b :
  l !! i = Some a →
  client_count (<[i := b]> l) =
  client_count l - Z.of_nat (size (clients a)) + Z.of_nat (size (clients b)).
Proof.
  revert i. induction l as [|x l IH]; intros [|i] E; simplify_eq/=; [lia|]. rewrite (IH i E). lia.
Qed.

Lemma client_count_app l b : client_count (l ++ [b]) = client_count l + Z.of_nat (size (clients b)).
Proof. induction l as [|x l IH]; simpl; [lia | rewrite IH; lia]. Qed.

Lemma mgr_inv_new : mgr_inv NewDiscoveryWatchManager.
Proof. by repeat split. Qed.

(** ** Stores *)

Lemma store_ok_metrics st f : store_ok st → store_ok (map_metrics f st).
Proof. intros [[Ho Hc] Hd]. by split; [split|]. Qed.

Lemma store_ok_set_hub st i a b :
  store_ok st → hubs st !! i = Some a →
  (∀ ch, is_Some (clients b !! ch) → (ch < length (chans st))%nat ∧
     ∀ j c, j ≠ i → hubs st !! j = Some c → clients c !! ch = None) →
  store_ok (set_hub i b st).
Proof.
  intros [[Ho Hc] Hd] Ha Hb. split; [split|]; simpl; [done|..].
  - intros j x ch [(_ & <- & _)|[_ Hj]]%list_lookup_insert_Some Hs; [by apply Hb | by eapply Hc].
  - intros j k x y ch Hx Hy Hsx Hsy.
    apply list_lookup_insert_Some in Hx as [(<- & <- & _)|[Hj Hx]];
    apply list_lookup_insert_Some in Hy as [(<- & <- & _)|[Hk Hy]]; [done|..|by eapply Hd].
    + destruct (Hb ch Hsx) as [_ Hn]. rewrite (Hn k y) in Hsy by done. by destruct Hsy.
    + destruct (Hb ch Hsy) as [_ Hn]. rewrite (Hn j x) in Hsx by done. by destruct Hsx.
Qed.

Lemma store_ok_new_chan st n : store_ok st → store_ok (set_chans (chans st ++ [make_chan n]) st).
Proof.
  intros [[Ho Hc] Hd]. split; [split|]; simpl; [..|done].
  - intros i x [Hx|[_ Hx]]%lookup_app_Some; [by eapply Ho|].
    by apply list_lookup_singleton_Some in Hx as [_ <-].
  - intros h a ch Ha Hs. rewrite length_app. specialize (Hc h a ch Ha Hs). lia.
Qed.

(** No hub has a channel that does not exist yet. *)
Lemma fresh_chan st i a : wf_store st → hubs st !! i = Some a → clients a !! length (chans st) = None.
Proof.
  intros [_ Hc] Ha. apply eq_None_not_Some. intros Hs. specialize (Hc i a _ Ha Hs). lia.
Qed.

Lemma Hub_Subscribe_ok st i a :
  store_ok st → hubs st !! i = Some a →
  ∃ st', Hub_Subscribe i st = Ok (st', length (chans st)) ∧ store_ok st' ∧
    chans st' = chans st ++ [make_chan subscriberChannelSize] ∧ metrics st' = metrics st ∧
    hubs st' = <[i := mkHub (<[length (chans st) := ()]> (clients a))]> (hubs st).
Proof.
  intros Hst Ha. unfold Hub_Subscribe. rewrite Ha. eexists. split; [done|]. split; [|done].
  apply (store_ok_set_hub _ i a); [by apply store_ok_new_chan | done |]. simpl. rewrite length_app.
  intros ch Hs. destruct (decide (ch = length (chans st))) as [->|Hne].
  - split; [simpl; lia|]. intros j c _ Hc. by eapply fresh_chan; [apply Hst|].
  - rewrite lookup_insert_ne in Hs by done. pose proof (ws_clients _ (so_wf st Hst) i a ch Ha Hs).
    split; [lia|]. intros j c Hj Hc. apply eq_None_not_Some. intros Hs'.
    by apply Hj, (so_disjoint st Hst _ _ c a ch).
Qed.

Lemma Hub_Unsubscribe_ok st i a ch :
  store_ok st → hubs st !! i = Some a →
  ∃ st', Hub_Unsubscribe i ch st = Ok st' ∧ store_ok st' ∧ chans st' = chans st ∧
    metrics st' = metrics st ∧ hubs st' = <[i := mkHub (delete ch (clients a))]> (hubs st).
Proof.
  intros Hst Ha. unfold Hub_Unsubscribe. rewrite Ha. eexists. split; [done|]. split; [|done].
  apply (store_ok_set_hub _ i a); [done..|]. intros x Hs. simpl in Hs.
  destruct Hs as [[] [Hne Hx]%lookup_delete_Some].
  assert (is_Some (clients a !! x)) as Hs by eauto. pose proof (ws_clients _ (so_wf st Hst) i a x Ha Hs).
  split; [done|]. intros j c Hj Hc. apply eq_None_not_Some. intros Hs'.
  by apply Hj, (so_disjoint st Hst _ _ c a x).
Qed.

Lemma store_ok_NewHub st : store_ok st → store_ok (NewHub st).1.
Proof.
  intros [[Ho Hc] Hd].
  assert (∀ i a ch, (hubs st ++ [mkHub ∅]) !! i = Some a → is_Some (clients a !! ch) →
    hubs st !! i = Some a) as Hold.
  { intros i a ch [Ha|[_ Ha]]%lookup_app_Some Hs; [done|].
    apply list_lookup_singleton_Some in Ha as [_ <-]. simpl in Hs. rewrite lookup_empty in Hs. by destruct Hs. }
  split; [split|]; simpl; [done|..].
  - intros h a ch Ha Hs. by eapply Hc; [eapply Hold|].
  - intros i j a b ch Ha Hb Hsa Hsb. by eapply (Hd i j a b ch); [eapply Hold|eapply Hold|..].
Qed.

Lemma store_ok_read st ch c ev rest :
  store_ok st → chans st !! ch = Some c → recv c = Got ev rest →
  store_ok (set_chans (<[ch := rest]> (chans st)) st).
Proof.
  intros [[Ho Hc] Hd] Hch Er. split; [split|]; simpl; [..|done].
  - intros i x [(-> & <- & _)|[_ Hi]]%list_lookup_insert_Some; [|by eapply Ho].
    unfold recv in Er. destruct (chan_buf c); [by destruct (chan_closed c)|].
    injection Er as _ <-. simpl. by eapply Ho.
  - intros h hb i Hh Hi. rewrite length_insert. by eapply Hc.
Qed.

(** ** Steps of the manager *)

(** Replacing the entry of [c] by one with the same hub and context. *)
Lemma topology_update m c e e' st :
  topology m → entries m !! c = Some e → hub e' = hub e → cancel e' = cancel e →
  length (hubs st) = length (hubs (store m)) →
  topology (mkManager (<[c := e']> (entries m)) (watchers m) st).
Proof.
  intros [Hl Hh He Hr] Hc Eh Ec El. split; simpl; [by rewrite El | done | |].
  - intros j x [[<- <-]|[_ Hx]]%lookup_insert_Some; [|by apply He].
    rewrite Eh, Ec. by apply He.
  - intros i w Hw Hn. destruct (Hr i w Hw Hn) as (x & Hx & Ei).
    destruct (decide (w_cluster w = c)) as [<-|Hne].
    + rewrite lookup_insert_eq. eexists. split; [done|]. congruence.
    + rewrite lookup_insert_ne by done. eauto.
Qed.

(** Hubs of two entries differ. *)
Lemma entry_hub_inj m c c' e e' :
  topology m → entries m !! c = Some e → entries m !! c' = Some e' → hub e = hub e' → c = c'.
Proof.
  intros Ht He He' E. destruct (tp_entry m Ht c e He) as [E1 W1].
  destruct (tp_entry m Ht c' e' He') as [E2 W2]. rewrite <- E1 in W1. rewrite <- E2 in W2.
  rewrite E in W1. rewrite W1 in W2. by injection W2.
Qed.

Lemma counts_update m c e a b d :
  topology m → counts m → entries m !! c = Some e → hubs (store m) !! hub e = Some a →
  Z.of_nat (size (clients b)) = Z.of_nat (size (clients a)) + d →
  counts (mkManager (<[c := mkEntry (hub e) (cancel e) (refs e + d)]> (entries m)) (watchers m)
    (mkStore (chans (store m)) (<[hub e := b]> (hubs (store m))) (add_subscribers d (metrics (store m))))).
Proof.
  intros Ht [Hr Hs Hw Hsub] He Ha Hsz. assert (hub e < length (hubs (store m)))%nat by (by eapply lookup_lt_Some).
  split; simpl.
  - intros j x [[<- <-]|[Hne Hx]]%lookup_insert_Some; simpl.
    + exists b. rewrite list_lookup_insert_eq by done. destruct (Hr c e He) as (h & Hh & ->).
      simplify_eq. split; [done | lia].
    + destruct (Hr j x Hx) as (h & Hh & E). exists h. rewrite list_lookup_insert_ne; [done|].
      intros E'. by apply Hne, (entry_hub_inj m c j e x).
  - intros i w h Hwi Hc Hh. apply list_lookup_insert_Some in Hh as [(<- & _ & _)|[_ Hh]]; [|by eapply Hs].
    destruct (tp_entry m Ht c e He) as [E1 W1]. rewrite <- E1, Hwi in W1. by injection W1 as ->.
  - rewrite Hw, map_size_insert_Some; [done | eauto].
  - rewrite Hsub, (client_count_insert _ _ a) by done. lia.
Qed.

Lemma counts_chans m cs :
  counts m → counts (set_store (set_chans cs (store m)) m).
Proof. by intros []. Qed.

(** Sends leave the book-keeping alone. *)
Lemma mgr_inv_chans m cs d :
  mgr_inv m → length cs = length (chans (store m)) → (∀ i c, cs !! i = Some c → chan_closed c = false) →
  mgr_inv (set_store (mkStore cs (hubs (store m)) (add_dropped d (metrics (store m)))) m).
Proof.
  intros [[[[_ Hcl] Hd] Ht Hct] Hu] Hlen Ho. split; [split|done].
  - split; [|done]. split; [done|]. simpl. by rewrite Hlen.
  - by destruct Ht.
  - by destruct Hct.
Qed.

(** Making an entry, not yet used, keeps the core. *)
Lemma ensure_entry_core m c :
  mgr_core m →
  let '(m1, e) := ensure_entry c m in
  mgr_core m1 ∧ entries m1 !! c = Some e ∧ 0 ≤ refs e ∧
  (∀ c', c' ≠ c → entries m1 !! c' = entries m !! c').
Proof.
  intros Hm. pose proof Hm as [Hst Ht Hct]. unfold ensure_entry. destruct (entries m !! c) as [e|] eqn:E.
  { split; [done|]. split; [done|]. destruct (ct_refs m Hct c e E) as (h & _ & ->). split; [lia | done]. }
  pose proof (store_ok_NewHub (store m) Hst) as Hst'. simpl in *.
  pose proof (tp_len m Ht) as Hlen.
  split; [|split; [by rewrite lookup_insert_eq | split; [done | by intros ? ?; rewrite lookup_insert_ne]]].
  split; [by apply (store_ok_metrics _ (add_watchers 1)) in Hst' | |].
  - destruct Ht as [_ Hh He Hr]. split; simpl.
    + rewrite !length_app. simpl. lia.
    + intros i w [Hw|[Hi Hw]]%lookup_app_Some; [by apply Hh|].
      apply list_lookup_singleton_Some in Hw as [Hz <-]. simpl. lia.
    + intros j x [[<- <-]|[Hne Hx]]%lookup_insert_Some; simpl.
      * rewrite lookup_app_r, Nat.sub_diag by lia. simpl. by rewrite Hlen.
      * destruct (He j x Hx) as [? Hw]. split; [done|]. by apply lookup_app_l_Some.
    + intros i w [Hw|[Hi Hw]]%lookup_app_Some Hn.
      * destruct (Hr i w Hw Hn) as (x & Hx & Ei). exists x. rewrite lookup_insert_ne; [done|]. intros ->. congruence.
      * apply list_lookup_singleton_Some in Hw as [Hz <-]. simpl. rewrite lookup_insert_eq.
        eexists. split; [done|]. simpl. lia.
  - destruct Hct as [Hr Hs Hw Hsub]. split; simpl.
    + intros j x [[<- <-]|[Hne Hx]]%lookup_insert_Some; simpl.
      * exists (mkHub ∅). by rewrite lookup_app_r, Nat.sub_diag by lia.
      * destruct (Hr j x Hx) as (h & Hh & E'). exists h. split; [by apply lookup_app_l_Some | done].
    + intros i w h Hwi Hc Hh. apply lookup_app_Some in Hwi as [Hwi|[_ Hwi]].
      2: { by apply list_lookup_singleton_Some in Hwi as [_ <-]. }
      rewrite lookup_app_l in Hh by (rewrite Hlen; by eapply lookup_lt_Some). by eapply Hs.
    + rewrite Hw, map_size_insert_None by done. lia.
    + rewrite Hsub, client_count_app. simpl. rewrite map_size_empty. lia.
Qed.

(** The effect of [Subscribe]. *)
Lemma Subscribe_ok m c :
  mgr_inv m →
  ∃ m' e h,
    Subscribe c m = Ok (m', length (chans (store m))) ∧ mgr_inv m' ∧
    chans (store m') = chans (store m) ++ [make_chan subscriberChannelSize] ∧
    entries m' !! c = Some e ∧ hubs (store m') !! hub e = Some h ∧
    is_Some (clients h !! length (chans (store m))).
Proof.
  intros [Hm Hu]. pose proof (ensure_entry_core m c Hm) as He. unfold Subscribe.
  assert (chans (store (ensure_entry c m).1) = chans (store m)) as Ech.
  { unfold ensure_entry. by destruct (entries m !! c). }
  destruct (ensure_entry c m) as [m1 e]. destruct He as ([Hst Ht Hct] & He & Hpos & Hrest). simpl in Ech.
  destruct (ct_refs m1 Hct c e He) as (h & Hh & Er).
  destruct (Hub_Subscribe_ok (map_metrics (add_subscribers 1) (store m1)) (hub e) h)
    as (st' & E & Hst' & Ec & Em & Eh); [by apply store_ok_metrics | done |].
  cbn [store hub]. rewrite E. cbn [rbind fst snd]. simpl in Ec, Em, Eh. rewrite Ech in *.
  assert (st' = mkStore (chans st') (hubs st') (metrics st')) as Est by by destruct st'.
  assert (size (<[length (chans (store m)) := ()]> (clients h)) = S (size (clients h))) as Hsz.
  { rewrite <- Ech. by rewrite map_size_insert_None by (eapply fresh_chan; [apply Hst | done]). }
  cbn [map_metrics chans]. rewrite Ech.
  eexists _, (mkEntry (hub e) (cancel e) (refs e + 1)), _. split; [done|]. unfold set_store. simpl.
  split; cycle 1.
  { split; [done|]. split; [apply lookup_insert_eq|]. simpl.
    split; [rewrite Eh; apply list_lookup_insert_eq; by eapply lookup_lt_Some|].
    simpl. rewrite lookup_insert_eq. eauto. }
  split; [split|].
  - done.
  - apply (topology_update m1 c e); [done..|]. by rewrite Eh, length_insert.
  - pose proof (counts_update m1 c e h (mkHub (<[length (chans (store m)) := ()]> (clients h))) 1
      Ht Hct He Hh) as Hcu. rewrite Est, Eh, Em.
    apply (counts_chans _ (chans st')) in Hcu; [exact Hcu|]. simpl. rewrite Hsz. lia.
  - simpl. intros j x [[<- <-]|[Hne Hx]]%lookup_insert_Some; simpl; [lia|].
    apply (Hu j). by rewrite <- Hrest.
Qed.

(** The effect of [Unsubscribe] by a handler that holds [ch]: the entry stays
    while others hold it. *)
Lemma unsubscribe_keep m c e h ch st' :
  mgr_inv m → entries m !! c = Some e → hubs (store m) !! hub e = Some h →
  is_Some (clients h !! ch) → store_ok st' → chans st' = chans (store m) →
  metrics st' = metrics (store m) →
  hubs st' = <[hub e := mkHub (delete ch (clients h))]> (hubs (store m)) →
  mgr_core (mkManager (<[c := mkEntry (hub e) (cancel e) (refs e - 1)]> (entries m)) (watchers m)
    (map_metrics (add_subscribers (-1)) st')).
Proof.
  intros [[Hst Ht Hct] Hu] He Hh Hch Hst' Ec Em Eh. split.
  - by apply store_ok_metrics.
  - apply (topology_update m c e); [done..|]. simpl. by rewrite Eh, length_insert.
  - pose proof (counts_update m c e h (mkHub (delete ch (clients h))) (-1) Ht Hct He Hh) as Hcu.
    unfold map_metrics. rewrite Eh, Em, Ec. apply Hcu. simpl.
    destruct Hch as [[] Hx]. rewrite map_size_delete_Some by eauto.
    assert (size (clients h) ≠ 0%nat); [|lia]. intros E0%map_size_empty_inv. by rewrite E0, lookup_empty in Hx.
Qed.

(** Dropping an entry that nobody uses any more, and stopping its goroutine. *)
Lemma drop_entry m c e :
  mgr_core m → entries m !! c = Some e → refs e = 0 →
  mgr_core (mkManager (delete c (entries m)) (cancel_watcher (cancel e) (watchers m))
    (map_metrics (add_watchers (-1)) (store m))).
Proof.
  intros [Hst Ht Hct] He Hz. pose proof (tp_entry m Ht c e He) as [Ehc Hw].
  assert (∀ i w, cancel_watcher (cancel e) (watchers m) !! i = Some w →
    (i = cancel e ∧ w = mkWatcher c (cancel e) true) ∨ (i ≠ cancel e ∧ watchers m !! i = Some w)) as Hcw.
  { unfold cancel_watcher. intros i w. destruct (decide (i = cancel e)) as [->|Hne].
    - rewrite list_lookup_alter_eq, Hw. intros [= <-]. by left.
    - rewrite list_lookup_alter_ne by done. by right. }
  split; [by apply store_ok_metrics|..].
  - destruct Ht as [Hl Hh Hen Hr]. split; simpl.
    + unfold cancel_watcher. by rewrite length_alter.
    + intros i w [[-> ->]|[_ Hi]]%Hcw; [done | by apply Hh].
    + intros j x [Hne Hx]%lookup_delete_Some. destruct (Hen j x Hx) as [? Hwx]. split; [done|].
      unfold cancel_watcher. rewrite list_lookup_alter_ne; [done|]. intros E.
      rewrite E in Hw. rewrite Hwx in Hw. by injection Hw.
    + intros i w [[-> ->]|[Hne Hi]]%Hcw Hn; [done|]. destruct (Hr i w Hi Hn) as (x & Hx & Ei).
      exists x. rewrite lookup_delete_ne; [done|]. intros E. rewrite <- E, He in Hx. simplify_eq.
  - destruct Hct as [Hr Hs Hwc Hsub]. split; simpl.
    + intros j x [Hne Hx]%lookup_delete_Some. by apply (Hr j).
    + intros i w h [[-> ->]|[Hne Hi]]%Hcw Hc Hh; [|by eapply Hs].
      destruct (Hr c e He) as (h' & Hh' & E). rewrite Ehc in Hh'. simplify_eq.
      apply map_size_empty_inv. lia.
    + rewrite Hwc, map_size_delete_Some by eauto.
      assert (size (entries m) ≠ 0%nat); [|lia]. intros E0%map_size_empty_inv. by rewrite E0, lookup_empty in He.
    + done.
Qed.

Lemma Unsubscribe_ok m c ch :
  mgr_inv m → subscribed_to m c ch →
  ∃ m', Unsubscribe c ch m = Ok m' ∧ mgr_inv m' ∧
    (is_Some (entries m' !! c) ↔ ∃ e, entries m !! c = Some e ∧ 1 < refs e).
Proof.
  intros Hi (e & h & He & Hh & Hch). pose proof Hi as [[Hst Ht Hct] Hu]. unfold Unsubscribe. rewrite He.
  destruct (Hub_Unsubscribe_ok (store m) (hub e) h ch Hst Hh) as (st' & -> & Hst' & Ec & Em & Eh). simpl.
  pose proof (unsubscribe_keep m c e h ch st' Hi He Hh Hch Hst' Ec Em Eh) as Hk.
  specialize (Hu c e He) as Hpos. destruct (refs e - 1 <=? 0) eqn:E; go_bool.
  - apply (drop_entry _ c (mkEntry (hub e) (cancel e) (refs e - 1))) in Hk;
      [|apply lookup_insert_eq|simpl; lia]. simpl in Hk. rewrite delete_insert_eq in Hk.
    eexists. split; [done|]. split; [split; [done|]|]; simpl.
    + intros j x [_ Hx]%lookup_delete_Some. by apply (Hu j).
    + rewrite lookup_delete_eq. split; [by intros [? ?] | intros (x & Hx & ?)]. simplify_eq. lia.
  - eexists. split; [done|]. split; [split; [done|]|]; simpl.
    + intros j x [[<- <-]|[_ Hx]]%lookup_insert_Some; [simpl; lia | by apply (Hu j)].
    + rewrite lookup_insert_eq. split; [intros _; exists e; split; [done | lia] | eauto].
Qed.

Lemma mgr_inv_step m m' : mgr_inv m → mgr_step m m' → mgr_inv m'.
Proof.
  intros Hi Hstep. destruct Hstep as [c m m' ch E|c ch m m' Hs E|ρ i w e m st Hw E|ch c ev rest m Hc E].
  - destruct (Subscribe_ok m c Hi) as (m1 & _ & _ & E1 & Hi1 & _). rewrite E1 in E. by injection E as <-.
  - destruct (Unsubscribe_ok m c ch Hi Hs) as (m1 & E1 & Hi1 & _). rewrite E1 in E. by injection E as <-.
  - destruct Hi as [[Hst Ht Hct] Hu].
    assert (∃ h, hubs (store m) !! w_hub w = Some h) as [h Hh].
    { apply lookup_lt_is_Some. rewrite (tp_hub m Ht i w Hw), (tp_len m Ht). by eapply lookup_lt_Some. }
    destruct (Broadcast_eq ρ (w_hub w) e (store m) h) as (cs & E1 & Hcs); [apply Hst | done |].
    rewrite E1 in E. injection E as <-. split; [split|done].
    + split; [by eapply (wf_store_broadcast _ _ _ (λ i, bool_decide (is_Some (clients h !! i)))); [apply Hst|]|].
      apply Hst.
    + by destruct Ht.
    + by destruct Hct.
  - destruct Hi as [[Hst Ht Hct] Hu]. split; [split|done].
    + by apply (store_ok_read _ ch c ev).
    + by destruct Ht.
    + by destruct Hct.
Qed.

Lemma mgr_inv_reachable m : rtc mgr_step NewDiscoveryWatchManager m → mgr_inv m.
Proof.
  intros Hr. pose proof mgr_inv_new as Hi. induction Hr; eauto using mgr_inv_step.
Qed.

(** The goroutines still running for a cluster. *)
Definition running_for (m : DiscoveryWatchManager) (c : string) : list Watcher :=
  filter (λ w, w_cluster w = c ∧ w_cancelled w = false) (watchers m).

(** At most one position of a list satisfies [P]. *)
Lemma filter_unique {A} (P : A → Prop) `{∀ x, Decision (P x)} (l : list A) i x :
  l !! i = Some x → P x → (∀ j y, l !! j = Some y → P y → j = i) → filter P l = [x].
Proof.
  revert i. induction l as [|z l IH]; intros i Hi Hx Hu; [done|]. rewrite filter_cons.
  destruct i as [|i]; simplify_eq/=.
  - rewrite decide_True by done. f_equal.
    destruct (filter P l) as [|y k] eqn:E; [done|].
    assert (y ∈ filter P l) as [Hy Hin]%list_elem_of_filter by (rewrite E; left).
    apply list_elem_of_lookup_1 in Hin as [j Hj]. by specialize (Hu (S j) y Hj Hy).
  - destruct (decide (P z)) as [Hz|Hz].
    + by specialize (Hu 0%nat z eq_refl Hz).
    + apply (IH i Hi Hx). intros j y Hj Hy. specialize (Hu (S j) y Hj Hy). lia.
Qed.

Lemma running_for_spec m c :
  mgr_inv m →
  running_for m c = match entries m !! c with Some e => [mkWatcher c (cancel e) false] | None => [] end.
Proof.
  intros [[Hst Ht Hct] Hu]. unfold running_for. destruct (entries m !! c) as [e|] eqn:He.
  - destruct (tp_entry m Ht c e He) as [_ Hw]. apply (filter_unique _ _ (cancel e)); [done | done |].
    intros j w Hj [Hc Hn]. destruct (tp_running m Ht j w Hj Hn) as (x & Hx & <-).
    rewrite Hc, He in Hx. by injection Hx as ->.
  - destruct (filter _ _) as [|w k] eqn:E; [done|].
    assert (w ∈ filter (λ w, w_cluster w = c ∧ w_cancelled w = false) (watchers m)) as Hin
      by (rewrite E; left).
    apply list_elem_of_filter in Hin as [[Hc Hn] Hin]. apply list_elem_of_lookup_1 in Hin as [j Hj].
    destruct (tp_running m Ht j w Hj Hn) as (x & Hx & _). congruence.
Qed.

Lemma NoDup_fmap_filter {A B} (P : A → Prop) `{∀ x, Decision (P x)} (f : A → B) (l : list A) :
  (∀ i j x y, l !! i = Some x → l !! j = Some y → P x → P y → f x = f y → i = j) →
  NoDup (f <$> filter P l).
Proof.
  induction l as [|x l IH]; intros Hu; [constructor|]. rewrite filter_cons.
  assert (NoDup (f <$> filter P l)) as Hl.
  { apply IH. intros i j y z Hy Hz Py Pz E. specialize (Hu (S i) (S j) y z Hy Hz Py Pz E). lia. }
  destruct (decide (P x)) as [Hx|]; [|done]. rewrite fmap_cons. apply NoDup_cons. split; [|done].
  intros (y & E & [Hy Hin]%list_elem_of_filter)%list_elem_of_fmap.
  apply list_elem_of_lookup_1 in Hin as [j Hj]. by specialize (Hu 0%nat (S j) x y eq_refl Hj Hx Hy E).
Qed.

(** As many goroutines run as there are entries. *)
Lemma running_count m :
  topology m → length (filter (λ w, w_cancelled w = false) (watchers m)) = size (entries m).
Proof.
  intros Ht. rewrite <- (length_fmap w_cluster).
  assert (NoDup (w_cluster <$> filter (λ w, w_cancelled w = false) (watchers m))) as Hnd.
  { apply NoDup_fmap_filter. intros i j x y Hx Hy Px Py E.
    destruct (tp_running m Ht i x Hx Px) as (e & He & <-).
    destruct (tp_running m Ht j y Hy Py) as (e' & He' & <-). rewrite E, He' in He. by injection He as ->. }
  rewrite <- (size_list_to_set (C := gset string)) by done. rewrite <- size_dom. f_equal.
  apply set_eq. intros c. rewrite elem_of_list_to_set, list_elem_of_fmap, elem_of_dom. split.
  - intros (w & -> & [Hn Hin]%list_elem_of_filter). apply list_elem_of_lookup_1 in Hin as [j Hj].
    destruct (tp_running m Ht j w Hj Hn) as (e & He & _). eauto.
  - intros [e He]. destruct (tp_entry m Ht c e He) as [_ Hw]. eexists. split; [|apply list_elem_of_filter].
    2: { split; [|by eapply list_elem_of_lookup_2]. done. }
    done.
Qed.

(** ** Properties *)

(** Reference counting.  However handlers subscribe, read and unsubscribe
    and goroutines broadcast, a cluster has exactly one running watcher
    goroutine while some handler is subscribed to it and none otherwise: the
    last handler to leave stops it, and its hub keeps no channel; the gauges
    of active watchers and active subscribers are exact; and the next
    [Subscribe] or [Unsubscribe] does not panic. *)
Theorem one_watcher_per_cluster m c :
  rtc mgr_step NewDiscoveryWatchManager m →
  ((∃ ch, subscribed_to m c ch) ∧ length (running_for m c) = 1%nat ∨
   (∀ ch, ¬ subscribed_to m c ch) ∧ length (running_for m c) = 0%nat) ∧
  (∀ i w h, watchers m !! i = Some w → w_cancelled w = true → hubs (store m) !! w_hub w = Some h →
     clients h = ∅) ∧
  activeDiscoveryWatchers (metrics (store m)) =
    Z.of_nat (length (filter (λ w, w_cancelled w = false) (watchers m))) ∧
  activeSubscribers (metrics (store m)) = client_count (hubs (store m)) ∧
  (∃ m' ch, Subscribe c m = Ok (m', ch) ∧ subscribed_to m' c ch) ∧
  (∀ ch, subscribed_to m c ch → ∃ m', Unsubscribe c ch m = Ok m').
Proof.
  intros Hr. pose proof (mgr_inv_reachable m Hr) as Hi. pose proof Hi as [[Hst Ht Hct] Hu].
  split_and!.
  - rewrite (running_for_spec m c Hi). destruct (entries m !! c) as [e|] eqn:He; simpl.
    + left. split; [|done]. destruct (ct_refs m Hct c e He) as (h & Hh & E).
      specialize (Hu c e He). destruct (map_choose (clients h)) as (ch & [] & Hx).
      { intros E0. rewrite E0, map_size_empty in E. lia. }
      exists ch, e, h. by split_and!.
    + right. split; [|done]. intros ch (e & h & He' & _). congruence.
  - intros i w h Hw Hc Hh. rewrite (tp_hub m Ht i w Hw) in Hh. by eapply (ct_stopped m Hct).
  - rewrite (ct_watchers m Hct), running_count by done. done.
  - apply Hct.
  - destruct (Subscribe_ok m c Hi) as (m' & e & h & E & _ & _ & He & Hh & Hx).
    eexists _, _. split; [exact E|]. by exists e, h.
  - intros ch Hs. destruct (Unsubscribe_ok m c ch Hi Hs) as (m' & E & _). eauto.
Qed.

(** ** Witness: two handlers, one of them gone *)

Definition wm_run : result Panic DiscoveryWatchManager :=
  r1 <-? Subscribe "c1" NewDiscoveryWatchManager ;;
  r2 <-? Subscribe "c1" r1.1 ;;
  Unsubscribe "c1" r1.2 r2.1.

Definition wm_sample : DiscoveryWatchManager :=
  match wm_run with Ok m => m | Err _ => NewDiscoveryWatchManager end.

Definition wm_nth (n : nat) : DiscoveryWatchManager :=
  match rfold (λ m c, r <-? Subscribe c m ;; Ok r.1) NewDiscoveryWatchManager (replicate n "c1") with
  | Ok m => m
  | Err _ => NewDiscoveryWatchManager
  end.

Lemma wm_reachable : rtc mgr_step NewDiscoveryWatchManager wm_sample.
Proof.
  eapply rtc_l; [apply (ms_subscribe "c1" _ (wm_nth 1) 0%nat); by vm_compute|].
  eapply rtc_l; [apply (ms_subscribe "c1" _ (wm_nth 2) 1%nat); by vm_compute|].
  apply rtc_once, (ms_unsubscribe "c1" 0%nat); [|by vm_compute].
  exists (mkEntry 0 0 2), (mkHub {[0%nat := (); 1%nat := ()]}). split_and!; [by vm_compute..|].
  by vm_compute; eexists.
Defined.

Lemma one_watcher_per_cluster_witness :
  length (running_for wm_sample "c1") = 1%nat ∧ length (running_for wm_sample "c2") = 0%nat ∧
  activeSubscribers (metrics (store wm_sample)) = 1.
Proof.
  destruct (one_watcher_per_cluster wm_sample "c1" wm_reachable) as (E1 & _ & _ & E3 & _).
  destruct (one_watcher_per_cluster wm_sample "c2" wm_reachable) as (E2 & _).
  split; [|split].
  - destruct E1 as [[_ E]|[Hn _]]; [exact E|]. destruct (Hn 1%nat).
    exists (mkEntry 0 0 1), (mkHub {[1%nat := ()]}). split_and!; [by vm_compute..|].
    by vm_compute; eexists.
  - destruct E2 as [[(ch & e & h & He & _) _]|[_ E]]; [by vm_compute in He | exact E].
  - rewrite E3. by vm_compute.
Defined.
