(* ===== verification/WatcherProps.v ===== *)
(** * Properties of the watcher goroutine and of its back-off *)

From S2P Require Import Prelude GoTime Limits GoChan Affiliate Cluster ClusterSubs.
From S2P Require Import ClusterFacts Replication.
From S2P Require Import Protobuf Messages Grpc Server ServerProps Watch WatchProps Json.
From S2P Require Import Payload Hub.
From S2P Require Import WatchManager WatchManagerProps.

(** ** Runs *)

(** The event broadcast for a response. *)
Definition response_event (r : Pb.WatchResponse) : Event :=
  mkEvent (marshal_envelope (envelope (Pb.watch_Affiliates r) (Pb.Deleted r))).

(** A step at a moment when the context is live or has ended. *)
Definition any_step (s s' : WatcherPC * WatcherRun) : Prop := ∃ cancelled, watcher_step cancelled s s'.

Definition run_start : WatcherRun := mkRun [] [] newWatchManagerMetrics.

(** What holds of a goroutine at every moment. *)
Record run_inv (s : WatcherPC * WatcherRun) : Prop := {
  ri_broadcasts : broadcasts s.2 = response_event <$> received s.2;
  ri_events : watchEvents (run_metrics s.2) = Z.of_nat (length (received s.2));
  ri_errors : 0 ≤ watchStreamErrors (run_metrics s.2) ≤ watchReconnects (run_metrics s.2);
  ri_attempt : match s.1 with
    | AtTop a | Opening a | Receiving a => 0 ≤ a
    | Backoff a d => 0 ≤ a ∧ backoff_base ≤ d < 22500 * Millisecond
    | Exited => True
    end;
}.

Lemma nextBackoff_bounded x a d : nextBackoff x a = Ok d → backoff_base ≤ d < 22500 * Millisecond.
Proof.
  rewrite nextBackoff_eq. intros [= <-]. pose proof (backoff_spec_range a) as Hr.
  unfold backoff_base, backoff_maxDelay, Millisecond, Second in *.
  set (s := backoff_spec a) in *. assert (0 < s / 2) as Hs by (apply Z.div_str_pos; lia).
  pose proof (Z.mod_pos_bound x (s / 2) Hs). pose proof (Z.div_le_upper_bound s 2 7500000000). lia.
Qed.

(** There always is a delay. *)
Lemma nextBackoff_total x a : ∃ d, nextBackoff x a = Ok d ∧ backoff_base ≤ d < 22500 * Millisecond.
Proof. eexists. split; [apply nextBackoff_eq|]. eapply nextBackoff_bounded, nextBackoff_eq. Qed.

Lemma run_inv_step cancelled s s' : run_inv s → watcher_step cancelled s s' → run_inv s'.
Proof.
  intros [Hb He Hr Ha] Hstep.
  destruct Hstep as [| |a r x d Hd| |a r x d Hd|a r x d Hd|a r resp data Hp|a r resp err x d Hp Hd| |];
    [try apply nextBackoff_bounded in Hd; by (split; simpl in *; lia || done)..| |done| |].
  - injection Hp as <-. split; simpl in *; [|rewrite length_app; simpl; lia|done..].
    by rewrite Hb, fmap_app.
  - split; simpl in *; try done. lia.
  - by split.
Qed.

Lemma run_inv_reachable s : rtc any_step (AtTop 0, run_start) s → run_inv s.
Proof.
  intros Hr. assert (run_inv (AtTop 0, run_start)) as Hi by by split.
  induction Hr as [|s s1 s2 [c Hs] _ IH]; eauto using run_inv_step.
Qed.

(** A step that receives a response broadcasts its event. *)
Lemma watcher_step_receives cancelled a r r' resp :
  watcher_step cancelled (Receiving a, r) (Receiving a, r') → received r' = received r ++ [resp] →
  broadcasts r' = broadcasts r ++ [response_event resp].
Proof.
  intros Hs E. inversion Hs as [| | | | | |? ? resp' data Hp| | |]; subst. simpl in E.
  apply app_inj_2 in E as [_ [= ->]]; [|done]. by injection Hp as <-.
Qed.

(** ** Reconnecting *)

Definition mentions (b : string) (r : Pb.WatchResponse) : Prop := b ∈ Pb.Id <$> Pb.watch_Affiliates r.

Lemma apply_response_other v r b : ¬ mentions b r → apply_response v r !! b = v !! b.
Proof.
  unfold mentions, apply_response. revert v.
  induction (Pb.watch_Affiliates r) as [|a l IH]; intros v Hn; csimpl in *; [done|].
  apply not_elem_of_cons in Hn as [Hb Hl]. rewrite IH by done.
  destruct (Pb.Deleted r); [by rewrite lookup_delete_ne | by rewrite lookup_insert_ne].
Qed.

Lemma apply_responses_other v rs b :
  Forall (λ r, ¬ mentions b r) rs → foldl apply_response v rs !! b = v !! b.
Proof.
  revert v. induction rs as [|r rs IH]; intros v H; simpl; [done|].
  apply Forall_cons in H as [Hr Hrs]. rewrite IH by done. by apply apply_response_other.
Qed.

(** The responses a new stream starts with. *)
Definition first_responses (ρ : MapOrder string) (c : Cluster) : list Pb.WatchResponse :=
  in_flight (watch_begin ((λ ka, ToInfo ka.2) <$> range ρ (affiliates c))).

Lemma first_responses_mention ρ c b :
  wf_affiliates (affiliates c) → affiliates c !! b = None →
  Forall (λ r, ¬ mentions b r) (first_responses ρ c).
Proof.
  intros Hwf Hb. unfold first_responses, watch_begin.
  destruct (0 <? len _); [|constructor]. constructor; [|constructor].
  unfold mentions. simpl. rewrite <- !list_fmap_compose. intros ([k a] & -> & Hin%elem_of_range)%list_elem_of_fmap.
  simpl in Hb. unfold compose in Hb. simpl in Hb.
  destruct (wf_affs_each _ Hwf k a Hin) as [E _]. rewrite E, Hin in Hb. done.
Qed.

(** Receiving a list of responses. *)
Lemma receive_all a r rs :
  ∃ r', rtc (watcher_step false) (Receiving a, r) (Receiving a, r') ∧
    broadcasts r' = broadcasts r ++ (response_event <$> rs).
Proof.
  revert r. induction rs as [|resp rs IH]; intros r.
  { exists r. split; [done|]. by rewrite app_nil_r. }
  destruct (IH (gave (response_event resp) (bump (add_events 1) (took resp r)))) as (r' & Hr & Hb).
  exists r'. split; [|rewrite Hb; simpl; by rewrite <- app_assoc].
  eapply rtc_l; [by apply (wd_received _ _ _ resp) | exact Hr].
Qed.

(** ** Properties *)

(** C34: the delay before attempt [n] to reconnect is, for every [n] and every
    random draw, at least [min(500ms * 2^n, 15s)] and less than one and a half
    times that; so it lies between 500 milliseconds and 22.5 seconds, however
    the shift and the product wrap around, and [rand.Int63n] never panics. *)
Theorem nextBackoff_spec r attempt :
  ∃ d, nextBackoff r attempt = Ok d ∧
    let low := Z.min (backoff_base * 2 ^ Z.max 0 attempt) backoff_maxDelay in
    low ≤ d < low + low / 2 ∧ 500 * Millisecond ≤ d < 22500 * Millisecond.
Proof.
  eexists. rewrite nextBackoff_eq. split; [done|]. fold (backoff_spec attempt).
  pose proof (nextBackoff_bounded r attempt _ (nextBackoff_eq r attempt)).
  pose proof (backoff_spec_range attempt) as Hr. unfold backoff_base, Millisecond in *.
  assert (0 < backoff_spec attempt / 2) as Hs by (apply Z.div_str_pos; lia).
  pose proof (Z.mod_pos_bound r (backoff_spec attempt / 2) Hs). simpl. lia.
Qed.

(** C27: a watcher goroutine passes every response on, once, in order and as
    text that parses back to it, across all its reconnections: at any moment
    the events it has broadcast are those of the responses that its streams
    have delivered, affiliates and [Deleted] flag, its event counter is their
    number, it has not counted more stream errors
    than reconnections, and any wait it is in is a back-off of 0.5 to 22.5
    seconds. *)
Theorem watcher_forwards pc run :
  rtc any_step (AtTop 0, run_start) (pc, run) →
  broadcasts run = response_event <$> received run ∧
  watchEvents (run_metrics run) = Z.of_nat (length (received run)) ∧
  (∀ r, Forall valid_affiliate_id (Pb.watch_Affiliates r) →
     parse_payload (ev_Data (response_event r)) = Some (Pb.watch_Affiliates r, Pb.Deleted r)) ∧
  0 ≤ watchStreamErrors (run_metrics run) ≤ watchReconnects (run_metrics run) ∧
  (∀ a d, pc = Backoff a d → 500 * Millisecond ≤ d < 22500 * Millisecond).
Proof.
  intros Hr. destruct (run_inv_reachable _ Hr) as [Hb He Herr Ha]. simpl in *.
  split_and!; try done; try lia.
  - intros r Hids. unfold response_event, parse_payload. simpl.
    rewrite parse_marshal_envelope by done. cbn [mbind option_bind env_Affiliates envelope].
    by rewrite mapM_fmap_id by apply of_toAffiliateJSON.
  - intros a d ->. apply Ha.
Qed.

(** A goroutine whose context has ended opens no further stream, and is
    never stuck before it has exited; from a wait or from the top of its loop
    it exits within two steps. *)
Theorem watcher_stops pc run :
  (∀ a, pc ≠ Opening a) →
  (∀ pc' run', rtc (watcher_step true) (pc, run) (pc', run') →
     (∀ a, pc' ≠ Opening a) ∧ (pc' ≠ Exited → ∃ s, watcher_step true (pc', run') s)) ∧
  (∀ n s, (∀ a, pc ≠ Receiving a) → nsteps (watcher_step true) n (pc, run) s → (n ≤ 2)%nat).
Proof.
  intros Hpc. split.
  - intros pc' run' Hr. remember (pc, run) as s eqn:Es. remember (pc', run') as s' eqn:Es'.
    revert pc run Hpc Es. induction Hr as [s|s s1 s2 Hs _ IH]; intros pc run Hpc ->.
    + injection Es' as -> ->. split; [done|]. intros Hne. destruct pc' as [a|a|a|a d|]; [..|done].
      * eexists. by apply wd_stop.
      * by destruct (Hpc a).
      * destruct (nextBackoff_total 0 a) as (d & Hd & _). eexists. by eapply wd_eof.
      * destruct (waitWithContext true true d) eqn:E; eexists;
          [by eapply (wd_waited _ _ _ _ true) | by eapply (wd_cancelled _ _ _ _ true)].
    + destruct s1 as [pc1 run1]. apply (IH Es' pc1 run1); [|done].
      inversion Hs; subst; intros b; try done; by destruct (Hpc a0).
  - intros n s Hnr Hn. inversion Hn as [|n1 ? s1 ? Hs1 Hn1]; subst; [lia|].
    inversion Hs1; subst; try done; try (by destruct (Hpc a)); try (by destruct (Hnr a)).
    + inversion Hn1 as [|n2 ? s2 ? Hs2 Hn2]; subst; [lia|]. inversion Hs2.
    + inversion Hn1 as [|n2 ? s2 ? Hs2 Hn2]; subst; [lia|]. inversion Hs2; subst; [|done].
      inversion Hn2 as [|n3 ? s3 ? Hs3 Hn3]; subst; [lia|]. inversion Hs3.
    + inversion Hn1 as [|n2 ? s2 ? Hs2 Hn2]; subst; [lia|]. inversion Hs2.
Qed.

(** C40: a browser keeps affiliates that were deleted while the stream was down.
    When the goroutine reconnects, it broadcasts the new stream's snapshot as
    an ordinary update and no deletion: an affiliate the browser had, and that
    the cluster no longer has, stays in the browser's table. *)
Theorem reconnect_keeps_deleted ρ c a r rs b x :
  wf_affiliates (affiliates c) → affiliates c !! b = None →
  broadcasts r = response_event <$> rs → client_view rs !! b = Some x →
  ∃ r', rtc (watcher_step false) (Receiving a, r) (Receiving 0, r') ∧
    broadcasts r' = response_event <$> rs ++ first_responses ρ c ∧
    client_view (rs ++ first_responses ρ c) !! b = Some x ∧
    client_view (first_responses ρ c) = toProtoAffiliate <$> cluster_view c.
Proof.
  intros Hwf Hb Hbr Hv.
  destruct (nextBackoff_total 0 a) as (d & Hd & Hd1).
  set (r1 := bump (add_reconnects 1) r).
  destruct (receive_all 0 r1 (first_responses ρ c)) as (r' & Hrecv & Hbr').
  exists r'. split; [|split; [|split]].
  - eapply rtc_l; [by eapply wd_eof|].
    eapply rtc_l; [eapply (wd_waited _ _ _ _ false); [done|]|].
    { unfold waitWithContext. destruct (d <=? 0) eqn:E; [|done]. done. }
    eapply rtc_l; [by apply wd_go|]. eapply rtc_l; [apply wd_opened | exact Hrecv].
  - by rewrite Hbr', fmap_app, <- Hbr.
  - rewrite client_view_app. rewrite apply_responses_other; [done|]. by apply first_responses_mention.
  - by apply client_view_snapshot.
Qed.

(** A browser that joins a watched cluster is not shown what is there.
    When another handler is already subscribed, [Subscribe] starts no stream:
    its channel is empty, and the affiliates sent to the first subscriber as
    the stream's snapshot are not sent to it. *)
Theorem late_subscriber_gets_no_snapshot m c ch0 :
  rtc mgr_step NewDiscoveryWatchManager m → subscribed_to m c ch0 →
  ∃ m' ch, Subscribe c m = Ok (m', ch) ∧ watchers m' = watchers m ∧ subscribed_to m' c ch ∧
    chans (store m') !! ch = Some (make_chan subscriberChannelSize).
Proof.
  intros Hr (e & h & He & _). pose proof (mgr_inv_reachable m Hr) as Hi.
  destruct (Subscribe_ok m c Hi) as (m' & e' & h' & E & _ & Ec & He' & Hh' & Hx).
  exists m', (length (chans (store m))). split; [done|]. split; [|split].
  - unfold Subscribe, ensure_entry in E. rewrite He in E.
    destruct (Hub_Subscribe _ _) as [[st ch]|]; [|done]. simpl in E. by injection E as <-.
  - by exists e', h'.
  - rewrite Ec, lookup_app_r, Nat.sub_diag by lia. done.
Qed.

(** ** Witnesses *)

Definition wp_response : Pb.WatchResponse := Pb.mkWatchResponse [Pb.mkAffiliate "n1" (bs "d") []] false.

Lemma wp_any b s s' : watcher_step b s s' → any_step s s'.
Proof. by exists b. Defined.

(** A stream that delivers one response and breaks. *)
Lemma watcher_forwards_witness :
  parse_payload (ev_Data (response_event wp_response)) = Some (Pb.watch_Affiliates wp_response, false).
Proof.
  destruct (nextBackoff_total 7 0) as (d & Hd & _).
  destruct (watcher_forwards (Backoff 0 d)
    (bump (add_reconnects 1) (bump (add_stream_errors 1)
       (gave (response_event wp_response) (bump (add_events 1) (took wp_response run_start))))))
    as (_ & _ & E & _).
  - eapply rtc_l; [by apply (wp_any false), wd_go|].
    eapply rtc_l; [by apply (wp_any false), wd_opened|].
    eapply rtc_l; [by apply (wp_any false), (wd_received _ _ _ wp_response)|].
    apply rtc_once, (wp_any false). by eapply wd_recv_failed.
  - apply E. repeat constructor.
Defined.

Lemma watcher_stops_witness : ¬ (∃ s, nsteps (watcher_step true) 3 (AtTop 3, run_start) s).
Proof.
  intros [s Hs].
  assert (3 ≤ 2)%nat as H3; [|lia].
  refine (proj2 (watcher_stops (AtTop 3) run_start _) 3%nat s _ Hs); intros a [=].
Defined.

(** The browser had "n1"; the cluster is now empty. *)
Lemma reconnect_keeps_deleted_witness :
  let c := NewCluster (mkTime 0 None) "c1" in
  let rs := [wp_response] in
  is_Some (client_view (rs ++ first_responses (order_fwd string) c) !! "n1") ∧ affiliates c = ∅.
Proof.
  intros c rs. split; [|reflexivity].
  destruct (reconnect_keeps_deleted (order_fwd string) c 0
    (mkRun [wp_response] [response_event wp_response] newWatchManagerMetrics) rs "n1"
    (Pb.mkAffiliate "n1" (bs "d") [])) as (r' & _ & _ & E & _).
  - apply (wf_cl_affiliates c (wf_new_cluster _ _)).
  - reflexivity.
  - reflexivity.
  - by vm_compute.
  - rewrite E. eexists. reflexivity.
Defined.

Lemma late_subscriber_gets_no_snapshot_witness :
  ∃ m' ch, Subscribe "c1" wm_sample = Ok (m', ch) ∧ watchers m' = watchers wm_sample.
Proof.
  destruct (late_subscriber_gets_no_snapshot wm_sample "c1" 1%nat wm_reachable) as (m' & ch & E & Ew & _).
  - exists (mkEntry 0 0 1), (mkHub {[1%nat := ()]}). split_and!; [by vm_compute..|]. by vm_compute; eexists.
  - exists m', ch. split; [exact E | exact Ew].
Defined.
