(* ===== verification/Endpoints.v ===== *)
(** * The web interface's HTTP handlers ([internal/web/discovery_endpoints.go])

    The list handler, from the gRPC client's answer to the HTTP response; the
    table from gRPC codes to HTTP statuses; and the event stream handler as
    steps on the watch manager.  Routing, and the encoding of server-sent
    events, belong to gin. *)

From S2P Require Import Prelude GoTime GoChan Limits Affiliate Cluster ClusterSubs.
From S2P Require Import ClusterFacts Replication.
From S2P Require Import XMap State StateFacts GoStrings Grpc Protobuf Messages NetIP.
From S2P Require Import Validation.
From S2P Require Import Server ServerFacts ServerProps.
From S2P Require Import Base64 Json Payload Hub WatchManager WatchManagerProps.
From Stdlib Require Import Strings.Byte.

(** [net/http] *)
Definition StatusOK : Z := 200.
Definition StatusBadRequest : Z := 400.
Definition StatusUnauthorized : Z := 401.
Definition StatusForbidden : Z := 403.
Definition StatusNotFound : Z := 404.
Definition StatusConflict : Z := 409.
Definition StatusTooManyRequests : Z := 429.
Definition StatusInternalServerError : Z := 500.
Definition StatusNotImplemented : Z := 501.
Definition StatusServiceUnavailable : Z := 503.
Definition StatusGatewayTimeout : Z := 504.

Definition grpcErrorToHTTPStatus `{StatusPkg} (err : GoError) : Z :=
  match status_Code (Some err) with
  | InvalidArgument | FailedPrecondition | OutOfRange => StatusBadRequest
  | Unauthenticated => StatusUnauthorized
  | PermissionDenied => StatusForbidden
  | NotFound => StatusNotFound
  | AlreadyExists | Aborted => StatusConflict
  | ResourceExhausted => StatusTooManyRequests
  | Canceled | DeadlineExceeded => StatusGatewayTimeout
  | Unimplemented => StatusNotImplemented
  | Unavailable => StatusServiceUnavailable
  | _ => StatusInternalServerError
  end.

(** [c.JSON(status, body)] *)
Record Response : Type := mkResponse { resp_status : Z; resp_body : bytes }.

(** The loop body of [listAffiliatesHandler]. *)
Definition list_affiliate (a : Pb.Affiliate) : affiliateJSON :=
  mkAffiliateJSON (Pb.Id a) (encode_b64 (Pb.Data a)) (encode_b64 <$> Pb.Endpoints a).

(** [gin.H{"error": err.Error()}] and [gin.H{"affiliates": out}] *)
Definition error_body `{StatusPkg} (err : GoError) : bytes :=
  x7b :: json_key "error" ++ json_string (string_bytes (GoError_Error err)) ++ [x7d].
Definition list_body (out : list affiliateJSON) : bytes :=
  x7b :: json_key "affiliates" ++ json_array (marshal_affiliate <$> out) ++ [x7d].

(** [List] is [client.client.List] under a timeout of five seconds. *)
Definition listAffiliatesHandler `{StatusPkg} (List : Pb.ListRequest → result GoError Pb.ListResponse)
    (clusterID : string) : Response :=
  match List (Pb.mkListRequest clusterID) with
  | Err err => mkResponse (grpcErrorToHTTPStatus err) (error_body err)
  | Ok resp => mkResponse StatusOK (list_body (list_affiliate <$> Pb.list_Affiliates resp))
  end.

(** ** The event stream *)

Inductive HandlerPC : Type :=
| HStart
| HStreaming (ch : ChanPtr)
| HDone.

(** [watchAffiliatesHandler]: [sent] is what it has written, each event with
    its name. *)
Inductive handler_step (clusterID : string) :
    DiscoveryWatchManager * HandlerPC * list (string * bytes) →
    DiscoveryWatchManager * HandlerPC * list (string * bytes) → Prop :=
| hs_subscribe m m' ch sent :
    Subscribe clusterID m = Ok (m', ch) →
    handler_step clusterID (m, HStart, sent) (m', HStreaming ch, sent)
| hs_event m ch c ev rest sent :
    chans (store m) !! ch = Some c → recv c = Got ev rest →
    handler_step clusterID (m, HStreaming ch, sent)
      (set_store (set_chans (<[ch := rest]> (chans (store m))) (store m)) m, HStreaming ch,
       sent ++ [("update", ev_Data ev)])
| hs_ping m ch sent :
    handler_step clusterID (m, HStreaming ch, sent) (m, HStreaming ch, sent ++ [("ping", [])])
| hs_gone m m' ch sent :
    Unsubscribe clusterID ch m = Ok m' →
    handler_step clusterID (m, HStreaming ch, sent) (m', HDone, sent).

(** ** Facts *)

Lemma grpcErrorToHTTPStatus_range `{StatusPkg} err :
  400 ≤ grpcErrorToHTTPStatus err < 600.
Proof. unfold grpcErrorToHTTPStatus. by destruct (status_Code _). Qed.

Lemma list_affiliate_eq a : list_affiliate a = toAffiliateJSON a.
Proof. by rewrite toAffiliateJSON_eq. Qed.

Definition parse_list (s : bytes) : option (list Pb.Affiliate) :=
  s ← lit (x7b :: json_key "affiliates") s;
  affs ← parse_array parse_affiliate s;
  s ← lit [x7d] affs.2;
  if bool_decide (s = []) then mapM of_affiliateJSON affs.1 else None.

Lemma parse_list_body affs :
  Forall valid_affiliate_id affs → parse_list (list_body (list_affiliate <$> affs)) = Some affs.
Proof.
  intros Hids. unfold parse_list, list_body.
  change (x7b :: json_key "affiliates" ++ ?t) with ((x7b :: json_key "affiliates") ++ t).
  rewrite lit_app. cbn [mbind option_bind]. rewrite <- list_fmap_compose.
  rewrite (list_fmap_ext _ (marshal_affiliate ∘ toAffiliateJSON) affs).
  2: { intros i a _. unfold compose. by rewrite list_affiliate_eq. }
  rewrite (parse_array_print parse_affiliate (marshal_affiliate ∘ toAffiliateJSON) toAffiliateJSON).
  - cbn [mbind option_bind fst snd]. assert (lit [x7d] [x7d] = Some []) as -> by apply (lit_app [x7d] []).
    cbn [mbind option_bind]. rewrite bool_decide_true by done. apply mapM_fmap_id, of_toAffiliateJSON.
  - intros a s Ha. rewrite Forall_forall in Hids. by apply parse_marshal_affiliate, Hids.
  - intros a. eexists _, _. by split.
Qed.

(** A handler of the event stream only does what [mgr_step] allows, while it
    holds its channel. *)
Lemma handler_step_mgr id m pc sent m' pc' sent' :
  handler_step id (m, pc, sent) (m', pc', sent') →
  (∀ ch, pc = HStreaming ch → subscribed_to m id ch) → m' = m ∨ mgr_step m m'.
Proof.
  intros Hs Hsub. inversion Hs; subst.
  - right. by eapply ms_subscribe.
  - right. by eapply ms_read.
  - by left.
  - right. eapply ms_unsubscribe; [by apply Hsub | done].
Qed.

(** ** Property *)

Section list.
Context {M : Type → Type} `{XMapLaws M} `{DurationPb} `{StatusPkgLaws}.
Implicit Types s : clusterServer M.

(** The client's answer when the call reaches the server in time; the recovery
    interceptor makes an error of a panic. *)
Definition client_List (ρ : MapOrder string) s (req : Pb.ListRequest) : result GoError Pb.ListResponse :=
  match List ρ req s with
  | Ok answer => answer
  | Err _ => Err (StatusError Internal "")
  end.

(** C28: the browser's list is the cluster's table.  For a valid cluster id the
    response is 200 and its JSON, parsed and with its base64 decoded, shows
    every affiliate of the table, once, with its exact id, data and endpoints,
    and nothing else; an id the server rejects gives 400; whatever error the
    client reports, the status is never a success and the body names it. *)
Theorem list_page ρ s id :
  wf_state (srv_state s) →
  (∀ k i, table s id !! k = Some i → valid_utf8 (string_bytes k) = true) →
  let response := listAffiliatesHandler (client_List ρ s) id in
  (valid_id ClusterIDMax id →
     resp_status response = StatusOK ∧
     ∃ affs, parse_list (resp_body response) = Some affs ∧ shows affs (table s id)) ∧
  (¬ valid_id ClusterIDMax id → resp_status response = StatusBadRequest) ∧
  (∀ call err, call (Pb.mkListRequest id) = Err err →
     400 ≤ resp_status (listAffiliatesHandler call id) < 600 ∧
     resp_body (listAffiliatesHandler call id) = error_body err).
Proof.
  intros Hwf Hutf response. split; [|split].
  - intros Hv. destruct (List_shows ρ id s Hwf Hv) as (l & El & Hsh).
    subst response. unfold listAffiliatesHandler, client_List. rewrite El. split; [done|].
    exists l. split; [|done]. apply parse_list_body, Forall_forall. intros a Ha.
    destruct Hsh as [Hnd Hsh]. apply Hsh in Ha as Ht. destruct Ht as (i & Hi & ->).
    unfold valid_affiliate_id. simpl. eapply Hutf. rewrite (table_id s id _ i Hwf Hi). exact Hi.
  - intros Hv. subst response. unfold listAffiliatesHandler, client_List, List. simpl.
    destruct (validateClusterID id) as [[]|e] eqn:Ev; [by apply validateClusterID_ok in Ev|].
    destruct (validateID_rejection id e (or_introl Ev)) as (msg & [-> | ->]); simpl;
      unfold grpcErrorToHTTPStatus; by rewrite status_Code_status.
  - intros call err E. unfold listAffiliatesHandler. rewrite E. simpl. split; [|done].
    apply grpcErrorToHTTPStatus_range.
Qed.
End list.

(** ** Witness *)

Lemma list_page_witness :
  let response := listAffiliatesHandler (client_List (order_bwd string) sp_one) "c1" in
  resp_status response = 200 ∧ ∃ affs, parse_list (resp_body response) = Some affs ∧ shows affs (table sp_one "c1").
Proof.
  destruct (list_page (order_bwd string) sp_one "c1") as [H _].
  - apply sp_one_wf.
  - intros k i Hk.
    assert (map_Forall (λ k _, valid_utf8 (string_bytes k) = true) (table sp_one "c1")) as Hall
      by (apply (bool_decide_unpack _); by vm_compute).
    exact (Hall k i Hk).
  - apply H. apply sp_valid_id.
Defined.
