(* ===== verification/Sessions.v ===== *)
(** * Many browsers at once

    Any number of event stream handlers ([watchAffiliatesHandler]) on one watch
    manager, with the broadcasts of its watcher goroutines between their steps,
    one send at a time: the manager's book-keeping is about the handlers that
    stream, and nothing panics. *)

From S2P Require Import Prelude GoTime GoChan Affiliate Cluster ClusterSubs ClusterFacts.
From S2P Require Import Replication Protobuf Messages Grpc Server Watch WatchProps Json.
From S2P Require Import Payload Hub.
From S2P Require Import WatchManager WatchManagerProps Endpoints.

(** One request for the events of a cluster. *)
Record Session : Type := mkSession {
  s_cluster : string;
  s_pc : HandlerPC;
  s_sent : list (string * bytes);
}.

(** A broadcast that a watcher goroutine is in: its event and the channels it has
    still to send it to. *)
Abbreviation Cast := (Event * list ChanPtr)%type.

(** The manager, the handlers, and the broadcasts, by goroutine. *)
Abbreviation WebState := (DiscoveryWatchManager * list Session * gmap nat Cast)%type.

(** One step, or a panic.  [Subscribe] and [Unsubscribe] hold [m.mu] throughout;
    [Broadcast] holds [h.mu] while it copies the clients, and none while it
    sends.  A goroutine may still broadcast after it was cancelled. *)
Inductive web_step : WebState → result Panic WebState → Prop :=
| we_request m hs cs id :
    web_step (m, hs, cs) (Ok (m, hs ++ [mkSession id HStart []], cs))
| we_handler m hs cs i s m' pc sent :
    hs !! i = Some s → handler_step (s_cluster s) (m, s_pc s, s_sent s) (m', pc, sent) →
    web_step (m, hs, cs) (Ok (m', <[i := mkSession (s_cluster s) pc sent]> hs, cs))
| we_subscribe_panics m hs cs i s p :
    hs !! i = Some s → s_pc s = HStart → Subscribe (s_cluster s) m = Err p →
    web_step (m, hs, cs) (Err p)
| we_unsubscribe_panics m hs cs i s ch p :
    hs !! i = Some s → s_pc s = HStreaming ch → Unsubscribe (s_cluster s) ch m = Err p →
    web_step (m, hs, cs) (Err p)
| we_clients m hs cs ρ i w e :
    watchers m !! i = Some w → cs !! i = None →
    web_step (m, hs, cs)
      (subs <-? broadcast_clients ρ (w_hub w) (store m) ;; Ok (m, hs, <[i := (e, subs)]> cs))
| we_send m hs cs i e ch rest :
    cs !! i = Some (e, ch :: rest) →
    web_step (m, hs, cs)
      (st <-? broadcast_one e (store m) ch ;; Ok (set_store st m, hs, <[i := (e, rest)]> cs))
| we_sent m hs cs i e :
    cs !! i = Some (e, []) → web_step (m, hs, cs) (Ok (m, hs, delete i cs)).

Definition web_start : WebState := (NewDiscoveryWatchManager, [], ∅).
Definition web_reachable : WebState → Prop := rtc (λ w w', web_step w (Ok w')) web_start.

Definition streaming (s : Session) : Prop :=
  match s_pc s with HStreaming _ => True | _ => False end.
#[export] Instance streaming_dec s : Decision (streaming s).
Proof. unfold streaming. destruct (s_pc s); apply _. Defined.

(** ** Who is subscribed, after each operation *)

Section subscribed.
Implicit Types m : DiscoveryWatchManager.

(** A channel has one subscriber's cluster. *)
Lemma subscribed_unique m c c' ch :
  mgr_inv m → subscribed_to m c ch → subscribed_to m c' ch → c = c'.
Proof.
  intros [[Hst Ht _] _] (e & h & He & Hh & Hs) (e' & h' & He' & Hh' & Hs').
  apply (entry_hub_inj m c c' e e' Ht He He'). by eapply (so_disjoint _ Hst _ _ h h' ch).
Qed.

(** The hub of one entry changes, and nothing else that counts. *)
Lemma subscribed_update m m' c e e' h h' :
  topology m → entries m !! c = Some e → hubs (store m) !! hub e = Some h → hub e' = hub e →
  entries m' = <[c := e']> (entries m) → hubs (store m') = <[hub e := h']> (hubs (store m)) →
  ∀ c' x, subscribed_to m' c' x ↔ (c' = c ∧ is_Some (clients h' !! x)) ∨ (c' ≠ c ∧ subscribed_to m c' x).
Proof.
  intros Ht He Hh Ehub Een Ehs c' x. unfold subscribed_to. rewrite Een, Ehs.
  assert (hub e < length (hubs (store m)))%nat as Hlt by (by eapply lookup_lt_Some).
  destruct (decide (c' = c)) as [->|Hne].
  - rewrite lookup_insert_eq. split.
    + intros (e1 & h1 & [= <-] & Hh1 & Hs). rewrite Ehub, list_lookup_insert_eq in Hh1 by done.
      injection Hh1 as <-. by left.
    + intros [[_ Hs]|[? _]]; [|done]. exists e', h'. by rewrite Ehub, list_lookup_insert_eq.
  - rewrite lookup_insert_ne by done. split.
    + intros (e1 & h1 & He1 & Hh1 & Hs). right. split; [done|]. exists e1, h1.
      rewrite list_lookup_insert_ne in Hh1; [by split_and!|].
      intros E. by apply Hne, eq_sym, (entry_hub_inj m c c' e e1).
    + intros [[? _]|[_ (e1 & h1 & He1 & Hh1 & Hs)]]; [done|]. exists e1, h1.
      rewrite list_lookup_insert_ne; [by split_and!|].
      intros E. by apply Hne, eq_sym, (entry_hub_inj m c c' e e1).
Qed.

Lemma subscribed_entry m c e h x :
  entries m !! c = Some e → hubs (store m) !! hub e = Some h →
  subscribed_to m c x ↔ is_Some (clients h !! x).
Proof.
  intros He Hh. split; [intros (e1 & h1 & He1 & Hh1 & Hs); by simplify_eq | intros Hs; by exists e, h].
Qed.

Lemma ensure_subscribed m c c' x :
  mgr_inv m → subscribed_to (ensure_entry c m).1 c' x ↔ subscribed_to m c' x.
Proof.
  intros [[_ _ Hct] _]. unfold ensure_entry. destruct (entries m !! c) as [e|] eqn:Ec; [done|]. simpl.
  unfold subscribed_to. simpl. split.
  - intros (e & h & He & Hh & Hs). apply lookup_insert_Some in He as [[<- <-]|[Hne He]].
    + simpl in Hh. rewrite list_lookup_middle in Hh by done. injection Hh as <-.
      simpl in Hs. rewrite lookup_empty in Hs. by destruct Hs.
    + destruct (ct_refs m Hct c' e He) as (h0 & Hh0 & _). exists e, h. split; [done|].
      rewrite lookup_app_l in Hh by (by eapply lookup_lt_Some). done.
  - intros (e & h & He & Hh & Hs). exists e, h. split_and!; [|by apply lookup_app_l_Some|done].
    rewrite lookup_insert_ne; [done|]. intros ->. congruence.
Qed.

Definition subscribers (m : DiscoveryWatchManager) : Z := activeSubscribers (metrics (store m)).

Lemma Subscribe_subscribed m c m' ch :
  mgr_inv m → Subscribe c m = Ok (m', ch) →
  mgr_inv m' ∧ (∀ c', ¬ subscribed_to m c' ch) ∧ subscribers m' = subscribers m + 1 ∧
  ∀ c' x, subscribed_to m' c' x ↔ subscribed_to m c' x ∨ (c' = c ∧ x = ch).
Proof.
  intros Hi E. destruct (Subscribe_ok m c Hi) as (m1 & _ & _ & E1 & Hi1 & _). rewrite E1 in E.
  injection E as <- <-. split; [done|]. pose proof Hi as [Hm _].
  assert (∀ c', ¬ subscribed_to m c' (length (chans (store m)))) as Hfresh.
  { intros c' (e & h & _ & Hh & Hs).
    rewrite (fresh_chan _ _ _ (so_wf _ (mc_store m Hm)) Hh) in Hs. by destruct Hs. }
  split; [done|]. pose proof (λ c' x, ensure_subscribed m c c' x Hi) as Hens.
  assert (subscribers (ensure_entry c m).1 = subscribers m) as Esub.
  { unfold ensure_entry. by destruct (entries m !! c). }
  assert (chans (store (ensure_entry c m).1) = chans (store m)) as Ech.
  { unfold ensure_entry. by destruct (entries m !! c). }
  pose proof (ensure_entry_core m c Hm) as He. unfold Subscribe in E1.
  destruct (ensure_entry c m) as [m2 e]. destruct He as ([Hst Ht Hct] & He & _). simpl in *.
  destruct (ct_refs m2 Hct c e He) as (h & Hh & _).
  destruct (Hub_Subscribe_ok (map_metrics (add_subscribers 1) (store m2)) (hub e) h)
    as (st' & E & _ & _ & Em & Eh); [by apply store_ok_metrics | done |].
  rewrite E in E1. cbn [rbind fst snd] in E1. injection E1 as E1. simpl in Em, Eh. subst m1. split.
  { unfold subscribers in *. simpl. rewrite Em. simpl. lia. }
  intros c' x. rewrite Ech in Eh.
  lazymatch goal with
  | |- subscribed_to ?m3 _ _ ↔ _ =>
      rewrite (subscribed_update m2 m3 c e (mkEntry (hub e) (cancel e) (refs e + 1)) h _ Ht He Hh eq_refl eq_refl Eh c' x)
  end. rewrite <- (Hens c' x). simpl. destruct (decide (c' = c)) as [->|Hne]; [|naive_solver].
  rewrite (subscribed_entry m2 c e h x He Hh), lookup_insert_is_Some'. naive_solver.
Qed.

Lemma Unsubscribe_subscribed m c ch m' :
  mgr_inv m → subscribed_to m c ch → Unsubscribe c ch m = Ok m' →
  mgr_inv m' ∧ subscribers m' = subscribers m - 1 ∧
  ∀ c' x, subscribed_to m' c' x ↔ subscribed_to m c' x ∧ x ≠ ch.
Proof.
  intros Hi Hs E. destruct (Unsubscribe_ok m c ch Hi Hs) as (m1 & E1 & Hi1 & _). rewrite E1 in E.
  injection E as <-. split; [done|]. pose proof Hi as [[Hst Ht Hct] Hu].
  destruct (Hs) as (e & h & He & Hh & Hch). unfold Unsubscribe in E1. rewrite He in E1.
  destruct (Hub_Unsubscribe_ok (store m) (hub e) h ch Hst Hh) as (st' & E & _ & _ & Em & Eh).
  rewrite E in E1. cbn [rbind refs hub cancel] in E1. injection E1 as E1.
  assert (∀ c' x, (c' = c ∧ is_Some (clients (mkHub (delete ch (clients h))) !! x)) ∨ (c' ≠ c ∧ subscribed_to m c' x) ↔
    subscribed_to m c' x ∧ x ≠ ch) as Hspec.
  { intros c' x. simpl. rewrite lookup_delete_is_Some. destruct (decide (c' = c)) as [->|Hne].
    - rewrite (subscribed_entry m c e h x He Hh). naive_solver.
    - split; [|naive_solver]. intros [[? _]|[_ Hx]]; [done|]. split; [done|]. intros ->.
      by apply Hne, (subscribed_unique m c' c ch Hi). }
  pose (m2 := mkManager (<[c := mkEntry (hub e) (cancel e) (refs e - 1)]> (entries m)) (watchers m)
    (map_metrics (add_subscribers (-1)) st')).
  pose proof (subscribed_update m m2 c e (mkEntry (hub e) (cancel e) (refs e - 1)) h _ Ht He Hh eq_refl eq_refl Eh) as H2.
  destruct (refs e - 1 <=? 0) eqn:Er; subst m1; (split; [unfold subscribers; simpl; rewrite Em; simpl; lia|]);
    intros c' x; rewrite <- (Hspec c' x), <- H2; [|done].
  (* the entry is dropped, with a hub that has no channel left *)
  apply Z.leb_le in Er. destruct (ct_refs m Hct c e He) as (h1 & Hh1 & Eref). simplify_eq.
  assert (delete ch (clients h) = ∅) as Hempty.
  { apply map_size_empty_iff. rewrite map_size_delete_Some by done. lia. }
  split.
  - intros (e1 & h1 & He1 & Hh1' & Hx). simpl in He1. apply lookup_delete_Some in He1 as [Hne He1].
    exists e1, h1. split_and!; [by apply lookup_insert_Some; right | done..].
  - intros (e1 & h1 & He1 & Hh1' & Hx). simpl in He1, Hh1'. rewrite Eh in Hh1'.
    apply lookup_insert_Some in He1 as [[<- <-]|[Hne He1]].
    + simpl in Hh1'. rewrite list_lookup_insert_eq in Hh1' by (by eapply lookup_lt_Some).
      injection Hh1' as <-. simpl in Hx. rewrite Hempty, lookup_empty in Hx. by destruct Hx.
    + exists e1, h1. split_and!; [by apply lookup_delete_Some | by simpl; rewrite Eh | done].
Qed.
End subscribed.

(** ** The invariant *)

Lemma subscribed_same m m' c ch :
  entries m' = entries m → hubs (store m') = hubs (store m) → subscribed_to m' c ch ↔ subscribed_to m c ch.
Proof. intros E1 E2. unfold subscribed_to. by rewrite E1, E2. Qed.

Definition count_streaming (hs : list Session) : Z := Z.of_nat (length (filter streaming hs)).
Definition streams (s : Session) : Z := if decide (streaming s) then 1 else 0.

Lemma streams_pc s : streams s = match s_pc s with HStreaming _ => 1 | _ => 0 end.
Proof. unfold streams, streaming, streaming_dec. by destruct (s_pc s). Qed.

Lemma count_insert hs i s s' :
  hs !! i = Some s → count_streaming (<[i := s']> hs) = count_streaming hs - streams s + streams s'.
Proof.
  unfold count_streaming, streams. revert i. induction hs as [|x hs IH]; intros [|i] Hi; simplify_eq/=.
  - rewrite !filter_cons. repeat case_decide; simpl; lia.
  - rewrite !filter_cons. specialize (IH i Hi). repeat case_decide; simpl in *; lia.
Qed.

Lemma count_app hs s : count_streaming (hs ++ [s]) = count_streaming hs + streams s.
Proof.
  unfold count_streaming, streams. rewrite filter_app, length_app, filter_cons, filter_nil. case_decide; simpl; lia.
Qed.

Record web_inv (w : DiscoveryWatchManager * list Session) : Prop := {
  wi_mgr : mgr_inv w.1;
  wi_held i s ch : w.2 !! i = Some s → s_pc s = HStreaming ch → subscribed_to w.1 (s_cluster s) ch;
  wi_owner c ch : subscribed_to w.1 c ch →
    ∃ i s, w.2 !! i = Some s ∧ s_cluster s = c ∧ s_pc s = HStreaming ch;
  wi_distinct i j s t ch : w.2 !! i = Some s → w.2 !! j = Some t →
    s_pc s = HStreaming ch → s_pc t = HStreaming ch → i = j;
  wi_count : subscribers w.1 = count_streaming w.2;
}.

Lemma web_inv_new : web_inv (NewDiscoveryWatchManager, []).
Proof.
  split; simpl; [apply mgr_inv_new|done..| |done|done].
  intros c ch (e & h & He & _). simpl in He. by rewrite lookup_empty in He.
Qed.

(** A step that leaves the sessions' program points and the subscriptions. *)
Lemma web_inv_same m hs m' hs' :
  web_inv (m, hs) → mgr_inv m' → entries m' = entries m → hubs (store m') = hubs (store m) →
  subscribers m' = subscribers m →
  (∀ i, (λ s, (s_cluster s, s_pc s)) <$> hs' !! i = (λ s, (s_cluster s, s_pc s)) <$> hs !! i) →
  count_streaming hs' = count_streaming hs → web_inv (m', hs').
Proof.
  intros [_ Hh Ho Hd Hc] Hi Ee Eh Es Epc Ec. simpl in *.
  assert (∀ i s, hs' !! i = Some s → ∃ t, hs !! i = Some t ∧ s_cluster t = s_cluster s ∧ s_pc t = s_pc s) as Hback.
  { intros i s Hs. specialize (Epc i). rewrite Hs in Epc. destruct (hs !! i) as [t|]; [|done].
    exists t. by simplify_eq/=. }
  split; simpl; [done|..].
  - intros i s ch Hs Hp. destruct (Hback i s Hs) as (t & Ht & <- & Ep).
    rewrite (subscribed_same m m') by done. eapply Hh; [done | congruence].
  - intros c ch Hs. rewrite (subscribed_same m m') in Hs by done.
    destruct (Ho c ch Hs) as (i & s & Hi' & <- & Hp). specialize (Epc i). rewrite Hi' in Epc.
    destruct (hs' !! i) as [t|] eqn:Et; [|done]. simplify_eq/=. exists i, t. split_and!; congruence.
  - intros i j s t ch Hs Ht Hps Hpt. destruct (Hback i s Hs) as (s' & Hs' & _ & E1).
    destruct (Hback j t Ht) as (t' & Ht' & _ & E2). apply (Hd i j s' t' ch); [done | done | congruence..].
  - congruence.
Qed.

Lemma web_inv_subscribe m hs i s m' ch sent :
  web_inv (m, hs) → hs !! i = Some s → s_pc s = HStart → Subscribe (s_cluster s) m = Ok (m', ch) →
  web_inv (m', <[i := mkSession (s_cluster s) (HStreaming ch) sent]> hs).
Proof.
  intros [Hi Hh Ho Hd Hc] Hs Hp E. simpl in *. pose proof (lookup_lt_Some _ _ _ Hs) as Hlt.
  destruct (Subscribe_subscribed m _ m' ch Hi E) as (Hi' & Hfresh & Es & Hsub). split; simpl; [done|..].
  - intros j t x Hj Hx. apply Hsub. apply list_lookup_insert_Some in Hj as [(<- & <- & _)|[Hne Hj]].
    + simpl in *. right. by simplify_eq.
    + left. by eapply Hh.
  - intros c x [Hx|[-> ->]]%Hsub.
    + destruct (Ho c x Hx) as (j & t & Hj & <- & Hpj). exists j, t. rewrite list_lookup_insert_ne; [done|].
      intros ->. simplify_eq. congruence.
    + eexists i, _. by rewrite list_lookup_insert_eq.
  - assert (∀ j t, hs !! j = Some t → s_pc t ≠ HStreaming ch) as Hn.
    { intros j t Hj Hpj. by eapply Hfresh, (Hh j t). }
    intros j k t u x Hj Hk Hpt Hpu. apply list_lookup_insert_Some in Hj as [(<- & <- & _)|[Hnj Hj]],
      Hk as [(<- & <- & _)|[Hnk Hk]]; simplify_eq/=; [done|by destruct (Hn k u)|by destruct (Hn j t)|by eapply Hd].
  - rewrite Es, Hc, (count_insert _ _ s) by done. rewrite !streams_pc, Hp. simpl. lia.
Qed.

Lemma web_inv_gone m hs i s m' ch sent :
  web_inv (m, hs) → hs !! i = Some s → s_pc s = HStreaming ch → Unsubscribe (s_cluster s) ch m = Ok m' →
  web_inv (m', <[i := mkSession (s_cluster s) HDone sent]> hs).
Proof.
  intros [Hi Hh Ho Hd Hc] Hs Hp E. simpl in *.
  destruct (Unsubscribe_subscribed m _ ch m' Hi (Hh i s ch Hs Hp) E) as (Hi' & Es & Hsub). split; simpl; [done|..].
  - intros j t x Hj Hx. apply list_lookup_insert_Some in Hj as [(<- & <- & _)|[Hne Hj]]; [done|].
    apply Hsub. split; [by eapply Hh|]. intros ->. by apply Hne, (Hd i j s t ch).
  - intros c x [Hx Hnx]%Hsub. destruct (Ho c x Hx) as (j & t & Hj & <- & Hpj). exists j, t.
    rewrite list_lookup_insert_ne; [done|]. intros ->. simplify_eq. congruence.
  - intros j k t u x Hj Hk Hpt Hpu. apply list_lookup_insert_Some in Hj as [(<- & <- & _)|[Hnj Hj]],
      Hk as [(<- & <- & _)|[Hnk Hk]]; simplify_eq/=. by eapply Hd.
  - rewrite Es, Hc, (count_insert _ _ s) by done. rewrite !streams_pc, Hp. simpl. lia.
Qed.

Lemma web_inv_request m hs id : web_inv (m, hs) → web_inv (m, hs ++ [mkSession id HStart []]).
Proof.
  intros [Hi Hh Ho Hd Hc]. simpl in *.
  assert (∀ j t ch, (hs ++ [mkSession id HStart []]) !! j = Some t → s_pc t = HStreaming ch → hs !! j = Some t) as Hb.
  { intros j t ch [Hj|[_ Hj]]%lookup_app_Some Hp; [done|]. by apply list_lookup_singleton_Some in Hj as [_ <-]. }
  split; simpl; [done|..].
  - intros j t ch Hj Hp. by eapply Hh; [eapply Hb|].
  - intros c ch Hx. destruct (Ho c ch Hx) as (j & t & Hj & ? & ?). exists j, t. by rewrite (lookup_app_l_Some _ _ _ _ Hj).
  - intros j k t u ch Hj Hk Hp Hq. eapply Hd; [by eapply Hb | by eapply Hb | done | done].
  - rewrite Hc, count_app, streams_pc. simpl. lia.
Qed.

(** A session that stays at its program point. *)
Lemma web_inv_stays m hs m' i s sent :
  web_inv (m, hs) → hs !! i = Some s → mgr_inv m' → entries m' = entries m →
  hubs (store m') = hubs (store m) → subscribers m' = subscribers m →
  web_inv (m', <[i := mkSession (s_cluster s) (s_pc s) sent]> hs).
Proof.
  intros Hw Hs Hm Ee Eh Es. apply (web_inv_same m hs); [done..| |].
  - intros j. destruct (decide (i = j)) as [<-|Hne]; [|by rewrite list_lookup_insert_ne].
    rewrite list_lookup_insert_eq by (by eapply lookup_lt_Some). by rewrite Hs.
  - rewrite (count_insert _ _ s) by done. rewrite !streams_pc. simpl. lia.
Qed.

Lemma web_inv_handler m hs i s m' pc sent :
  web_inv (m, hs) → hs !! i = Some s → handler_step (s_cluster s) (m, s_pc s, s_sent s) (m', pc, sent) →
  web_inv (m', <[i := mkSession (s_cluster s) pc sent]> hs) ∧
  (length (chans (store m)) ≤ length (chans (store m')))%nat.
Proof.
  intros Hw Hs Hst. pose proof (wi_mgr _ Hw) as Hm. simpl in Hm.
  inversion Hst as [? ? ch ? E|? ch c ev rest ? Hc E|? ch|? ? ch ? E]; subst.
  - split; [by apply (web_inv_subscribe m hs)|].
    destruct (Subscribe_ok m (s_cluster s) Hm) as (m1 & e & h & E1 & _ & Ec & _).
    rewrite E1 in E. injection E as <- _. rewrite Ec, length_app. lia.
  - replace (HStreaming ch) with (s_pc s). split; [|simpl; by rewrite length_insert].
    apply (web_inv_stays m hs); [done | done | by eapply mgr_inv_step, (ms_read ch c ev) | done..].
  - replace (HStreaming ch) with (s_pc s). split; [|done]. by apply (web_inv_stays m' hs).
  - split; [by eapply (web_inv_gone m hs i s)|].
    destruct (wi_held _ Hw i s ch Hs) as (en & h & He & Hh & _); [done|]. simpl in *.
    unfold Unsubscribe, Hub_Unsubscribe in E. rewrite He, Hh in E. simpl in E.
    by destruct (refs en - 1 <=? 0); injection E as <-.
Qed.

(** ** Broadcasts under way *)

(** The channels a broadcast has still to send to exist. *)
Definition casts_ok (m : DiscoveryWatchManager) (cs : gmap nat Cast) : Prop :=
  ∀ i e l, cs !! i = Some (e, l) → Forall (λ ch, ch < length (chans (store m)))%nat l.

Lemma casts_ok_mono m m' cs :
  (length (chans (store m)) ≤ length (chans (store m')))%nat → casts_ok m cs → casts_ok m' cs.
Proof. intros Hl Hc i e l Hi. eapply Forall_impl; [by eapply Hc|]. simpl. lia. Qed.

Lemma casts_ok_insert m cs i e l :
  casts_ok m cs → Forall (λ ch, ch < length (chans (store m)))%nat l → casts_ok m (<[i := (e, l)]> cs).
Proof. intros Hc Hl j f k [[_ [= _ <-]]|[_ Hj]]%lookup_insert_Some; [done | by eapply Hc]. Qed.

(** Copying the clients of a goroutine's hub. *)
Lemma clients_ok ρ m i w :
  mgr_inv m → watchers m !! i = Some w →
  ∃ subs, broadcast_clients ρ (w_hub w) (store m) = Ok subs ∧
    Forall (λ ch, ch < length (chans (store m)))%nat subs.
Proof.
  intros [[[Hwf _] Ht _] _] Hi. unfold broadcast_clients.
  assert (∃ h, hubs (store m) !! w_hub w = Some h) as [h Hh].
  { apply lookup_lt_is_Some. rewrite (tp_hub m Ht i w Hi), (tp_len m Ht). by eapply lookup_lt_Some. }
  rewrite Hh. eexists. split; [done|]. apply Forall_forall.
  intros ch ([ch' []] & -> & Hin%elem_of_range)%list_elem_of_fmap. simpl. eapply (ws_clients _ Hwf); eauto.
Qed.

(** One send: the channel is there and open, whoever has left meanwhile. *)
Lemma send_ok m hs e ch :
  web_inv (m, hs) → (ch < length (chans (store m)))%nat →
  ∃ st, broadcast_one e (store m) ch = Ok st ∧ web_inv (set_store st m, hs) ∧
    length (chans st) = length (chans (store m)).
Proof.
  intros Hw [c Hc]%lookup_lt_is_Some. pose proof (wi_mgr _ Hw) as Hm. simpl in Hm.
  pose proof (ws_open _ (so_wf _ (mc_store m (mi_core m Hm)))) as Ho.
  rewrite (broadcast_one_eq e (store m) ch c Hc (Ho ch c Hc)). eexists. split; [done|].
  split; [|simpl; by rewrite length_insert]. apply (web_inv_same m hs); [done| |done..].
  apply mgr_inv_chans; [done | by rewrite length_insert|].
  intros j d [(_ & <- & _)|[_ Hj]]%list_lookup_insert_Some; [rewrite offer_closed; by eapply Ho | by eapply Ho].
Qed.

Definition web_ok (w : WebState) : Prop := web_inv w.1 ∧ casts_ok w.1.1 w.2.

(** No step panics, and every step keeps the invariant. *)
Lemma web_ok_step w r : web_ok w → web_step w r → ∃ w', r = Ok w' ∧ web_ok w'.
Proof.
  intros [Hw Hc] Hs. destruct Hs as [m hs cs id|m hs cs i s m' pc sent Hi Hst|m hs cs i s p Hi Hp E
    |m hs cs i s ch p Hi Hp E|m hs cs ρ i w e Hi Hn|m hs cs i e ch rest Hi|m hs cs i e Hi]; simpl in *.
  - eexists. split; [done|]. split; [by apply web_inv_request | done].
  - destruct (web_inv_handler m hs i s m' pc sent Hw Hi Hst) as [Hw' Hl].
    eexists. split; [done|]. split; [done | by apply (casts_ok_mono m)].
  - destruct (Subscribe_ok m (s_cluster s) (wi_mgr _ Hw)) as (m' & ? & ? & E' & _). congruence.
  - destruct (Unsubscribe_ok m (s_cluster s) ch (wi_mgr _ Hw) (wi_held _ Hw i s ch Hi Hp)) as (m' & E' & _).
    simpl in *. congruence.
  - destruct (clients_ok ρ m i w (wi_mgr _ Hw) Hi) as (subs & -> & Hsubs). simpl.
    eexists. split; [done|]. split; [done | by apply casts_ok_insert].
  - pose proof (Hc i e _ Hi) as [Hch Hrest]%Forall_cons.
    destruct (send_ok m hs e ch Hw Hch) as (st & -> & Hw' & El). simpl. eexists. split; [done|].
    split; [done|]. apply casts_ok_insert; simpl; [apply (casts_ok_mono m); [simpl; lia | done]|].
    by rewrite El.
  - eexists. split; [done|]. split; [done|]. simpl. intros j f l [_ Hj]%lookup_delete_Some. by eapply Hc.
Qed.

Lemma web_ok_reachable w : web_reachable w → web_ok w.
Proof.
  intros Hr. assert (web_ok web_start) as Hi by (split; [apply web_inv_new | done]).
  unfold web_reachable in Hr. induction Hr as [|w w1 w2 Hs _ IH]; [done|].
  apply IH. destruct (web_ok_step _ _ Hi Hs) as (w' & [= <-] & ?). done.
Qed.

(** ** Property *)

Lemma entry_used m c :
  mgr_inv m → is_Some (entries m !! c) ↔ ∃ ch, subscribed_to m c ch.
Proof.
  intros [[_ _ Hct] Hu]. split.
  - intros [e He]. destruct (ct_refs m Hct c e He) as (h & Hh & E). specialize (Hu c e He).
    destruct (map_choose (clients h)) as (ch & [] & Hx).
    { intros E0. rewrite E0, map_size_empty in E. lia. }
    exists ch, e, h. split_and!; [done | done | by eexists].
  - intros (ch & e & h & He & _). eauto.
Qed.

(** The clusters that some handler streams. *)
Definition streamed (hs : list Session) : gset string := list_to_set (s_cluster <$> filter streaming hs).

Lemma elem_of_streamed hs c :
  c ∈ streamed hs ↔ ∃ i s ch, hs !! i = Some s ∧ s_cluster s = c ∧ s_pc s = HStreaming ch.
Proof.
  unfold streamed. rewrite elem_of_list_to_set, list_elem_of_fmap. split.
  - intros (s & -> & [Hp [i Hi]%list_elem_of_lookup]%list_elem_of_filter). unfold streaming in Hp.
    destruct (s_pc s) as [|ch|] eqn:E; [done| |done]. by exists i, s, ch.
  - intros (i & s & ch & Hi & <- & E). exists s. split; [done|]. apply list_elem_of_filter.
    split; [unfold streaming; by rewrite E | by eapply list_elem_of_lookup_2].
Qed.

(** C26: the web interface serves any number of browsers with one stream per
    cluster.  Whatever requests come, and however the handlers' steps, the
    goroutines' copies of their hubs' clients and their single sends interleave
    (a handler may leave between the copy and the send): no step panics, and no
    broadcast is ever stuck; a cluster has exactly one running watcher goroutine
    while some handler streams its events, and none otherwise; both gauges are
    exact, the number of streaming handlers and of the clusters they stream; no
    two handlers share a channel; and every handler can start, and can end when
    its request does. *)
Theorem sessions_share_watchers m hs cs :
  web_reachable (m, hs, cs) →
  (∀ p, ¬ web_step (m, hs, cs) (Err p)) ∧
  (∀ i cast, cs !! i = Some cast → ∃ m' cs', web_step (m, hs, cs) (Ok (m', hs, cs')) ∧
     cs' !! i = match cast with (e, ch :: rest) => Some (e, rest) | _ => None end) ∧
  (∀ c, length (running_for m c) = if bool_decide (c ∈ streamed hs) then 1%nat else 0%nat) ∧
  activeSubscribers (metrics (store m)) = count_streaming hs ∧
  activeDiscoveryWatchers (metrics (store m)) = Z.of_nat (size (streamed hs)) ∧
  (∀ i j s t ch, hs !! i = Some s → hs !! j = Some t →
     s_pc s = HStreaming ch → s_pc t = HStreaming ch → i = j) ∧
  (∀ id sent, ∃ m' ch, handler_step id (m, HStart, sent) (m', HStreaming ch, sent)) ∧
  ∀ i s ch, hs !! i = Some s → s_pc s = HStreaming ch →
    ∃ m', handler_step (s_cluster s) (m, HStreaming ch, s_sent s) (m', HDone, s_sent s).
Proof.
  intros Hr. pose proof (web_ok_reachable _ Hr) as Hok. pose proof Hok as [Hw Hcs].
  split; [intros p Hp; by destruct (web_ok_step _ _ Hok Hp) as (? & ? & _)|]. split.
  { intros i [e [|ch rest]] Hi.
    - exists m, (delete i cs). split; [by eapply we_sent | apply lookup_delete_eq].
    - pose proof (Hcs i e _ Hi) as [Hch _]%Forall_cons. destruct (send_ok m hs e ch Hw Hch) as (st & E & _).
      exists (set_store st m), (<[i := (e, rest)]> cs). split; [|apply lookup_insert_eq].
      pose proof (we_send m hs cs i e ch rest Hi) as Hs. by rewrite E in Hs. }
  destruct Hw as [Hi Hh Ho Hd Hc]. simpl in *.
  assert (∀ c, is_Some (entries m !! c) ↔ c ∈ streamed hs) as Hent.
  { intros c. rewrite entry_used, elem_of_streamed by done. split.
    - intros [ch Hs]. destruct (Ho c ch Hs) as (i & s & ? & ? & ?). by exists i, s, ch.
    - intros (i & s & ch & Hs & <- & Hp). exists ch. by eapply Hh. }
  split_and!; try done.
  - intros c. rewrite (running_for_spec m c Hi). specialize (Hent c). case_bool_decide as Hin.
    + apply Hent in Hin as [e ->]. done.
    + destruct (entries m !! c); [|done]. destruct Hin. apply Hent. eauto.
  - rewrite (ct_watchers m (mc_counts m (mi_core m Hi))), <- size_dom. do 2 f_equal.
    apply set_eq. intros c. by rewrite elem_of_dom.
  - intros id sent. destruct (Subscribe_ok m id Hi) as (m' & _ & _ & E & _). eexists _, _. by apply hs_subscribe.
  - intros i s ch Hs Hp. destruct (Unsubscribe_ok m (s_cluster s) ch Hi (Hh i s ch Hs Hp)) as (m' & E & _).
    exists m'. by apply hs_gone.
Qed.

(** ** Witness: two browsers on one cluster, and a broadcast to both under way *)

Lemma web_subscribes m hs cs i s m' ch :
  hs !! i = Some s → s_pc s = HStart → Subscribe (s_cluster s) m = Ok (m', ch) →
  web_step (m, hs, cs) (Ok (m', <[i := mkSession (s_cluster s) (HStreaming ch) (s_sent s)]> hs, cs)).
Proof. intros Hs Hp E. apply we_handler; [done|]. rewrite Hp. by apply hs_subscribe. Qed.

Lemma web_clients m hs ρ i w e subs cs cs' :
  watchers m !! i = Some w → cs !! i = None → broadcast_clients ρ (w_hub w) (store m) = Ok subs →
  <[i := (e, subs)]> cs = cs' → web_step (m, hs, cs) (Ok (m, hs, cs')).
Proof.
  intros Hw Hn E <-. pose proof (we_clients m hs cs ρ i w e Hw Hn) as Hs. by rewrite E in Hs.
Qed.

Definition two_browsers : list Session :=
  [mkSession "c1" (HStreaming 0) []; mkSession "c1" (HStreaming 1) []].

Definition to_both : gmap nat Cast := {[0%nat := (mkEvent (bs "e"), [0%nat; 1%nat])]}.

Lemma two_browsers_reachable : web_reachable (wm_nth 2, two_browsers, to_both).
Proof.
  apply rtc_l with (NewDiscoveryWatchManager, [mkSession "c1" HStart []], ∅); [apply (we_request _ [])|].
  apply rtc_l with (wm_nth 1, [mkSession "c1" (HStreaming 0) []], ∅).
  { by apply (web_subscribes _ [mkSession "c1" HStart []] ∅ 0 (mkSession "c1" HStart [])). }
  apply rtc_l with (wm_nth 1, [mkSession "c1" (HStreaming 0) []; mkSession "c1" HStart []], ∅).
  { apply (we_request _ [mkSession "c1" (HStreaming 0) []]). }
  apply rtc_l with (wm_nth 2, two_browsers, ∅).
  { by apply (web_subscribes _ [mkSession "c1" (HStreaming 0) []; mkSession "c1" HStart []] ∅ 1 (mkSession "c1" HStart [])). }
  apply rtc_once.
  apply (web_clients (wm_nth 2) two_browsers (order_bwd ChanPtr) 0 (mkWatcher "c1" 0 false) (mkEvent (bs "e"))
    [0%nat; 1%nat]); by vm_compute.
Qed.

Lemma sessions_share_watchers_witness :
  length (running_for (wm_nth 2) "c1") = 1%nat ∧ length (running_for (wm_nth 2) "c2") = 0%nat ∧
  activeSubscribers (metrics (store (wm_nth 2))) = 2 ∧
  ∃ w' : WebState, web_step (wm_nth 2, two_browsers, to_both) (Ok w') ∧ w'.2 !! 0%nat = Some (mkEvent (bs "e"), [1%nat]).
Proof.
  destruct (sessions_share_watchers (wm_nth 2) two_browsers to_both two_browsers_reachable)
    as (_ & Hcast & E1 & E2 & _).
  split; [|split; [|split]]; [exact (E1 "c1") | exact (E1 "c2") | exact E2|].
  destruct (Hcast 0%nat _ eq_refl) as (m' & cs' & Hs & Hi). exists (m', two_browsers, cs'). split; [exact Hs | exact Hi].
Defined.
