(* ===== verification/Browser.v ===== *)
(** * From a cluster to a browser

    The whole path of an update: the cluster and its [Watch] handlers
    ([WatchProps.v]), the gRPC stream, the watcher goroutine
    ([WatchManager.v]), the hub ([Hub.v]) and the handler that writes to the
    browser ([Endpoints.v]), for one browser on a stream that stays up. *)

From S2P Require Import Prelude GoTime GoChan Limits Affiliate Cluster ClusterSubs.
From S2P Require Import ClusterFacts Replication.
From S2P Require Import Protobuf Messages Grpc Server Watch WatchProps Json Payload Hub.
From S2P Require Import WatchManager.
From S2P Require Import WatcherProps.

(** [tb_got]: how many of the responses sent the goroutine has received;
    [tb_shown]: the events written to the browser. *)
Record Tab : Type := mkTab {
  tb_sys : Sys;
  tb_pc : WatcherPC;
  tb_run : WatcherRun;
  tb_got : nat;
  tb_store : HubStore;
  tb_shown : list Event;
}.

Section browser.
Context `{StatusPkg}.
(** The [Watch] handler of the stream, the hub and the browser's channel. *)
Context (p : SubPtr) (h : HubPtr) (k : ChanPtr).

Definition sent_by (σ : Sys) : list Pb.WatchResponse := from_option snd [] (sys_watchers σ !! p).

Inductive tab_step : Tab → Tab → Prop :=
| ts_server σ σ' pc run got st shown :
    sys_step σ σ' →
    tab_step (mkTab σ pc run got st shown) (mkTab σ' pc run got st shown)
| ts_receive ρ σ a run run' got st st' shown resp data :
    sent_by σ !! got = Some resp →
    affiliatesToJSON (Pb.watch_Affiliates resp) (Pb.Deleted resp) = Ok data →
    watcher_step false (Receiving a, run) (Receiving a, run') →
    received run' = received run ++ [resp] →
    Broadcast ρ h (mkEvent data) st = Ok st' →
    tab_step (mkTab σ (Receiving a) run got st shown) (mkTab σ (Receiving a) run' (S got) st' shown)
| ts_show σ pc run got st shown c ev rest :
    chans st !! k = Some c → recv c = Got ev rest →
    tab_step (mkTab σ pc run got st shown)
      (mkTab σ pc run got (set_chans (<[k := rest]> (chans st)) st) (shown ++ [ev])).

(** A browser that has just subscribed, alone, to a hub whose goroutine has
    just opened the stream. *)
Record tab_start (t : Tab) : Prop := {
  tt_sys : ∃ now id, rtc sys_step (mkSys (NewCluster now id) [] []) (tb_sys t);
  tt_p : (p < length (sys_watchers (tb_sys t)))%nat;
  tt_pc : tb_pc t = Receiving 0;
  tt_run : tb_run t = run_start;
  tt_got : tb_got t = 0%nat;
  tt_shown : tb_shown t = [];
  tt_wf : wf_store (tb_store t);
  tt_hub : hubs (tb_store t) !! h = Some (mkHub {[k := ()]});
  tt_chan : chans (tb_store t) !! k = Some (make_chan subscriberChannelSize);
  tt_dropped : broadcastDroppedEvents (metrics (tb_store t)) = 0;
}.

(** ** The invariant *)

Record tab_inv (t : Tab) : Prop := {
  ti_sys : sys_inv (tb_sys t);
  ti_p : (p < length (sys_watchers (tb_sys t)))%nat;
  ti_got : (tb_got t ≤ length (sent_by (tb_sys t)))%nat;
  ti_run : broadcasts (tb_run t) = response_event <$> take (tb_got t) (sent_by (tb_sys t));
  ti_wf : wf_store (tb_store t);
  ti_hub : hubs (tb_store t) !! h = Some (mkHub {[k := ()]});
  ti_dropped : 0 ≤ broadcastDroppedEvents (metrics (tb_store t));
  ti_chan : ∃ c, chans (tb_store t) !! k = Some c ∧
    (broadcastDroppedEvents (metrics (tb_store t)) = 0 → tb_shown t ++ chan_buf c = broadcasts (tb_run t));
}.

(** A handler's stream only grows. *)
Lemma watch_step_sent q st st' : watch_step q st st' → st.2 `prefix_of` st'.2.
Proof. intros []; simpl; try done. by apply prefix_app_r. Qed.

Lemma sys_step_sent σ σ' :
  sys_step σ σ' → (p < length (sys_watchers σ))%nat →
  sent_by σ `prefix_of` sent_by σ' ∧ (p < length (sys_watchers σ'))%nat.
Proof.
  unfold sent_by. intros [| | |ρ c c' snapshot q ws us| |q c pc sent c' pc' sent' ws us Hq Hs] Hp; simpl in *;
    try done.
  - rewrite lookup_app_l, length_app by done. split; [done | lia].
  - rewrite length_insert. split; [|done]. destruct (decide (p = q)) as [<-|Hne].
    + rewrite list_lookup_insert_eq, Hq by done. simpl. by apply (watch_step_sent p _ _ Hs).
    + by rewrite list_lookup_insert_ne.
Qed.

Lemma tab_inv_start t : tab_start t → tab_inv t.
Proof.
  intros [(now & id & Hr) Hp _ Hrun Hg Hsh Hwf Hh Hc Hd]. split; try done.
  - by eapply sys_inv_reachable.
  - rewrite Hg. lia.
  - by rewrite Hrun, Hg.
  - lia.
  - eexists. split; [done|]. intros _. by rewrite Hsh, Hrun.
Qed.

Lemma tab_inv_server t σ' :
  tab_inv t → sys_step (tb_sys t) σ' →
  tab_inv (mkTab σ' (tb_pc t) (tb_run t) (tb_got t) (tb_store t) (tb_shown t)).
Proof.
  intros [Hs Hp Hg Hrun Hwf Hh Hd Hc] Hstep. destruct (sys_step_sent _ _ Hstep Hp) as [[l El] Hp'].
  split; simpl; try done.
  - by eapply sys_inv_step.
  - rewrite El, length_app. lia.
  - by rewrite El, take_app_le.
Qed.

(** What a broadcast does to the browser's channel. *)
Lemma broadcast_one_client ρ e st st' c :
  wf_store st → hubs st !! h = Some (mkHub {[k := ()]}) → chans st !! k = Some c →
  Broadcast ρ h e st = Ok st' →
  wf_store st' ∧ hubs st' !! h = Some (mkHub {[k := ()]}) ∧ chans st' !! k = Some (offer e c) ∧
  broadcastDroppedEvents (metrics st') =
    broadcastDroppedEvents (metrics st) + (if has_room c then 0 else 1).
Proof.
  intros Hwf Hh Hc E. destruct (Broadcast_eq ρ h e st _ Hwf Hh) as (cs & E' & Hcs).
  rewrite E' in E. injection E as <-. simpl in *. split; [|split; [done|split]].
  - by apply (wf_store_broadcast st cs _ (λ i, bool_decide (is_Some (({[k := ()]} : gmap ChanPtr ()) !! i))) e).
  - rewrite Hcs, Hc. simpl. rewrite bool_decide_true; [done|]. rewrite lookup_singleton_eq. eauto.
  - rewrite map_to_list_singleton. simpl. unfold full_at. rewrite Hc. destruct (has_room c); simpl; lia.
Qed.

Lemma tab_inv_step t t' : tab_inv t → tab_step t t' → tab_inv t'.
Proof.
  intros Hi Hstep. destruct Hstep as [σ σ' pc run got st shown Hs
    |ρ σ a run run' got st st' shown resp data Hresp Hdata Hw Hrecv Hbc|σ pc run got st shown c ev rest Hc Hr].
  - by apply (tab_inv_server _ _ Hi).
  - destruct Hi as [Hs Hp Hg Hrun Hwf Hh Hd (c & Hc & Hshow)]; simpl in *.
    destruct (broadcast_one_client ρ _ st st' c Hwf Hh Hc Hbc) as (Hwf' & Hh' & Hc' & Hd').
    pose proof (watcher_step_receives _ _ _ _ _ Hw Hrecv) as Hb.
    injection Hdata as <-. split; simpl; try done.
    + by apply lookup_lt_Some in Hresp.
    + by rewrite Hb, Hrun, (take_S_r _ _ resp), fmap_app.
    + rewrite Hd'. destruct (has_room c); lia.
    + exists (offer (response_event resp) c). split; [done|]. rewrite Hd', Hb. unfold offer.
      destruct (has_room c); [|lia]. intros Hz. simpl. rewrite app_assoc, Hshow by lia. done.
  - destruct Hi as [Hs Hp Hg Hrun [Ho Hcl] Hh Hd (c' & Hc' & Hshow)]; simpl in *.
    rewrite Hc in Hc'. injection Hc' as <-. unfold recv in Hr.
    destruct (chan_buf c) as [|x b] eqn:Eb; [by destruct (chan_closed c)|]. injection Hr as <- <-.
    split; simpl; try done.
    + split; simpl; [|by rewrite length_insert]. intros j d [(_ & <- & _)|[_ Hj]]%list_lookup_insert_Some;
        [simpl; by eapply Ho | by eapply Ho].
    + eexists. rewrite list_lookup_insert_eq by (by eapply lookup_lt_Some). split; [done|].
      intros Hz. simpl. by rewrite <- app_assoc, <- Hshow.
Qed.

Lemma tab_inv_reachable t t' : tab_start t → rtc tab_step t t' → tab_inv t'.
Proof. intros Hs Hr. apply tab_inv_start in Hs. induction Hr; eauto using tab_inv_step. Qed.

Lemma parse_events rs :
  Forall (λ r, Forall valid_affiliate_id (Pb.watch_Affiliates r)) rs →
  mapM (λ e, parse_payload (ev_Data e)) (response_event <$> rs) =
  Some ((λ r, (Pb.watch_Affiliates r, Pb.Deleted r)) <$> rs).
Proof.
  intros Hids. apply mapM_Some, Forall2_fmap, Forall_Forall2_diag.
  eapply Forall_impl; [exact Hids|]. intros r Hr. unfold compose.
  unfold parse_payload, response_event. cbn [ev_Data]. rewrite parse_marshal_envelope by done.
  cbn [mbind option_bind env_Affiliates envelope]. by rewrite mapM_fmap_id by apply of_toAffiliateJSON.
Qed.

(** ** Property *)

End browser.

(** ** Witness: one update, all the way *)

Definition bw_cluster : Cluster := took_event 0%nat (wa_cluster 1).
Definition bw_response : Pb.WatchResponse :=
  Pb.mkWatchResponse [Pb.mkAffiliate "node-1" (bs "data") [bs "10.0.0.1"]] false.
Definition bw_store (l : list Event) : HubStore :=
  mkStore [mkChan l subscriberChannelSize false] [mkHub {[0%nat := ()]}] newWatchManagerMetrics.
Definition bw_tab (σ : Sys) (run : WatcherRun) (got : nat) (queued shown : list Event) : Tab :=
  mkTab σ (Receiving 0) run got (bw_store queued) shown.
Definition bw_start : Tab := bw_tab (mkSys (wa_cluster 0) [(Selecting, [])] [∅]) run_start 0 [] [].
Definition bw_run : WatcherRun := gave (response_event bw_response) (bump (add_events 1) (took bw_response run_start)).
Definition bw_end : Tab :=
  bw_tab (mkSys bw_cluster [(Selecting, [bw_response])] [∅]) bw_run 1 [] [response_event bw_response].

Lemma bw_starts : tab_start 0%nat 0%nat 0%nat bw_start.
Proof.
  split; try reflexivity.
  - exists wa_t, "c1". apply rtc_once.
    apply (ss_watch (order_fwd string) (NewCluster wa_t "c1") (wa_cluster 0) [] 0%nat [] []); by vm_compute.
  - simpl. lia.
  - split; [by intros [|[|j]] c E; simpl in E; simplify_eq|].
    intros [|[|j]] b i E Hx; [|done|done]. injection E as <-. cbn [clients] in Hx.
    destruct Hx as [x Hx]. apply lookup_singleton_Some in Hx as [<- _]. simpl. lia.
Defined.

Lemma bw_reaches : rtc (tab_step 0%nat 0%nat 0%nat) bw_start bw_end.
Proof.
  eapply rtc_l.
  { apply ts_server, (ss_update_to (order_fwd Z) wa_t wa_request (wa_cluster 0) (wa_cluster 1) (Ok ()) _ [∅] [∅]); by vm_compute. }
  eapply rtc_l.
  { apply ts_server, (ss_handler 0%nat (wa_cluster 1) Selecting [] bw_cluster (Sending bw_response) []); [done|].
    by apply (watch_event 0%nat (wa_cluster 1) (wa_sub 1)); vm_compute. }
  eapply rtc_l.
  { apply ts_server, (ss_handler 0%nat bw_cluster (Sending bw_response) [] bw_cluster Selecting [bw_response]); [done|].
    apply (watch_sent 0%nat bw_cluster bw_response []). }
  eapply rtc_l.
  { apply (ts_receive 0%nat 0%nat 0%nat (order_fwd ChanPtr) _ 0 run_start bw_run 0 (bw_store [])
      (bw_store [response_event bw_response]) [] bw_response (ev_Data (response_event bw_response)));
      [done | done | by apply (wd_received false 0 run_start bw_response) | done | by vm_compute]. }
  apply rtc_once.
  apply (ts_show 0%nat 0%nat 0%nat _ (Receiving 0) bw_run 1 (bw_store [response_event bw_response]) []
    (mkChan [response_event bw_response] subscriberChannelSize false) (response_event bw_response)
    (mkChan [] subscriberChannelSize false)); reflexivity.
Defined.

